(** * Finite State Entropy coder (fse.c): a shallow embedding and its properties

    The byte-symbol codec of [fse.c] is translated function by function.
    Conventions of the embedding:

    - C integers are [Z]; where 32-bit arithmetic can wrap, the wrap is
      written out with [u32] (unsigned) or [s32] (two's complement).
    - A byte buffer that is only read ([source], [compressed]) is a
      [list Z] of bytes; a load at an offset outside the list yields
      zero bytes, and theorems about decoding quantify over whatever
      follows the bytes of interest.
    - An array of [unsigned int] (the count tables) is a [list Z]; an
      access outside the list, or a read of a never-written table entry,
      is undefined behaviour in C and makes the embedded function return
      [None].
    - A loop whose trip count is bounded by its data is a [Fixpoint] on a
      bound computed from that data.  Two loops of the source have no such
      bound: the [minBase] iteration of [FSE_normalizeCount] and the main
      loop of [FSE_readHeader].  They take an explicit [fuel] and return
      [None] when it is exhausted. *)

From Stdlib Require Import ZArith List Lia Bool Permutation ZifyBool Finite.
From stdpp Require Import base option list.
Import ListNotations.
Local Open Scope Z_scope.

(** ** Machine integers *)

Definition u8  (x : Z) : Z := x mod 2^8.
Definition u16 (x : Z) : Z := x mod 2^16.
Definition u32 (x : Z) : Z := x mod 2^32.
Definition s32 (x : Z) : Z := (x + 2^31) mod 2^32 - 2^31.

(** ** Tuning parameters and constants *)

Definition FSE_MEMORY_USAGE : Z := 14.
Definition FSE_MAX_NB_SYMBOLS : Z := 286.
Definition FSE_ILP : bool := true.
Definition FSE_MAX_NB_SYMBOLS_CHAR : Z :=
  if FSE_MAX_NB_SYMBOLS >? 256 then 256 else FSE_MAX_NB_SYMBOLS.
Definition FSE_MAX_TABLELOG : Z := FSE_MEMORY_USAGE - 2.
Definition FSE_MAX_TABLESIZE : Z := Z.shiftl 1 FSE_MAX_TABLELOG.
Definition FSE_MIN_TABLELOG : Z := 5.
Definition FSE_VIRTUAL_LOG : Z := 30.
Definition FSE_VIRTUAL_RANGE : Z := Z.shiftl 1 FSE_VIRTUAL_LOG.

(** [FSE_highbit]: index of the highest set bit of a 32-bit value.  The
    compiler intrinsics leave [val = 0] undefined; the portable branch of
    the source returns [0] there, and so does [Z.log2]. *)
Definition FSE_highbit (val : Z) : Z := Z.log2 val.

(** ** Arrays *)

(** [a[i]] for an [unsigned int] array; [None] outside the array. *)
Definition rd (a : list Z) (i : Z) : option Z :=
  if i <? 0 then None else a !! Z.to_nat i.

(** [a[i] = v]. *)
Definition wr (a : list Z) (i : Z) (v : Z) : list Z :=
  if i <? 0 then a else <[Z.to_nat i := v]> a.

(** Byte load from a read-only buffer. *)
Definition byte_at (mem : list Z) (i : Z) : Z :=
  if i <? 0 then 0 else nth (Z.to_nat i) mem 0.

(** [*(U16* )p] and [*(U32* )p]: unaligned little-endian loads. *)
Definition load16 (mem : list Z) (p : Z) : Z :=
  byte_at mem p + Z.shiftl (byte_at mem (p + 1)) 8.

Definition load32 (mem : list Z) (p : Z) : Z :=
  byte_at mem p + Z.shiftl (byte_at mem (p + 1)) 8
  + Z.shiftl (byte_at mem (p + 2)) 16 + Z.shiftl (byte_at mem (p + 3)) 24.

(** The [n] low bytes of [v], least significant first. *)
Fixpoint le_bytes (n : nat) (v : Z) : list Z :=
  match n with
  | O => []
  | S n' => Z.land v 255 :: le_bytes n' (Z.shiftr v 8)
  end.

(** Store [bs] at offset [off] of a destination image (the destination is
    the caller's and is assumed large enough: the image grows as needed). *)
Definition store (buf : list Z) (off : Z) (bs : list Z) : list Z :=
  let o := Z.to_nat off in
  take o (buf ++ repeat 0 (o - length buf)%nat) ++ bs ++ drop (o + length bs)%nat buf.

(** ** Symbol counting *)

(** [Counting[sym]++] on one of the four interleaved tables. *)
Definition bump (c : list Z) (sym : Z) : list Z :=
  <[Z.to_nat sym := u32 (nth (Z.to_nat sym) c 0 + 1)]> c.

(** [while (ip<iend) Counting1[*ip++]++;] *)
Fixpoint count_tail (src : list Z) (c1 : list Z) : list Z :=
  match src with
  | [] => c1
  | x :: rest => count_tail rest (bump c1 x)
  end.

(** The two scanning loops of [FSE_count]: four symbols per round while
    [ip < iend-3], then the remaining ones on the first table. *)
Fixpoint count_scan (src : list Z) (c1 c2 c3 c4 : list Z) {struct src}
  : list Z * list Z * list Z * list Z :=
  match src with
  | a :: b :: c :: d :: rest =>
      count_scan rest (bump c1 a) (bump c2 b) (bump c3 c) (bump c4 d)
  | _ => (count_tail src c1, c2, c3, c4)
  end.

(** [for (i=0; i<maxNbSymbols; i++) count[i] = Counting1[i] + ... + Counting4[i]] *)
Definition count_sum (c1 c2 c3 c4 : list Z) (maxNbSymbols : Z) : list Z :=
  map (fun i => u32 (nth i c1 0 + nth i c2 0 + nth i c3 0 + nth i c4 0))
      (seq 0 (Z.to_nat maxNbSymbols)).

(** [while (!count[maxNbSymbols-1]) maxNbSymbols--;]  The loop has no lower
    guard: when every counted entry is zero it reads [count[-1]]. *)
Fixpoint count_trim (fuel : nat) (count : list Z) (maxNbSymbols : Z) : option Z :=
  match fuel with
  | O => None
  | S fuel' =>
      c ← rd count (maxNbSymbols - 1);
      if c =? 0 then count_trim fuel' count (maxNbSymbols - 1)
      else Some maxNbSymbols
  end.

(** [FSE_count]: the result is the return value and the filled [count]
    table; [None] is the undefined read described at [count_trim]. *)
Definition FSE_count (source : list Z) (maxNbSymbols : Z) : option (Z * list Z) :=
  let sourceSize := Z.of_nat (length source) in
  let zeros := repeat 0 (Z.to_nat FSE_MAX_NB_SYMBOLS_CHAR) in
  if maxNbSymbols >? FSE_MAX_NB_SYMBOLS_CHAR then Some (-1, [])
  else
    let maxNbSymbols := if maxNbSymbols =? 0 then FSE_MAX_NB_SYMBOLS_CHAR else maxNbSymbols in
    if sourceSize =? 0 then Some (-1, [])
    else
      let '(c1, c2, c3, c4) := count_scan source zeros zeros zeros zeros in
      let count := count_sum c1 c2 c3 c4 maxNbSymbols in
      r ← count_trim (S (Z.to_nat maxNbSymbols)) count maxNbSymbols;
      Some (r, count).

(** ** Distribution normalization *)

(** [for (s=0; s<nbSymbols; s++) vTotal += count[s] = (count[s]+base) >> shift;] *)
Fixpoint norm_prescale (n : nat) (count : list Z) (base shift vTotal : Z)
  : option (list Z * Z) :=
  match n with
  | O => Some (count, vTotal)
  | S n' =>
      match count with
      | [] => None
      | c :: rest =>
          let c' := Z.shiftr (u32 (c + base)) shift in
          '(rest', v) ← norm_prescale n' rest base shift (s32 (vTotal + c'));
          Some (c' :: rest', v)
      end
  end.

(** [do { minBase += add; add = (add * nbSymbols) >> tableLog; } while (add);] *)
Fixpoint norm_minBase (fuel : nat) (minBase add nbSymbols tableLog : Z) : option Z :=
  match fuel with
  | O => None
  | S fuel' =>
      let minBase := u32 (minBase + add) in
      let add := Z.shiftr (u32 (add * u32 nbSymbols)) tableLog in
      if add =? 0 then Some minBase
      else norm_minBase fuel' minBase add nbSymbols tableLog
  end.

(** [if (count[s]) { normalizedCounter[s] = count[s] + minBase; vTotal += minBase; }]
    with [normalizedCounter] and [count] the same array. *)
Fixpoint norm_bias (n : nat) (count : list Z) (minBase vTotal : Z)
  : option (list Z * Z) :=
  match n with
  | O => Some (count, vTotal)
  | S n' =>
      match count with
      | [] => None
      | c :: rest =>
          if c =? 0 then
            '(rest', v) ← norm_bias n' rest minBase vTotal;
            Some (c :: rest', v)
          else
            '(rest', v) ← norm_bias n' rest minBase (s32 (vTotal + minBase));
            Some (u32 (c + minBase) :: rest', v)
      end
  end.

(** The final scaling loop.  The boolean tells whether the loop was left
    by the early [return 0] (one symbol carries the whole mass); the list
    is the array at that point. *)
Fixpoint norm_scale (n : nat) (count : list Z) (vTotal step scale vStep cumulativeRest : Z)
  : option (bool * list Z) :=
  match n with
  | O => Some (false, count)
  | S n' =>
      match count with
      | [] => None
      | c :: rest =>
          if c =? u32 vTotal then Some (true, count)
          else if c >? 0 then
            let size := Z.shiftr (u32 (c * step)) scale in
            let rest_ := s32 (u32 (c * step) - u32 (size * vStep)) in
            let cumulativeRest := s32 (cumulativeRest + rest_) in
            let size := u32 (size + Z.shiftr cumulativeRest scale) in
            let cumulativeRest := Z.land cumulativeRest (vStep - 1) in
            '(single, rest') ← norm_scale n' rest vTotal step scale vStep cumulativeRest;
            Some (single, size :: rest')
          else
            '(single, rest') ← norm_scale n' rest vTotal step scale vStep cumulativeRest;
            Some (single, c :: rest')
      end
  end.

(** The [// Check] block of [FSE_normalizeCount]: the table log actually
    used, before the [> FSE_MAX_TABLELOG] test. *)
Definition norm_tableLog (tableLog total nbSymbols : Z) : Z :=
  let tableLog := if tableLog =? 0 then FSE_MAX_TABLELOG else tableLog in
  let tableLog :=
    if FSE_highbit (u32 (total - 1)) + 1 <? tableLog
    then FSE_highbit (u32 (total - 1)) + 1 else tableLog in
  let tableLog :=
    if FSE_highbit (u32 nbSymbols) + 1 >? tableLog
    then FSE_highbit (u32 (nbSymbols - 1)) + 1 else tableLog in
  if tableLog <? FSE_MIN_TABLELOG then FSE_MIN_TABLELOG else tableLog.

(** [FSE_normalizeCount (normalizedCounter, tableLog, count, total, nbSymbols)]
    with [normalizedCounter == count], which is how every caller of the
    repository invokes it.  Result: the return value and the array after
    the call.  [None]: out of fuel, an access past the array, or the
    division by a zero [vTotal]. *)
Definition FSE_normalizeCount (fuel : nat) (tableLog : Z) (count : list Z)
    (total nbSymbols : Z) : option (Z * list Z) :=
  let n := Z.to_nat nbSymbols in
  let tableLog := norm_tableLog tableLog total nbSymbols in
  if tableLog >? FSE_MAX_TABLELOG then Some (-1, count)
  else
    let maxLog := FSE_VIRTUAL_LOG - tableLog in
    let srcLog := FSE_highbit (u32 (total - 1)) + 1 in
    '(count, vTotal) ←
      (if srcLog >? maxLog then
         let shift := srcLog - maxLog in
         let base := Z.shiftl 1 shift - 1 in
         norm_prescale n count base shift 0
       else Some (count, total));
    '(count, vTotal) ←
      (if total >? Z.shiftl 1 tableLog then
         let minBase := u32 total in
         let add := Z.shiftr (u32 (minBase * u32 nbSymbols)) tableLog in
         minBase ← norm_minBase fuel minBase add nbSymbols tableLog;
         let minBase := Z.shiftr minBase tableLog in
         norm_bias n count minBase vTotal
       else Some (count, vTotal));
    let scale := FSE_VIRTUAL_LOG - tableLog in
    let vStep := Z.shiftl 1 scale in
    if u32 vTotal =? 0 then None
    else
      let step := FSE_VIRTUAL_RANGE / u32 vTotal in
      let error := u32 (FSE_VIRTUAL_RANGE - u32 (step * u32 vTotal)) in
      let cumulativeRest := s32 (Z.shiftr (u32 (vStep + error)) 1) in
      let cumulativeRest := if error >? vStep then s32 error else cumulativeRest in
      '(single, count) ← norm_scale n count vTotal step scale vStep cumulativeRest;
      if single : bool then Some (0, count) else Some (tableLog, count).

(** ** Header bitstream *)

(** [while (remaining < threshold) { nbBits--; threshold >>= 1; }], shared
    by writer and reader.  [threshold] is zero after at most 32 halvings;
    if the loop has not left by then, [remaining] is negative and it never
    does: [None]. *)
Fixpoint hdr_halve (fuel : nat) (remaining threshold nbBits : Z) : option (Z * Z) :=
  match fuel with
  | O => None
  | S fuel' =>
      if remaining <? threshold
      then hdr_halve fuel' remaining (Z.shiftr threshold 1) (nbBits - 1)
      else Some (threshold, nbBits)
  end.

(** State of the writer between two statements of the main loop. *)
Record wh_state := {
  wh_out : list Z;          (* bytes stored so far, [ostart .. out) *)
  wh_bitStream : Z;
  wh_bitCount : Z;
  wh_charnum : Z;
  wh_remaining : Z;
  wh_threshold : Z;
  wh_nbBits : Z;
  wh_previous0 : bool
}.

(** [if (bitCount>16) { *(U16* )out = (U16)bitStream; out += 2; bitStream >>= 16; bitCount -= 16; }] *)
Definition wh_flush (out : list Z) (bitStream bitCount : Z) : list Z * Z * Z :=
  if bitCount >? 16
  then (out ++ le_bytes 2 (u16 bitStream), Z.shiftr bitStream 16, bitCount - 16)
  else (out, bitStream, bitCount).

(** [while (!normalizedCounter[charnum++]); charnum--;] *)
Fixpoint wh_skip0 (fuel : nat) (normalizedCounter : list Z) (charnum : Z) : option Z :=
  match fuel with
  | O => None
  | S fuel' =>
      c ← rd normalizedCounter charnum;
      if c =? 0 then wh_skip0 fuel' normalizedCounter (charnum + 1) else Some charnum
  end.

(** [while (charnum >= start+24) { start+=24; bitStream += 0xFFFF<<bitCount;
     *(U16* )out=(U16)bitStream; out+=2; bitStream>>=16; }] *)
Fixpoint wh_run24 (fuel : nat) (charnum start bitStream bitCount : Z) (out : list Z)
  : Z * Z * list Z :=
  match fuel with
  | O => (start, bitStream, out)
  | S fuel' =>
      if charnum >=? start + 24 then
        let bitStream := u32 (bitStream + Z.shiftl 65535 bitCount) in
        wh_run24 fuel' charnum (start + 24) (Z.shiftr bitStream 16) bitCount
                 (out ++ le_bytes 2 (u16 bitStream))
      else (start, bitStream, out)
  end.

(** [while (charnum >= start+3) { start+=3; bitStream += 3 << bitCount; bitCount += 2; }] *)
Fixpoint wh_run3 (fuel : nat) (charnum start bitStream bitCount : Z) : Z * Z * Z :=
  match fuel with
  | O => (start, bitStream, bitCount)
  | S fuel' =>
      if charnum >=? start + 3 then
        wh_run3 fuel' charnum (start + 3) (u32 (bitStream + Z.shiftl 3 bitCount)) (bitCount + 2)
      else (start, bitStream, bitCount)
  end.

(** The [if (previous0)] block of the writer. *)
Definition wh_zero_run (normalizedCounter : list Z) (st : wh_state) : option wh_state :=
  let start := wh_charnum st in
  charnum ← wh_skip0 (S (length normalizedCounter)) normalizedCounter (wh_charnum st);
  let '(start, bitStream, out) :=
    wh_run24 (Z.to_nat (charnum - start)) charnum start
             (wh_bitStream st) (wh_bitCount st) (wh_out st) in
  let '(start, bitStream, bitCount) :=
    wh_run3 (Z.to_nat (charnum - start)) charnum start bitStream (wh_bitCount st) in
  let bitStream := u32 (bitStream + Z.shiftl (charnum - start) bitCount) in
  let bitCount := bitCount + 2 in
  let '(out, bitStream, bitCount) := wh_flush out bitStream bitCount in
  Some {| wh_out := out; wh_bitStream := bitStream; wh_bitCount := bitCount;
          wh_charnum := charnum; wh_remaining := wh_remaining st;
          wh_threshold := wh_threshold st; wh_nbBits := wh_nbBits st;
          wh_previous0 := wh_previous0 st |}.

(** The block of the writer that emits one count. *)
Definition wh_count (normalizedCounter : list Z) (st : wh_state) : option wh_state :=
  c ← rd normalizedCounter (wh_charnum st);
  let count := s32 c in
  let charnum := wh_charnum st + 1 in
  let max := (2 * wh_threshold st - 1) - wh_remaining st in
  let remaining := wh_remaining st - count in
  let count := if count >=? wh_threshold st then count + max else count in
  let bitStream := u32 (wh_bitStream st + Z.shiftl count (wh_bitCount st)) in
  let bitCount := wh_bitCount st + wh_nbBits st in
  let bitCount := bitCount - (if count <? max then 1 else 0) in
  let previous0 := count =? 0 in
  '(threshold, nbBits) ← hdr_halve 33 remaining (wh_threshold st) (wh_nbBits st);
  let '(out, bitStream, bitCount) := wh_flush (wh_out st) bitStream bitCount in
  Some {| wh_out := out; wh_bitStream := bitStream; wh_bitCount := bitCount;
          wh_charnum := charnum; wh_remaining := remaining;
          wh_threshold := threshold; wh_nbBits := nbBits;
          wh_previous0 := previous0 |}.

(** [while (remaining>0) { ... }]: every round consumes at least one table
    entry, so [S (length normalizedCounter)] rounds are never exhausted. *)
Fixpoint wh_loop (fuel : nat) (normalizedCounter : list Z) (st : wh_state) : option wh_state :=
  match fuel with
  | O => None
  | S fuel' =>
      if wh_remaining st >? 0 then
        st ← (if wh_previous0 st then wh_zero_run normalizedCounter st else Some st);
        st ← wh_count normalizedCounter st;
        wh_loop fuel' normalizedCounter st
      else Some st
  end.

(** [FSE_writeHeader]: return value and the bytes stored at [header].  The
    closing 16-bit store may reach one byte past the returned length. *)
Definition FSE_writeHeader (normalizedCounter : list Z) (nbSymbols tableLog : Z)
  : option (Z * list Z) :=
  let tableSize := Z.shiftl 1 tableLog in
  if tableLog >? FSE_MAX_TABLELOG then Some (-1, [])
  else if tableLog <? FSE_MIN_TABLELOG then Some (-1, [])
  else
    let bitStream := 2 in
    let bitCount := 2 in
    let bitStream := u32 (bitStream + Z.shiftl (tableLog - FSE_MIN_TABLELOG) bitCount) in
    let bitCount := bitCount + 4 in
    st ← wh_loop (S (length normalizedCounter)) normalizedCounter
         {| wh_out := []; wh_bitStream := bitStream; wh_bitCount := bitCount;
            wh_charnum := 0; wh_remaining := tableSize; wh_threshold := tableSize;
            wh_nbBits := tableLog + 1; wh_previous0 := false |};
    if wh_remaining st <? 0 then Some (-1, wh_out st)
    else
      let image := wh_out st ++ le_bytes 2 (u16 (wh_bitStream st)) in
      let size := Z.of_nat (length (wh_out st)) + (wh_bitCount st + 7) / 8 in
      if wh_charnum st >? nbSymbols then Some (-1, image)
      else Some (size, image).

(** State of the reader. *)
Record rh_state := {
  rh_counts : list Z;       (* normalizedCounter[0 .. charnum) *)
  rh_ip : Z;
  rh_bitStream : Z;
  rh_bitCount : Z;
  rh_remaining : Z;
  rh_threshold : Z;
  rh_nbBits : Z;
  rh_previous0 : bool
}.

(** [while ((bitStream & 0xFFFF) == 0xFFFF) { n0+=24; ip+=2; bitStream = ( *(U32* )ip) >> bitCount; }] *)
Fixpoint rh_run24 (fuel : nat) (header : list Z) (n0 ip bitStream bitCount : Z)
  : option (Z * Z * Z) :=
  match fuel with
  | O => None
  | S fuel' =>
      if Z.land bitStream 65535 =? 65535 then
        rh_run24 fuel' header (n0 + 24) (ip + 2) (Z.shiftr (load32 header (ip + 2)) bitCount) bitCount
      else Some (n0, ip, bitStream)
  end.

(** [while ((bitStream & 3) == 3) { n0+=3; bitStream>>=2; bitCount+=2; }] *)
Fixpoint rh_run3 (fuel : nat) (n0 bitStream bitCount : Z) : Z * Z * Z :=
  match fuel with
  | O => (n0, bitStream, bitCount)
  | S fuel' =>
      if Z.land bitStream 3 =? 3 then
        rh_run3 fuel' (n0 + 3) (Z.shiftr bitStream 2) (bitCount + 2)
      else (n0, bitStream, bitCount)
  end.

(** The [if (previous0)] block of the reader: [n0 - charnum] zero counts
    are appended.  A run of [0xFFFF] words ends at the latest where the
    buffer does. *)
Definition rh_zero_run (header : list Z) (st : rh_state) : option rh_state :=
  let charnum := Z.of_nat (length (rh_counts st)) in
  '(n0, ip, bitStream) ← rh_run24 (S (length header)) header charnum (rh_ip st)
                                   (rh_bitStream st) (rh_bitCount st);
  let '(n0, bitStream, bitCount) := rh_run3 16 n0 bitStream (rh_bitCount st) in
  let n0 := n0 + Z.land bitStream 3 in
  let bitCount := bitCount + 2 in
  let counts := rh_counts st ++ repeat 0 (Z.to_nat (n0 - charnum)) in
  let ip := ip + Z.shiftr bitCount 3 in
  let bitCount := Z.land bitCount 7 in
  let bitStream := Z.shiftr (load32 header ip) bitCount in
  Some {| rh_counts := counts; rh_ip := ip; rh_bitStream := bitStream;
          rh_bitCount := bitCount; rh_remaining := rh_remaining st;
          rh_threshold := rh_threshold st; rh_nbBits := rh_nbBits st;
          rh_previous0 := rh_previous0 st |}.

(** The block of the reader that decodes one count. *)
Definition rh_count (header : list Z) (st : rh_state) : option rh_state :=
  let threshold := rh_threshold st in
  let max := u32 ((2 * threshold - 1) - rh_remaining st) in
  let '(count, bitCount) :=
    if Z.land (rh_bitStream st) (threshold - 1) <? max then
      (Z.land (rh_bitStream st) (threshold - 1), rh_bitCount st + (rh_nbBits st - 1))
    else
      let count := Z.land (rh_bitStream st) (2 * threshold - 1) in
      let count := if count >=? threshold then s32 (count - max) else count in
      (count, rh_bitCount st + rh_nbBits st) in
  let remaining := rh_remaining st - count in
  let counts := rh_counts st ++ [u32 count] in
  let previous0 := count =? 0 in
  '(threshold, nbBits) ← hdr_halve 33 remaining threshold (rh_nbBits st);
  let ip := rh_ip st + Z.shiftr bitCount 3 in
  let bitCount := Z.land bitCount 7 in
  let bitStream := Z.shiftr (load32 header ip) bitCount in
  Some {| rh_counts := counts; rh_ip := ip; rh_bitStream := bitStream;
          rh_bitCount := bitCount; rh_remaining := remaining;
          rh_threshold := threshold; rh_nbBits := nbBits;
          rh_previous0 := previous0 |}.

(** [while (remaining>0) { ... }] of the reader.  Nothing in the source
    bounds the number of rounds (on a stream of zero bits it keeps storing
    zero counts), hence the explicit [fuel]. *)
Fixpoint rh_loop (fuel : nat) (header : list Z) (st : rh_state) : option rh_state :=
  match fuel with
  | O => None
  | S fuel' =>
      if rh_remaining st >? 0 then
        st ← (if rh_previous0 st then rh_zero_run header st else Some st);
        st ← rh_count header st;
        rh_loop fuel' header st
      else Some st
  end.

(** Result of [FSE_readHeader]: return value, and the three outputs
    [normalizedCounter[0 .. nbSymbols)], [*nbSymbols] and [*tableLog]. *)
Record rh_result := {
  rh_ret : Z;
  rh_normalizedCounter : list Z;
  rh_nbSymbols : Z;
  rh_tableLog : Z
}.

Definition FSE_readHeader (fuel : nat) (header : list Z) : option rh_result :=
  let bitStream := load32 header 0 in
  let bitStream := Z.shiftr bitStream 2 in
  let nbBits := Z.land bitStream 15 + FSE_MIN_TABLELOG in
  let bitStream := Z.shiftr bitStream 4 in
  let tableLog := nbBits in
  let remaining := Z.shiftl 1 nbBits in
  st ← rh_loop fuel header
       {| rh_counts := []; rh_ip := 0; rh_bitStream := bitStream; rh_bitCount := 6;
          rh_remaining := remaining; rh_threshold := remaining;
          rh_nbBits := nbBits + 1; rh_previous0 := false |};
  let nbSymbols := Z.of_nat (length (rh_counts st)) in
  let res r := {| rh_ret := r; rh_normalizedCounter := rh_counts st;
                  rh_nbSymbols := nbSymbols; rh_tableLog := tableLog |} in
  if rh_remaining st <? 0 then Some (res (-1))
  else if rh_nbBits st >? FSE_MAX_TABLELOG then Some (res (-1))
  else Some (res (rh_ip st + (if rh_bitCount st >? 0 then 1 else 0))).

(** ** Symbol spreading *)

Definition FSE_TABLESTEP (tableSize : Z) : Z :=
  Z.shiftr tableSize 1 + Z.shiftr tableSize 3 + 3.

(** [for (i=0; i<normalizedCounter[s]; i++)
       { tableSymbolByte[position] = (BYTE)s; position = (position + step) & tableMask; }] *)
Fixpoint spread_symbol (n : nat) (tableSymbolByte : list Z) (s position step tableMask : Z)
  : list Z * Z :=
  match n with
  | O => (tableSymbolByte, position)
  | S n' =>
      spread_symbol n' (wr tableSymbolByte position (u8 s)) s
                    (Z.land (u32 (position + step)) tableMask) step tableMask
  end.

(** [for (s=0; s<nbSymbols; s++) ...], on the entries from [s] on. *)
Fixpoint spread_loop (n : nat) (normalizedCounter : list Z) (tableSymbolByte : list Z)
    (s position step tableMask : Z) : option (list Z * Z) :=
  match n with
  | O => Some (tableSymbolByte, position)
  | S n' =>
      match normalizedCounter with
      | [] => None
      | c :: rest =>
          let '(t, p) := spread_symbol (Z.to_nat c) tableSymbolByte s position step tableMask in
          spread_loop n' rest t (s + 1) p step tableMask
      end
  end.

(** [FSE_spreadSymbols8] (the build without [SPREADFUNC]): return value and
    [tableSymbolByte] after the call. *)
Definition FSE_spreadSymbols8 (tableSymbolByte : list Z) (normalizedCounter : list Z)
    (nbSymbols tableLog : Z) : option (Z * list Z) :=
  let tableSize := Z.shiftl 1 tableLog in
  let step := FSE_TABLESTEP tableSize in
  let tableMask := tableSize - 1 in
  '(t, position) ← spread_loop (Z.to_nat nbSymbols) normalizedCounter tableSymbolByte
                               0 0 step tableMask;
  if negb (position =? 0) then Some (-1, t) else Some (0, t).

(** ** Compression tables *)

Record FSE_symbolCompressionTransform := {
  deltaFindState : Z;
  maxState : Z;
  minBitsOut : Z
}.

(** The CTable blob as a record of its parts.  A transform of a symbol of
    weight zero is never written: [None]. *)
Record CTable_t := {
  ct_tableLog : Z;
  ct_nbSymbols : Z;
  ct_stateTable : list Z;
  ct_symbolTT : list (option FSE_symbolCompressionTransform)
}.

(** [cumul[0] = 0; for (i=1; i<nbSymbols; i++) cumul[i] = cumul[i-1] + normalizedCounter[i-1];]
    The entries [cumul[1 ..]] given [cumul[i-1] = prev]. *)
Fixpoint cumul_fill (n : nat) (normalizedCounter : list Z) (prev : Z) : option (list Z) :=
  match n with
  | O => Some []
  | S n' =>
      match normalizedCounter with
      | [] => None
      | c :: rest =>
          let next := s32 (prev + c) in
          l ← cumul_fill n' rest next;
          Some (next :: l)
      end
  end.

(** [for (i=0; i<tableSize; i++) { BYTE s = tableSymbolByte[i]; tableU16[cumul[s]++] = (U16)(tableSize+i); }] *)
Fixpoint ctable_fill (n : nat) (tableSymbolByte : list Z) (i tableSize : Z)
    (cumul tableU16 : list Z) : option (list Z) :=
  match n with
  | O => Some tableU16
  | S n' =>
      s ← rd tableSymbolByte i;
      c ← rd cumul s;
      ctable_fill n' tableSymbolByte (i + 1) tableSize
                  (wr cumul s (c + 1)) (wr tableU16 c (u16 (tableSize + i)))
  end.

(** The [switch (normalizedCounter[s])] loop. *)
Fixpoint ctable_transforms (n : nat) (normalizedCounter : list Z) (tableLog tableSize total : Z)
  : option (list (option FSE_symbolCompressionTransform)) :=
  match n with
  | O => Some []
  | S n' =>
      match normalizedCounter with
      | [] => None
      | c :: rest =>
          if c =? 0 then
            l ← ctable_transforms n' rest tableLog tableSize total;
            Some (None :: l)
          else if c =? 1 then
            l ← ctable_transforms n' rest tableLog tableSize (total + 1);
            Some (Some {| deltaFindState := total - 1;
                          maxState := u16 (tableSize * 2 - 1);
                          minBitsOut := u8 tableLog |} :: l)
          else
            let mbo := u8 ((tableLog - 1) - FSE_highbit (u32 (c - 1))) in
            l ← ctable_transforms n' rest tableLog tableSize (s32 (total + c));
            Some (Some {| deltaFindState := s32 (total - c);
                          maxState := u16 (Z.shiftl c (mbo + 1) - 1);
                          minBitsOut := mbo |} :: l)
      end
  end.

(** [FSE_buildCTable]: [inl] is the error return; the local scratch arrays
    start zeroed. *)
Definition FSE_buildCTable (normalizedCounter : list Z) (nbSymbols tableLog : Z)
  : option (Z + CTable_t) :=
  let tableSize := Z.shiftl 1 tableLog in
  tl ← cumul_fill (Z.to_nat (nbSymbols - 1)) normalizedCounter 0;
  let cumul := 0 :: tl ++ [tableSize + 1] in
  '(errorCode, tableSymbolByte) ←
     FSE_spreadSymbols8 (repeat 0 (Z.to_nat FSE_MAX_TABLESIZE)) normalizedCounter nbSymbols tableLog;
  if errorCode =? -1 then Some (inl (-1))
  else
    tableU16 ← ctable_fill (Z.to_nat tableSize) tableSymbolByte 0 tableSize cumul
                           (repeat 0 (Z.to_nat tableSize));
    tt ← ctable_transforms (Z.to_nat nbSymbols) normalizedCounter tableLog tableSize 0;
    Some (inr {| ct_tableLog := u16 tableLog; ct_nbSymbols := u16 nbSymbols;
                 ct_stateTable := tableU16; ct_symbolTT := tt |}).

(** ** Forward bit container *)

(** Modelled from the spec: the type [bitContainer_forward_t] is declared
    in [fse.h], which is not part of the sources at hand.  It is "a
    word-sized accumulator + bit position"; [fse.c] initialises it with
    [{0,0}] and names its second field [bitPos]. *)
Record bitContainer_forward_t := {
  f_bitContainer : Z;
  f_bitPos : Z
}.

(** Modelled from the spec: [FSE_addBits] is declared in [fse.h], which is
    not part of the sources at hand.  It appends the low [nbBits] bits of
    [value] to the accumulator at the current bit position (spec 4.7:
    "Append the low nbBits of state to the forward bit container";
    "addBits(v, n) shifts v left by the position and ORs in").  The
    accumulator is a [size_t], taken as 64 bits. *)
Definition FSE_addBits (bitC : bitContainer_forward_t) (value nbBits : Z)
  : bitContainer_forward_t :=
  {| f_bitContainer :=
       Z.lor (f_bitContainer bitC)
             (Z.shiftl (Z.land value (Z.ones nbBits)) (f_bitPos bitC) mod 2^64);
     f_bitPos := f_bitPos bitC + nbBits |}.

(** Modelled from the spec: [FSE_flushBits] is declared in [fse.h] as well.
    It "writes whole bytes to *op++, leaving the residual bits in
    position"; the accumulator is stored as one word at [op], so that the
    residual byte is in place when [FSE_closeCompressionStream] counts it.
    Result: the image, the new [op] and the container. *)
Definition FSE_flushBits (buf : list Z) (op : Z) (bitC : bitContainer_forward_t)
  : list Z * Z * bitContainer_forward_t :=
  let nbBytes := Z.shiftr (f_bitPos bitC) 3 in
  (store buf op (le_bytes 8 (f_bitContainer bitC)),
   op + nbBytes,
   {| f_bitContainer := Z.shiftr (f_bitContainer bitC) (8 * nbBytes);
      f_bitPos := Z.land (f_bitPos bitC) 7 |}).

(** ** Encoder *)

(** [FSE_encodeByte]: new state and container. *)
Definition FSE_encodeByte (state : Z) (bitC : bitContainer_forward_t) (symbol : Z)
    (CTable : CTable_t) : option (Z * bitContainer_forward_t) :=
  ott ← ct_symbolTT CTable !! Z.to_nat symbol;
  tt ← ott;
  let nbBitsOut := minBitsOut tt in
  let nbBitsOut := nbBitsOut - Z.shiftr (maxState tt - state) 31 in
  let bitC := FSE_addBits bitC state nbBitsOut in
  st ← rd (ct_stateTable CTable) (Z.shiftr state nbBitsOut + deltaFindState tt);
  Some (st, bitC).

(** Encoder state while walking the source backwards. *)
Record enc_state := {
  e_buf : list Z;            (* image of [dest], offset 0 = stream descriptor *)
  e_op : Z;
  e_bitC : bitContainer_forward_t;
  e_state1 : Z;
  e_state2 : Z
}.

(** [FSE_closeCompressionStream]: return value and final image. *)
Definition FSE_closeCompressionStream (buf : list Z) (outPtr : Z) (bitC : bitContainer_forward_t)
    (nbStates state1 state2 state3 state4 : Z) (CTable : CTable_t) : Z * list Z :=
  let tableLog := ct_tableLog CTable in
  if (nbStates <? 1) || (nbStates >? 4) then (-1, buf)
  else
    let step (c : bool) (st : Z) (acc : list Z * Z * bitContainer_forward_t) :=
      if c then let '(b, o, bc) := acc in FSE_flushBits b o (FSE_addBits bc st tableLog)
      else acc in
    let acc := (buf, outPtr, bitC) in
    let acc := step (nbStates >=? 4) state4 acc in
    let acc := step (nbStates >=? 3) state3 acc in
    let acc := step (nbStates >=? 2) state2 acc in
    let '(buf, outPtr, bitC) := step (nbStates >=? 1) state1 acc in
    let p := outPtr + (if f_bitPos bitC >? 0 then 1 else 0) in
    let bitPos := 8 - f_bitPos bitC in
    let bitPos := if bitPos =? 8 then 0 else bitPos in
    let descriptor := u32 (Z.shiftl p 3) in
    let descriptor := u32 (descriptor + bitPos) in
    let descriptor := u32 (descriptor + Z.shiftl (nbStates - 1) 30) in
    (p, store buf 0 (le_bytes 4 descriptor)).

(** [while (nbCatchup) { FSE_encodeByte(&state1, ...); FSE_flushBits(...); nbCatchup--; }]
    [rsrc] is the part of the source not yet consumed, last byte first. *)
Fixpoint enc_catchup (n : nat) (rsrc : list Z) (CTable : CTable_t) (st : enc_state)
  : option (list Z * enc_state) :=
  match n with
  | O => Some (rsrc, st)
  | S n' =>
      match rsrc with
      | [] => None
      | b :: rest =>
          '(s1, bitC) ← FSE_encodeByte (e_state1 st) (e_bitC st) b CTable;
          let '(buf, op, bitC) := FSE_flushBits (e_buf st) (e_op st) bitC in
          enc_catchup n' rest CTable
            {| e_buf := buf; e_op := op; e_bitC := bitC; e_state1 := s1; e_state2 := e_state2 st |}
      end
  end.

(** [while (ip>istart) { ... }]: two symbols per round, one flush.  The
    intermediate flush of the source is compiled out
    ([sizeof(size_t)*8 < FSE_MAX_TABLELOG*2+7] is false). *)
Fixpoint enc_loop (rsrc : list Z) (ilp : bool) (CTable : CTable_t) (st : enc_state)
  {struct rsrc} : option enc_state :=
  match rsrc with
  | [] => Some st
  | a :: [] => None
  | a :: b :: rest =>
      '(s1, bitC) ← FSE_encodeByte (e_state1 st) (e_bitC st) a CTable;
      '(s1, s2, bitC) ←
        (if ilp then
           '(s2, bitC) ← FSE_encodeByte (e_state2 st) bitC b CTable; Some (s1, s2, bitC)
         else
           '(s1, bitC) ← FSE_encodeByte s1 bitC b CTable; Some (s1, e_state2 st, bitC));
      let '(buf, op, bitC) := FSE_flushBits (e_buf st) (e_op st) bitC in
      enc_loop rest ilp CTable
        {| e_buf := buf; e_op := op; e_bitC := bitC; e_state1 := s1; e_state2 := s2 |}
  end.

(** [FSE_compress_usingCTable_generic]: return value and image of [dest]. *)
Definition FSE_compress_usingCTable_generic (source : list Z) (CTable : CTable_t) (ilp : bool)
  : option (Z * list Z) :=
  let sourceSize := Z.of_nat (length source) in
  let nbStreams := 1 + (if ilp then 1 else 0) in
  let op := 4 in
  let state1 := Z.shiftl 1 (ct_tableLog CTable) in
  let state2 := state1 in
  let state3 := state1 in
  match rev source with
  | [] => None
  | last :: rsrc =>
      let state1 := state1 + last in
      '(state2, rsrc) ←
        (if ilp then
           match rsrc with
           | [] => None
           | b :: rsrc' => Some (state2 + b, rsrc')
           end
         else Some (state2, rsrc));
      let nbCatchup := Z.rem (sourceSize - nbStreams) 2 in
      if nbCatchup <? 0 then None
      else
        '(rsrc, st) ← enc_catchup (Z.to_nat nbCatchup) rsrc CTable
           {| e_buf := []; e_op := op; e_bitC := {| f_bitContainer := 0; f_bitPos := 0 |};
              e_state1 := state1; e_state2 := state2 |};
        st ← enc_loop rsrc ilp CTable st;
        Some (FSE_closeCompressionStream (e_buf st) (e_op st) (e_bitC st) nbStreams
                (e_state1 st) (e_state2 st) state3 0 CTable)
  end.

Definition FSE_compress_usingCTable (source : list Z) (CTable : CTable_t) : option (Z * list Z) :=
  FSE_compress_usingCTable_generic source CTable FSE_ILP.

Definition FSE_writeSingleChar (out : list Z) (symbol : Z) : Z * list Z :=
  (2, store out 0 [1; symbol]).

Definition FSE_noCompression (out : list Z) (src : list Z) (isize : Z) : Z * list Z :=
  (isize + 1, store out 0 (0 :: src)).

(** [FSE_compress2]: return value and image of [dest] (the frame is its
    first [return value] bytes).  The statistics globals are not modelled.
    [fuel] is for [FSE_normalizeCount]. *)
Definition FSE_compress2 (fuel : nat) (source : list Z) (nbSymbols tableLog : Z)
  : option (Z * list Z) :=
  let sourceSize := Z.of_nat (length source) in
  if sourceSize <=? 1 then Some (FSE_noCompression [] source sourceSize)
  else
    let nbSymbols := if nbSymbols =? 0 then FSE_MAX_NB_SYMBOLS_CHAR else nbSymbols in
    let tableLog := if tableLog =? 0 then FSE_MAX_TABLELOG else tableLog in
    '(errorCode, counting) ← FSE_count source nbSymbols;
    if errorCode =? -1 then Some (-1, [])
    else if errorCode =? 1 then Some (FSE_writeSingleChar [] (byte_at source 0))
    else
      let nbSymbols := errorCode in
      '(errorCode, counting) ← FSE_normalizeCount fuel tableLog counting sourceSize nbSymbols;
      if errorCode =? -1 then Some (-1, [])
      else if errorCode =? 0 then Some (FSE_writeSingleChar [] (byte_at source 0))
      else
        let tableLog := errorCode in
        '(errorCode, image) ← FSE_writeHeader counting nbSymbols tableLog;
        if errorCode =? -1 then Some (-1, image)
        else
          let op := errorCode in
          r ← FSE_buildCTable counting nbSymbols tableLog;
          match r with
          | inl _ => Some (-1, image)
          | inr CTable =>
              '(n, stream) ← FSE_compress_usingCTable source CTable;
              let image := store image op stream in
              let op := op + n in
              if op >=? sourceSize - 1 then Some (FSE_noCompression image source sourceSize)
              else Some (op, image)
          end.

Definition FSE_compress (fuel : nat) (source : list Z) : option (Z * list Z) :=
  FSE_compress2 fuel source FSE_MAX_NB_SYMBOLS_CHAR FSE_MAX_TABLELOG.

(** ** Decompression tables *)

Record FSE_decode_t := {
  newState : Z;
  symbol : Z;
  nbBits : Z
}.

(** The [// Build table Decoding table] loop; [tableSymbolByte] holds the
    remaining positions [i ..]. *)
Fixpoint dtable_fill (tableSymbolByte : list Z) (symbolNext : list Z) (tableLog tableSize : Z)
  : option (list FSE_decode_t) :=
  match tableSymbolByte with
  | [] => Some []
  | s :: rest =>
      nextState ← rd symbolNext s;
      let nb := u8 (tableLog - FSE_highbit nextState) in
      let e := {| newState := u16 (u32 (Z.shiftl nextState nb) - tableSize);
                  symbol := s; nbBits := nb |} in
      l ← dtable_fill rest (wr symbolNext s (u32 (nextState + 1))) tableLog tableSize;
      Some (e :: l)
  end.

(** [FSE_buildDTable]: [inl] is the error return, [inr] the first
    [1 << tableLog] entries of the table. *)
Definition FSE_buildDTable (normalizedCounter : list Z) (nbSymbols tableLog : Z)
  : option (Z + list FSE_decode_t) :=
  let tableSize := Z.shiftl 1 tableLog in
  if nbSymbols >? FSE_MAX_NB_SYMBOLS_CHAR then Some (inl (-1))
  else if tableLog >? FSE_MAX_TABLELOG then Some (inl (-1))
  else
    '(errorCode, tableSymbolByte) ←
       FSE_spreadSymbols8 (repeat 0 (Z.to_nat FSE_MAX_TABLESIZE)) normalizedCounter nbSymbols tableLog;
    if errorCode =? -1 then Some (inl (-1))
    else
      let symbolNext := take (Z.to_nat nbSymbols) normalizedCounter in
      t ← dtable_fill (take (Z.to_nat tableSize) tableSymbolByte) symbolNext tableLog tableSize;
      Some (inr t).

Definition FSE_decompressRaw (osize : Z) (input : list Z) : Z * list Z :=
  (osize + 1, map (fun i => byte_at input (1 + Z.of_nat i)) (seq 0 (Z.to_nat osize))).

Definition FSE_decompressSingleSymbol (osize : Z) (symbol : Z) : Z * list Z :=
  (2, repeat symbol (Z.to_nat osize)).

(** ** Backward bit container *)

(** Modelled from the spec: the type [bitContainer_backward_t] is declared
    in [fse.h] as well.  It is "a 32-bit window + bitsConsumed counter";
    [fse.c] names its fields [bitContainer] and [bitsConsumed]. *)
Record bitContainer_backward_t := {
  b_bitContainer : Z;
  b_bitsConsumed : Z
}.

Definition FSE_updateBitStream (mem : list Z) (bitC : bitContainer_backward_t) (ip : Z)
  : bitContainer_backward_t * Z :=
  let ip := ip - Z.shiftr (b_bitsConsumed bitC) 3 in
  ({| b_bitContainer := load32 mem ip; b_bitsConsumed := Z.land (b_bitsConsumed bitC) 7 |}, ip).

Definition FSE_readBits (bitC : bitContainer_backward_t) (nbBits : Z)
  : Z * bitContainer_backward_t :=
  let value :=
    Z.shiftr (Z.shiftr (u32 (Z.shiftl (b_bitContainer bitC) (b_bitsConsumed bitC))) 1)
             (31 - nbBits) in
  (value, {| b_bitContainer := b_bitContainer bitC;
             b_bitsConsumed := b_bitsConsumed bitC + nbBits |}).

(** [FSE_decodeSymbol]: symbol, new state and container; [None] when the
    state indexes past the built table. *)
Definition FSE_decodeSymbol (state : Z) (bitC : bitContainer_backward_t)
    (DTable : list FSE_decode_t) : option (Z * Z * bitContainer_backward_t) :=
  if state <? 0 then None
  else
    e ← DTable !! Z.to_nat state;
    let '(rest, bitC) := FSE_readBits bitC (nbBits e) in
    Some (symbol e, u32 (newState e + rest), bitC).

(** ** Decoder *)

Record dec_init := {
  di_iend : option Z;        (* [None] is the [NULL] return *)
  di_bitC : bitContainer_backward_t;
  di_nbStates : Z;
  di_state1 : Z;
  di_state2 : Z;
  di_ip : Z
}.

(** [FSE_initDecompressionStream_generic]; [p] is the offset of the stream
    descriptor in [mem]. *)
Definition FSE_initDecompressionStream_generic (mem : list Z) (p : Z) (tableLog : Z)
    (maxCompressedSize : Z) (safe : bool) : dec_init :=
  let ip := p in
  let descriptor := load32 mem ip in
  let nbStates := Z.shiftr descriptor 30 + 1 in
  let descriptor := Z.land descriptor 1073741823 in
  let bitsConsumed := Z.land descriptor 7 in
  let descriptor := Z.shiftr descriptor 3 in
  let iend := ip + descriptor in
  if safe && (iend >? ip + maxCompressedSize) then
    {| di_iend := None; di_bitC := {| b_bitContainer := 0; b_bitsConsumed := bitsConsumed |};
       di_nbStates := nbStates; di_state1 := 0; di_state2 := 0; di_ip := ip |}
  else
    let ip := iend - 4 in
    let bitC := {| b_bitContainer := load32 mem ip; b_bitsConsumed := bitsConsumed |} in
    let '(state1, bitC) := FSE_readBits bitC tableLog in
    let '(bitC, ip) := FSE_updateBitStream mem bitC ip in
    let '(state2, bitC, ip) :=
      if nbStates >=? 2 then
        let '(s, bitC) := FSE_readBits bitC tableLog in
        let '(bitC, ip) := FSE_updateBitStream mem bitC ip in (s, bitC, ip)
      else (0, bitC, ip) in
    let '(bitC, ip) :=
      if nbStates >=? 3 then
        let '(_, bitC) := FSE_readBits bitC tableLog in FSE_updateBitStream mem bitC ip
      else (bitC, ip) in
    let '(bitC, ip) :=
      if nbStates >=? 4 then
        let '(_, bitC) := FSE_readBits bitC tableLog in FSE_updateBitStream mem bitC ip
      else (bitC, ip) in
    {| di_iend := Some iend; di_bitC := bitC; di_nbStates := nbStates;
       di_state1 := state1; di_state2 := state2; di_ip := ip |}.

Record dec_state := {
  d_out : list Z;            (* bytes stored at [dest], [dest .. op) *)
  d_bitC : bitContainer_backward_t;
  d_ip : Z;
  d_state1 : Z;
  d_state2 : Z
}.

Definition d_op (st : dec_state) : Z := Z.of_nat (length (d_out st)).

(** The hot loop; every round advances [op], so [olimit - op] rounds
    suffice. *)
Fixpoint dec_hot (fuel : nat) (mem : list Z) (compressed olimit : Z) (safe : bool)
    (nbStates : Z) (DTable : list FSE_decode_t) (st : dec_state) : option dec_state :=
  match fuel with
  | O => Some st
  | S fuel' =>
      if (d_op st <? olimit) && (negb safe || (d_ip st >=? compressed)) then
        '(out, s2, bitC) ←
          (if nbStates =? 2 then
             '(sym, s2, bitC) ← FSE_decodeSymbol (d_state2 st) (d_bitC st) DTable;
             Some (d_out st ++ [sym], s2, bitC)
           else Some (d_out st, d_state2 st, d_bitC st));
        '(sym, s1, bitC) ← FSE_decodeSymbol (d_state1 st) bitC DTable;
        let '(bitC, ip) := FSE_updateBitStream mem bitC (d_ip st) in
        dec_hot fuel' mem compressed olimit safe nbStates DTable
          {| d_out := out ++ [sym]; d_bitC := bitC; d_ip := ip; d_state1 := s1; d_state2 := s2 |}
      else Some st
  end.

(** The [// last bytes] loop. *)
Fixpoint dec_last (fuel : nat) (mem : list Z) (compressed oend : Z) (safe : bool)
    (DTable : list FSE_decode_t) (st : dec_state) : option dec_state :=
  match fuel with
  | O => Some st
  | S fuel' =>
      if (d_op st <? oend) && (negb safe || (d_ip st >=? compressed)) then
        '(sym, s1, bitC) ← FSE_decodeSymbol (d_state1 st) (d_bitC st) DTable;
        let '(bitC, ip) := FSE_updateBitStream mem bitC (d_ip st) in
        dec_last fuel' mem compressed oend safe DTable
          {| d_out := d_out st ++ [sym]; d_bitC := bitC; d_ip := ip;
             d_state1 := s1; d_state2 := d_state2 st |}
      else Some st
  end.

(** [FSE_decompressStreams_usingDTable_generic]: return value and the
    bytes stored at [dest].  [compressed] is the offset of the stream in
    [mem]. *)
Definition FSE_decompressStreams_usingDTable_generic (originalSize : Z) (mem : list Z)
    (compressed maxCompressedSize : Z) (DTable : list FSE_decode_t) (tableLog : Z)
    (safe : bool) (nbStates : Z) : option (Z * list Z) :=
  let init := FSE_initDecompressionStream_generic mem compressed tableLog
                (if safe then maxCompressedSize else 0) safe in
  match di_iend init with
  | None => Some (-1, [])
  | Some iend =>
      let nbStates := di_nbStates init in
      let oend := originalSize - nbStates in
      let olimit := oend - Z.rem (originalSize - nbStates) nbStates in
      st ← dec_hot (Z.to_nat olimit) mem compressed olimit safe nbStates DTable
           {| d_out := []; d_bitC := di_bitC init; d_ip := di_ip init;
              d_state1 := di_state1 init; d_state2 := di_state2 init |};
      st ← dec_last (Z.to_nat oend) mem compressed oend safe DTable st;
      let out := if nbStates >=? 2 then d_out st ++ [u8 (d_state2 st)] else d_out st in
      let out := out ++ [u8 (d_state1 st)] in
      if negb (d_ip st =? compressed) || negb (b_bitsConsumed (d_bitC st) =? 0)
      then Some (-1, out)
      else Some (iend - d_ip st, out)
  end.

Definition FSE_getNbStates (mem : list Z) (buffer : Z) : Z :=
  let descriptor := load32 mem buffer in
  Z.shiftr descriptor 30 + 1.

Definition FSE_decompress_usingDTable_generic (originalSize : Z) (mem : list Z)
    (compressed maxCompressedSize : Z) (DTable : list FSE_decode_t) (tableLog : Z)
    (safe : bool) : option (Z * list Z) :=
  let nbStates := FSE_getNbStates mem compressed in
  if nbStates =? 2 then
    FSE_decompressStreams_usingDTable_generic originalSize mem compressed maxCompressedSize
      DTable tableLog safe 2
  else if nbStates =? 1 then
    FSE_decompressStreams_usingDTable_generic originalSize mem compressed maxCompressedSize
      DTable tableLog safe 1
  else Some (-1, []).

Definition FSE_decompress_usingDTable (originalSize : Z) (mem : list Z) (compressed : Z)
    (DTable : list FSE_decode_t) (tableLog : Z) : option (Z * list Z) :=
  FSE_decompress_usingDTable_generic originalSize mem compressed 0 DTable tableLog false.

Definition FSE_decompress_usingDTable_safe (originalSize : Z) (mem : list Z)
    (compressed maxCompressedSize : Z) (DTable : list FSE_decode_t) (tableLog : Z)
  : option (Z * list Z) :=
  FSE_decompress_usingDTable_generic originalSize mem compressed maxCompressedSize
    DTable tableLog true.

(** [FSE_decompress_generic]: return value and the bytes stored at [dest].
    [fuel] is for [FSE_readHeader]. *)
Definition FSE_decompress_generic (fuel : nat) (originalSize : Z) (compressed : list Z)
    (maxCompressedSize : Z) (safe : bool) : option (Z * list Z) :=
  if safe && (maxCompressedSize <? 2) then Some (-1, [])
  else
    let headerId := Z.land (byte_at compressed 0) 3 in
    if byte_at compressed 0 =? 0 then Some (FSE_decompressRaw originalSize compressed)
    else if byte_at compressed 0 =? 1
    then Some (FSE_decompressSingleSymbol originalSize (byte_at compressed 1))
    else if negb (headerId =? 2) then Some (-1, [])
    else
      h ← FSE_readHeader fuel compressed;
      if rh_ret h =? -1 then Some (-1, [])
      else
        let ip := rh_ret h in
        r ← FSE_buildDTable (rh_normalizedCounter h) (rh_nbSymbols h) (rh_tableLog h);
        match r with
        | inl _ => Some (-1, [])
        | inr DTable =>
            '(errorCode, out) ←
              (if safe
               then FSE_decompress_usingDTable_safe originalSize compressed ip maxCompressedSize
                      DTable (rh_tableLog h)
               else FSE_decompress_usingDTable originalSize compressed ip DTable (rh_tableLog h));
            if errorCode =? -1 then Some (-1, out)
            else Some (ip + errorCode, out)
        end.

Definition FSE_decompress (fuel : nat) (originalSize : Z) (compressed : list Z)
  : option (Z * list Z) :=
  FSE_decompress_generic fuel originalSize compressed 0 false.

Definition FSE_decompress_safe (fuel : nat) (originalSize : Z) (compressed : list Z)
    (maxCompressedSize : Z) : option (Z * list Z) :=
  FSE_decompress_generic fuel originalSize compressed maxCompressedSize true.

(** * 16-bit symbols *)

(** ** Compression table *)

(** [a[i] = v] on a local array of fixed size; [None] outside of it. *)
Definition wr_local (a : list Z) (i : Z) (v : Z) : option (list Z) :=
  if (0 <=? i) && (i <? Z.of_nat (length a)) then Some (wr a i v) else None.

(** [s=0; while (!symbolPos[s+1]) s++;] from [s] on.  Every round moves
    [s] one cell up, so the scan has left the written part of
    [symbolPos] after [length symbolPos] rounds. *)
Fixpoint skip_empty (fuel : nat) (symbolPos : list Z) (s : Z) : option Z :=
  match fuel with
  | O => None
  | S fuel' =>
      v ← rd symbolPos (s + 1);
      if v =? 0 then skip_empty fuel' symbolPos (u16 (s + 1)) else Some s
  end.

(** [while (i+2 > symbolPos[s+1]) s++;] *)
Fixpoint next_symbol (fuel : nat) (symbolPos : list Z) (i s : Z) : option Z :=
  match fuel with
  | O => None
  | S fuel' =>
      v ← rd symbolPos (s + 1);
      if i + 2 >? v then next_symbol fuel' symbolPos i (u16 (s + 1)) else Some s
  end.

(** [for (i=0; i<tableSize; i++)
       { tableSymbolU16[position] = s; while (i+2 > symbolPos[s+1]) s++;
         position = (position + step) & tableMask; }], the rounds from [i] on. *)
Fixpoint spread_u16 (n : nat) (symbolPos tableSymbolU16 : list Z)
    (i s position step tableMask : Z) : option (list Z) :=
  match n with
  | O => Some tableSymbolU16
  | S n' =>
      t ← wr_local tableSymbolU16 position s;
      s ← next_symbol (length symbolPos) symbolPos i s;
      spread_u16 n' symbolPos t (i + 1) s (Z.land (u32 (position + step)) tableMask)
                 step tableMask
  end.

(** [FSE_buildCTableU16]: the return value (always 0) and the table.  The
    local scratch arrays start zeroed; [symbolPos] is read only where it
    has been written, and [tableSymbolU16] is written only inside its
    [FSE_MAX_TABLESIZE] cells ([None] otherwise). *)
Definition FSE_buildCTableU16 (normalizedCounter : list Z) (nbSymbols tableLog : Z)
  : option (Z * CTable_t) :=
  let tableSize := Z.shiftl 1 tableLog in
  let tableMask := tableSize - 1 in
  let step := FSE_TABLESTEP tableSize in
  tl ← cumul_fill (Z.to_nat (nbSymbols - 1)) normalizedCounter 0;
  let symbolPos := 0 :: tl ++ [tableSize + 1] in
  s ← skip_empty (length symbolPos) symbolPos 0;
  tableSymbolU16 ← spread_u16 (Z.to_nat tableSize) symbolPos
                     (repeat 0 (Z.to_nat FSE_MAX_TABLESIZE)) 0 s 0 step tableMask;
  tableU16 ← ctable_fill (Z.to_nat tableSize) tableSymbolU16 0 tableSize symbolPos
                         (repeat 0 (Z.to_nat tableSize));
  tt ← ctable_transforms (Z.to_nat nbSymbols) normalizedCounter tableLog tableSize 0;
  Some (0, {| ct_tableLog := u16 tableLog; ct_nbSymbols := u16 nbSymbols;
              ct_stateTable := tableU16; ct_symbolTT := tt |}).

(** ** Decompression table *)

Module U16.

(** [FSE_decodeU16_t]: [nbBits] is a 4-bit field, [symbol] a 12-bit
    field. *)
Record FSE_decodeU16_t := {
  newState : Z;
  nbBits : Z;
  symbol : Z
}.

End U16.

(** [for (s=1; s<nbSymbols; s++) symbolNext[s] = symbolNext[s-1] + normalizedCounter[s];]
    The entries [symbolNext[1 ..]] given [symbolNext[s-1] = prev]. *)
Fixpoint symbolNext_fill (n : nat) (normalizedCounter : list Z) (prev : Z) : option (list Z) :=
  match n with
  | O => Some []
  | S n' =>
      match normalizedCounter with
      | [] => None
      | c :: rest =>
          let next := u32 (prev + c) in
          l ← symbolNext_fill n' rest next;
          Some (next :: l)
      end
  end.

(** [s=0; while (!symbolNext[s]) s++;] from [s] on; after
    [length symbolNext] rounds the scan has left the array. *)
Fixpoint skip_zero (fuel : nat) (symbolNext : list Z) (s : Z) : option Z :=
  match fuel with
  | O => None
  | S fuel' =>
      v ← rd symbolNext s;
      if v =? 0 then skip_zero fuel' symbolNext (s + 1) else Some s
  end.

(** [while ( (U32) i+2 > symbolNext[s]) s++;] *)
Fixpoint next_counter (fuel : nat) (symbolNext : list Z) (i s : Z) : option Z :=
  match fuel with
  | O => None
  | S fuel' =>
      v ← rd symbolNext s;
      if u32 (u32 i + 2) >? v then next_counter fuel' symbolNext i (s + 1) else Some s
  end.

(** [for (i=0; i<tableSize; i++)
       { tableDecode[position].symbol = (U16) s; while (...) s++;
         position = (position + step) & tableMask; }]: the [symbol] fields,
    the rounds from [i] on. *)
Fixpoint spread_decode_u16 (n : nat) (symbolNext symbols : list Z)
    (i s position step tableMask : Z) : option (list Z) :=
  match n with
  | O => Some symbols
  | S n' =>
      t ← wr_local symbols position (Z.land (u16 s) 4095);
      s ← next_counter (length symbolNext) symbolNext i s;
      spread_decode_u16 n' symbolNext t (i + 1) s (Z.land (u32 (position + step)) tableMask)
                        step tableMask
  end.

(** The [// Build table Decoding table] loop; [symbols] holds the
    [symbol] fields of the remaining entries [i ..]. *)
Fixpoint dtable_fill_u16 (symbols : list Z) (symbolNext : list Z) (tableLog tableSize : Z)
  : option (list U16.FSE_decodeU16_t) :=
  match symbols with
  | [] => Some []
  | s :: rest =>
      nextState ← rd symbolNext s;
      let nb := Z.land (u8 (tableLog - FSE_highbit nextState)) 15 in
      let e := {| U16.newState := u16 (u32 (Z.shiftl nextState nb) - tableSize);
                  U16.nbBits := nb; U16.symbol := s |} in
      l ← dtable_fill_u16 rest (wr symbolNext s (u32 (nextState + 1))) tableLog tableSize;
      Some (e :: l)
  end.

(** [FSE_buildDTableU16]: [inl] is the error return, [inr] the first
    [1 << tableLog] entries of the table.  The local array [symbolNext]
    is not initialised by the function and its spread loop can read cells
    it has not written: [stack] is what the [FSE_MAX_NB_SYMBOLS] cells of
    that array hold when the function is entered.  Reading past the
    array is [None], and so is writing past the [FSE_MAX_TABLESIZE]
    entries that the table of [FSE_decompressU16] has. *)
Definition FSE_buildDTableU16 (stack : list Z) (normalizedCounter : list Z)
    (nbSymbols tableLog : Z) : option (Z + list U16.FSE_decodeU16_t) :=
  let tableSize := Z.shiftl 1 tableLog in
  let tableMask := tableSize - 1 in
  let step := u32 (FSE_TABLESTEP tableSize) in
  if nbSymbols >? FSE_MAX_NB_SYMBOLS then Some (inl (-1))
  else
    c0 ← rd normalizedCounter 0;
    tl ← symbolNext_fill (Z.to_nat (nbSymbols - 1)) (drop 1 normalizedCounter) c0;
    let symbolNext :=
      take (Z.to_nat FSE_MAX_NB_SYMBOLS) ((c0 :: tl) ++ drop (S (length tl)) stack) in
    s ← skip_zero (length symbolNext) symbolNext 0;
    symbols ← spread_decode_u16 (Z.to_nat tableSize) symbolNext
                (repeat 0 (Z.to_nat FSE_MAX_TABLESIZE)) 0 s 0 step tableMask;
    let symbolNext :=
      take (Z.to_nat nbSymbols) normalizedCounter ++ drop (Z.to_nat nbSymbols) symbolNext in
    t ← dtable_fill_u16 (take (Z.to_nat tableSize) symbols) symbolNext tableLog tableSize;
    Some (inr t).

(** ** Encoder *)

(** [FSE_encodeU16]: new state and container. *)
Definition FSE_encodeU16 (state : Z) (bitC : bitContainer_forward_t) (symbol : Z)
    (CTable : CTable_t) : option (Z * bitContainer_forward_t) :=
  ott ← ct_symbolTT CTable !! Z.to_nat symbol;
  tt ← ott;
  let nbBitsOut := minBitsOut tt in
  let nbBitsOut := nbBitsOut - Z.shiftr (maxState tt - state) 31 in
  let bitC := FSE_addBits bitC state nbBitsOut in
  st ← rd (ct_stateTable CTable) (Z.shiftr state nbBitsOut + deltaFindState tt);
  Some (st, bitC).

(** Encoder state while walking the source backwards. *)
Record encU16_state := {
  eu_buf : list Z;           (* image of [dest], offset 0 = [streamSize] *)
  eu_op : Z;
  eu_bitC : bitContainer_forward_t;
  eu_state : Z
}.

(** [while (ip>=istart) { FSE_encodeU16(...); FSE_flushBits(...); }]
    [rsrc] is the part of the source not yet consumed, last symbol
    first. *)
Fixpoint encU16_tail (rsrc : list Z) (CTable : CTable_t) (st : encU16_state)
  : option encU16_state :=
  match rsrc with
  | [] => Some st
  | a :: rest =>
      '(s, bitC) ← FSE_encodeU16 (eu_state st) (eu_bitC st) a CTable;
      let '(buf, op, bitC) := FSE_flushBits (eu_buf st) (eu_op st) bitC in
      encU16_tail rest CTable {| eu_buf := buf; eu_op := op; eu_bitC := bitC; eu_state := s |}
  end.

(** [while (ip>istart+1) { ... }], then the loop above.  With the 64-bit
    accumulator of [FSE_addBits] the two tests on
    [sizeof(bitContainer_t)] are decided: no flush after the first
    symbol, and a third symbol before the flush. *)
Fixpoint encU16_loop (rsrc : list Z) (CTable : CTable_t) (st : encU16_state)
  {struct rsrc} : option encU16_state :=
  match rsrc with
  | a :: b :: c :: rest =>
      '(s, bitC) ← FSE_encodeU16 (eu_state st) (eu_bitC st) a CTable;
      '(s, bitC) ← FSE_encodeU16 s bitC b CTable;
      '(s, bitC) ← FSE_encodeU16 s bitC c CTable;
      let '(buf, op, bitC) := FSE_flushBits (eu_buf st) (eu_op st) bitC in
      encU16_loop rest CTable {| eu_buf := buf; eu_op := op; eu_bitC := bitC; eu_state := s |}
  | _ => encU16_tail rsrc CTable st
  end.

(** [FSE_compressU16_usingCTable]: return value and image of [dest].
    [None] on an empty source, whose last symbol is read before the
    buffer. *)
Definition FSE_compressU16_usingCTable (source : list Z) (CTable : CTable_t)
  : option (Z * list Z) :=
  let tableLog := ct_tableLog CTable in
  let tableSize := Z.shiftl 1 tableLog in
  match rev source with
  | [] => None
  | last :: rsrc =>
      let state := tableSize + last in
      st ← encU16_loop rsrc CTable
             {| eu_buf := []; eu_op := 4;
                eu_bitC := {| f_bitContainer := 0; f_bitPos := 0 |}; eu_state := state |};
      let bitC := FSE_addBits (eu_bitC st) (eu_state st) tableLog in
      let '(buf, op, bitC) := FSE_flushBits (eu_buf st) (eu_op st) bitC in
      let streamSize := u32 (op * 8 + f_bitPos bitC) in
      let op := op + (if f_bitPos bitC >? 0 then 1 else 0) in
      Some (op, store buf 0 (le_bytes 4 streamSize))
  end.

(** ** Decoder *)

(** [FSE_decodeSymbolU16]: symbol, new state and new [bitsConsumed];
    [None] when the state indexes past the built table. *)
Definition FSE_decodeSymbolU16 (state bitStream bitsConsumed : Z)
    (DTable : list U16.FSE_decodeU16_t) : option (Z * Z * Z) :=
  if state <? 0 then None
  else
    e ← DTable !! Z.to_nat state;
    let nbBits := U16.nbBits e in
    let rest := Z.shiftr (Z.shiftr (u32 (Z.shiftl bitStream bitsConsumed)) 1) (31 - nbBits) in
    Some (U16.symbol e, u32 (U16.newState e + rest), bitsConsumed + nbBits).

Record decU16_state := {
  du_out : list Z;           (* image of [dest] *)
  du_op : Z;
  du_bitC : bitContainer_backward_t;
  du_ip : Z;
  du_state : Z
}.

(** The hot loop: two symbols per round (the static test holds for
    64-bit pointers); every round advances [op], so [oend] rounds
    suffice. *)
Fixpoint decU16_hot (fuel : nat) (mem : list Z) (DTable : list U16.FSE_decodeU16_t)
    (oend : Z) (st : decU16_state) : option decU16_state :=
  match fuel with
  | O => Some st
  | S fuel' =>
      if du_op st <? oend - 1 then
        let bitStream := b_bitContainer (du_bitC st) in
        '(sym1, state, bc) ←
          FSE_decodeSymbolU16 (du_state st) bitStream (b_bitsConsumed (du_bitC st)) DTable;
        '(sym2, state, bc) ← FSE_decodeSymbolU16 state bitStream bc DTable;
        let '(bitC, ip) :=
          FSE_updateBitStream mem {| b_bitContainer := bitStream; b_bitsConsumed := bc |}
                              (du_ip st) in
        decU16_hot fuel' mem DTable oend
          {| du_out := store (store (du_out st) (du_op st) [sym1]) (du_op st + 1) [sym2];
             du_op := du_op st + 2; du_bitC := bitC; du_ip := ip; du_state := state |}
      else Some st
  end.

(** [FSE_decompressU16_usingDTable]: return value and the symbols stored
    at [dest]; [compressed] is the offset of the stream in [mem].
    [None] also when [originalSize] is 0, where [*oend] lies before
    [dest]. *)
Definition FSE_decompressU16_usingDTable (originalSize : Z) (mem : list Z) (compressed : Z)
    (DTable : list U16.FSE_decodeU16_t) (tableLog : Z) : option (Z * list Z) :=
  let ip := compressed in
  let oend := originalSize - 1 in
  let bitsConsumed := Z.land (u32 (load32 mem ip - 1)) 7 + 1 + 24 in
  let iend := ip + u32 (load32 mem ip + 7) / 8 in
  let ip := iend - 4 in
  let bitContainer := load32 mem ip in
  let bitsConsumed := 32 - bitsConsumed in
  let state := Z.shiftr (u32 (Z.shiftl bitContainer bitsConsumed)) (32 - tableLog) in
  let bitsConsumed := bitsConsumed + tableLog in
  let '(bitC, ip) :=
    FSE_updateBitStream mem {| b_bitContainer := bitContainer; b_bitsConsumed := bitsConsumed |}
                        ip in
  st ← decU16_hot (Z.to_nat oend) mem DTable oend
         {| du_out := []; du_op := 0; du_bitC := bitC; du_ip := ip; du_state := state |};
  st ← (if du_op st <? oend then
          '(sym, state, bc) ←
            FSE_decodeSymbolU16 (du_state st) (b_bitContainer (du_bitC st))
                                (b_bitsConsumed (du_bitC st)) DTable;
          Some {| du_out := store (du_out st) (oend - 1) [sym]; du_op := du_op st;
                  du_bitC := {| b_bitContainer := b_bitContainer (du_bitC st);
                                b_bitsConsumed := bc |};
                  du_ip := du_ip st; du_state := state |}
        else Some st);
  if oend <? 0 then None
  else Some (iend - compressed, store (du_out st) oend [u16 (du_state st)]).

(** ** Symbol counting *)

(** [Counting[sym]++] on a table of [FSE_MAX_NB_SYMBOLS] counters, indexed
    by a 16-bit symbol that the function does not check: [None] outside
    the table. *)
Definition bump_local (c : list Z) (sym : Z) : option (list Z) :=
  v ← rd c sym;
  Some (wr c sym (u32 (v + 1))).

(** [while (ip<iend) Counting1[*ip++]++;] *)
Fixpoint countU16_tail (src : list Z) (c1 : list Z) : option (list Z) :=
  match src with
  | [] => Some c1
  | x :: rest => c1 ← bump_local c1 x; countU16_tail rest c1
  end.

(** The two scanning loops of [FSE_countU16]. *)
Fixpoint countU16_scan (src : list Z) (c1 c2 c3 c4 : list Z) {struct src}
  : option (list Z * list Z * list Z * list Z) :=
  match src with
  | a :: b :: c :: d :: rest =>
      c1 ← bump_local c1 a;
      c2 ← bump_local c2 b;
      c3 ← bump_local c3 c;
      c4 ← bump_local c4 d;
      countU16_scan rest c1 c2 c3 c4
  | _ => c1 ← countU16_tail src c1; Some (c1, c2, c3, c4)
  end.

(** [FSE_countU16]: the return value and the filled [count] table;
    [None] is a counter indexed outside its table, or the undefined read
    described at [count_trim]. *)
Definition FSE_countU16 (source : list Z) (maxNbSymbols : Z) : option (Z * list Z) :=
  let sourceSize := Z.of_nat (length source) in
  let zeros := repeat 0 (Z.to_nat FSE_MAX_NB_SYMBOLS) in
  if maxNbSymbols >? FSE_MAX_NB_SYMBOLS then Some (-1, [])
  else
    let maxNbSymbols := if maxNbSymbols =? 0 then FSE_MAX_NB_SYMBOLS else maxNbSymbols in
    if sourceSize =? 0 then Some (-1, [])
    else
      '(c1, c2, c3, c4) ← countU16_scan source zeros zeros zeros zeros;
      let count := count_sum c1 c2 c3 c4 maxNbSymbols in
      r ← count_trim (S (Z.to_nat maxNbSymbols)) count maxNbSymbols;
      Some (r, count).

(** ** Frames of 16-bit symbols *)

(** [FSE_noCompressionU16]: return value and image of [dest]; the
    symbols are copied as they lie in memory, low byte first.  [None]
    when [sourceSize*2] is negative or [sourceSize*2 + 1] leaves the
    range of [int]. *)
Definition FSE_noCompressionU16 (out : list Z) (src : list Z) (sourceSize : Z)
  : option (Z * list Z) :=
  if (sourceSize <? 0) || (2 ^ 30 <=? sourceSize) then None
  else Some (sourceSize * 2 + 1, store out 0 (0 :: flat_map (le_bytes 2) src)).

Definition FSE_writeSingleU16 (out : list Z) (value : Z) : Z * list Z :=
  (3, store out 0 (1 :: le_bytes 2 value)).

(** [FSE_compressU16]: return value and image of [dest] (the frame is its
    first [return value] bytes).  [counting] is what the local array of
    that name holds on entry: [FSE_countU16] leaves it as it is when it
    fails, and no return value is checked on the way.  A negative
    return of [FSE_writeHeader] moves [op] before [dest], where the
    stream would then be stored: [None].  [fuel] is for
    [FSE_normalizeCount]. *)
Definition FSE_compressU16 (fuel : nat) (counting : list Z) (source : list Z)
    (nbSymbols tableLog : Z) : option (Z * list Z) :=
  let sourceSize := Z.of_nat (length source) in
  if sourceSize <=? 1 then FSE_noCompressionU16 [] source sourceSize
  else
    let nbSymbols := if nbSymbols =? 0 then FSE_MAX_NB_SYMBOLS else nbSymbols in
    let tableLog := if tableLog =? 0 then FSE_MAX_TABLELOG else tableLog in
    '(nbSymbols, count) ← FSE_countU16 source nbSymbols;
    let counting := count ++ drop (length count) counting in
    if nbSymbols =? 1 then Some (FSE_writeSingleU16 [] (nth 0 source 0))
    else
      '(tableLog, counting) ← FSE_normalizeCount fuel tableLog counting sourceSize nbSymbols;
      if tableLog =? 0 then Some (FSE_writeSingleU16 [] (nth 0 source 0))
      else
        '(n, image) ← FSE_writeHeader counting nbSymbols tableLog;
        let op := n in
        if op <? 0 then None
        else
          '(_, CTable) ← FSE_buildCTableU16 counting nbSymbols tableLog;
          '(n, stream) ← FSE_compressU16_usingCTable source CTable;
          let image := store image op stream in
          let op := op + n in
          if op >=? (sourceSize - 1) * 2 then FSE_noCompressionU16 image source sourceSize
          else Some (op, image).

(** [FSE_decompressRawU16]: return value and the symbols stored at [out].
    [None] when [osize*2] is negative or leaves the range of [int]. *)
Definition FSE_decompressRawU16 (osize : Z) (input : list Z) : option (Z * list Z) :=
  if (osize <? 0) || (2 ^ 30 <=? osize) then None
  else Some (osize * 2 + 1,
             map (fun i => load16 input (1 + 2 * Z.of_nat i)) (seq 0 (Z.to_nat osize))).

Definition FSE_decompressSingleU16 (osize : Z) (value : Z) : Z * list Z :=
  (3, repeat value (Z.to_nat osize)).

(** [FSE_decompressU16]: return value and the symbols stored at [dest].
    [stack] is what the array [symbolNext] of [FSE_buildDTableU16] holds
    on entry.  No return value is checked: [None] when [FSE_readHeader]
    has stored more counts than the [FSE_MAX_NB_SYMBOLS] cells of
    [counting] (this is also the one case where [FSE_buildDTableU16]
    fails), and when its error return moves [ip] before [compressed],
    where the stream is then read.  [fuel] is for [FSE_readHeader]. *)
Definition FSE_decompressU16 (fuel : nat) (stack : list Z) (originalSize : Z)
    (compressed : list Z) : option (Z * list Z) :=
  let headerId := Z.land (byte_at compressed 0) 3 in
  if headerId =? 0 then FSE_decompressRawU16 originalSize compressed
  else if headerId =? 1
  then Some (FSE_decompressSingleU16 originalSize (load16 compressed 1))
  else
    h ← FSE_readHeader fuel compressed;
    if rh_nbSymbols h >? FSE_MAX_NB_SYMBOLS then None
    else
      let ip := rh_ret h in
      if ip <? 0 then None
      else
        r ← FSE_buildDTableU16 stack (rh_normalizedCounter h) (rh_nbSymbols h) (rh_tableLog h);
        match r with
        | inl _ => None
        | inr DTable =>
            '(n, out) ← FSE_decompressU16_usingDTable originalSize compressed ip DTable
                          (rh_tableLog h);
            Some (ip + n, out)
        end.

(** ** Portable branch of [FSE_highbit] *)

Definition DeBruijnClz : list Z :=
  [0; 9; 1; 10; 13; 21; 2; 29; 11; 14; 16; 18; 22; 25; 3; 30;
   8; 12; 20; 28; 15; 17; 24; 7; 19; 27; 23; 6; 26; 5; 4; 31].

(** The [// Software version] of [FSE_highbit], for compilers without the
    bit-scan intrinsics; [val] is a 32-bit value. *)
Definition FSE_highbit_software (val : Z) : Z :=
  let v := val in
  let v := Z.lor v (Z.shiftr v 1) in
  let v := Z.lor v (Z.shiftr v 2) in
  let v := Z.lor v (Z.shiftr v 4) in
  let v := Z.lor v (Z.shiftr v 8) in
  let v := Z.lor v (Z.shiftr v 16) in
  nth (Z.to_nat (Z.shiftr (u32 (v * 130329821)) 27)) DeBruijnClz 0.

(** * Vocabulary of the statements and of their proofs *)

(** ** Counting and sums *)

(** Number of occurrences of [s] in [src], the reference for [FSE_count]. *)
Definition freq (src : list Z) (s : Z) : Z := Z.of_nat (count_occ Z.eq_dec src s).

(** Sum of a count table. *)
Fixpoint sum_list (N : list Z) : Z :=
  match N with
  | [] => 0
  | c :: rest => c + sum_list rest
  end.

(** A counting table of the right size whose entries cannot wrap while
    [room] more symbols are counted. *)
Definition table_ok (c : list Z) (room : Z) : Prop :=
  length c = 256%nat /\ forall i : nat, 0 <= nth i c 0 /\ nth i c 0 + room < 2^32.

(** Sum of the four interleaved tables at index [i]. *)
Definition tables_at (t : list Z * list Z * list Z * list Z) (i : nat) : Z :=
  let '(c1, c2, c3, c4) := t in nth i c1 0 + nth i c2 0 + nth i c3 0 + nth i c4 0.

Definition tables_ok (t : list Z * list Z * list Z * list Z) (room : Z) : Prop :=
  let '(c1, c2, c3, c4) := t in
  table_ok c1 room /\ table_ok c2 room /\ table_ok c3 room /\ table_ok c4 room.

(** ** Spreading *)

(** Cursor position before the [k]-th write of a spread over
    [1 << tableLog] cells. *)
Definition cursor (tableLog k : Z) : Z :=
  (k * FSE_TABLESTEP (Z.shiftl 1 tableLog)) mod Z.shiftl 1 tableLog.

(** The writes of the spread, in order: symbol [v] of [syms] goes to the
    cursor position of its rank. *)
Fixpoint writes (tableLog : Z) (tbl : list Z) (k : Z) (syms : list Z) : list Z :=
  match syms with
  | [] => tbl
  | v :: rest => writes tableLog (wr tbl (cursor tableLog k) v) (k + 1) rest
  end.

(** The symbols in the order the spread emits them. *)
Fixpoint spread_plan (N : list Z) (s : Z) : list Z :=
  match N with
  | [] => []
  | c :: rest => repeat (u8 s) (Z.to_nat c) ++ spread_plan rest (s + 1)
  end.

(** Cell visited by the write of rank [j]. *)
Definition visit (tableLog : Z) (j : nat) : nat := Z.to_nat (cursor tableLog (Z.of_nat j)).

(** ** Bytes and bit fields *)

Definition is_byte (b : Z) : Prop := 0 <= b < 256.

(** Value of a byte string read as a little-endian number. *)
Fixpoint le_val (bs : list Z) : Z :=
  match bs with
  | [] => 0
  | b :: rest => b + 256 * le_val rest
  end.

(** ** Header codec *)

(** The invariant tying [threshold] and [nbBits] to [remaining]. *)
Definition hdr_inv (remaining threshold nbBits : Z) : Prop :=
  threshold = 2 ^ (nbBits - 1) /\ 0 <= nbBits <= 13
  /\ threshold <= remaining /\ (0 < remaining -> remaining < 2 * threshold).

(** Number of bits the writer has produced, and their value. *)
Definition wpos (st : wh_state) : Z := 8 * Z.of_nat (length (wh_out st)) + wh_bitCount st.

Definition bits_val (out : list Z) (bitStream : Z) : Z :=
  le_val out + 2 ^ (8 * Z.of_nat (length out)) * bitStream.

Definition wval (st : wh_state) : Z := bits_val (wh_out st) (wh_bitStream st).

(** Bit offset at which the reader stands. *)
Definition rpos (st : rh_state) : Z := 8 * rh_ip st + rh_bitCount st.

(** A run of zero counts is written as [q] sixteen-bit words of ones,
    then [q3] two-bit groups equal to 3, then a final group [f < 3]. *)
Fixpoint zfield3 (q3 : nat) (f : Z) : Z :=
  match q3 with
  | O => f
  | S q' => 3 + 4 * zfield3 q' f
  end.

Fixpoint zfield24 (q : nat) (G : Z) : Z :=
  match q with
  | O => G
  | S q' => 65535 + 65536 * zfield24 q' G
  end.

(** Mass of the entries of the table [N] from [charnum] on. *)
Definition suffix_sum (N : list Z) (charnum : Z) : Z :=
  sum_list (drop (Z.to_nat charnum) N).

(** State of the writer at the head of its loop, for the table [N]. *)
Definition winv (N : list Z) (st : wh_state) : Prop :=
  Forall is_byte (wh_out st)
  /\ 0 <= wh_bitCount st <= 16
  /\ 0 <= wh_bitStream st < 2 ^ wh_bitCount st
  /\ hdr_inv (wh_remaining st) (wh_threshold st) (wh_nbBits st)
  /\ 0 <= wh_charnum st <= Z.of_nat (length N)
  /\ wh_remaining st = suffix_sum N (wh_charnum st).

(** State of the reader right after a refill. *)
Definition rinv (mem : list Z) (st : rh_state) : Prop :=
  0 <= rh_ip st /\ 0 <= rh_bitCount st < 8
  /\ rh_bitStream st = Z.shiftr (load32 mem (rh_ip st)) (rh_bitCount st).

(** Reader and writer stand at the same point of the same table. *)
Definition rel (N : list Z) (ws : wh_state) (rs : rh_state) : Prop :=
  rh_counts rs = take (Z.to_nat (wh_charnum ws)) N
  /\ rh_remaining rs = wh_remaining ws
  /\ rh_threshold rs = wh_threshold ws
  /\ rh_nbBits rs = wh_nbBits ws
  /\ rh_previous0 rs = wh_previous0 ws
  /\ rpos rs = wpos ws.

(** [ws'] has only added bits above those of [ws]. *)
Definition extends (ws ws' : wh_state) : Prop :=
  wpos ws <= wpos ws' /\ wval ws' mod 2 ^ wpos ws = wval ws.

(** The buffer value [M] agrees with everything [ws] has written. *)
Definition sees (M : Z) (ws : wh_state) : Prop := M mod 2 ^ wpos ws = wval ws.

(** ** Inputs on which the code is evaluated *)

(** Thirty-one symbols, total 109: two symbols occur 40 times, the others
    once. *)
Definition starving_counts : list Z :=
  repeat 1 7 ++ [40] ++ repeat 1 10 ++ [40] ++ repeat 1 12.

(** The bytes 0, 1, ..., 31 followed by one more 0. *)
Definition looping_input : list Z := map Z.of_nat (seq 0 32) ++ [0].

(** ** Coding tables *)

(** A distribution normalized for [tableLog], as the table builders expect it. *)
Definition normalized (N : list Z) (tableLog : Z) : Prop :=
  FSE_MIN_TABLELOG <= tableLog <= FSE_MAX_TABLELOG /\ (length N <= 256)%nat
  /\ Forall (fun c => 0 <= c) N /\ sum_list N = 2 ^ tableLog.

(** The entry the decoding-table loop stores for symbol [s] when its
    counter stands at [nextState]. *)
Definition decode_entry (tableLog s nextState : Z) : FSE_decode_t :=
  let nb := u8 (tableLog - FSE_highbit nextState) in
  {| newState := u16 (u32 (Z.shiftl nextState nb) - Z.shiftl 1 tableLog);
     symbol := s; nbBits := nb |}.

(** Number of cells before cell [i] that hold the same symbol as cell [i]. *)
Definition occ_before (S : list Z) (i : nat) : Z := freq (take i S) (nth i S 0).

(** The spread array both table builders start from: the first
    [1 << tableLog] cells of the scratch array after the spread. *)
Definition spread_of (N : list Z) (tableLog : Z) : list Z :=
  take (Z.to_nat (Z.shiftl 1 tableLog))
       (writes tableLog (repeat 0 (Z.to_nat FSE_MAX_TABLESIZE)) 0 (spread_plan N 0)).

(** [cumul[s]] as [FSE_buildCTable] first computes it: the total weight of
    the symbols below [s]. *)
Definition cumul_before (N : list Z) (s : Z) : Z := sum_list (take (Z.to_nat s) N).

(** The cell of the state table that the table-filling loop writes when it
    stands at cell [k] of the spread array. *)
Definition state_index (N S : list Z) (k : nat) : Z :=
  cumul_before N (nth k S 0) + occ_before S k.

(** The transform the [switch] of [FSE_buildCTable] stores for a symbol of
    weight [c > 0] when [total] is the weight of the symbols before it. *)
Definition symbol_transform (tableLog c total : Z) : FSE_symbolCompressionTransform :=
  if c =? 1 then
    {| deltaFindState := total - 1;
       maxState := u16 (Z.shiftl 1 tableLog * 2 - 1);
       minBitsOut := u8 tableLog |}
  else
    let mbo := u8 ((tableLog - 1) - FSE_highbit (u32 (c - 1))) in
    {| deltaFindState := s32 (total - c);
       maxState := u16 (Z.shiftl c (mbo + 1) - 1);
       minBitsOut := mbo |}.

(** ** Bit streams *)

(** The image under construction holds the payload value [V]: nothing is
    stored yet, or the bytes up to and including the one at [op] are the
    four reserved descriptor bytes followed by the low bytes of [V]. *)
Definition buf_ok (buf : list Z) (op V : Z) : Prop :=
  (buf = [] /\ op = 4)
  \/ (take (Z.to_nat (op + 1)) buf = repeat 0 4 ++ le_bytes (Z.to_nat (op - 3)) V
      /\ op + 1 <= Z.of_nat (length buf) <= op + 8).

(** The encoder has pushed the [n] payload bits [V]; the bytes below [op]
    are stored (they agree with [V0], the value at the last flush) and the
    accumulator holds the bits above them. *)
Definition enc_inv (buf : list Z) (op : Z) (bitC : bitContainer_forward_t) (V0 V n : Z) : Prop :=
  4 <= op /\ 0 <= f_bitPos bitC <= 63
  /\ n = 8 * (op - 4) + f_bitPos bitC
  /\ 0 <= V < 2 ^ n
  /\ f_bitContainer bitC = V / 2 ^ (8 * (op - 4))
  /\ buf_ok buf op V0
  /\ V mod 2 ^ (8 * (op - 4)) = V0 mod 2 ^ (8 * (op - 4)).

(** The payload of a stream stored at offset [c0] of [mem]: the [ntot]
    bits above the 32-bit descriptor are [Vtot]. *)
Definition payload (mem : list Z) (c0 Vtot ntot : Z) : Prop :=
  Forall is_byte mem /\ 0 <= c0 /\ 0 <= ntot
  /\ (le_val mem / 2 ^ (8 * c0 + 32)) mod 2 ^ ntot = Vtot.

(** The backward reader holds the window loaded at [ip] and has [n]
    payload bits left below its read head. *)
Definition dec_at (mem : list Z) (c0 : Z) (bitC : bitContainer_backward_t) (ip n : Z) : Prop :=
  b_bitContainer bitC = load32 mem ip /\ c0 <= ip
  /\ 0 <= b_bitsConsumed bitC /\ 8 * (ip - c0) - b_bitsConsumed bitC = n.

(** One round of the hot loop of the two-state decoder; [None] also when
    the loop guard of the safe variant would stop it. *)
Definition dec_round (mem : list Z) (compressed : Z) (safe : bool)
    (DTable : list FSE_decode_t) (st : dec_state) : option dec_state :=
  if negb safe || (d_ip st >=? compressed) then
    '(sym2, s2, bitC) ← FSE_decodeSymbol (d_state2 st) (d_bitC st) DTable;
    '(sym1, s1, bitC) ← FSE_decodeSymbol (d_state1 st) bitC DTable;
    let '(bitC, ip) := FSE_updateBitStream mem bitC (d_ip st) in
    Some {| d_out := (d_out st ++ [sym2]) ++ [sym1]; d_bitC := bitC; d_ip := ip;
            d_state1 := s1; d_state2 := s2 |}
  else None.

Fixpoint dec_rounds (k : nat) (mem : list Z) (compressed : Z) (safe : bool)
    (DTable : list FSE_decode_t) (st : dec_state) : option dec_state :=
  match k with
  | O => Some st
  | S k' => st ← dec_round mem compressed safe DTable st;
            dec_rounds k' mem compressed safe DTable st
  end.

(** A symbol the tables of [N] can code. *)
Definition coded (N : list Z) (s : Z) : Prop :=
  0 <= s < Z.of_nat (length N) /\ 0 < nth (Z.to_nat s) N 0.

(** The encoder between two rounds: everything pushed is flushed, fewer
    than eight bits are pending, both states are in range. *)
Definition enc_ok (tableLog : Z) (st : enc_state) (V n : Z) : Prop :=
  enc_inv (e_buf st) (e_op st) (e_bitC st) V V n
  /\ f_bitPos (e_bitC st) < 8
  /\ 2 ^ tableLog <= e_state1 st < 2 * 2 ^ tableLog
  /\ 2 ^ tableLog <= e_state2 st < 2 * 2 ^ tableLog.

(** The decoder stands where the encoder stood with states [x1], [x2] and
    [n] payload bits pushed. *)
Definition dec_match (tableLog : Z) (mem : list Z) (c0 : Z) (D : dec_state) (x1 x2 n : Z) : Prop :=
  dec_at mem c0 (d_bitC D) (d_ip D) n
  /\ b_bitsConsumed (d_bitC D) < 8
  /\ d_state1 D = x1 - 2 ^ tableLog
  /\ d_state2 D = x2 - 2 ^ tableLog.

(** ** The header reader on arbitrary input *)

(** State of the reader at the head of its loop while mass remains in a
    table of [2^L]: what it has stored so far is non-negative and leaves
    [remaining]; [threshold] and [nbBits] bracket [remaining]; the read
    position has moved past the six leading bits. *)
Definition rh_inv (L : Z) (st : rh_state) : Prop :=
  0 <= rh_ip st /\ 0 <= rh_bitCount st /\ 6 <= 8 * rh_ip st + rh_bitCount st
  /\ Forall (fun c => 0 <= c) (rh_counts st)
  /\ rh_remaining st = 2 ^ L - sum_list (rh_counts st)
  /\ 1 <= rh_nbBits st <= 21
  /\ rh_threshold st = 2 ^ (rh_nbBits st - 1)
  /\ rh_threshold st <= rh_remaining st < 2 * rh_threshold st.

(** State of the reader when it leaves the loop. *)
Definition rh_done (L : Z) (st : rh_state) : Prop :=
  0 <= rh_ip st /\ 0 <= rh_bitCount st /\ 6 <= 8 * rh_ip st + rh_bitCount st
  /\ Forall (fun c => 0 <= c) (rh_counts st)
  /\ sum_list (rh_counts st) = 2 ^ L
  /\ rh_remaining st = 0 /\ rh_nbBits st = 0
  /\ exists N' c, rh_counts st = N' ++ [c] /\ 0 < c.

(** ** Streams of 16-bit symbols *)

(** A run of encoder steps: from state [x] the symbols [syms] are coded
    in order, each step [P x s x' nb] pushing the [nb] low bits of its
    start state; [F] lists the fields pushed, [x'] is the state
    reached. *)
Inductive chain (P : Z -> Z -> Z -> Z -> Prop) : Z -> list Z -> list (Z * Z) -> Z -> Prop :=
| chain_nil : forall x, chain P x [] [] x
| chain_cons : forall x s x' nb syms F x'',
    P x s x' nb -> chain P x' syms F x'' -> chain P x (s :: syms) ((x, nb) :: F) x''.

(** The same run seen from its end, as the decoder walks it: from the
    state reached, the symbols come out last coded first. *)
Inductive unchain (P : Z -> Z -> Z -> Z -> Prop) : Z -> list Z -> list (Z * Z) -> Z -> Prop :=
| unchain_nil : forall x, unchain P x [] [] x
| unchain_cons : forall x s x' nb syms G x0,
    P x s x' nb -> unchain P x syms G x0 -> unchain P x' (s :: syms) ((x, nb) :: G) x0.

(** Payload value and length after the fields [F] are pushed on [V] of
    [n] bits. *)
Fixpoint pushed (F : list (Z * Z)) (V n : Z) : Z * Z :=
  match F with
  | [] => (V, n)
  | (x, nb) :: F' => pushed F' (V + (x mod 2 ^ nb) * 2 ^ n) (n + nb)
  end.

(** One symbol, for the coder and the decoder of 16-bit symbols: coding
    [s] from state [x] pushes the [nb] low bits of [x] and reaches [x'];
    the decoder on cell [x' - 2^tableLog], with those bits on top of the
    payload, returns [s] and moves to cell [x - 2^tableLog]. *)
Definition stepU16 (tableLog : Z) (ct : CTable_t) (dt16 : list U16.FSE_decodeU16_t)
    (x s x' nb : Z) : Prop :=
  0 <= nb <= tableLog
  /\ 2 ^ tableLog <= x < 2 * 2 ^ tableLog /\ 2 ^ tableLog <= x' < 2 * 2 ^ tableLog
  /\ (forall bitC, FSE_encodeU16 x bitC s ct = Some (x', FSE_addBits bitC x nb))
  /\ (forall mem c0 Vtot ntot bitC ip V n,
        payload mem c0 Vtot ntot -> 0 <= n -> 0 <= V < 2 ^ n -> n + nb <= ntot ->
        Vtot mod 2 ^ (n + nb) = V + (x mod 2 ^ nb) * 2 ^ n ->
        dec_at mem c0 bitC ip (n + nb) -> b_bitsConsumed bitC + nb <= 32 ->
        FSE_decodeSymbolU16 (x' - 2 ^ tableLog) (b_bitContainer bitC) (b_bitsConsumed bitC)
                            dt16
        = Some (s, x - 2 ^ tableLog, b_bitsConsumed bitC + nb)
        /\ dec_at mem c0 {| b_bitContainer := b_bitContainer bitC;
                            b_bitsConsumed := b_bitsConsumed bitC + nb |} ip n).

(** The fields [G], last pushed first, lie below bit [n] of the payload
    [Vtot]. *)
Fixpoint fields_at (Vtot : Z) (G : list (Z * Z)) (n : Z) : Prop :=
  match G with
  | [] => True
  | (x, nb) :: G' =>
      0 <= n - nb
      /\ Vtot mod 2 ^ n = Vtot mod 2 ^ (n - nb) + (x mod 2 ^ nb) * 2 ^ (n - nb)
      /\ fields_at Vtot G' (n - nb)
  end.

(** The encoder between two rounds: everything pushed is flushed, fewer
    than eight bits are pending, the state is in range. *)
Definition encU16_ok (tableLog : Z) (st : encU16_state) (V n : Z) : Prop :=
  enc_inv (eu_buf st) (eu_op st) (eu_bitC st) V V n
  /\ f_bitPos (eu_bitC st) < 8
  /\ 2 ^ tableLog <= eu_state st < 2 * 2 ^ tableLog.

(** The decoder stands where the encoder stood with state [x] and [n]
    payload bits pushed, having stored [out]. *)
Definition decU16_match (tableLog : Z) (mem : list Z) (c0 : Z) (D : decU16_state)
    (x n : Z) (out : list Z) : Prop :=
  dec_at mem c0 (du_bitC D) (du_ip D) n
  /\ b_bitsConsumed (du_bitC D) < 8
  /\ du_state D = x - 2 ^ tableLog
  /\ du_out D = out /\ du_op D = Z.of_nat (length out).

(** ** Counting 16-bit symbols *)

(** A counting table of [size] counters whose entries cannot wrap while
    [room] more symbols are counted. *)
Definition counts_ok (size : nat) (c : list Z) (room : Z) : Prop :=
  length c = size /\ forall i : nat, 0 <= nth i c 0 /\ nth i c 0 + room < 2^32.

(** [v] has bit [i] set exactly when [val] has one of the bits
    [i .. i + w - 1] set. *)
Definition window (val : Z) (w : Z) (v : Z) : Prop :=
  forall i, 0 <= i ->
    (Z.testbit v i = true <-> exists j, 0 <= j < w /\ Z.testbit val (i + j) = true).

(** * Properties *)

(** ** Generic facts on machine integers and arrays *)

Lemma u32_small (x : Z) : 0 <= x < 2^32 -> u32 x = x.
Proof. intros H. unfold u32. apply Z.mod_small. exact H. Qed.

Lemma u16_small (x : Z) : 0 <= x < 2^16 -> u16 x = x.
Proof. intros H. unfold u16. apply Z.mod_small. exact H. Qed.

Lemma u8_small (x : Z) : 0 <= x < 2^8 -> u8 x = x.
Proof. intros H. unfold u8. apply Z.mod_small. exact H. Qed.

Lemma s32_small (x : Z) : - 2^31 <= x < 2^31 -> s32 x = x.
Proof. intros H. unfold s32. rewrite Z.mod_small; lia. Qed.

Lemma repeat_of_Forall_eq (a : Z) (l : list Z) :
  Forall (fun b => b = a) l -> l = repeat a (length l).
Proof.
  induction 1 as [|x l Hx _ IH]; simpl; [reflexivity|].
  rewrite Hx. f_equal. exact IH.
Qed.

Lemma Forall_eq_repeat (a : Z) (n : nat) : Forall (fun b => b = a) (repeat a n).
Proof. induction n; simpl; constructor; auto. Qed.

(** ** Block framing *)

(** C10.  Compressing an empty input is not an error: the early-out for
    [sourceSize <= 1] takes the raw path, which returns 1 and stores the
    single header byte 0; the zero-input test of [FSE_count] is never
    reached.  This holds for every [nbSymbols] and [tableLog] argument. *)
Theorem compress_empty_is_raw_frame :
  forall (fuel : nat) (nbSymbols tableLog : Z),
    FSE_compress2 fuel [] nbSymbols tableLog = Some (1, [0])
    /\ FSE_count [] nbSymbols <> None
    /\ (forall r, FSE_count [] nbSymbols = Some r -> r.1 = -1).
Proof.
  intros fuel nbSymbols tableLog. split; [reflexivity|].
  unfold FSE_count. simpl.
  destruct (nbSymbols >? FSE_MAX_NB_SYMBOLS_CHAR); split; try discriminate;
    intros r Hr; inversion Hr; reflexivity.
Qed.

(** C9.  A stream descriptor whose two top bits encode three or four
    interleaved states makes the block decoder return -1 with nothing
    stored at [dest], in the plain and in the safe variant alike, although
    [FSE_initDecompressionStream_generic] would initialise such states. *)
Theorem decode_block_rejects_3_or_4_states :
  forall (originalSize : Z) (mem : list Z) (compressed maxCompressedSize : Z)
         (DTable : list FSE_decode_t) (tableLog : Z) (safe : bool),
    Z.shiftr (load32 mem compressed) 30 = 2 \/ Z.shiftr (load32 mem compressed) 30 = 3 ->
    FSE_decompress_usingDTable_generic originalSize mem compressed maxCompressedSize
      DTable tableLog safe = Some (-1, []).
Proof.
  intros originalSize mem compressed maxCompressedSize DTable tableLog safe H.
  unfold FSE_decompress_usingDTable_generic, FSE_getNbStates.
  destruct H as [-> | ->]; reflexivity.
Qed.

Lemma decode_block_rejects_3_or_4_states_witness :
  FSE_decompress_usingDTable_generic 10 [40; 0; 0; 128; 1; 2; 3; 4; 5] 0 0 [] 5 false
  = Some (-1, []).
Proof.
  apply (decode_block_rejects_3_or_4_states 10 [40; 0; 0; 128; 1; 2; 3; 4; 5] 0 0 [] 5 false).
  left. reflexivity.
Defined.

(** C8.  A buffer of 1000 bytes all equal to 0x41 is compressed to the
    two-byte single-symbol frame [0x01, 0x41], and decompressing that
    frame with [originalSize = 1000] gives the buffer back. *)
Theorem compress_1000_identical_bytes :
  forall (fuel fuel' : nat) (B : list Z),
    length B = 1000%nat ->
    Forall (fun b => b = 65) B ->
    FSE_compress fuel B = Some (2, [1; 65])
    /\ FSE_decompress fuel' 1000 [1; 65] = Some (2, B).
Proof.
  intros fuel fuel' B Hlen Hall.
  apply repeat_of_Forall_eq in Hall. rewrite Hlen in Hall. subst B.
  split; vm_compute; reflexivity.
Qed.

Lemma compress_1000_identical_bytes_witness :
  FSE_compress 0 (repeat 65 1000) = Some (2, [1; 65])
  /\ FSE_decompress 0 1000 [1; 65] = Some (2, repeat 65 1000).
Proof.
  apply (compress_1000_identical_bytes 0 0 (repeat 65 1000)).
  - reflexivity.
  - apply Forall_eq_repeat.
Defined.

(** ** Table-log selection *)

Lemma norm_tableLog_ge_min (tableLog total nbSymbols : Z) :
  FSE_MIN_TABLELOG <= norm_tableLog tableLog total nbSymbols.
Proof.
  unfold norm_tableLog.
  repeat match goal with |- context [if ?c then _ else _] => destruct c eqn:? end; lia.
Qed.

Lemma norm_tableLog_covers (tableLog total nbSymbols : Z) :
  2 <= nbSymbols < 2^31 ->
  Z.log2_up nbSymbols <= norm_tableLog tableLog total nbSymbols.
Proof.
  intros Hn. unfold norm_tableLog, FSE_highbit.
  rewrite (u32_small nbSymbols) by lia.
  rewrite (u32_small (nbSymbols - 1)) by lia.
  assert (Hup : Z.log2_up nbSymbols = Z.log2 (nbSymbols - 1) + 1).
  { rewrite Z.log2_up_eqn by lia. replace (Z.pred nbSymbols) with (nbSymbols - 1) by lia. lia. }
  assert (Hle : Z.log2_up nbSymbols <= Z.log2 nbSymbols + 1).
  { pose proof (Z.le_log2_up_succ_log2 nbSymbols). lia. }
  set (t2 := if Z.log2 (u32 (total - 1)) + 1 <? _ then _ else _).
  destruct (Z.log2 nbSymbols + 1 >? t2) eqn:E3;
    destruct (_ <? FSE_MIN_TABLELOG) eqn:E4; unfold FSE_MIN_TABLELOG in *; lia.
Qed.

Lemma normalizeCount_returns (fuel : nat) (tableLog : Z) (count : list Z)
    (total nbSymbols L : Z) (N : list Z) :
  FSE_normalizeCount fuel tableLog count total nbSymbols = Some (L, N) ->
  L = -1 \/ L = 0 \/
  (L = norm_tableLog tableLog total nbSymbols /\ L <= FSE_MAX_TABLELOG).
Proof.
  unfold FSE_normalizeCount. intros H.
  destruct (norm_tableLog tableLog total nbSymbols >? FSE_MAX_TABLELOG) eqn:Emax.
  { inversion H. auto. }
  repeat (apply bind_Some in H; destruct H as [[? ?] [_ H]]).
  destruct (u32 _ =? 0); [discriminate|].
  apply bind_Some in H. destruct H as [[single r] [_ H]].
  destruct single; inversion H; subst; [auto|].
  right. right. split; [reflexivity|lia].
Qed.

(** C7.  Whenever [FSE_normalizeCount] returns a table log [L > 0], that
    value lies between [FSE_MIN_TABLELOG = 5] and [FSE_MAX_TABLELOG = 12]
    and is at least [ceil (log2 nbSymbols)], whatever the counts, the
    total and the caller's hint (0 included), for [nbSymbols >= 2]. *)
Theorem normalizeCount_tableLog_range :
  forall (fuel : nat) (tableLog : Z) (count : list Z) (total nbSymbols L : Z) (N : list Z),
    2 <= nbSymbols < 2^31 ->
    FSE_normalizeCount fuel tableLog count total nbSymbols = Some (L, N) ->
    L > 0 ->
    FSE_MIN_TABLELOG <= L <= FSE_MAX_TABLELOG /\ Z.log2_up nbSymbols <= L.
Proof.
  intros fuel tableLog count total nbSymbols L N Hn Hret Hpos.
  apply normalizeCount_returns in Hret.
  destruct Hret as [-> | [-> | [HL Hmax]]]; [lia | lia |].
  pose proof (norm_tableLog_ge_min tableLog total nbSymbols).
  pose proof (norm_tableLog_covers tableLog total nbSymbols Hn).
  lia.
Qed.

Lemma normalizeCount_tableLog_range_witness :
  FSE_MIN_TABLELOG <= 5 <= FSE_MAX_TABLELOG /\ Z.log2_up 2 <= 5.
Proof.
  apply (normalizeCount_tableLog_range 0 0 [3; 5] 8 2 5 [12; 20]).
  - lia.
  - vm_compute. reflexivity.
  - lia.
Defined.

Lemma gtb_false (n m : Z) : n <= m -> (n >? m) = false.
Proof. intros H. rewrite Z.gtb_ltb. apply Z.ltb_ge. exact H. Qed.

Lemma gtb_true (n m : Z) : m < n -> (n >? m) = true.
Proof. intros H. rewrite Z.gtb_ltb. apply Z.ltb_lt. exact H. Qed.

(** ** Symbol counting *)

Lemma freq_nil (s : Z) : freq [] s = 0.
Proof. reflexivity. Qed.

Lemma freq_cons (x : Z) (src : list Z) (s : Z) :
  freq (x :: src) s = (if x =? s then 1 else 0) + freq src s.
Proof.
  unfold freq. simpl. destruct (Z.eq_dec x s) as [->|Hne].
  - rewrite Z.eqb_refl. lia.
  - apply Z.eqb_neq in Hne. rewrite Hne. lia.
Qed.

Lemma freq_bounds (src : list Z) (s : Z) : 0 <= freq src s <= Z.of_nat (length src).
Proof.
  induction src as [|x src IH]; [rewrite freq_nil; simpl; lia|].
  rewrite freq_cons. cbn [length]. destruct (x =? s); lia.
Qed.

Lemma bump_length (c : list Z) (x : Z) : length (bump c x) = length c.
Proof. unfold bump. apply length_insert. Qed.

Lemma nth_bump (c : list Z) (x : Z) (i : nat) :
  0 <= x -> (Z.to_nat x < length c)%nat ->
  nth i (bump c x) 0 = if x =? Z.of_nat i then u32 (nth i c 0 + 1) else nth i c 0.
Proof.
  intros Hx Hlen. unfold bump. rewrite !nth_lookup.
  destruct (x =? Z.of_nat i) eqn:E.
  - apply Z.eqb_eq in E. subst x. rewrite Nat2Z.id in *.
    rewrite list_lookup_insert_eq by exact Hlen. reflexivity.
  - apply Z.eqb_neq in E. rewrite list_lookup_insert_ne by lia. reflexivity.
Qed.

Lemma table_ok_weaken (c : list Z) (room room' : Z) :
  room' <= room -> table_ok c room -> table_ok c room'.
Proof.
  intros Hle [Hlen Hb]. split; [exact Hlen|]. intros i. specialize (Hb i). lia.
Qed.

Lemma bump_spec (c : list Z) (x room : Z) :
  0 <= x < 256 -> table_ok c (room + 1) -> 0 <= room ->
  table_ok (bump c x) room
  /\ forall i : nat, nth i (bump c x) 0 = nth i c 0 + (if x =? Z.of_nat i then 1 else 0).
Proof.
  intros Hx [Hlen Hb] Hroom.
  assert (Hnth : forall i : nat,
             nth i (bump c x) 0 = nth i c 0 + (if x =? Z.of_nat i then 1 else 0)).
  { intros i. rewrite nth_bump by lia. specialize (Hb i).
    destruct (x =? Z.of_nat i); [rewrite u32_small; lia | lia]. }
  split; [|exact Hnth].
  split; [rewrite bump_length; exact Hlen|].
  intros i. rewrite Hnth. specialize (Hb i). destruct (x =? Z.of_nat i); lia.
Qed.

Lemma count_tail_spec (src : list Z) :
  forall c : list Z,
    Forall (fun b => 0 <= b < 256) src ->
    table_ok c (Z.of_nat (length src)) ->
    table_ok (count_tail src c) 0
    /\ forall i : nat, nth i (count_tail src c) 0 = nth i c 0 + freq src (Z.of_nat i).
Proof.
  induction src as [|x src IH]; intros c Hb Hok.
  - simpl. split; [exact Hok|]. intros i. rewrite freq_nil. lia.
  - inversion Hb as [|? ? Hx Hb']; subst. cbn [count_tail].
    cbn [length] in Hok. rewrite Nat2Z.inj_succ in Hok.
    destruct (bump_spec c x (Z.of_nat (length src)) Hx) as [Hok' Hnth];
      [eapply table_ok_weaken; [|exact Hok]; lia | lia |].
    destruct (IH (bump c x) Hb' Hok') as [Hok'' Hnth'].
    split; [exact Hok''|]. intros i. rewrite Hnth', Hnth, freq_cons. lia.
Qed.

Lemma count_scan_spec (n : nat) :
  forall (src c1 c2 c3 c4 : list Z),
    (length src <= n)%nat ->
    Forall (fun b => 0 <= b < 256) src ->
    tables_ok (c1, c2, c3, c4) (Z.of_nat (length src)) ->
    tables_ok (count_scan src c1 c2 c3 c4) 0
    /\ forall i : nat,
        tables_at (count_scan src c1 c2 c3 c4) i
        = tables_at (c1, c2, c3, c4) i + freq src (Z.of_nat i).
Proof.
  induction n as [n IH] using lt_wf_ind.
  intros src c1 c2 c3 c4 Hn Hb (H1 & H2 & H3 & H4).
  assert (Htail : forall l : list Z,
             l = src ->
             tables_ok (count_tail l c1, c2, c3, c4) 0
             /\ forall i : nat,
                 tables_at (count_tail l c1, c2, c3, c4) i
                 = tables_at (c1, c2, c3, c4) i + freq l (Z.of_nat i)).
  { intros l ->. destruct (count_tail_spec src c1 Hb H1) as [Hok Hnth].
    split.
    - cbn [tables_ok]. split; [exact Hok|].
      split; [eapply table_ok_weaken; [|exact H2]; lia|].
      split; [eapply table_ok_weaken; [|exact H3]; lia|].
      eapply table_ok_weaken; [|exact H4]; lia.
    - intros i. cbn [tables_at]. rewrite Hnth. lia. }
  destruct src as [|a [|b [|c [|d rest]]]]; try (apply Htail; reflexivity).
  clear Htail. cbn [count_scan].
  inversion Hb as [|? ? Ha Hb1]; subst. inversion Hb1 as [|? ? Hb' Hb2]; subst.
  inversion Hb2 as [|? ? Hc Hb3]; subst. inversion Hb3 as [|? ? Hd Hb4]; subst.
  cbn [length] in *. rewrite !Nat2Z.inj_succ in *.
  set (r := Z.of_nat (length rest)) in *.
  assert (Hr : 0 <= r) by (unfold r; lia).
  destruct (bump_spec c1 a r Ha) as [K1 N1]; [eapply table_ok_weaken; [|exact H1]; lia | lia |].
  destruct (bump_spec c2 b r Hb') as [K2 N2]; [eapply table_ok_weaken; [|exact H2]; lia | lia |].
  destruct (bump_spec c3 c r Hc) as [K3 N3]; [eapply table_ok_weaken; [|exact H3]; lia | lia |].
  destruct (bump_spec c4 d r Hd) as [K4 N4]; [eapply table_ok_weaken; [|exact H4]; lia | lia |].
  destruct (IH (length rest) ltac:(lia) rest (bump c1 a) (bump c2 b) (bump c3 c) (bump c4 d)
              ltac:(lia) Hb4 (conj K1 (conj K2 (conj K3 K4)))) as [Hok Hat].
  split; [exact Hok|].
  intros i. rewrite Hat. cbn [tables_at]. rewrite N1, N2, N3, N4, !freq_cons. lia.
Qed.

Lemma zeros_table_ok (room : Z) :
  0 <= room < 2^32 -> table_ok (repeat 0 (Z.to_nat FSE_MAX_NB_SYMBOLS_CHAR)) room.
Proof.
  intros Hr. split; [reflexivity|]. intros i.
  assert (nth i (repeat 0 (Z.to_nat FSE_MAX_NB_SYMBOLS_CHAR)) 0 = 0) as ->.
  { rewrite nth_repeat. reflexivity. }
  lia.
Qed.

Lemma rd_count_sum (c1 c2 c3 c4 : list Z) (cap s : Z) :
  0 <= s < cap ->
  rd (count_sum c1 c2 c3 c4 cap) s
  = Some (u32 (tables_at (c1, c2, c3, c4) (Z.to_nat s))).
Proof.
  intros Hs. unfold rd, count_sum.
  destruct (s <? 0) eqn:E; [lia|].
  rewrite list_lookup_fmap, lookup_seq_lt by lia. reflexivity.
Qed.

Lemma count_sum_length (c1 c2 c3 c4 : list Z) (cap : Z) :
  length (count_sum c1 c2 c3 c4 cap) = Z.to_nat cap.
Proof. unfold count_sum. rewrite length_map, length_seq. reflexivity. Qed.

(** The trimming loop returns the index after the last non-zero entry
    when there is one below [m]. *)
Lemma count_trim_spec (fuel : nat) :
  forall (count : list Z) (m : Z),
    (Z.to_nat m < fuel)%nat ->
    Z.of_nat (length count) >= m ->
    (exists j c, 0 <= j < m /\ rd count j = Some c /\ c <> 0) ->
    exists n c, count_trim fuel count m = Some n /\ 1 <= n <= m
              /\ rd count (n - 1) = Some c /\ c <> 0
              /\ forall s, n <= s < m -> rd count s = Some 0.
Proof.
  induction fuel as [|fuel IH]; intros count m Hfuel Hlen (j & c & Hj & Hrd & Hc); [lia|].
  cbn [count_trim].
  assert (Hin : exists v, rd count (m - 1) = Some v).
  { unfold rd. destruct (m - 1 <? 0) eqn:E; [lia|].
    destruct (lookup_lt_is_Some_2 count (Z.to_nat (m - 1))) as [v Hv]; [lia|]. eauto. }
  destruct Hin as [v Hv]. rewrite Hv. cbn [mbind option_bind].
  destruct (v =? 0) eqn:Ev.
  - apply Z.eqb_eq in Ev. subst v.
    assert (Hjm : j < m - 1).
    { destruct (Z.eq_dec j (m - 1)) as [->|]; [|lia]. congruence. }
    destruct (IH count (m - 1) ltac:(lia) ltac:(lia)) as (n & c' & Hn & Hr & Hc1 & Hc2 & Hz).
    { exists j, c. repeat split; auto; lia. }
    exists n, c'. repeat split; auto; try lia.
    intros s Hs. destruct (Z.eq_dec s (m - 1)) as [->|]; [exact Hv | apply Hz; lia].
  - apply Z.eqb_neq in Ev. exists m, v. repeat split; auto; try lia.
Qed.

Lemma count_trim_positive (fuel : nat) :
  forall (count : list Z) (m n : Z), count_trim fuel count m = Some n -> 1 <= n.
Proof.
  induction fuel as [|fuel IH]; intros count m n H; [discriminate|].
  cbn [count_trim] in H. apply bind_Some in H. destruct H as (c & Hrd & H).
  destruct (c =? 0); [eapply IH; exact H|].
  inversion H; subst. unfold rd in Hrd. destruct (n - 1 <? 0) eqn:E; [discriminate|lia].
Qed.

(** C6 (as amended).  On a byte buffer, [FSE_count] returns -1 exactly when
    the buffer is empty or the cap exceeds 256.  Otherwise, provided one
    input symbol lies below the cap (0 standing for 256), it fills
    [C[0..cap)] with the occurrence counts of the input and returns the
    LARGEST [n <= cap] with [C[n-1] > 0]: every entry from [n] on is zero
    (trailing zeros trimmed). *)
Theorem count_frequencies_and_trim :
  forall (source : list Z) (maxNbSymbols : Z),
    Forall (fun b => 0 <= b < 256) source ->
    Z.of_nat (length source) < 2^31 ->
    let cap := if maxNbSymbols =? 0 then 256 else maxNbSymbols in
    ((source = [] \/ maxNbSymbols > 256)
     <-> exists C, FSE_count source maxNbSymbols = Some (-1, C))
    /\ (source <> [] -> maxNbSymbols <= 256 -> Exists (fun b => b < cap) source ->
        exists n C,
          FSE_count source maxNbSymbols = Some (n, C)
          /\ Z.of_nat (length C) = cap
          /\ (forall s, 0 <= s < cap -> rd C s = Some (freq source s))
          /\ 1 <= n <= cap
          /\ freq source (n - 1) > 0
          /\ (forall s, n <= s < cap -> freq source s = 0)).
Proof.
  intros source maxNbSymbols Hbytes Hlen cap.
  assert (Hsucc : source <> [] -> maxNbSymbols <= 256 -> Exists (fun b => b < cap) source ->
        exists n C,
          FSE_count source maxNbSymbols = Some (n, C)
          /\ Z.of_nat (length C) = cap
          /\ (forall s, 0 <= s < cap -> rd C s = Some (freq source s))
          /\ 1 <= n <= cap
          /\ freq source (n - 1) > 0
          /\ (forall s, n <= s < cap -> freq source s = 0)).
  { intros Hne Hmax Hex.
    assert (Hcap : 0 < cap <= 256).
    { apply Exists_exists in Hex. destruct Hex as (b & Hin & Hb).
      rewrite Forall_forall in Hbytes. specialize (Hbytes b Hin).
      unfold cap in *. destruct (maxNbSymbols =? 0); lia. }
    unfold FSE_count.
    replace (maxNbSymbols >? FSE_MAX_NB_SYMBOLS_CHAR) with false
      by (symmetry; apply gtb_false; unfold FSE_MAX_NB_SYMBOLS_CHAR; simpl; lia).
    change (if maxNbSymbols =? 0 then FSE_MAX_NB_SYMBOLS_CHAR else maxNbSymbols) with cap.
    replace (Z.of_nat (length source) =? 0) with false
      by (symmetry; apply Z.eqb_neq; destruct source; [congruence | cbn [length]; lia]).
    set (zeros := repeat 0 (Z.to_nat FSE_MAX_NB_SYMBOLS_CHAR)).
    assert (Hz : table_ok zeros (Z.of_nat (length source))) by (apply zeros_table_ok; lia).
    destruct (count_scan_spec (length source) source zeros zeros zeros zeros
                ltac:(lia) Hbytes (conj Hz (conj Hz (conj Hz Hz)))) as [Hok Hat].
    destruct (count_scan source zeros zeros zeros zeros) as [[[c1 c2] c3] c4] eqn:Escan.
    assert (Hval : forall s, 0 <= s < cap ->
               rd (count_sum c1 c2 c3 c4 cap) s = Some (freq source s)).
    { intros s Hs. rewrite rd_count_sum by lia. rewrite Hat.
      cbn [tables_at]. unfold zeros. rewrite !nth_repeat.
      rewrite Z2Nat.id by lia. pose proof (freq_bounds source s).
      rewrite u32_small by lia. f_equal; lia. }
    destruct (count_trim_spec (S (Z.to_nat cap)) (count_sum c1 c2 c3 c4 cap) cap)
      as (n & c & Htrim & Hn & Hrn & Hcn & Hzero).
    { lia. }
    { rewrite count_sum_length. lia. }
    { apply Exists_exists in Hex. destruct Hex as (b & Hin & Hb).
      rewrite Forall_forall in Hbytes. specialize (Hbytes b Hin).
      exists b, (freq source b). split; [lia|]. split; [apply Hval; lia|].
      unfold freq. apply list_elem_of_In in Hin. apply (count_occ_In Z.eq_dec) in Hin. lia. }
    rewrite Htrim. cbn [mbind option_bind].
    exists n, (count_sum c1 c2 c3 c4 cap).
    split; [reflexivity|].
    split; [rewrite count_sum_length; lia|].
    split; [exact Hval|].
    split; [exact Hn|].
    split.
    - rewrite Hval in Hrn by lia. inversion Hrn; subst c.
      pose proof (freq_bounds source (n - 1)). lia.
    - intros s Hs. specialize (Hzero s Hs). rewrite Hval in Hzero by lia.
      inversion Hzero. reflexivity. }
  split; [|exact Hsucc].
  split.
  - intros [-> | Hgt].
    + unfold FSE_count. cbn [length]. destruct (maxNbSymbols >? _); eexists; reflexivity.
    + unfold FSE_count.
      replace (maxNbSymbols >? FSE_MAX_NB_SYMBOLS_CHAR) with true
        by (symmetry; apply gtb_true; unfold FSE_MAX_NB_SYMBOLS_CHAR; simpl; lia).
      eexists; reflexivity.
  - intros [C HC].
    destruct (Z_gt_dec maxNbSymbols 256) as [|Hmax]; [right; assumption|].
    destruct source as [|x src]; [left; reflexivity|].
    exfalso. unfold FSE_count in HC.
    replace (maxNbSymbols >? FSE_MAX_NB_SYMBOLS_CHAR) with false in HC
      by (symmetry; apply gtb_false; unfold FSE_MAX_NB_SYMBOLS_CHAR; simpl; lia).
    replace (Z.of_nat (length (x :: src)) =? 0) with false in HC
      by (symmetry; apply Z.eqb_neq; cbn [length]; lia).
    destruct (count_scan _ _ _ _ _) as [[[c1 c2] c3] c4].
    apply bind_Some in HC. destruct HC as (r & Htrim & HC).
    apply count_trim_positive in Htrim. inversion HC. lia.
Qed.

Lemma count_frequencies_and_trim_witness :
  exists n C, FSE_count [0; 5; 5; 2] 0 = Some (n, C) /\ n = 6 /\ rd C 5 = Some 2.
Proof.
  destruct (count_frequencies_and_trim [0; 5; 5; 2] 0) as [_ H].
  - repeat constructor; lia.
  - simpl. lia.
  - destruct H as (n & C & Hc & Hlen & Hfreq & Hn & Hpos & Hzero).
    + discriminate.
    + lia.
    + constructor. simpl. lia.
    + exists n, C. split; [exact Hc|].
      vm_compute in Hc. inversion Hc; subst. split; reflexivity.
Defined.

(** The claim as worded asks for the SMALLEST [n] with [C[n-1] > 0], for
    every cap up to the maximum.  On the two-byte input [0, 5] the
    function returns 6 although [C[0] > 0] already; and on the input [5]
    with cap 3 no entry of [C[0..3)] is positive, so that no such [n]
    exists: the trimming loop runs off the start of the table. *)
Lemma count_not_smallest_nor_total :
  (exists C, FSE_count [0; 5] 256 = Some (6, C) /\ rd C 0 = Some 1 /\ 1 < 6)
  /\ FSE_count [5] 3 = None
  /\ (forall s, 0 <= s < 3 -> freq [5] s = 0).
Proof.
  split; [eexists; split; [vm_compute; reflexivity | split; [reflexivity | lia]]|].
  split; [vm_compute; reflexivity|].
  intros s Hs. unfold freq. cbn [count_occ].
  destruct (Z.eq_dec 5 s); [lia | reflexivity].
Qed.

(** ** Symbol spreading *)

Lemma rd_wr_eq (a : list Z) (i v : Z) :
  0 <= i < Z.of_nat (length a) -> rd (wr a i v) i = Some v.
Proof.
  intros H. unfold rd, wr. destruct (i <? 0) eqn:E; [lia|].
  apply list_lookup_insert_eq. lia.
Qed.

Lemma rd_wr_ne (a : list Z) (i j v : Z) :
  0 <= j -> i <> j -> rd (wr a i v) j = rd a j.
Proof.
  intros Hj Hne. unfold rd, wr. destruct (j <? 0) eqn:E; [lia|].
  destruct (i <? 0) eqn:E'; [reflexivity|].
  apply list_lookup_insert_ne. lia.
Qed.

Lemma wr_length (a : list Z) (i v : Z) : length (wr a i v) = length a.
Proof. unfold wr. destruct (i <? 0); [reflexivity | apply length_insert]. Qed.

Lemma land_mask (x L : Z) : 0 <= L -> Z.land x (Z.shiftl 1 L - 1) = x mod 2^L.
Proof.
  intros HL. rewrite Z.shiftl_1_l. rewrite <- Z.land_ones by exact HL.
  rewrite Z.ones_equiv. reflexivity.
Qed.

(** An odd factor can be cancelled from a multiple of a power of two. *)
Lemma pow2_divide_odd_multiple (L : nat) :
  forall d h : Z, (2 ^ Z.of_nat L | d * (2 * h + 1)) -> (2 ^ Z.of_nat L | d).
Proof.
  induction L as [|L IH]; intros d h [q Hq].
  - exists d. simpl. lia.
  - rewrite Nat2Z.inj_succ, Z.pow_succ_r in * by lia.
    assert (Heven : exists d', d = 2 * d').
    { exists (q * 2 ^ Z.of_nat L - d * h). lia. }
    destruct Heven as [d' ->].
    destruct (IH d' h) as [q' Hq'].
    + exists q. lia.
    + exists q'. lia.
Qed.

Section Spread.

Variable tableLog : Z.
Hypothesis tableLog_supported : FSE_MIN_TABLELOG <= tableLog <= FSE_MAX_TABLELOG.

Lemma tableLog_range : 5 <= tableLog <= 12.
Proof. exact tableLog_supported. Qed.

Let T : Z := Z.shiftl 1 tableLog.
Let step : Z := FSE_TABLESTEP T.

Lemma T_pow : T = 2 ^ tableLog.
Proof. unfold T. apply Z.shiftl_1_l. Qed.

Lemma T_bounds : 16 <= T <= 4096.
Proof.
  pose proof tableLog_range as HL. rewrite T_pow. split.
  - change 16 with (2^4). apply Z.pow_le_mono_r; lia.
  - change 4096 with (2^12). apply Z.pow_le_mono_r; lia.
Qed.

Lemma step_odd : exists h, step = 2 * h + 1 /\ 0 <= h < T.
Proof.
  unfold step, FSE_TABLESTEP. rewrite !Z.shiftr_div_pow2 by lia.
  pose proof T_bounds as HT. pose proof tableLog_range as HL.
  assert (HT16 : exists q, T = 16 * q).
  { exists (2 ^ (tableLog - 4)). rewrite T_pow.
    replace tableLog with (4 + (tableLog - 4)) at 1 by lia.
    rewrite Z.pow_add_r by lia. reflexivity. }
  destruct HT16 as [q Hq].
  assert (H2 : T / 2 ^ 1 = 8 * q).
  { symmetry. apply Z.div_unique_exact; [lia|]. rewrite Hq. lia. }
  assert (H8 : T / 2 ^ 3 = 2 * q).
  { symmetry. apply Z.div_unique_exact; [lia|]. rewrite Hq. lia. }
  rewrite H2, H8.
  exists (5 * q + 1). lia.
Qed.

Lemma cursor_range (k : Z) : 0 <= cursor tableLog k < T.
Proof. unfold cursor. fold T. apply Z.mod_pos_bound. pose proof T_bounds. lia. Qed.

Lemma cursor_inj (j j' : Z) :
  0 <= j < T -> 0 <= j' < T -> cursor tableLog j = cursor tableLog j' -> j = j'.
Proof.
  intros Hj Hj' Heq. unfold cursor in Heq. fold T in Heq. fold step in Heq.
  pose proof T_bounds as HT.
  pose proof tableLog_range as HL.
  assert (Hdiv : (T | (j - j') * step)).
  { apply Z.mod_divide; [lia|].
    rewrite Z.mul_sub_distr_r, Zminus_mod, Heq, Z.sub_diag. apply Zmod_0_l. }
  destruct step_odd as (h & Hh & _). rewrite Hh, T_pow in Hdiv.
  rewrite <- (Z2Nat.id tableLog) in Hdiv by lia.
  apply pow2_divide_odd_multiple in Hdiv.
  rewrite Z2Nat.id, <- T_pow in Hdiv by lia.
  destruct Hdiv as [q Hq].
  assert (q < 1) by nia. assert (-1 < q) by nia. nia.
Qed.

Lemma cursor_next (k : Z) :
  Z.land (u32 (cursor tableLog k + step)) (T - 1) = cursor tableLog (k + 1).
Proof.
  pose proof (cursor_range k) as Hc. pose proof T_bounds as HT.
  pose proof tableLog_range as HL.
  destruct step_odd as (h & Hh & Hhr).
  rewrite u32_small by lia.
  change (T - 1) with (Z.shiftl 1 tableLog - 1). rewrite land_mask by lia. rewrite <- T_pow.
  unfold cursor. fold T. fold step. rewrite Z.add_mod_idemp_l by lia. f_equal. lia.
Qed.

Lemma writes_app (a b : list Z) :
  forall (tbl : list Z) (k : Z),
    writes tableLog tbl k (a ++ b) = writes tableLog (writes tableLog tbl k a) (k + Z.of_nat (length a)) b.
Proof.
  induction a as [|v a IH]; intros tbl k; cbn [writes app length].
  - f_equal. lia.
  - rewrite IH. f_equal. lia.
Qed.

Lemma writes_length (syms : list Z) :
  forall (tbl : list Z) (k : Z), length (writes tableLog tbl k syms) = length tbl.
Proof.
  induction syms as [|v syms IH]; intros tbl k; cbn [writes]; [reflexivity|].
  rewrite IH. apply wr_length.
Qed.

Lemma spread_symbol_writes (n : nat) :
  forall (tbl : list Z) (s k : Z),
    spread_symbol n tbl s (cursor tableLog k) step (T - 1)
    = (writes tableLog tbl k (repeat (u8 s) n), cursor tableLog (k + Z.of_nat n)).
Proof.
  induction n as [|n IH]; intros tbl s k.
  - cbn [spread_symbol repeat writes]. f_equal. f_equal. lia.
  - cbn [spread_symbol repeat writes]. rewrite cursor_next, IH. f_equal. f_equal. lia.
Qed.

Lemma spread_plan_length (N : list Z) :
  forall s, Forall (fun c => 0 <= c) N ->
            Z.of_nat (length (spread_plan N s)) = sum_list N.
Proof.
  induction N as [|c N IH]; intros s HN; [reflexivity|].
  inversion HN; subst. cbn [spread_plan sum_list].
  rewrite length_app, repeat_length, Nat2Z.inj_add, IH by assumption. lia.
Qed.

Lemma spread_loop_writes (N : list Z) :
  forall (tbl : list Z) (s k : Z),
    Forall (fun c => 0 <= c) N ->
    spread_loop (length N) N tbl s (cursor tableLog k) step (T - 1)
    = Some (writes tableLog tbl k (spread_plan N s), cursor tableLog (k + sum_list N)).
Proof.
  induction N as [|c N IH]; intros tbl s k HN.
  - cbn [spread_loop length spread_plan writes sum_list]. do 3 f_equal. lia.
  - inversion HN; subst. cbn [spread_loop length spread_plan sum_list].
    rewrite spread_symbol_writes, IH by assumption.
    rewrite writes_app, repeat_length. do 3 f_equal; lia.
Qed.

(** A cell keeps its content unless the cursor visits it. *)
Lemma writes_other (syms : list Z) :
  forall (tbl : list Z) (k p : Z),
    0 <= p ->
    (forall j, 0 <= j < Z.of_nat (length syms) -> cursor tableLog (k + j) <> p) ->
    rd (writes tableLog tbl k syms) p = rd tbl p.
Proof.
  induction syms as [|v syms IH]; intros tbl k p Hp Hfree; cbn [writes]; [reflexivity|].
  cbn [length] in Hfree. rewrite IH.
  - apply rd_wr_ne; [exact Hp|]. specialize (Hfree 0 ltac:(lia)).
    rewrite Z.add_0_r in Hfree. exact Hfree.
  - exact Hp.
  - intros j Hj. specialize (Hfree (j + 1) ltac:(lia)).
    replace (k + 1 + j) with (k + (j + 1)) by lia. exact Hfree.
Qed.

(** While fewer than [T] symbols are written, the cell visited at rank
    [k + j] ends up holding the symbol of rank [j]. *)
Lemma writes_at (syms : list Z) :
  forall (tbl : list Z) (k : Z) (j : nat),
    0 <= k -> k + Z.of_nat (length syms) <= T -> T <= Z.of_nat (length tbl) ->
    (j < length syms)%nat ->
    rd (writes tableLog tbl k syms) (cursor tableLog (k + Z.of_nat j)) = Some (nth j syms 0).
Proof.
  induction syms as [|v syms IH]; intros tbl k j Hk Hfit Hlen Hj; cbn [length] in *; [lia|].
  cbn [writes]. destruct j as [|j].
  - rewrite Z.add_0_r. cbn [nth].
    rewrite writes_other.
    + apply rd_wr_eq. pose proof (cursor_range k). lia.
    + pose proof (cursor_range k). lia.
    + intros i Hi Heq. apply cursor_inj in Heq; lia.
  - cbn [nth]. replace (k + Z.of_nat (S j)) with (k + 1 + Z.of_nat j) by lia.
    apply IH; try lia. rewrite wr_length. exact Hlen.
Qed.

Lemma Permutation_count_occ_freq (l1 l2 : list Z) :
  Permutation l1 l2 -> forall x, freq l1 x = freq l2 x.
Proof.
  intros HP x. unfold freq. f_equal. revert x.
  apply (Permutation_count_occ Z.eq_dec). exact HP.
Qed.

(** Occurrences of symbol [x] among the emitted symbols. *)
Lemma freq_app (a b : list Z) (x : Z) : freq (a ++ b) x = freq a x + freq b x.
Proof. unfold freq. rewrite count_occ_app. lia. Qed.

Lemma freq_repeat (v x : Z) (n : nat) :
  freq (repeat v n) x = if v =? x then Z.of_nat n else 0.
Proof.
  induction n as [|n IH]; cbn [repeat].
  - rewrite freq_nil. destruct (v =? x); reflexivity.
  - rewrite freq_cons, IH. destruct (v =? x); lia.
Qed.

Lemma spread_plan_freq (N : list Z) :
  forall (s x : Z),
    0 <= s -> s + Z.of_nat (length N) <= 256 ->
    Forall (fun c => 0 <= c) N ->
    freq (spread_plan N s) x
    = if (s <=? x) && (x <? s + Z.of_nat (length N)) then nth (Z.to_nat (x - s)) N 0 else 0.
Proof.
  induction N as [|c N IH]; intros s x Hs Hfit HN.
  - cbn [spread_plan length]. rewrite freq_nil.
    destruct ((s <=? x) && (x <? s + Z.of_nat 0)) eqn:E; [|reflexivity]. lia.
  - inversion HN; subst. cbn [length] in Hfit. cbn [spread_plan].
    rewrite freq_app, freq_repeat, IH by (try assumption; lia).
    rewrite u8_small by lia. cbn [length].
    destruct (Z.eq_dec s x) as [->|Hne].
    + rewrite Z.eqb_refl. replace (x - x) with 0 by lia. change (Z.to_nat 0) with 0%nat. cbn [nth].
      destruct ((x + 1 <=? x) && (x <? x + 1 + Z.of_nat (length N))) eqn:E1; [lia|].
      destruct ((x <=? x) && (x <? x + Z.of_nat (S (length N)))) eqn:E2; cbv iota; lia.
    + apply Z.eqb_neq in Hne. rewrite Hne. apply Z.eqb_neq in Hne.
      destruct ((s + 1 <=? x) && (x <? s + 1 + Z.of_nat (length N))) eqn:E1;
        destruct ((s <=? x) && (x <? s + Z.of_nat (S (length N)))) eqn:E2; cbv iota; try lia.
      replace (Z.to_nat (x - s)) with (S (Z.to_nat (x - (s + 1)))) by lia.
      reflexivity.
Qed.

(** The cursor positions of ranks [0 .. T) are a rearrangement of the
    cells [0 .. T). *)
Lemma visits_permutation :
  Permutation (map (visit tableLog) (seq 0 (Z.to_nat T))) (seq 0 (Z.to_nat T)).
Proof.
  pose proof T_bounds as HT.
  apply NoDup_Permutation_bis.
  - apply Finite.Injective_map_NoDup_in; [|apply seq_NoDup].
    intros a b Ha Hb Heq. apply in_seq in Ha, Hb. unfold visit in Heq.
    pose proof (cursor_range (Z.of_nat a)). pose proof (cursor_range (Z.of_nat b)).
    assert (Hc : cursor tableLog (Z.of_nat a) = cursor tableLog (Z.of_nat b)) by lia.
    apply cursor_inj in Hc; lia.
  - rewrite length_map. lia.
  - intros p Hp. apply in_map_iff in Hp. destruct Hp as (j & <- & Hj).
    apply in_seq. unfold visit. pose proof (cursor_range (Z.of_nat j)). lia.
Qed.

Lemma take_as_map (l : list Z) (n : nat) :
  (n <= length l)%nat -> take n l = map (fun i => nth i l 0) (seq 0 n).
Proof.
  intros Hn. apply nth_ext with (d := 0) (d' := 0).
  - rewrite length_take, length_map, length_seq. lia.
  - intros i Hi. rewrite length_take in Hi.
    rewrite (nth_indep (map _ _) 0 (nth 0 l 0)) by (rewrite length_map, length_seq; lia).
    rewrite (map_nth (fun i => nth i l 0)), seq_nth by lia.
    rewrite !nth_lookup, lookup_take_lt by lia. reflexivity.
Qed.

Lemma rd_nth (l : list Z) (i : nat) (v : Z) :
  rd l (Z.of_nat i) = Some v -> nth i l 0 = v.
Proof.
  unfold rd. destruct (Z.of_nat i <? 0) eqn:E; [lia|].
  rewrite Nat2Z.id, nth_lookup. intros ->. reflexivity.
Qed.

(** After [T] writes the first [T] cells are a rearrangement of the
    emitted symbols. *)
Lemma writes_full (syms tbl : list Z) :
  Z.of_nat (length syms) = T -> T <= Z.of_nat (length tbl) ->
  Permutation (take (Z.to_nat T) (writes tableLog tbl 0 syms)) syms.
Proof.
  intros Hsyms Hlen. pose proof T_bounds as HT.
  set (S := writes tableLog tbl 0 syms).
  rewrite take_as_map by (unfold S; rewrite writes_length; lia).
  rewrite <- (Permutation_map (fun i => nth i S 0) visits_permutation).
  rewrite map_map.
  assert (Heq : map (fun j => nth (visit tableLog j) S 0) (seq 0 (Z.to_nat T)) = syms).
  { apply nth_ext with (d := 0) (d' := 0).
    - rewrite length_map, length_seq. lia.
    - intros j Hj. rewrite length_map, length_seq in Hj.
      rewrite (nth_indep (map _ _) 0 (nth (visit tableLog 0) S 0)) by (rewrite length_map, length_seq; lia).
      rewrite (map_nth (fun j => nth (visit tableLog j) S 0)), seq_nth by lia. cbn [Nat.add].
      apply rd_nth. unfold visit. pose proof (cursor_range (Z.of_nat j)).
      rewrite Z2Nat.id by lia.
      apply (writes_at syms tbl 0 j); lia. }
  rewrite Heq. reflexivity.
Qed.

(** C4.  For a table log in the supported range and at most 256 symbols
    with non-negative weights summing to [T = 2^tableLog], the spreader
    reports success, its cursor is back at position 0 after the [T]
    writes, and in the array [S[0..T)] it leaves each symbol [s] occurs
    exactly [N[s]] times (cells from [T] on are untouched). *)
Theorem spread_places_each_symbol :
  forall (tableSymbolByte N : list Z),
    (length N <= 256)%nat ->
    Forall (fun c => 0 <= c) N ->
    sum_list N = 2 ^ tableLog ->
    2 ^ tableLog <= Z.of_nat (length tableSymbolByte) ->
    exists S,
      FSE_spreadSymbols8 tableSymbolByte N (Z.of_nat (length N)) tableLog = Some (0, S)
      /\ spread_loop (length N) N tableSymbolByte 0 0 (FSE_TABLESTEP (2 ^ tableLog))
                     (2 ^ tableLog - 1) = Some (S, 0)
      /\ length S = length tableSymbolByte
      /\ drop (Z.to_nat (2 ^ tableLog)) S = drop (Z.to_nat (2 ^ tableLog)) tableSymbolByte
      /\ forall s, 0 <= s < Z.of_nat (length N) ->
                   freq (take (Z.to_nat (2 ^ tableLog)) S) s = nth (Z.to_nat s) N 0.
Proof.
  intros tbl N HN256 HN Hsum Hlen. rewrite <- T_pow in *.
  pose proof T_bounds as HT.
  exists (writes tableLog tbl 0 (spread_plan N 0)).
  assert (Hloop : spread_loop (length N) N tbl 0 0 step (T - 1)
                  = Some (writes tableLog tbl 0 (spread_plan N 0), 0)).
  { change 0 with (cursor tableLog 0) at 2. rewrite spread_loop_writes by exact HN.
    do 2 f_equal. rewrite Z.add_0_l, Hsum. unfold cursor. fold T. fold step.
    rewrite Z.mul_comm. apply Z_mod_mult. }
  split; [|split; [exact Hloop|split; [apply writes_length|split]]].
  - unfold FSE_spreadSymbols8. rewrite Nat2Z.id. fold T. fold step. rewrite Hloop.
    reflexivity.
  - apply list_eq. intros i. rewrite !lookup_drop.
    assert (Hrd : rd (writes tableLog tbl 0 (spread_plan N 0)) (Z.of_nat (Z.to_nat T + i))
                  = rd tbl (Z.of_nat (Z.to_nat T + i))).
    { apply writes_other; [lia|]. intros j _ Heq.
      pose proof (cursor_range (0 + j)). lia. }
    unfold rd in Hrd. destruct (_ <? 0) eqn:E; [lia|]. rewrite Nat2Z.id in Hrd. exact Hrd.
  - intros s Hs.
    assert (Hplan : Z.of_nat (length (spread_plan N 0)) = T)
      by (rewrite spread_plan_length by exact HN; exact Hsum).
    rewrite (Permutation_count_occ_freq _ _ (writes_full (spread_plan N 0) tbl Hplan Hlen)).
    rewrite spread_plan_freq by (try assumption; lia).
    replace ((0 <=? s) && (s <? 0 + Z.of_nat (length N))) with true by lia.
    rewrite Z.sub_0_r. reflexivity.
Qed.

End Spread.

Lemma spread_places_each_symbol_witness :
  exists S, FSE_spreadSymbols8 (repeat 0 32) [10; 0; 22] 3 5 = Some (0, S)
            /\ freq (take 32 S) 2 = 22.
Proof.
  destruct (spread_places_each_symbol 5 ltac:(split; apply Z.leb_le; reflexivity)
              (repeat 0 32) [10; 0; 22]) as (S & Hret & _ & _ & _ & Hfreq).
  - simpl. lia.
  - repeat constructor; lia.
  - reflexivity.
  - simpl. lia.
  - exists S. split; [exact Hret|]. apply (Hfreq 2). simpl. lia.
Defined.

(** ** Bytes, words and bit fields *)

Lemma pow2_pos (n : Z) : 0 <= n -> 0 < 2 ^ n.
Proof. intros H. apply Z.pow_pos_nonneg; lia. Qed.

Lemma pow2_nz (n : Z) : 0 <= n -> 2 ^ n <> 0.
Proof. intros H. pose proof (pow2_pos n H). lia. Qed.

(** Side conditions of the division lemmas on powers of two. *)
Ltac pow2_side :=
  solve [ lia | apply pow2_pos; lia | apply pow2_nz; lia
        | apply Z.mod_pos_bound, pow2_pos; lia ].

Lemma pow2_8n (n : nat) : 2 ^ (8 * Z.of_nat (S n)) = 256 * 2 ^ (8 * Z.of_nat n).
Proof.
  replace (8 * Z.of_nat (S n)) with (8 + 8 * Z.of_nat n) by lia.
  rewrite Z.pow_add_r by lia. reflexivity.
Qed.

Lemma le_val_bound (bs : list Z) :
  Forall is_byte bs -> 0 <= le_val bs < 2 ^ (8 * Z.of_nat (length bs)).
Proof.
  induction 1 as [|b bs Hb _ IH]; [simpl; lia|].
  cbn [le_val length]. rewrite (pow2_8n (length bs)). unfold is_byte in Hb. lia.
Qed.

Lemma le_val_app (a b : list Z) :
  le_val (a ++ b) = le_val a + 2 ^ (8 * Z.of_nat (length a)) * le_val b.
Proof.
  induction a as [|x a IH]; [simpl; lia|].
  cbn [app le_val length]. rewrite IH, (pow2_8n (length a)). lia.
Qed.

Lemma land_255 (v : Z) : Z.land v 255 = v mod 256.
Proof. change 255 with (Z.ones 8). rewrite Z.land_ones by lia. reflexivity. Qed.

Lemma le_bytes_bytes (n : nat) : forall v, Forall is_byte (le_bytes n v).
Proof.
  induction n as [|n IH]; intros v; cbn [le_bytes]; constructor; [|apply IH].
  rewrite land_255. unfold is_byte. apply Z.mod_pos_bound. lia.
Qed.

Lemma le_bytes_length (n : nat) : forall v, length (le_bytes n v) = n.
Proof. induction n as [|n IH]; intros v; cbn [le_bytes length]; [|rewrite IH]; reflexivity. Qed.

Lemma le_val_le_bytes (n : nat) :
  forall v, 0 <= v -> le_val (le_bytes n v) = v mod 2 ^ (8 * Z.of_nat n).
Proof.
  induction n as [|n IH]; intros v Hv.
  - simpl. rewrite Z.mod_1_r. reflexivity.
  - cbn [le_bytes le_val]. rewrite land_255, Z.shiftr_div_pow2 by lia.
    rewrite IH by (apply Z.div_pos; lia).
    rewrite (pow2_8n n). change (2 ^ 8) with 256.
    rewrite Z.rem_mul_r by pow2_side.
    reflexivity.
Qed.

Lemma byte_at_cons (b : Z) (mem : list Z) (i : Z) :
  0 <= i -> byte_at (b :: mem) (i + 1) = byte_at mem i.
Proof.
  intros Hi. unfold byte_at.
  destruct (i + 1 <? 0) eqn:E1; [lia|]. destruct (i <? 0) eqn:E2; [lia|].
  replace (Z.to_nat (i + 1)) with (S (Z.to_nat i)) by lia. reflexivity.
Qed.

Lemma byte_at_val (mem : list Z) :
  Forall is_byte mem ->
  forall i : nat, byte_at mem (Z.of_nat i) = (le_val mem / 2 ^ (8 * Z.of_nat i)) mod 256.
Proof.
  induction 1 as [|b mem Hb Hmem IH]; intros i.
  - unfold byte_at. destruct (Z.of_nat i <? 0); [reflexivity|].
    cbn [le_val]. rewrite Z.div_0_l, Z.mod_0_l by pow2_side.
    destruct (Z.to_nat (Z.of_nat i)); reflexivity.
  - destruct i as [|i].
    + change (byte_at (b :: mem) (Z.of_nat 0)) with b. cbn [le_val].
      change (2 ^ (8 * Z.of_nat 0)) with 1. rewrite Z.div_1_r.
      replace (b + 256 * le_val mem) with (b + le_val mem * 256) by lia.
      rewrite Z_mod_plus_full. unfold is_byte in Hb.
      rewrite Z.mod_small; lia.
    + rewrite Nat2Z.inj_succ. replace (Z.succ (Z.of_nat i)) with (Z.of_nat i + 1) by lia.
      rewrite byte_at_cons by lia. rewrite IH. cbn [le_val].
      replace (8 * (Z.of_nat i + 1)) with (8 + 8 * Z.of_nat i) by lia.
      rewrite Z.pow_add_r by lia. change (2 ^ 8) with 256.
      rewrite <- Z.div_div by pow2_side.
      f_equal. f_equal. unfold is_byte in Hb.
      replace (b + 256 * le_val mem) with (b + le_val mem * 256) by lia.
      rewrite Z.div_add by lia.
      rewrite Z.div_small; lia.
Qed.

(** A 32-bit load is a window on the little-endian value of the buffer. *)
Lemma load32_val (mem : list Z) (ip : Z) :
  Forall is_byte mem -> 0 <= ip ->
  load32 mem ip = (le_val mem / 2 ^ (8 * ip)) mod 2 ^ 32.
Proof.
  intros Hmem Hip. unfold load32.
  rewrite <- (Z2Nat.id ip) by lia.
  set (i := Z.to_nat ip).
  replace (Z.of_nat i + 1) with (Z.of_nat (i + 1)) by lia.
  replace (Z.of_nat i + 2) with (Z.of_nat (i + 2)) by lia.
  replace (Z.of_nat i + 3) with (Z.of_nat (i + 3)) by lia.
  rewrite !byte_at_val by exact Hmem.
  rewrite !Z.shiftl_mul_pow2 by lia.
  set (X := le_val mem / 2 ^ (8 * Z.of_nat i)).
  assert (HX : forall j : nat, le_val mem / 2 ^ (8 * Z.of_nat (i + j)) = X / 2 ^ (8 * Z.of_nat j)).
  { intros j. unfold X. rewrite Z.div_div by pow2_side.
    rewrite <- Z.pow_add_r by lia. do 2 f_equal. lia. }
  rewrite (HX 1%nat), (HX 2%nat), (HX 3%nat).
  change (2 ^ (8 * Z.of_nat 1)) with 256.
  change (2 ^ (8 * Z.of_nat 2)) with (256 * 256).
  change (2 ^ (8 * Z.of_nat 3)) with (256 * (256 * 256)).
  change (2 ^ 32) with (256 * (256 * (256 * 256))).
  change (2 ^ 8) with 256. change (2 ^ 16) with (256 * 256).
  change (2 ^ 24) with (256 * 256 * 256).
  rewrite !Z.rem_mul_r by lia.
  rewrite <- !Z.div_div by lia. lia.
Qed.

(** Reading [k] bits of a 32-bit window shifted by [bc] reads them from
    the underlying number. *)
Lemma window_bits (X bc k : Z) :
  0 <= bc -> 0 <= k -> k + bc <= 32 ->
  Z.shiftr (X mod 2 ^ 32) bc mod 2 ^ k = (X / 2 ^ bc) mod 2 ^ k.
Proof.
  intros Hbc Hk Hsum. rewrite Z.shiftr_div_pow2 by lia.
  replace (2 ^ 32) with (2 ^ bc * 2 ^ (32 - bc))
    by (rewrite <- Z.pow_add_r by lia; f_equal; lia).
  rewrite Z.rem_mul_r by pow2_side.
  rewrite Z.mul_comm, Z.div_add by pow2_side.
  rewrite (Z.div_small (X mod 2 ^ bc)) by pow2_side.
  rewrite Z.add_0_l.
  replace (2 ^ (32 - bc)) with (2 ^ k * 2 ^ (32 - bc - k))
    by (rewrite <- Z.pow_add_r by lia; f_equal; lia).
  rewrite Z.rem_mul_r by pow2_side.
  rewrite Z.mul_comm, Z_mod_plus_full. apply Z.mod_mod. pow2_side.
Qed.

Lemma land_pow2_pred (x n : Z) : 0 <= n -> Z.land x (2 ^ n - 1) = x mod 2 ^ n.
Proof.
  intros Hn. rewrite <- Z.land_ones by exact Hn. rewrite Z.ones_equiv. reflexivity.
Qed.

Lemma mod_pow2_mod (x a b : Z) : 0 <= b <= a -> (x mod 2 ^ a) mod 2 ^ b = x mod 2 ^ b.
Proof.
  intros H. replace (2 ^ a) with (2 ^ b * 2 ^ (a - b))
    by (rewrite <- Z.pow_add_r by lia; f_equal; lia).
  rewrite Z.rem_mul_r by pow2_side.
  rewrite Z.mul_comm, Z_mod_plus_full. apply Z.mod_mod. pow2_side.
Qed.

(** A field [F] of [w] bits written above the [p] low bits [V] of [M] is
    read back at bit offset [p]. *)
Lemma field_extract (M V F p w : Z) :
  0 <= p -> 0 <= w -> 0 <= V < 2 ^ p -> 0 <= F < 2 ^ w ->
  M mod 2 ^ (p + w) = V + F * 2 ^ p ->
  (M / 2 ^ p) mod 2 ^ w = F.
Proof.
  intros Hp Hw HV HF HM.
  rewrite Z.pow_add_r in HM by lia.
  rewrite Z.rem_mul_r in HM by pow2_side.
  pose proof (Z.mod_pos_bound M (2 ^ p) (pow2_pos p Hp)) as H1.
  pose proof (Z.mod_pos_bound (M / 2 ^ p) (2 ^ w) (pow2_pos w Hw)) as H2.
  pose proof (pow2_pos p Hp). nia.
Qed.

(** ** Header codec: shared state machine *)

Lemma pow2_pred_halve (nb : Z) : 1 <= nb -> Z.shiftr (2 ^ (nb - 1)) 1 = 2 ^ (nb - 1 - 1).
Proof.
  intros H. rewrite Z.shiftr_div_pow2 by lia. change (2 ^ 1) with 2.
  destruct (Z.eq_dec nb 1) as [->|Hne]; [reflexivity|].
  replace (nb - 1) with (1 + (nb - 1 - 1)) at 1 by lia.
  rewrite Z.pow_add_r by lia. change (2 ^ 1) with 2.
  rewrite Z.mul_comm, Z.div_mul by lia. reflexivity.
Qed.

Lemma hdr_halve_spec (fuel : nat) :
  forall remaining threshold nbBits : Z,
    0 <= remaining ->
    threshold = 2 ^ (nbBits - 1) -> 0 <= nbBits <= 13 ->
    (0 < remaining -> remaining < 2 * threshold) ->
    (Z.to_nat nbBits < fuel)%nat ->
    exists threshold' nbBits',
      hdr_halve fuel remaining threshold nbBits = Some (threshold', nbBits')
      /\ hdr_inv remaining threshold' nbBits'
      /\ (remaining = 0 -> nbBits' = 0).
Proof.
  induction fuel as [|fuel IH]; intros remaining threshold nbBits Hrem Hthr Hnb Hlt Hfuel; [lia|].
  cbn [hdr_halve]. destruct (remaining <? threshold) eqn:E.
  - assert (Hnb1 : 1 <= nbBits).
    { destruct (Z_lt_le_dec nbBits 1) as [Hn|]; [|assumption].
      rewrite Z.pow_neg_r in Hthr by lia. lia. }
    apply IH; try lia.
    + rewrite Hthr. apply pow2_pred_halve. exact Hnb1.
    + intros Hpos. rewrite Hthr, pow2_pred_halve by exact Hnb1.
      destruct (Z.eq_dec nbBits 1) as [->|Hne]; [simpl in Hthr; lia|].
      replace (2 * 2 ^ (nbBits - 1 - 1)) with (2 ^ (nbBits - 1)); [lia|].
      replace (nbBits - 1) with (1 + (nbBits - 1 - 1)) at 1 by lia.
      rewrite Z.pow_add_r by lia. reflexivity.
  - exists threshold, nbBits. split; [reflexivity|]. split.
    + unfold hdr_inv. repeat split; try lia; assumption.
    + intros ->. destruct (Z_lt_le_dec nbBits 1) as [Hn|Hn]; [lia|].
      pose proof (pow2_pos (nbBits - 1)). lia.
Qed.

(** ** Header codec: positions in the bit stream *)

Lemma wh_flush_spec (out : list Z) (bitStream bitCount : Z) :
  Forall is_byte out -> 0 <= bitCount <= 32 -> 0 <= bitStream < 2 ^ bitCount ->
  let '(out', bitStream', bitCount') := wh_flush out bitStream bitCount in
  Forall is_byte out'
  /\ 0 <= bitCount' <= 16 /\ 0 <= bitStream' < 2 ^ bitCount'
  /\ bits_val out' bitStream' = bits_val out bitStream
  /\ 8 * Z.of_nat (length out') + bitCount' = 8 * Z.of_nat (length out) + bitCount.
Proof.
  intros Hout Hbc Hbs. unfold wh_flush. destruct (bitCount >? 16) eqn:E.
  - assert (Hdiv : 0 <= bitStream / 2 ^ 16 < 2 ^ (bitCount - 16)).
    { split; [apply Z.div_pos; lia|].
      apply Z.div_lt_upper_bound; [lia|].
      rewrite <- Z.pow_add_r by lia. replace (16 + (bitCount - 16)) with bitCount by lia. lia. }
    split; [apply Forall_app; split; [exact Hout | apply le_bytes_bytes]|].
    rewrite Z.shiftr_div_pow2 by lia.
    split; [lia|]. split; [exact Hdiv|]. split.
    + unfold bits_val. rewrite le_val_app, length_app, le_bytes_length.
      rewrite le_val_le_bytes by (unfold u16; apply Z.mod_pos_bound; lia).
      change (8 * Z.of_nat 2) with 16. unfold u16. rewrite Z.mod_mod by lia.
      rewrite Nat2Z.inj_add. change (Z.of_nat 2) with 2.
      replace (8 * (Z.of_nat (length out) + 2)) with (8 * Z.of_nat (length out) + 16) by lia.
      rewrite Z.pow_add_r by lia.
      pose proof (Z.div_mod bitStream (2 ^ 16) ltac:(lia)). nia.
    + rewrite length_app, le_bytes_length. lia.
  - split; [exact Hout|]. split; [lia|]. split; [exact Hbs|]. split; reflexivity.
Qed.

Lemma bits_val_bound (out : list Z) (bitStream bitCount : Z) :
  Forall is_byte out -> 0 <= bitCount -> 0 <= bitStream < 2 ^ bitCount ->
  0 <= bits_val out bitStream < 2 ^ (8 * Z.of_nat (length out) + bitCount).
Proof.
  intros Hout Hbc Hbs. unfold bits_val. pose proof (le_val_bound out Hout).
  rewrite Z.pow_add_r by lia.
  pose proof (pow2_pos (8 * Z.of_nat (length out))). nia.
Qed.

(** The refill of the reader keeps its bit offset. *)
Lemma refill_pos (ip bitCount : Z) :
  0 <= bitCount ->
  8 * (ip + Z.shiftr bitCount 3) + Z.land bitCount 7 = 8 * ip + bitCount
  /\ 0 <= Z.land bitCount 7 < 8 /\ 0 <= Z.shiftr bitCount 3.
Proof.
  intros H. rewrite Z.shiftr_div_pow2 by lia. change 7 with (Z.ones 3).
  rewrite Z.land_ones by lia. change (2 ^ 3) with 8.
  pose proof (Z.div_mod bitCount 8 ltac:(lia)).
  pose proof (Z.mod_pos_bound bitCount 8 ltac:(lia)).
  pose proof (Z.div_pos bitCount 8 H ltac:(lia)). lia.
Qed.

(** What the reader sees in its 32-bit window. *)
Lemma peek_bits (mem : list Z) (ip bitCount k : Z) :
  Forall is_byte mem -> 0 <= ip -> 0 <= bitCount -> 0 <= k -> k + bitCount <= 32 ->
  Z.shiftr (load32 mem ip) bitCount mod 2 ^ k
  = (le_val mem / 2 ^ (8 * ip + bitCount)) mod 2 ^ k.
Proof.
  intros Hmem Hip Hbc Hk Hsum. rewrite load32_val by assumption.
  rewrite window_bits by assumption.
  rewrite Z.div_div by pow2_side. rewrite <- Z.pow_add_r by lia. reflexivity.
Qed.

Lemma sum_list_nonneg (l : list Z) : Forall (fun c => 0 <= c) l -> 0 <= sum_list l.
Proof. induction 1; cbn [sum_list]; lia. Qed.

Lemma sum_list_app (a b : list Z) : sum_list (a ++ b) = sum_list a + sum_list b.
Proof. induction a as [|x a IH]; cbn [app sum_list]; lia. Qed.

Lemma sum_list_repeat0 (n : nat) : sum_list (repeat 0 n) = 0.
Proof. induction n; cbn [repeat sum_list]; lia. Qed.

Lemma shiftl_mul (a n : Z) : 0 <= n -> Z.shiftl a n = a * 2 ^ n.
Proof. intros H. apply Z.shiftl_mul_pow2. exact H. Qed.

(** ** Header codec: zero runs *)

Lemma zfield3_split (q3 : nat) (f : Z) :
  zfield3 q3 f = zfield3 q3 0 + f * 2 ^ (2 * Z.of_nat q3).
Proof.
  induction q3 as [|q IH]; cbn [zfield3]; [change (2 ^ (2 * Z.of_nat 0)) with 1; lia|].
  rewrite IH. replace (2 * Z.of_nat (S q)) with (2 + 2 * Z.of_nat q) by lia.
  rewrite Z.pow_add_r by lia. lia.
Qed.

Lemma zfield3_bound (q3 : nat) (f : Z) :
  0 <= f < 3 -> 0 <= zfield3 q3 f < 2 ^ (2 * Z.of_nat q3 + 2).
Proof.
  intros Hf. induction q3 as [|q IH]; cbn [zfield3]; [change (2 ^ (2 * Z.of_nat 0 + 2)) with 4; lia|].
  replace (2 * Z.of_nat (S q) + 2) with (2 + (2 * Z.of_nat q + 2)) by lia.
  rewrite Z.pow_add_r by lia. lia.
Qed.

Lemma zfield24_bound (q : nat) (G w : Z) :
  0 <= w -> 0 <= G < 2 ^ w -> 0 <= zfield24 q G < 2 ^ (16 * Z.of_nat q + w).
Proof.
  intros Hw HG. induction q as [|q IH]; cbn [zfield24];
    [change (16 * Z.of_nat 0 + w) with w; lia|].
  replace (16 * Z.of_nat (S q) + w) with (16 + (16 * Z.of_nat q + w)) by lia.
  rewrite Z.pow_add_r by lia. lia.
Qed.

(** Flushing sixteen bits moves them from the register to the output. *)
Lemma bits_val_flush16 (out : list Z) (x K : Z) :
  0 <= x ->
  bits_val (out ++ le_bytes 2 (u16 x)) (x / 2 ^ 16 + K) = bits_val out (x + 2 ^ 16 * K).
Proof.
  intros Hx. unfold bits_val. rewrite le_val_app, length_app, le_bytes_length.
  rewrite le_val_le_bytes by (unfold u16; apply Z.mod_pos_bound; lia).
  change (8 * Z.of_nat 2) with 16. unfold u16. rewrite Z.mod_mod by lia.
  rewrite Nat2Z.inj_add. change (Z.of_nat 2) with 2.
  replace (8 * (Z.of_nat (length out) + 2)) with (8 * Z.of_nat (length out) + 16) by lia.
  rewrite Z.pow_add_r by lia.
  pose proof (Z.div_mod x (2 ^ 16) ltac:(lia)). nia.
Qed.

Lemma wh_run24_spec (fuel : nat) (charnum bc : Z) :
  0 <= bc <= 16 ->
  forall (start bs : Z) (out : list Z),
    0 <= bs < 2 ^ bc -> Forall is_byte out -> start <= charnum ->
    (Z.to_nat (charnum - start) <= fuel)%nat ->
    exists (q : nat) (bs' : Z) (out' : list Z),
      wh_run24 fuel charnum start bs bc out = (start + 24 * Z.of_nat q, bs', out')
      /\ start + 24 * Z.of_nat q <= charnum < start + 24 * Z.of_nat q + 24
      /\ 0 <= bs' < 2 ^ bc /\ Forall is_byte out'
      /\ Z.of_nat (length out') = Z.of_nat (length out) + 2 * Z.of_nat q
      /\ forall G, bits_val out' (bs' + G * 2 ^ bc) = bits_val out (bs + zfield24 q G * 2 ^ bc).
Proof.
  intros Hbc. induction fuel as [|fuel IH]; intros start bs out Hbs Hout Hstart Hfuel.
  - exists 0%nat, bs, out. cbn [wh_run24 zfield24]. rewrite Z.add_0_r.
    repeat split; try assumption; try lia.
  - cbn [wh_run24]. destruct (charnum >=? start + 24) eqn:E.
    + pose proof (pow2_pos bc ltac:(lia)) as Hp.
      assert (Hx : 0 <= bs + 65535 * 2 ^ bc < 2 ^ (bc + 16)).
      { rewrite Z.pow_add_r by lia. change (2 ^ 16) with 65536. nia. }
      rewrite shiftl_mul by lia.
      rewrite u32_small by (split; [lia|]; eapply Z.lt_le_trans; [apply Hx|];
                            apply Z.pow_le_mono_r; lia).
      rewrite Z.shiftr_div_pow2 by lia.
      set (x := bs + 65535 * 2 ^ bc) in *.
      assert (Hbs1 : 0 <= x / 2 ^ 16 < 2 ^ bc).
      { split; [apply Z.div_pos; lia|]. apply Z.div_lt_upper_bound; [lia|].
        rewrite <- Z.pow_add_r by lia. replace (16 + bc) with (bc + 16) by lia. lia. }
      destruct (IH (start + 24) (x / 2 ^ 16) (out ++ le_bytes 2 (u16 x)))
        as (q & bs' & out' & Hrun & Hrange & Hbs' & Hout' & Hlen & Hval);
        [exact Hbs1 | apply Forall_app; split; [exact Hout | apply le_bytes_bytes]
        | lia | lia |].
      exists (S q), bs', out'. rewrite Hrun.
      split; [f_equal; f_equal; lia|]. split; [lia|]. split; [exact Hbs'|].
      split; [exact Hout'|]. split.
      { rewrite Hlen, length_app, le_bytes_length. lia. }
      intros G. rewrite Hval, bits_val_flush16 by lia. f_equal.
      unfold x. cbn [zfield24]. change (2 ^ 16) with 65536. lia.
    + exists 0%nat, bs, out. cbn [zfield24]. rewrite Z.add_0_r.
      repeat split; try assumption; try lia.
Qed.

Lemma wh_run3_spec (fuel : nat) (charnum : Z) :
  forall (start bs bc : Z),
    start <= charnum -> 0 <= bc -> bc + 2 * ((charnum - start) / 3) <= 30 ->
    0 <= bs < 2 ^ bc ->
    (Z.to_nat (charnum - start) <= fuel)%nat ->
    exists q3 : nat,
      wh_run3 fuel charnum start bs bc
      = (start + 3 * Z.of_nat q3, bs + zfield3 q3 0 * 2 ^ bc, bc + 2 * Z.of_nat q3)
      /\ start + 3 * Z.of_nat q3 <= charnum < start + 3 * Z.of_nat q3 + 3.
Proof.
  induction fuel as [|fuel IH]; intros start bs bc Hstart Hbc Hroom Hbs Hfuel.
  - exists 0%nat. cbn [wh_run3 zfield3]. split; [f_equal; [f_equal|]; lia | lia].
  - cbn [wh_run3]. destruct (charnum >=? start + 3) eqn:E.
    + pose proof (pow2_pos bc ltac:(lia)) as Hp.
      assert (Hdiv : (charnum - start) / 3 = (charnum - (start + 3)) / 3 + 1).
      { replace (charnum - start) with (charnum - (start + 3) + 1 * 3) by lia.
        rewrite Z.div_add by lia. reflexivity. }
      assert (Hq : 0 <= (charnum - (start + 3)) / 3) by (apply Z.div_pos; lia).
      assert (Hx : 0 <= bs + 3 * 2 ^ bc < 2 ^ (bc + 2)).
      { rewrite Z.pow_add_r by lia. change (2 ^ 2) with 4. nia. }
      rewrite shiftl_mul by lia.
      rewrite u32_small by (split; [lia|]; eapply Z.lt_le_trans; [apply Hx|];
                            apply Z.pow_le_mono_r; lia).
      destruct (IH (start + 3) (bs + 3 * 2 ^ bc) (bc + 2)) as (q & Hrun & Hrange); try lia.
      exists (S q). rewrite Hrun. split; [|lia].
      f_equal; [f_equal|]; try lia.
      cbn [zfield3]. rewrite Z.pow_add_r by lia. change (2 ^ 2) with 4. lia.
    + exists 0%nat. cbn [zfield3]. split; [f_equal; [f_equal|]; lia | lia].
Qed.

(** Reader side: the two-bit groups. *)
Lemma rh_run3_spec (q3 : nat) (f : Z) :
  0 <= f < 3 ->
  forall (fuel : nat) (n0 bs bc : Z),
    (q3 < fuel)%nat ->
    bs mod 2 ^ (2 * Z.of_nat q3 + 2) = zfield3 q3 f ->
    rh_run3 fuel n0 bs bc
    = (n0 + 3 * Z.of_nat q3, Z.shiftr bs (2 * Z.of_nat q3), bc + 2 * Z.of_nat q3)
    /\ Z.land (Z.shiftr bs (2 * Z.of_nat q3)) 3 = f.
Proof.
  intros Hf. induction q3 as [|q IH]; intros fuel n0 bs bc Hfuel Hbits.
  - destruct fuel as [|fuel]; [lia|]. cbn [rh_run3 zfield3] in *.
    change (2 * Z.of_nat 0 + 2) with 2 in Hbits. change (2 * Z.of_nat 0) with 0.
    rewrite Z.shiftr_0_r. change 3 with (Z.ones 2). rewrite Z.land_ones by lia.
    rewrite Hbits. replace (f =? Z.ones 2) with false by (change (Z.ones 2) with 3; lia).
    split; [f_equal; [f_equal|]; lia | reflexivity].
  - destruct fuel as [|fuel]; [lia|]. cbn [rh_run3 zfield3] in *.
    pose proof (zfield3_bound q f Hf) as HY.
    replace (2 * Z.of_nat (S q) + 2) with (2 + (2 * Z.of_nat q + 2)) in Hbits by lia.
    assert (Hlow : bs mod 2 ^ 2 = 3).
    { rewrite <- (mod_pow2_mod bs (2 + (2 * Z.of_nat q + 2)) 2) by lia.
      rewrite Hbits. replace (3 + 4 * zfield3 q f) with (3 + zfield3 q f * 2 ^ 2) by (change (2 ^ 2) with 4; lia).
      rewrite Z_mod_plus_full. reflexivity. }
    assert (Hhigh : (bs / 2 ^ 2) mod 2 ^ (2 * Z.of_nat q + 2) = zfield3 q f).
    { apply (field_extract bs 3 (zfield3 q f) 2 (2 * Z.of_nat q + 2)); try lia. }
    change 3 with (Z.ones 2) at 1. rewrite Z.land_ones by lia. rewrite Hlow.
    change (3 =? 3) with true. cbv iota.
    rewrite Z.shiftr_div_pow2 by lia.
    destruct (IH fuel (n0 + 3) (bs / 2 ^ 2) (bc + 2) ltac:(lia) Hhigh) as [Hrun Hland].
    rewrite Hrun. rewrite <- (Z.shiftr_div_pow2 bs 2) in * by lia.
    rewrite Z.shiftr_shiftr in * by lia.
    replace (2 + 2 * Z.of_nat q) with (2 * Z.of_nat (S q)) in * by lia.
    split; [f_equal; [f_equal|]; lia | exact Hland].
Qed.

(** Sixteen bits that contain a two-bit group different from 3 are not
    all ones. *)
Lemma not_all_ones (q3 : nat) (f : Z) :
  0 <= f < 3 ->
  forall (k : nat) (X : Z),
    (q3 < k)%nat ->
    X mod 2 ^ (2 * Z.of_nat q3 + 2) = zfield3 q3 f ->
    X mod 2 ^ (2 * Z.of_nat k) <> 2 ^ (2 * Z.of_nat k) - 1.
Proof.
  intros Hf. induction q3 as [|q IH]; intros k X Hk Hbits Hones.
  - cbn [zfield3] in Hbits. change (2 * Z.of_nat 0 + 2) with 2 in Hbits.
    rewrite <- (mod_pow2_mod X (2 * Z.of_nat k) 2) in Hbits by lia.
    rewrite Hones in Hbits.
    replace (2 * Z.of_nat k) with (2 + 2 * Z.of_nat (k - 1)) in Hbits by lia.
    rewrite Z.pow_add_r in Hbits by lia. change (2 ^ 2) with 4 in Hbits.
    replace (4 * 2 ^ (2 * Z.of_nat (k - 1)) - 1)
      with (3 + (2 ^ (2 * Z.of_nat (k - 1)) - 1) * 4) in Hbits by lia.
    rewrite Z_mod_plus_full in Hbits. change (3 mod 4) with 3 in Hbits. lia.
  - cbn [zfield3] in Hbits. pose proof (zfield3_bound q f Hf) as HY.
    replace (2 * Z.of_nat (S q) + 2) with (2 + (2 * Z.of_nat q + 2)) in Hbits by lia.
    assert (Hhigh : (X / 2 ^ 2) mod 2 ^ (2 * Z.of_nat q + 2) = zfield3 q f).
    { apply (field_extract X 3 (zfield3 q f) 2 (2 * Z.of_nat q + 2)); try lia. }
    apply (IH (k - 1)%nat (X / 2 ^ 2) ltac:(lia) Hhigh).
    replace (2 * Z.of_nat k) with (2 + 2 * Z.of_nat (k - 1)) in Hones by lia.
    pose proof (pow2_pos (2 * Z.of_nat (k - 1)) ltac:(lia)) as Hp.
    apply (field_extract X 3 (2 ^ (2 * Z.of_nat (k - 1)) - 1) 2 (2 * Z.of_nat (k - 1))); try lia.
    rewrite Hones. rewrite Z.pow_add_r by lia. change (2 ^ 2) with 4. lia.
Qed.

(** Reader side: the sixteen-bit words of ones. *)
Lemma rh_run24_spec (mem : list Z) (bc : Z) (q3 : nat) (f : Z) :
  Forall is_byte mem -> 0 <= bc < 8 -> (q3 <= 7)%nat -> 0 <= f < 3 ->
  forall (q fuel : nat) (n0 ip : Z),
    0 <= ip -> (q < fuel)%nat ->
    (le_val mem / 2 ^ (8 * ip + bc)) mod 2 ^ (16 * Z.of_nat q + (2 * Z.of_nat q3 + 2))
    = zfield24 q (zfield3 q3 f) ->
    rh_run24 fuel mem n0 ip (Z.shiftr (load32 mem ip) bc) bc
    = Some (n0 + 24 * Z.of_nat q, ip + 2 * Z.of_nat q,
            Z.shiftr (load32 mem (ip + 2 * Z.of_nat q)) bc)
    /\ (le_val mem / 2 ^ (8 * (ip + 2 * Z.of_nat q) + bc)) mod 2 ^ (2 * Z.of_nat q3 + 2)
       = zfield3 q3 f.
Proof.
  intros Hmem Hbc Hq3 Hf. induction q as [|q IH]; intros fuel n0 ip Hip Hfuel Hbits.
  - destruct fuel as [|fuel]; [lia|]. cbn [rh_run24 zfield24] in *.
    change (16 * Z.of_nat 0 + (2 * Z.of_nat q3 + 2)) with (2 * Z.of_nat q3 + 2) in Hbits.
    rewrite !Z.add_0_r.
    change 65535 with (Z.ones 16) at 1. rewrite Z.land_ones by lia.
    rewrite peek_bits by (try assumption; lia).
    pose proof (not_all_ones q3 f Hf 8 _ ltac:(lia) Hbits) as Hne.
    change (2 * Z.of_nat 8) with 16 in Hne. change (2 ^ 16 - 1) with 65535 in Hne.
    apply Z.eqb_neq in Hne. rewrite Hne. split; [reflexivity | exact Hbits].
  - destruct fuel as [|fuel]; [lia|]. cbn [rh_run24 zfield24] in *.
    pose proof (zfield3_bound q3 f Hf) as HG.
    pose proof (zfield24_bound q (zfield3 q3 f) (2 * Z.of_nat q3 + 2) ltac:(lia) HG) as HY.
    replace (16 * Z.of_nat (S q) + (2 * Z.of_nat q3 + 2))
      with (16 + (16 * Z.of_nat q + (2 * Z.of_nat q3 + 2))) in Hbits by lia.
    set (X := le_val mem / 2 ^ (8 * ip + bc)) in *.
    assert (Hlow : X mod 2 ^ 16 = 65535).
    { rewrite <- (mod_pow2_mod X (16 + (16 * Z.of_nat q + (2 * Z.of_nat q3 + 2))) 16) by lia.
      rewrite Hbits.
      replace (65535 + 65536 * zfield24 q (zfield3 q3 f))
        with (65535 + zfield24 q (zfield3 q3 f) * 2 ^ 16) by (change (2 ^ 16) with 65536; lia).
      rewrite Z_mod_plus_full. reflexivity. }
    assert (Hhigh : (X / 2 ^ 16) mod 2 ^ (16 * Z.of_nat q + (2 * Z.of_nat q3 + 2))
                    = zfield24 q (zfield3 q3 f)).
    { apply (field_extract X 65535 _ 16); try lia. }
    assert (HX' : X / 2 ^ 16 = le_val mem / 2 ^ (8 * (ip + 2) + bc)).
    { unfold X. rewrite Z.div_div by pow2_side. rewrite <- Z.pow_add_r by lia.
      do 2 f_equal. lia. }
    rewrite HX' in Hhigh.
    change 65535 with (Z.ones 16) at 1. rewrite Z.land_ones by lia.
    rewrite peek_bits by (try assumption; lia). fold X. rewrite Hlow.
    change (65535 =? 65535) with true. cbv iota.
    destruct (IH fuel (n0 + 24) (ip + 2) ltac:(lia) ltac:(lia) Hhigh) as [Hrun Hrest].
    rewrite Hrun.
    replace (ip + 2 + 2 * Z.of_nat q) with (ip + 2 * Z.of_nat (S q)) in * by lia.
    replace (n0 + 24 + 24 * Z.of_nat q) with (n0 + 24 * Z.of_nat (S q)) by lia.
    split; [reflexivity | exact Hrest].
Qed.

(** Reduction of the record projections only. *)
Ltac proj_simpl :=
  cbn [wh_out wh_bitStream wh_bitCount wh_charnum wh_remaining wh_threshold wh_nbBits
       wh_previous0 rh_counts rh_ip rh_bitStream rh_bitCount rh_remaining rh_threshold
       rh_nbBits rh_previous0] in *.

Section HeaderCodec.

(** The table being written; its total is at most [2 ^ FSE_MAX_TABLELOG]. *)
Variable N : list Z.
Hypothesis N_nonneg : Forall (fun c => 0 <= c) N.
Hypothesis N_small : sum_list N <= 4096.

Lemma drop_nonneg (n : nat) : Forall (fun c => 0 <= c) (drop n N).
Proof. apply Forall_drop. exact N_nonneg. Qed.

Lemma suffix_sum_nonneg (charnum : Z) : 0 <= suffix_sum N charnum.
Proof. unfold suffix_sum. apply sum_list_nonneg, drop_nonneg. Qed.

Lemma suffix_sum_le (charnum : Z) : suffix_sum N charnum <= 4096.
Proof.
  unfold suffix_sum. rewrite <- (take_drop (Z.to_nat charnum) N) in N_small.
  rewrite sum_list_app in N_small.
  pose proof (sum_list_nonneg (take (Z.to_nat charnum) N) (Forall_take _ _ _ N_nonneg)). lia.
Qed.

(** The entry under the cursor when some mass remains. *)
Lemma entry_at (charnum : Z) :
  0 <= charnum -> 0 < suffix_sum N charnum ->
  exists c, rd N charnum = Some c /\ 0 <= c
            /\ suffix_sum N (charnum + 1) = suffix_sum N charnum - c
            /\ take (Z.to_nat (charnum + 1)) N = take (Z.to_nat charnum) N ++ [c]
            /\ charnum < Z.of_nat (length N).
Proof.
  intros Hc Hpos. unfold suffix_sum in *.
  destruct (N !! Z.to_nat charnum) as [c|] eqn:E.
  - exists c. unfold rd. destruct (charnum <? 0) eqn:E0; [lia|].
    split; [exact E|]. split.
    + rewrite Forall_lookup in N_nonneg. exact (N_nonneg _ _ E).
    + replace (Z.to_nat (charnum + 1)) with (S (Z.to_nat charnum)) by lia.
      rewrite (drop_S _ _ _ E). cbn [sum_list].
      split; [lia|]. split; [apply take_S_r; exact E|].
      apply lookup_lt_Some in E. lia.
  - apply lookup_ge_None in E. rewrite drop_ge in Hpos by lia. simpl in Hpos. lia.
Qed.

(** One count is written as a field of [nbBits] or [nbBits - 1] bits, and
    the reader decodes the same count from that field. *)
Lemma count_block (ws : wh_state) :
  winv N ws -> 0 < wh_remaining ws ->
  exists ws1 F w,
    wh_count N ws = Some ws1
    /\ winv N ws1
    /\ 0 <= w /\ 0 <= F < 2 ^ w
    /\ wval ws1 = wval ws + F * 2 ^ wpos ws
    /\ wpos ws1 = wpos ws + w
    /\ wh_charnum ws1 = wh_charnum ws + 1
    /\ (forall mem rs,
          Forall is_byte mem -> rinv mem rs -> rel N ws rs ->
          (le_val mem / 2 ^ wpos ws) mod 2 ^ w = F ->
          exists rs1, rh_count mem rs = Some rs1 /\ rinv mem rs1 /\ rel N ws1 rs1).
Proof.
  destruct ws as [out bs bc ch rem thr nb p0]. unfold winv, wval, wpos. proj_simpl.
  intros (Hout & Hbc & Hbs & (Hthr & Hnb & Hle & Hlt) & Hch & Hrem) Hpos.
  specialize (Hlt Hpos).
  destruct (entry_at ch) as (c & Hrd & Hc0 & Hsuf & Htake & Hin);
    [lia | rewrite <- Hrem; exact Hpos |].
  rewrite <- Hrem in Hsuf.
  pose proof (suffix_sum_nonneg (ch + 1)) as Hsuf0.
  pose proof (suffix_sum_le ch) as Hsuf1. rewrite <- Hrem in Hsuf1.
  assert (Hnb1 : 1 <= nb).
  { destruct (Z_lt_le_dec nb 1); [|assumption]. rewrite Z.pow_neg_r in Hthr by lia. lia. }
  assert (H2thr : 2 * thr = 2 ^ nb).
  { rewrite Hthr. replace nb with (1 + (nb - 1)) at 2 by lia.
    rewrite Z.pow_add_r by lia. reflexivity. }
  set (max := 2 * thr - 1 - rem).
  set (count' := if c >=? thr then c + max else c).
  set (w := nb - (if count' <? max then 1 else 0)).
  assert (Hcrange : 0 <= c <= rem) by lia.
  assert (Hmax : 0 <= max < thr) by (unfold max; lia).
  assert (HF : 0 <= count' < 2 ^ w).
  { unfold w, count'. destruct (c >=? thr) eqn:E1.
    - destruct (c + max <? max) eqn:E2; [lia|]. rewrite Z.sub_0_r, <- H2thr. unfold max. lia.
    - destruct (c <? max) eqn:E2; [rewrite <- Hthr; lia|].
      rewrite Z.sub_0_r, <- H2thr. lia. }
  assert (Hw : nb - 1 <= w <= nb) by (unfold w; destruct (count' <? max); lia).
  destruct (hdr_halve_spec 33 (rem - c) thr nb) as (thr' & nb' & Hhalve & Hinv' & _);
    try lia; try assumption.
  pose proof (pow2_pos bc) as Hpbc.
  assert (Hnew : 0 <= bs + count' * 2 ^ bc < 2 ^ (bc + w)).
  { rewrite Z.pow_add_r by lia. nia. }
  assert (Hu32 : u32 (bs + Z.shiftl count' bc) = bs + count' * 2 ^ bc).
  { rewrite shiftl_mul by lia. apply u32_small. split; [lia|].
    eapply Z.lt_le_trans; [apply Hnew|]. apply Z.pow_le_mono_r; lia. }
  pose proof (wh_flush_spec out (bs + count' * 2 ^ bc) (bc + w) Hout ltac:(lia) Hnew) as Hflush.
  destruct (wh_flush out (bs + count' * 2 ^ bc) (bc + w)) as [[out' bs'] bc'] eqn:Eflush.
  destruct Hflush as (Hout' & Hbc' & Hbs' & Hval' & Hpos').
  destruct Hinv' as (I1 & I2 & I3 & I4).
  exists {| wh_out := out'; wh_bitStream := bs'; wh_bitCount := bc'; wh_charnum := ch + 1;
            wh_remaining := rem - c; wh_threshold := thr'; wh_nbBits := nb';
            wh_previous0 := (count' =? 0) |}, count', w.
  proj_simpl.
  split.
  { unfold wh_count. proj_simpl. rewrite Hrd. cbn [mbind option_bind].
    rewrite (s32_small c) by lia.
    fold max. fold count'. rewrite Hu32, Hhalve. cbn [mbind option_bind].
    replace (bc + nb - (if count' <? max then 1 else 0)) with (bc + w) by (unfold w; lia).
    rewrite Eflush. reflexivity. }
  split.
  { unfold hdr_inv. repeat split; try assumption; try lia. }
  split; [lia|]. split; [exact HF|].
  split.
  { rewrite Hval'. unfold bits_val. rewrite Z.pow_add_r by lia. lia. }
  split; [lia|].
  split; [reflexivity|].
  intros mem rs Hmem. destruct rs as [rcounts rip rbs rbc rrem rthr rnb rp0].
  unfold rinv, rel, rpos, wpos. proj_simpl.
  intros (Hip & Hrbc & Hrbs) (Rc & Rrem & Rthr & Rnb & Rp0 & Rpos) Hfield.
  subst rrem rthr rnb rp0.
  unfold rh_count. proj_simpl. fold max.
  rewrite (u32_small max) by lia.
  assert (Hlow : Z.land rbs (thr - 1) = (le_val mem / 2 ^ (8 * Z.of_nat (length out) + bc)) mod 2 ^ (nb - 1)).
  { rewrite Hthr, land_pow2_pred by lia. rewrite Hrbs, peek_bits by (try assumption; lia).
    rewrite Rpos. reflexivity. }
  assert (Hfull : Z.land rbs (2 * thr - 1) = (le_val mem / 2 ^ (8 * Z.of_nat (length out) + bc)) mod 2 ^ nb).
  { rewrite H2thr, land_pow2_pred by lia. rewrite Hrbs, peek_bits by (try assumption; lia).
    rewrite Rpos. reflexivity. }
  assert (Hdec : (if Z.land rbs (thr - 1) <? max
                  then (Z.land rbs (thr - 1), rbc + (nb - 1))
                  else (if Z.land rbs (2 * thr - 1) >=? thr
                        then s32 (Z.land rbs (2 * thr - 1) - max)
                        else Z.land rbs (2 * thr - 1), rbc + nb))
                 = (c, rbc + w)).
  { rewrite Hlow, Hfull. unfold w in *. destruct (count' <? max) eqn:Ecm.
    - rewrite Hfield. rewrite Ecm. unfold count' in *.
      destruct (c >=? thr) eqn:E1; [lia|]. reflexivity.
    - rewrite Z.sub_0_r in *. rewrite Hfield.
      assert (Hlowv : (count' mod 2 ^ (nb - 1) <? max) = false).
      { rewrite <- Hthr. unfold count' in *. destruct (c >=? thr) eqn:E1.
        - replace (c + max) with ((c + max - thr) + 1 * thr) by lia.
          rewrite Z_mod_plus_full, Z.mod_small by lia. lia.
        - rewrite Z.mod_small by lia. lia. }
      rewrite <- Hfield in Hlowv at 1.
      rewrite mod_pow2_mod in Hlowv by lia. rewrite Hlowv.
      unfold count' in *. destruct (c >=? thr) eqn:E1.
      + replace (c + max >=? thr) with true by lia.
        rewrite s32_small by lia. f_equal. lia.
      + rewrite E1. reflexivity. }
  rewrite Hdec. rewrite Hhalve. cbn [mbind option_bind].
  destruct (refill_pos rip (rbc + w) ltac:(lia)) as (Hrp & Hrb & Hrs).
  eexists. split; [reflexivity|]. proj_simpl. split.
  { repeat split; try lia. }
  rewrite Rc, Htake, (u32_small c) by lia.
  repeat split; try reflexivity.
  + unfold count'. destruct (c >=? thr) eqn:E1; [|reflexivity].
    destruct (c =? 0) eqn:A, (c + max =? 0) eqn:B; try reflexivity; lia.
  + lia.
Qed.

(** The scan for the next non-zero count. *)
Lemma wh_skip0_spec (fuel : nat) :
  forall ch : Z,
    0 <= ch -> 0 < suffix_sum N ch ->
    (length N - Z.to_nat ch < fuel)%nat ->
    exists ch',
      wh_skip0 fuel N ch = Some ch'
      /\ ch <= ch' < Z.of_nat (length N)
      /\ suffix_sum N ch' = suffix_sum N ch
      /\ take (Z.to_nat ch') N = take (Z.to_nat ch) N ++ repeat 0 (Z.to_nat (ch' - ch)).
Proof.
  induction fuel as [|fuel IH]; intros ch Hch Hpos Hfuel; [lia|].
  destruct (entry_at ch Hch Hpos) as (c & Hrd & Hc0 & Hsuf & Htake & Hin).
  cbn [wh_skip0]. rewrite Hrd. cbn [mbind option_bind].
  destruct (c =? 0) eqn:E.
  - assert (c = 0) by lia. subst c. rewrite Z.sub_0_r in Hsuf.
    destruct (IH (ch + 1)) as (ch' & Hskip & Hrange & Hsum & Htk); try lia.
    exists ch'. split; [exact Hskip|]. split; [lia|]. split; [lia|].
    rewrite Htk, Htake, <- app_assoc. f_equal.
    replace (Z.to_nat (ch' - ch)) with (S (Z.to_nat (ch' - (ch + 1)))) by lia.
    reflexivity.
  - exists ch. split; [reflexivity|]. split; [lia|]. split; [reflexivity|].
    rewrite Z.sub_diag. cbn [Z.to_nat repeat]. rewrite app_nil_r. reflexivity.
Qed.

(** A zero run is written as one composite field, which the reader
    decodes to the same number of zero counts. *)
Lemma zero_block (ws : wh_state) :
  winv N ws -> 0 < wh_remaining ws ->
  exists ws1 F w,
    wh_zero_run N ws = Some ws1
    /\ winv N ws1
    /\ 0 <= w /\ 0 <= F < 2 ^ w
    /\ wval ws1 = wval ws + F * 2 ^ wpos ws
    /\ wpos ws1 = wpos ws + w
    /\ wh_charnum ws <= wh_charnum ws1
    /\ wh_remaining ws1 = wh_remaining ws
    /\ wh_previous0 ws1 = wh_previous0 ws
    /\ (forall mem rs,
          Forall is_byte mem -> rinv mem rs -> rel N ws rs ->
          (le_val mem / 2 ^ wpos ws) mod 2 ^ w = F ->
          wpos ws + w <= 8 * Z.of_nat (length mem) ->
          exists rs1, rh_zero_run mem rs = Some rs1 /\ rinv mem rs1 /\ rel N ws1 rs1).
Proof.
  destruct ws as [out bs bc ch rem thr nb p0]. unfold winv, wval, wpos. proj_simpl.
  intros (Hout & Hbc & Hbs & Hinv & Hch & Hrem) Hpos.
  destruct (wh_skip0_spec (S (length N)) ch) as (ch' & Hskip & Hrange & Hsum & Htk);
    [lia | rewrite <- Hrem; exact Hpos | lia |].
  destruct (wh_run24_spec (Z.to_nat (ch' - ch)) ch' bc Hbc ch bs out Hbs Hout)
    as (q & bs1 & out1 & Hrun24 & Hr24 & Hbs1 & Hout1 & Hlen1 & Hval1); [lia | lia |].
  assert (Hdiv3 : 0 <= (ch' - (ch + 24 * Z.of_nat q)) / 3 <= 7).
  { split; [apply Z.div_pos; lia|]. apply Z.lt_succ_r, Z.div_lt_upper_bound; lia. }
  destruct (wh_run3_spec (Z.to_nat (ch' - (ch + 24 * Z.of_nat q))) ch'
              (ch + 24 * Z.of_nat q) bs1 bc) as (q3 & Hrun3 & Hr3); try lia.
  set (f := ch' - (ch + 24 * Z.of_nat q + 3 * Z.of_nat q3)).
  assert (Hf : 0 <= f < 3) by (unfold f; lia).
  assert (Hq3 : (q3 <= 7)%nat) by lia.
  set (G := zfield3 q3 f).
  pose proof (zfield3_bound q3 f Hf) as HG. fold G in HG.
  set (w := 16 * Z.of_nat q + (2 * Z.of_nat q3 + 2)).
  pose proof (zfield24_bound q G (2 * Z.of_nat q3 + 2) ltac:(lia) HG) as HF. fold w in HF.
  pose proof (pow2_pos bc ltac:(lia)) as Hpbc.
  assert (Hbs3 : bs1 + zfield3 q3 0 * 2 ^ bc + f * 2 ^ (bc + 2 * Z.of_nat q3) = bs1 + G * 2 ^ bc).
  { unfold G. rewrite (zfield3_split q3 f), Z.pow_add_r by lia. lia. }
  assert (Hnew : 0 <= bs1 + G * 2 ^ bc < 2 ^ (bc + 2 * Z.of_nat q3 + 2)).
  { replace (bc + 2 * Z.of_nat q3 + 2) with (bc + (2 * Z.of_nat q3 + 2)) by lia.
    rewrite Z.pow_add_r by lia. nia. }
  assert (Hu32 : u32 (bs1 + zfield3 q3 0 * 2 ^ bc + Z.shiftl f (bc + 2 * Z.of_nat q3))
                 = bs1 + G * 2 ^ bc).
  { rewrite shiftl_mul by lia. rewrite Hbs3. apply u32_small. split; [lia|].
    eapply Z.lt_le_trans; [apply Hnew|]. apply Z.pow_le_mono_r; lia. }
  pose proof (wh_flush_spec out1 (bs1 + G * 2 ^ bc) (bc + 2 * Z.of_nat q3 + 2)
                Hout1 ltac:(lia) Hnew) as Hflush.
  destruct (wh_flush out1 (bs1 + G * 2 ^ bc) (bc + 2 * Z.of_nat q3 + 2))
    as [[out' bs'] bc'] eqn:Eflush.
  destruct Hflush as (Hout' & Hbc' & Hbs' & Hval' & Hpos').
  exists {| wh_out := out'; wh_bitStream := bs'; wh_bitCount := bc'; wh_charnum := ch';
            wh_remaining := rem; wh_threshold := thr; wh_nbBits := nb;
            wh_previous0 := p0 |}, (zfield24 q G), w.
  proj_simpl.
  split.
  { unfold wh_zero_run. proj_simpl. rewrite Hskip. cbn [mbind option_bind].
    rewrite Hrun24, Hrun3. fold f. rewrite Hu32, Eflush. reflexivity. }
  split.
  { destruct Hinv as (? & ? & ? & ?). repeat split; try assumption; try lia. }
  split; [unfold w; lia|]. split; [exact HF|].
  split.
  { rewrite Hval', Hval1. unfold bits_val. rewrite Z.pow_add_r by lia. lia. }
  split; [unfold w; lia|].
  split; [lia|]. split; [reflexivity|]. split; [reflexivity|].
  intros mem rs Hmem. destruct rs as [rcounts rip rbs rbc rrem rthr rnb rp0].
  unfold rinv, rel, rpos, wpos. proj_simpl.
  intros (Hip & Hrbc & Hrbs) (Rc & Rrem & Rthr & Rnb & Rp0 & Rpos) Hfield Hfit.
  subst rrem rthr rnb rp0 rbs.
  rewrite <- Rpos in Hfield. unfold w in Hfield.
  destruct (rh_run24_spec mem rbc q3 f Hmem Hrbc Hq3 Hf q (S (length mem)) ch rip Hip
              ltac:(unfold w in Hfit; lia) Hfield) as [Hr24r Hrest].
  assert (Hpeek : Z.shiftr (load32 mem (rip + 2 * Z.of_nat q)) rbc mod 2 ^ (2 * Z.of_nat q3 + 2)
                  = zfield3 q3 f).
  { rewrite peek_bits by (try assumption; lia). exact Hrest. }
  destruct (rh_run3_spec q3 f Hf 16 (ch + 24 * Z.of_nat q)
              (Z.shiftr (load32 mem (rip + 2 * Z.of_nat q)) rbc) rbc ltac:(lia) Hpeek)
    as [Hr3r Hlast].
  assert (Hlen : Z.of_nat (length rcounts) = ch).
  { rewrite Rc, length_take. lia. }
  destruct (refill_pos (rip + 2 * Z.of_nat q) (rbc + 2 * Z.of_nat q3 + 2) ltac:(lia))
    as (Hrp & Hrb & Hrs).
  eexists. split.
  { unfold rh_zero_run. proj_simpl. rewrite Hlen, Hr24r. cbn [mbind option_bind].
    rewrite Hr3r, Hlast. reflexivity. }
  proj_simpl. split.
  { repeat split; try lia. }
  repeat split; try reflexivity.
  - rewrite Rc, Htk. f_equal. f_equal. unfold f. lia.
  - unfold w in *. lia.
Qed.

Lemma winv_wval_bound (ws : wh_state) : winv N ws -> 0 <= wpos ws /\ 0 <= wval ws < 2 ^ wpos ws.
Proof.
  intros (Hout & Hbc & Hbs & _). unfold wpos, wval. split; [lia|].
  apply bits_val_bound; [assumption | lia | assumption].
Qed.

Lemma extends_refl (ws : wh_state) : winv N ws -> extends ws ws.
Proof.
  intros H. destruct (winv_wval_bound ws H) as [Hp Hv].
  split; [lia|]. apply Z.mod_small. exact Hv.
Qed.

Lemma extends_trans (a b c : wh_state) :
  winv N a -> extends a b -> extends b c -> extends a c.
Proof.
  intros Ha [Hab Vab] [Hbc Vbc]. destruct (winv_wval_bound a Ha) as [Hp _].
  split; [lia|].
  rewrite <- (mod_pow2_mod (wval c) (wpos b) (wpos a)) by lia.
  rewrite Vbc. exact Vab.
Qed.

Lemma extends_field (ws ws1 : wh_state) (F w : Z) :
  winv N ws -> 0 <= w -> 0 <= F < 2 ^ w ->
  wval ws1 = wval ws + F * 2 ^ wpos ws -> wpos ws1 = wpos ws + w ->
  extends ws ws1.
Proof.
  intros Hws Hw HF Hval Hpos. destruct (winv_wval_bound ws Hws) as [Hp Hv].
  split; [lia|]. rewrite Hval, Z_mod_plus_full. apply Z.mod_small. exact Hv.
Qed.

Lemma sees_extends (M : Z) (ws ws' : wh_state) :
  winv N ws -> sees M ws' -> extends ws ws' -> sees M ws.
Proof.
  intros Hws Hsees [Hle Hval]. destruct (winv_wval_bound ws Hws) as [Hp _].
  unfold sees in *. rewrite <- (mod_pow2_mod M (wpos ws') (wpos ws)) by lia.
  rewrite Hsees. exact Hval.
Qed.

Lemma sees_field (M : Z) (ws ws1 : wh_state) (F w : Z) :
  winv N ws -> 0 <= w -> 0 <= F < 2 ^ w ->
  wval ws1 = wval ws + F * 2 ^ wpos ws -> wpos ws1 = wpos ws + w ->
  sees M ws1 ->
  (M / 2 ^ wpos ws) mod 2 ^ w = F.
Proof.
  intros Hws Hw HF Hval Hpos Hsees. destruct (winv_wval_bound ws Hws) as [Hp Hv].
  unfold sees in Hsees. rewrite Hpos, Hval in Hsees.
  apply (field_extract M (wval ws) F (wpos ws) w); assumption.
Qed.

Lemma suffix_sum_antitone (a b : Z) : 0 <= a <= b -> suffix_sum N b <= suffix_sum N a.
Proof.
  intros H. unfold suffix_sum.
  replace (Z.to_nat b) with (Z.to_nat a + Z.to_nat (b - a))%nat by lia.
  rewrite <- drop_drop.
  rewrite <- (take_drop (Z.to_nat (b - a)) (drop (Z.to_nat a) N)) at 2.
  rewrite sum_list_app.
  pose proof (sum_list_nonneg (take (Z.to_nat (b - a)) (drop (Z.to_nat a) N))
                (Forall_take _ _ _ (drop_nonneg _))). lia.
Qed.

(** The optional zero-run block that opens a round of either loop. *)
Lemma prefix_block (ws : wh_state) :
  winv N ws -> 0 < wh_remaining ws ->
  exists ws1,
    (if wh_previous0 ws then wh_zero_run N ws else Some ws) = Some ws1
    /\ winv N ws1 /\ extends ws ws1
    /\ wh_charnum ws <= wh_charnum ws1
    /\ wh_remaining ws1 = wh_remaining ws
    /\ (forall mem rs,
          Forall is_byte mem -> rinv mem rs -> rel N ws rs ->
          sees (le_val mem) ws1 -> wpos ws1 <= 8 * Z.of_nat (length mem) ->
          exists rs1,
            (if rh_previous0 rs then rh_zero_run mem rs else Some rs) = Some rs1
            /\ rinv mem rs1 /\ rel N ws1 rs1).
Proof.
  intros Hws Hpos. destruct (wh_previous0 ws) eqn:Ep.
  - destruct (zero_block ws Hws Hpos)
      as (ws1 & F & w & Hrun & Hws1 & Hw & HF & Hval & Hp & Hch & Hrem & Hp0 & Hread).
    exists ws1. split; [exact Hrun|]. split; [exact Hws1|].
    split; [eapply extends_field; eassumption|]. split; [exact Hch|]. split; [exact Hrem|].
    intros mem rs Hmem Hrs Hrel Hsees Hfit.
    assert (Hrp : rh_previous0 rs = true) by (destruct Hrel as (_ & _ & _ & _ & -> & _); exact Ep).
    rewrite Hrp. apply Hread; try assumption; [|lia].
    eapply sees_field; eassumption.
  - exists ws. split; [reflexivity|]. split; [exact Hws|].
    split; [apply extends_refl; exact Hws|]. split; [lia|]. split; [reflexivity|].
    intros mem rs Hmem Hrs Hrel _ _.
    assert (Hrp : rh_previous0 rs = false) by (destruct Hrel as (_ & _ & _ & _ & -> & _); exact Ep).
    rewrite Hrp. exists rs. auto.
Qed.

(** The two main loops run in lock step. *)
Lemma loop_sim (fuel : nat) :
  forall ws : wh_state,
    winv N ws ->
    (length N - Z.to_nat (wh_charnum ws) < fuel)%nat ->
    exists wsf,
      wh_loop fuel N ws = Some wsf
      /\ winv N wsf /\ wh_remaining wsf = 0 /\ extends ws wsf
      /\ (forall m, wh_charnum ws <= m -> suffix_sum N m = 0 -> wh_charnum wsf <= m)
      /\ (forall mem rs (fuel' : nat),
            Forall is_byte mem -> rinv mem rs -> rel N ws rs ->
            sees (le_val mem) wsf -> wpos wsf <= 8 * Z.of_nat (length mem) ->
            (length N - Z.to_nat (wh_charnum ws) < fuel')%nat ->
            exists rsf, rh_loop fuel' mem rs = Some rsf /\ rinv mem rsf /\ rel N wsf rsf).
Proof.
  induction fuel as [|fuel IH]; intros ws Hws Hfuel; [lia|].
  cbn [wh_loop]. destruct (wh_remaining ws >? 0) eqn:Erem.
  - assert (Hpos : 0 < wh_remaining ws) by lia.
    destruct (prefix_block ws Hws Hpos) as (wsa & Hruna & Hwsa & Hexta & Hcha & Hrema & Hreada).
    rewrite Hruna. cbn [mbind option_bind].
    destruct (count_block wsa Hwsa ltac:(lia))
      as (wsb & F & w & Hrunb & Hwsb & Hw & HF & Hval & Hp & Hchb & Hreadb).
    rewrite Hrunb. cbn [mbind option_bind].
    assert (Hextb : extends wsa wsb) by (eapply extends_field; eassumption).
    assert (Hcha_lt : wh_charnum wsa < Z.of_nat (length N)).
    { destruct Hwsa as (_ & _ & _ & _ & Hr & Hs).
      destruct (Z_lt_le_dec (wh_charnum wsa) (Z.of_nat (length N))) as [|Hge]; [assumption|].
      unfold suffix_sum in Hs. rewrite drop_ge in Hs by lia. simpl in Hs. lia. }
    assert (Hch0 : 0 <= wh_charnum ws) by (destruct Hws as (_ & _ & _ & _ & ? & _); lia).
    destruct (IH wsb Hwsb ltac:(lia)) as (wsf & Hloop & Hwsf & Hrem0 & Hextf & Hm & Hreadf).
    exists wsf. split; [exact Hloop|]. split; [exact Hwsf|]. split; [exact Hrem0|].
    split; [eapply extends_trans; [exact Hws | exact Hexta |];
            eapply extends_trans; eassumption|].
    split.
    { intros m Hle Hzero. apply Hm; [|exact Hzero].
      destruct (Z_lt_le_dec (wh_charnum wsa) m) as [|Hge]; [lia|].
      destruct Hwsa as (_ & _ & _ & _ & Hr & Hs).
      pose proof (suffix_sum_antitone m (wh_charnum wsa) ltac:(lia)). lia. }
    intros mem rs fuel' Hmem Hrs Hrel Hsees Hfit Hfuel'.
    destruct fuel' as [|fuel']; [lia|]. cbn [rh_loop].
    assert (Hrrem : rh_remaining rs = wh_remaining ws) by (destruct Hrel as (_ & -> & _); reflexivity).
    rewrite Hrrem, Erem.
    assert (Hseesb : sees (le_val mem) wsb) by (eapply sees_extends; eassumption).
    assert (Hseesa : sees (le_val mem) wsa) by (eapply sees_extends; eassumption).
    destruct Hextf as [Hlef _]. destruct Hextb as [Hleb _].
    destruct (Hreada mem rs Hmem Hrs Hrel Hseesa ltac:(lia)) as (rsa & Hra & Hrsa & Hrela).
    rewrite Hra. cbn [mbind option_bind].
    destruct (Hreadb mem rsa Hmem Hrsa Hrela) as (rsb & Hrb & Hrsb & Hrelb).
    { eapply sees_field; eassumption. }
    rewrite Hrb. cbn [mbind option_bind].
    apply Hreadf; try assumption. lia.
  - assert (Hzero : wh_remaining ws = 0).
    { destruct Hws as (_ & _ & _ & _ & _ & Hs).
      pose proof (suffix_sum_nonneg (wh_charnum ws)). lia. }
    exists ws. split; [reflexivity|]. split; [exact Hws|]. split; [exact Hzero|].
    split; [apply extends_refl; exact Hws|]. split; [intros; lia|].
    intros mem rs fuel' Hmem Hrs Hrel _ _ Hfuel'.
    destruct fuel' as [|fuel']; [lia|]. cbn [rh_loop].
    assert (Hrrem : rh_remaining rs = wh_remaining ws) by (destruct Hrel as (_ & -> & _); reflexivity).
    rewrite Hrrem, Erem. exists rs. auto.
Qed.

End HeaderCodec.

Lemma take_le_bytes (j : nat) :
  forall (n : nat) (v : Z), (j <= n)%nat -> take j (le_bytes n v) = le_bytes j v.
Proof.
  induction j as [|j IH]; intros n v Hj; [reflexivity|].
  destruct n as [|n]; [lia|]. cbn [le_bytes take]. f_equal. apply IH. lia.
Qed.

Lemma sum_list_last_positive (l : list Z) (c : Z) (i : Z) :
  Forall (fun c => 0 <= c) l -> 0 < c ->
  0 <= i <= Z.of_nat (length l) ->
  0 < sum_list (drop (Z.to_nat i) (l ++ [c])).
Proof.
  intros Hl Hc Hi. rewrite drop_app_le by lia. rewrite sum_list_app. cbn [sum_list].
  pose proof (sum_list_nonneg (drop (Z.to_nat i) l) (Forall_drop _ _ _ Hl)). lia.
Qed.

(** C3 (as amended).  Let [N0] be a vector of non-negative counts whose
    last entry is positive and whose sum is [2^L], with [L] in [5, 12],
    possibly followed by [k] zero entries.  [FSE_writeHeader] succeeds on
    it, and [FSE_readHeader] applied to the bytes written (followed by
    anything) returns the number of bytes written, the table log [L], and
    the counts [N0] with [nbSymbols = length N0]: the vector is recovered
    up to its last positive entry, trailing zeros are not transmitted. *)
Theorem header_round_trip :
  forall (N0 : list Z) (k : nat) (L : Z) (tail : list Z) (fuel : nat),
    FSE_MIN_TABLELOG <= L <= FSE_MAX_TABLELOG ->
    Forall (fun c => 0 <= c) N0 ->
    sum_list N0 = 2 ^ L ->
    (exists N' c, N0 = N' ++ [c] /\ 0 < c) ->
    Forall is_byte tail ->
    (length (N0 ++ repeat 0%Z k) < fuel)%nat ->
    exists size image,
      FSE_writeHeader (N0 ++ repeat 0 k) (Z.of_nat (length (N0 ++ repeat 0 k))) L
      = Some (size, image)
      /\ 0 < size
      /\ FSE_readHeader fuel (take (Z.to_nat size) image ++ tail)
         = Some {| rh_ret := size; rh_normalizedCounter := N0;
                   rh_nbSymbols := Z.of_nat (length N0); rh_tableLog := L |}.
Proof.
  intros N0 k L tail fuel HL HN0 Hsum (N' & clast & HN0eq & Hclast) Htail Hfuel.
  set (N := N0 ++ repeat 0 k) in *.
  assert (HLr : 5 <= L <= 12) by exact HL.
  assert (HN : Forall (fun c => 0 <= c) N).
  { apply Forall_app. split; [exact HN0|]. apply Forall_forall.
    intros x Hx. apply list_elem_of_In, repeat_spec in Hx. lia. }
  assert (HsumN : sum_list N = 2 ^ L).
  { unfold N. rewrite sum_list_app, sum_list_repeat0. lia. }
  assert (Hpow : 32 <= 2 ^ L <= 4096).
  { split; [change 32 with (2 ^ 5) | change 4096 with (2 ^ 12)];
      apply Z.pow_le_mono_r; lia. }
  assert (Hsmall : sum_list N <= 4096) by lia.
  set (ws0 := {| wh_out := []; wh_bitStream := 2 + 4 * (L - 5); wh_bitCount := 6;
                 wh_charnum := 0; wh_remaining := 2 ^ L; wh_threshold := 2 ^ L;
                 wh_nbBits := L + 1; wh_previous0 := false |}).
  assert (Hws0 : winv N ws0).
  { unfold winv, ws0. proj_simpl. split; [constructor|]. split; [lia|].
    split; [change (2 ^ 6) with 64; lia|]. split.
    - unfold hdr_inv. replace (L + 1 - 1) with L by lia. repeat split; lia.
    - split; [lia|]. unfold suffix_sum. change (Z.to_nat 0) with 0%nat.
      rewrite drop_0. lia. }
  destruct (loop_sim N HN Hsmall (S (length N)) ws0 Hws0)
    as (wsf & Hloop & Hwsf & Hrem0 & Hext & Hm & Hread).
  { unfold ws0. proj_simpl. lia. }
  (* the writer stops right after the last positive entry *)
  assert (Hchf : wh_charnum wsf = Z.of_nat (length N0)).
  { assert (Hle : wh_charnum wsf <= Z.of_nat (length N0)).
    { apply Hm; [unfold ws0; proj_simpl; lia|].
      unfold suffix_sum, N. rewrite Nat2Z.id, drop_app_length. apply sum_list_repeat0. }
    destruct (Z_lt_le_dec (wh_charnum wsf) (Z.of_nat (length N0))) as [Hlt|]; [|lia].
    exfalso. destruct Hwsf as (_ & _ & _ & _ & Hr & Hs).
    rewrite Hrem0 in Hs. unfold suffix_sum, N in Hs.
    rewrite drop_app_le in Hs by lia. rewrite sum_list_app, sum_list_repeat0 in Hs.
    assert (HN' : Forall (fun c => 0 <= c) N')
      by (rewrite HN0eq in HN0; apply Forall_app in HN0; tauto).
    assert (Hlen' : Z.of_nat (length N0) = Z.of_nat (length N') + 1)
      by (rewrite HN0eq, length_app; cbn [length]; lia).
    pose proof (sum_list_last_positive N' clast (wh_charnum wsf) HN' Hclast ltac:(lia)) as Hp.
    rewrite <- HN0eq in Hp. lia. }
  destruct (winv_wval_bound N wsf Hwsf) as [Hposf Hvalf].
  pose proof Hwsf as (Houtf & Hbcf & Hbsf & Hinvf & _ & _).
  set (outf := wh_out wsf) in *. set (bsf := wh_bitStream wsf) in *.
  set (bcf := wh_bitCount wsf) in *.
  set (j := (bcf + 7) / 8).
  assert (Hj : 0 <= j <= 2 /\ bcf <= 8 * j < bcf + 8).
  { unfold j. pose proof (Z.div_mod (bcf + 7) 8 ltac:(lia)).
    pose proof (Z.mod_pos_bound (bcf + 7) 8 ltac:(lia)). lia. }
  set (size := Z.of_nat (length outf) + j).
  set (image := outf ++ le_bytes 2 (u16 bsf)).
  assert (Hext0 : wpos ws0 = 6 /\ wval ws0 = 2 + 4 * (L - 5)).
  { unfold wpos, wval, bits_val, ws0. proj_simpl. cbn [length le_val]. split; lia. }
  assert (Hsize : 0 < size).
  { destruct Hext as [Hle _]. destruct Hext0 as [Hp0 _]. rewrite Hp0 in Hle.
    unfold wpos in Hle. fold outf bcf in Hle. unfold size. lia. }
  exists size, image. split.
  { unfold FSE_writeHeader.
    rewrite (gtb_false L FSE_MAX_TABLELOG) by apply HL.
    replace (L <? FSE_MIN_TABLELOG) with false by (symmetry; apply Z.ltb_ge, HL).
    rewrite !shiftl_mul by lia. rewrite Z.mul_1_l.
    unfold FSE_MIN_TABLELOG. change (2 ^ 2) with 4. change (2 + 4) with 6.
    rewrite u32_small by lia.
    replace (2 + (L - 5) * 4) with (2 + 4 * (L - 5)) by lia.
    fold N. fold ws0. rewrite Hloop. cbn [mbind option_bind].
    rewrite Hrem0. change (0 <? 0) with false. cbv iota.
    rewrite Hchf, (gtb_false (Z.of_nat (length N0))) by (unfold N; rewrite length_app; lia).
    reflexivity. }
  split; [exact Hsize|].
  (* the bytes that are read *)
  set (mem := take (Z.to_nat size) image ++ tail).
  assert (Hbsf16 : u16 bsf = bsf).
  { apply u16_small. split; [lia|]. eapply Z.lt_le_trans; [apply Hbsf|].
    apply Z.pow_le_mono_r; lia. }
  assert (Htake : take (Z.to_nat size) image = outf ++ le_bytes (Z.to_nat j) bsf).
  { unfold image, size. rewrite take_app_ge by lia. f_equal.
    replace (Z.to_nat (Z.of_nat (length outf) + j) - length outf)%nat with (Z.to_nat j) by lia.
    rewrite Hbsf16. apply take_le_bytes. lia. }
  assert (Hhead : Forall is_byte (take (Z.to_nat size) image)
                  /\ Z.of_nat (length (take (Z.to_nat size) image)) = size
                  /\ le_val (take (Z.to_nat size) image) = wval wsf).
  { rewrite Htake. split; [apply Forall_app; split; [exact Houtf | apply le_bytes_bytes]|].
    split; [rewrite length_app, le_bytes_length; unfold size; lia|].
    rewrite le_val_app, le_val_le_bytes by lia. unfold wval, bits_val. fold outf bsf.
    rewrite Z2Nat.id by lia. rewrite Z.mod_small; [reflexivity|].
    split; [lia|]. eapply Z.lt_le_trans; [apply Hbsf|]. apply Z.pow_le_mono_r; lia. }
  destruct Hhead as (Hhb & Hhl & Hhv).
  assert (Hmem : Forall is_byte mem) by (apply Forall_app; split; assumption).
  assert (Hfit : wpos wsf <= 8 * size).
  { unfold wpos, size. fold outf bcf. lia. }
  assert (Hsees : sees (le_val mem) wsf).
  { unfold sees, mem. rewrite le_val_app, Hhl, Hhv.
    replace (8 * size) with (wpos wsf + (8 * size - wpos wsf)) by lia.
    rewrite Z.pow_add_r by lia.
    replace (wval wsf + 2 ^ wpos wsf * 2 ^ (8 * size - wpos wsf) * le_val tail)
      with (wval wsf + (2 ^ (8 * size - wpos wsf) * le_val tail) * 2 ^ wpos wsf) by lia.
    rewrite Z_mod_plus_full. apply Z.mod_small. exact Hvalf. }
  assert (Hsees0 : sees (le_val mem) ws0) by (eapply sees_extends; eassumption).
  destruct Hext0 as [Hp0 Hv0]. unfold sees in Hsees0. rewrite Hp0, Hv0 in Hsees0.
  assert (HtabLog : (le_val mem / 2 ^ 2) mod 2 ^ 4 = L - 5).
  { apply (field_extract (le_val mem) 2 (L - 5) 2 4);
      [lia | lia | change (2 ^ 2) with 4; lia | change (2 ^ 4) with 16; lia |].
    change (2 + 4) with 6. rewrite Hsees0. change (2 ^ 2) with 4. lia. }
  set (rs0 := {| rh_counts := []; rh_ip := 0; rh_bitStream := Z.shiftr (load32 mem 0) 6;
                 rh_bitCount := 6; rh_remaining := 2 ^ L; rh_threshold := 2 ^ L;
                 rh_nbBits := L + 1; rh_previous0 := false |}).
  assert (Hrs0 : rinv mem rs0) by (unfold rinv, rs0; proj_simpl; repeat split; lia).
  assert (Hrel0 : rel N ws0 rs0).
  { unfold rel, rs0, ws0, rpos, wpos. proj_simpl. repeat split; reflexivity. }
  destruct (Hread mem rs0 fuel Hmem Hrs0 Hrel0 Hsees) as (rsf & Hrloop & Hrsf & Hrelf).
  { unfold mem. rewrite length_app. lia. }
  { unfold ws0. proj_simpl. lia. }
  unfold FSE_readHeader. fold mem.
  assert (Hnb : Z.land (Z.shiftr (load32 mem 0) 2) 15 + FSE_MIN_TABLELOG = L).
  { change 15 with (Z.ones 4). rewrite Z.land_ones by lia.
    rewrite load32_val by (try assumption; lia). change (2 ^ (8 * 0)) with 1.
    rewrite Z.div_1_r, window_bits by lia. rewrite HtabLog. unfold FSE_MIN_TABLELOG. lia. }
  rewrite Hnb, Z.shiftr_shiftr by lia. change (2 + 4) with 6.
  rewrite shiftl_mul, Z.mul_1_l by lia. fold rs0. rewrite Hrloop. cbn [mbind option_bind].
  destruct Hrelf as (Rc & Rrem & Rthr & Rnb & Rp0 & Rpos).
  destruct Hrsf as (Hipf & Hrbcf & _).
  rewrite Rrem, Hrem0. change (0 <? 0) with false. cbv iota.
  assert (Hnbf : wh_nbBits wsf = 0).
  { destruct Hinvf as (Hthr & Hnbr & Hle & _). rewrite Hrem0 in Hle.
    destruct (Z_lt_le_dec (wh_nbBits wsf) 1) as [|Hge]; [lia|].
    pose proof (pow2_pos (wh_nbBits wsf - 1) ltac:(lia)). lia. }
  rewrite Rnb, Hnbf. change (0 >? FSE_MAX_TABLELOG) with false. cbv iota.
  rewrite Rc, Hchf. unfold N at 1 2. rewrite Nat2Z.id, take_app_length.
  do 2 f_equal.
  unfold rpos, wpos in Rpos. fold outf bcf in Rpos. unfold size.
  destruct (rh_bitCount rsf >? 0) eqn:E; lia.
Qed.

Lemma header_round_trip_witness :
  exists size image,
    FSE_writeHeader ([10; 0; 0; 0; 5; 0; 1; 16] ++ repeat 0 2) 10 5 = Some (size, image)
    /\ 0 < size
    /\ FSE_readHeader 20 (take (Z.to_nat size) image ++ [7; 9])
       = Some {| rh_ret := size; rh_normalizedCounter := [10; 0; 0; 0; 5; 0; 1; 16];
                 rh_nbSymbols := 8; rh_tableLog := 5 |}.
Proof.
  apply (header_round_trip [10; 0; 0; 0; 5; 0; 1; 16] 2 5 [7; 9] 20).
  - split; apply Z.leb_le; reflexivity.
  - repeat constructor; lia.
  - reflexivity.
  - exists [10; 0; 0; 0; 5; 0; 1], 16. split; [reflexivity | lia].
  - repeat constructor; unfold is_byte; lia.
  - simpl. lia.
Defined.

(** The claim as worded promises [nbSymbols = n] and the counts [N]
    themselves for every valid vector.  The header has no symbol-count
    field: for [N = [32; 0]] the reader stops after the last positive
    count and reports one symbol. *)
Lemma header_round_trip_loses_trailing_zero :
  FSE_writeHeader [32; 0] 2 5 = Some (2, [194; 15])
  /\ FSE_readHeader 10 [194; 15]
     = Some {| rh_ret := 2; rh_normalizedCounter := [32];
               rh_nbSymbols := 1; rh_tableLog := 5 |}
  /\ [32] <> [32; 0] /\ 1 <> 2.
Proof.
  split; [vm_compute; reflexivity|]. split; [vm_compute; reflexivity|].
  split; [discriminate | lia].
Qed.

(** ** Normalization: where the minimum-weight protection fails *)

(** C2, evaluated.  With table log 5 the in-place normalization of
    [starving_counts] returns 5 and a table summing to [2^5], in which
    symbol 15, which occurs once in the input, has weight zero: the
    [minBase] bias computed under "Ensure minimum step is 1" is too small
    when [nbSymbols] is close to the table size. *)
Theorem normalizeCount_starves_a_symbol :
  exists N,
    FSE_normalizeCount 100 5 starving_counts 109 31 = Some (5, N)
    /\ sum_list starving_counts = 109
    /\ length starving_counts = 31%nat
    /\ sum_list N = 2 ^ 5
    /\ nth 15 starving_counts 0 = 1
    /\ nth 15 N 0 = 0.
Proof.
  eexists. split; [vm_compute; reflexivity|].
  repeat split; reflexivity.
Qed.

(** ** Normalization: where the [minBase] iteration does not end *)

(** With [nbSymbols = 2^tableLog] the update [add = (add * nbSymbols) >> tableLog]
    leaves [add] unchanged: the [do ... while (add)] loop runs forever. *)
Lemma norm_minBase_diverges (fuel : nat) :
  forall minBase : Z, norm_minBase fuel minBase 33 32 5 = None.
Proof.
  induction fuel as [|fuel IH]; intros minBase; [reflexivity|].
  cbn [norm_minBase]. change (Z.shiftr (u32 (33 * u32 32)) 5) with 33.
  change (33 =? 0) with false. cbv iota. apply IH.
Qed.

Lemma looping_input_counts :
  FSE_count looping_input FSE_MAX_NB_SYMBOLS_CHAR
  = Some (32, 2 :: repeat 1 31 ++ repeat 0 224).
Proof. vm_compute. reflexivity. Qed.

Lemma looping_input_normalize (fuel : nat) :
  FSE_normalizeCount fuel 5 (2 :: repeat 1 31 ++ repeat 0 224) 33 32 = None.
Proof.
  unfold FSE_normalizeCount.
  replace (norm_tableLog 5 33 32) with 5 by (vm_compute; reflexivity).
  change (5 >? FSE_MAX_TABLELOG) with false. cbv iota zeta.
  change (FSE_highbit (u32 (33 - 1)) + 1 >? FSE_VIRTUAL_LOG - 5) with false. cbv iota.
  cbn [mbind option_bind].
  change (33 >? Z.shiftl 1 5) with true. cbv iota.
  change (Z.shiftr (u32 (u32 33 * u32 32)) 5) with 33. change (u32 33) with 33.
  rewrite norm_minBase_diverges. reflexivity.
Qed.

(** C1, evaluated.  On the 33-byte input [looping_input] with
    [tableLog = 5] (and the default symbol cap) [FSE_compress2] never
    returns, whatever the fuel: the counting pass reports 32 symbols, the
    table log stays 5, and [FSE_normalizeCount] enters the endless
    [minBase] loop.  No frame is produced that could be decompressed. *)
Theorem compress_does_not_return :
  1 <= Z.of_nat (length looping_input) <= 2 ^ 20
  /\ Forall (fun b => 0 <= b < 256) looping_input
  /\ forall fuel : nat, FSE_compress2 fuel looping_input 0 5 = None.
Proof.
  split; [change (Z.of_nat (length looping_input)) with 33; lia|].
  split; [repeat constructor; lia|].
  intros fuel. unfold FSE_compress2.
  change (Z.of_nat (length looping_input) <=? 1) with false. cbv iota.
  change (if 0 =? 0 then FSE_MAX_NB_SYMBOLS_CHAR else 0) with FSE_MAX_NB_SYMBOLS_CHAR.
  rewrite looping_input_counts. cbn [mbind option_bind].
  change (32 =? -1) with false. change (32 =? 1) with false. cbv iota.
  change (if 5 =? 0 then FSE_MAX_TABLELOG else 5) with 5.
  change (Z.of_nat (length looping_input)) with 33.
  rewrite looping_input_normalize. reflexivity.
Qed.

(** ** Safe decoding of a truncated raw frame *)

(** C5, evaluated.  The two bytes [0x41, 0x42] are compressed to the raw
    frame [0, 0x41, 0x42].  Handed the first two bytes of that frame with
    [maxCompressedSize = 2], the safe decoder does not fail: the raw path
    never looks at the bound, copies [originalSize] bytes (the second one
    from beyond the bound, whatever lies there) and returns 3. *)
Theorem safe_decode_accepts_truncated_raw_frame :
  (forall fuel : nat,
     exists image, FSE_compress fuel [65; 66] = Some (3, image)
                   /\ take 3 image = [0; 65; 66])
  /\ forall (fuel : nat) (beyond : list Z),
       FSE_decompress_safe fuel 2 (take 2 [0; 65; 66] ++ beyond) 2
       = Some (3, [65; byte_at beyond 0]).
Proof.
  split.
  - intros fuel. eexists. split; [vm_compute; reflexivity | reflexivity].
  - intros fuel beyond. destruct beyond as [|b beyond]; reflexivity.
Qed.

(** ** The spread table *)

Lemma spread_returns (tableLog : Z) (N tbl : list Z) :
  FSE_MIN_TABLELOG <= tableLog <= FSE_MAX_TABLELOG ->
  Forall (fun c => 0 <= c) N ->
  FSE_spreadSymbols8 tbl N (Z.of_nat (length N)) tableLog
  = Some (if cursor tableLog (sum_list N) =? 0 then 0 else -1,
          writes tableLog tbl 0 (spread_plan N 0)).
Proof.
  intros HL HN. unfold FSE_spreadSymbols8. rewrite Nat2Z.id.
  pose proof (spread_loop_writes tableLog HL N tbl 0 0 HN) as H.
  assert (Hc : cursor tableLog 0 = 0) by reflexivity.
  rewrite Hc in H. rewrite H. cbn [mbind option_bind].
  rewrite Z.add_0_l. destruct (cursor tableLog (sum_list N) =? 0); reflexivity.
Qed.

Lemma cursor_zero_iff (tableLog k : Z) :
  FSE_MIN_TABLELOG <= tableLog <= FSE_MAX_TABLELOG ->
  cursor tableLog k = 0 <-> (2 ^ tableLog | k).
Proof.
  intros HL. pose proof (T_bounds tableLog HL) as HT. rewrite <- T_pow.
  destruct (step_odd tableLog HL) as (h & Hh & _).
  unfold cursor. rewrite Hh. split.
  - intros H. apply Z.mod_divide in H; [|lia].
    rewrite T_pow in *. rewrite <- (Z2Nat.id tableLog) in * by (unfold FSE_MIN_TABLELOG in HL; lia).
    eapply pow2_divide_odd_multiple. exact H.
  - intros [q ->]. rewrite <- Z.mul_assoc, (Z.mul_comm (1 ≪ tableLog)), Z.mul_assoc.
    apply Z_mod_mult.
Qed.

(** X1.  The only test the spreader makes on its input is that the cursor is
    back at cell 0: for a table log in the supported range it reports
    success exactly when the total weight is a multiple of the table size
    (so a total of zero, or of twice the table size, passes), and it
    reports -1 otherwise. *)
Theorem spread_accepts_multiples_of_table_size :
  forall (tableLog : Z) (N tbl : list Z),
    FSE_MIN_TABLELOG <= tableLog <= FSE_MAX_TABLELOG ->
    Forall (fun c => 0 <= c) N ->
    2 ^ tableLog <= Z.of_nat (length tbl) ->
    exists r S, FSE_spreadSymbols8 tbl N (Z.of_nat (length N)) tableLog = Some (r, S)
                /\ (r = 0 \/ r = -1)
                /\ (r = 0 <-> (2 ^ tableLog | sum_list N)).
Proof.
  intros L N tbl HL HN _. rewrite (spread_returns L N tbl HL HN).
  eexists _, _. split; [reflexivity|].
  pose proof (cursor_zero_iff L (sum_list N) HL) as Hiff.
  destruct (cursor L (sum_list N) =? 0) eqn:E.
  - split; [left; reflexivity|]. split; [intros _; apply Hiff; lia | reflexivity].
  - split; [right; reflexivity|]. split; [discriminate|]. intros Hd. apply Hiff in Hd. lia.
Qed.

Lemma spread_accepts_multiples_of_table_size_witness :
  exists r S, FSE_spreadSymbols8 (repeat 0 32) [40; 24] 2 5 = Some (r, S)
              /\ (r = 0 \/ r = -1) /\ (r = 0 <-> (2 ^ 5 | sum_list [40; 24])).
Proof.
  apply (spread_accepts_multiples_of_table_size 5 [40; 24] (repeat 0 32)).
  - unfold FSE_MIN_TABLELOG, FSE_MAX_TABLELOG, FSE_MEMORY_USAGE. lia.
  - repeat constructor; lia.
  - simpl. lia.
Defined.

(** ** The decoding table *)

Lemma lookup_nth (l : list Z) (i : nat) : (i < length l)%nat -> l !! i = Some (nth i l 0).
Proof. intros H. destruct (nth_lookup_or_length l i 0) as [E|E]; [exact E|lia]. Qed.

Lemma rd_in_range (l : list Z) (i : Z) :
  0 <= i < Z.of_nat (length l) -> rd l i = Some (nth (Z.to_nat i) l 0).
Proof.
  intros H. unfold rd. destruct (i <? 0) eqn:E; [lia|]. apply lookup_nth. lia.
Qed.

Lemma nth_wr (a : list Z) (i j v : Z) :
  0 <= i < Z.of_nat (length a) -> 0 <= j < Z.of_nat (length a) ->
  nth (Z.to_nat j) (wr a i v) 0 = if j =? i then v else nth (Z.to_nat j) a 0.
Proof.
  intros Hi Hj. destruct (Z.eqb_spec j i) as [->|Hne].
  - apply (rd_nth 0). rewrite Z2Nat.id by lia. apply rd_wr_eq. exact Hi.
  - apply (rd_nth 0). rewrite Z2Nat.id by lia.
    rewrite rd_wr_ne by lia. apply rd_in_range. exact Hj.
Qed.

Lemma freq_take_lt (S : list Z) (i : nat) :
  (i < length S)%nat -> freq (take i S) (nth i S 0) < freq S (nth i S 0).
Proof.
  intros Hi. rewrite <- (take_drop i S) at 3. rewrite (freq_app 0).
  rewrite (drop_S S (nth i S 0) i) by (apply lookup_nth; exact Hi).
  rewrite freq_cons, Z.eqb_refl.
  pose proof (freq_bounds (drop (Datatypes.S i) S) (nth i S 0)). lia.
Qed.

Lemma dtable_fill_spec (tableLog : Z) (S : list Z) :
  forall next : list Z,
    Forall (fun s => 0 <= s < Z.of_nat (length next)) S ->
    (forall s, 0 <= s < Z.of_nat (length next) ->
               0 <= nth (Z.to_nat s) next 0 /\ nth (Z.to_nat s) next 0 + freq S s < 2^32) ->
    exists t, dtable_fill S next tableLog (Z.shiftl 1 tableLog) = Some t
      /\ length t = length S
      /\ forall i, (i < length S)%nat ->
           t !! i = Some (decode_entry tableLog (nth i S 0)
                            (nth (Z.to_nat (nth i S 0)) next 0 + occ_before S i)).
Proof.
  induction S as [|s S IH]; intros next Hin Hnext.
  - exists []. cbn [dtable_fill length]. repeat split. intros i Hi. lia.
  - inversion Hin as [|? ? Hs Hin']; subst. cbn [dtable_fill].
    rewrite (rd_in_range next s Hs). cbn [mbind option_bind].
    destruct (Hnext s Hs) as [Hn0 Hn1]. rewrite freq_cons, Z.eqb_refl in Hn1.
    pose proof (freq_bounds S s) as Hfs.
    rewrite (u32_small (_ + 1)) by lia.
    destruct (IH (wr next s (nth (Z.to_nat s) next 0 + 1))) as (t & Ht & Hlen & Hent).
    + rewrite wr_length. exact Hin'.
    + rewrite wr_length. intros s' Hs'. rewrite nth_wr by assumption.
      specialize (Hnext s' Hs'). rewrite freq_cons in Hnext.
      pose proof (freq_bounds S s').
      destruct (Z.eqb_spec s' s) as [->|Hne].
      * rewrite Z.eqb_refl in Hnext. lia.
      * destruct (Z.eqb_spec s s'); [congruence|]. lia.
    + rewrite Ht. cbn [mbind option_bind]. eexists. split; [reflexivity|].
      split; [cbn [length]; lia|].
      intros [|i] Hi; cbn [length] in Hi.
      * cbn [lookup list_lookup nth]. unfold occ_before. cbn [take nth].
        rewrite freq_nil, Z.add_0_r. reflexivity.
      * cbn [lookup list_lookup nth]. change (t !! i = Some (decode_entry tableLog (nth i S 0)
           (nth (Z.to_nat (nth i S 0)) next 0 + occ_before (s :: S) (Datatypes.S i)))).
        rewrite Hent by lia. do 2 f_equal.
        assert (Hx : 0 <= nth i S 0 < Z.of_nat (length next)).
        { rewrite Forall_forall in Hin'. apply Hin'. apply list_elem_of_In. apply nth_In. lia. }
        rewrite nth_wr by assumption.
        unfold occ_before. cbn [take nth]. rewrite freq_cons.
        destruct (Z.eqb_spec (nth i S 0) s) as [E|Hne].
        -- rewrite E, Z.eqb_refl. lia.
        -- destruct (Z.eqb_spec s (nth i S 0)); [congruence|]. lia.
Qed.

Lemma log2_shift_window (x k : Z) :
  0 < x -> 0 <= k -> Z.log2 x <= k ->
  2 ^ k <= x * 2 ^ (k - Z.log2 x) < 2 ^ (k + 1)
  /\ (x + 1) * 2 ^ (k - Z.log2 x) <= 2 ^ (k + 1).
Proof.
  intros Hx Hk Hlog. destruct (Z.log2_spec x Hx) as [Hlo Hhi].
  pose proof (Z.log2_nonneg x) as Hl0.
  assert (Hp : 0 < 2 ^ (k - Z.log2 x)) by (apply Z.pow_pos_nonneg; lia).
  assert (E1 : 2 ^ k = 2 ^ Z.log2 x * 2 ^ (k - Z.log2 x)).
  { rewrite <- Z.pow_add_r by lia. f_equal. lia. }
  assert (E2 : 2 ^ (k + 1) = 2 ^ Z.succ (Z.log2 x) * 2 ^ (k - Z.log2 x)).
  { rewrite <- Z.pow_add_r by lia. f_equal. lia. }
  rewrite E1, E2. nia.
Qed.

Section Tables.

Variable N : list Z.
Variable tableLog : Z.
Hypothesis N_normalized : normalized N tableLog.

Let T : Z := Z.shiftl 1 tableLog.
Let S : list Z := spread_of N tableLog.

Lemma tables_log : FSE_MIN_TABLELOG <= tableLog <= FSE_MAX_TABLELOG.
Proof. apply N_normalized. Qed.

Lemma tables_T : T = 2 ^ tableLog /\ 32 <= T <= 4096 /\ 5 <= tableLog <= 12.
Proof.
  pose proof tables_log as HL. unfold FSE_MIN_TABLELOG, FSE_MAX_TABLELOG, FSE_MEMORY_USAGE in HL.
  unfold T. rewrite Z.shiftl_1_l. split; [reflexivity|]. split; [|lia]. split.
  - change 32 with (2^5). apply Z.pow_le_mono_r; lia.
  - change 4096 with (2^12). apply Z.pow_le_mono_r; lia.
Qed.

Lemma tables_N : (length N <= 256)%nat /\ Forall (fun c => 0 <= c) N /\ sum_list N = T.
Proof.
  destruct N_normalized as (_ & H1 & H2 & H3). destruct tables_T as (-> & _). auto.
Qed.

Lemma spread_of_perm : S ≡ₚ spread_plan N 0.
Proof.
  destruct tables_N as (_ & Hnn & Hsum). destruct tables_T as (_ & HT & _).
  unfold S, spread_of. apply (writes_full tableLog tables_log).
  - rewrite (spread_plan_length 0) by exact Hnn. exact Hsum.
  - rewrite repeat_length. fold T. change (Z.to_nat FSE_MAX_TABLESIZE) with 4096%nat. lia.
Qed.

Lemma spread_of_length : Z.of_nat (length S) = T.
Proof.
  rewrite (Permutation_length spread_of_perm).
  destruct tables_N as (_ & Hnn & Hsum).
  rewrite (spread_plan_length 0) by exact Hnn. exact Hsum.
Qed.

Lemma spread_of_freq (s : Z) :
  freq S s = if (0 <=? s) && (s <? Z.of_nat (length N)) then nth (Z.to_nat s) N 0 else 0.
Proof.
  destruct tables_N as (H256 & Hnn & _).
  rewrite (Permutation_count_occ_freq _ _ spread_of_perm).
  rewrite (spread_plan_freq 0) by (try assumption; lia).
  rewrite Z.add_0_l, Z.sub_0_r. reflexivity.
Qed.

Lemma spread_of_symbol (i : nat) :
  (i < length S)%nat ->
  0 <= nth i S 0 < Z.of_nat (length N)
  /\ occ_before S i < nth (Z.to_nat (nth i S 0)) N 0
  /\ 0 <= occ_before S i.
Proof.
  intros Hi. pose proof (freq_take_lt S i Hi) as Hlt.
  pose proof (freq_bounds (take i S) (nth i S 0)) as Hb.
  rewrite spread_of_freq in Hlt. fold (occ_before S i) in Hlt, Hb.
  destruct ((0 <=? nth i S 0) && (nth i S 0 <? Z.of_nat (length N))) eqn:E; lia.
Qed.

Lemma N_entry_le (s : Z) : 0 <= s < Z.of_nat (length N) -> 0 <= nth (Z.to_nat s) N 0 <= T.
Proof.
  intros Hs. destruct tables_N as (_ & Hnn & Hsum).
  pose proof (freq_bounds S s) as Hb. rewrite spread_of_freq, spread_of_length in Hb.
  replace ((0 <=? s) && (s <? Z.of_nat (length N))) with true in Hb by lia. exact Hb.
Qed.

Lemma spread_scratch :
  FSE_spreadSymbols8 (repeat 0 (Z.to_nat FSE_MAX_TABLESIZE)) N (Z.of_nat (length N)) tableLog
  = Some (0, writes tableLog (repeat 0 (Z.to_nat FSE_MAX_TABLESIZE)) 0 (spread_plan N 0)).
Proof.
  destruct tables_N as (_ & Hnn & Hsum). destruct tables_T as (HT & _).
  rewrite (spread_returns tableLog N _ tables_log Hnn).
  assert (Hc : cursor tableLog (sum_list N) = 0).
  { apply cursor_zero_iff; [exact tables_log|]. rewrite Hsum, HT. exists 1. lia. }
  rewrite Hc. reflexivity.
Qed.

(** Bounds on the fields of a table entry built for a counter value
    between the weight of its symbol and twice that weight. *)
Lemma decode_entry_bounds (s n ns : Z) :
  1 <= n <= T -> n <= ns < 2 * n ->
  let e := decode_entry tableLog s ns in
  nbBits e = tableLog - Z.log2 ns
  /\ 0 <= nbBits e <= tableLog
  /\ newState e = ns * 2 ^ nbBits e - T
  /\ 0 <= newState e /\ newState e + 2 ^ nbBits e <= T.
Proof.
  intros Hn Hns. destruct tables_T as (HT & HTr & HL).
  assert (Hlog : Z.log2 ns <= tableLog).
  { assert (Z.log2 ns < tableLog + 1); [|lia]. apply Z.log2_lt_pow2; [lia|].
    rewrite Z.pow_add_r, <- HT by lia. lia. }
  pose proof (Z.log2_nonneg ns) as Hl0.
  destruct (log2_shift_window ns tableLog) as [Hw1 Hw2]; try lia.
  rewrite Z.pow_add_r, <- HT in Hw1, Hw2 by lia.
  cbv zeta. unfold decode_entry, FSE_highbit. cbn [nbBits newState].
  rewrite (u8_small (tableLog - Z.log2 ns)) by lia.
  rewrite shiftl_mul by lia. fold T.
  rewrite u32_small by lia. rewrite u16_small by lia.
  repeat split; lia.
Qed.

Lemma buildDTable_entries :
  exists t, FSE_buildDTable N (Z.of_nat (length N)) tableLog = Some (inr t)
    /\ Z.of_nat (length t) = T
    /\ forall i, (i < length S)%nat ->
         t !! i = Some (decode_entry tableLog (nth i S 0)
                          (nth (Z.to_nat (nth i S 0)) N 0 + occ_before S i)).
Proof.
  destruct tables_N as (H256 & Hnn & Hsum). destruct tables_T as (HT & HTr & HL).
  unfold FSE_buildDTable.
  rewrite gtb_false by (change FSE_MAX_NB_SYMBOLS_CHAR with 256; lia).
  rewrite gtb_false by (change FSE_MAX_TABLELOG with 12; lia).
  rewrite spread_scratch. cbn [mbind option_bind]. change (0 =? -1) with false. cbv iota.
  rewrite Nat2Z.id, firstn_all. fold (spread_of N tableLog). fold S.
  destruct (dtable_fill_spec tableLog S N) as (t & Ht & Hlen & Hent).
  - apply Forall_forall. intros x Hx. apply list_elem_of_In in Hx.
    apply (In_nth _ _ 0) in Hx. destruct Hx as (i & Hi & <-).
    apply spread_of_symbol. exact Hi.
  - intros s Hs. pose proof (N_entry_le s Hs). pose proof (freq_bounds S s).
    rewrite spread_of_length in *. lia.
  - rewrite Ht. cbn [mbind option_bind]. exists t. split; [reflexivity|].
    split; [rewrite Hlen; apply spread_of_length | exact Hent].
Qed.

(** Every cell of the decoding table, with the bounds that keep the
    decoder inside the table. *)
Lemma buildDTable_cells :
  exists t, FSE_buildDTable N (Z.of_nat (length N)) tableLog = Some (inr t)
    /\ Z.of_nat (length t) = T
    /\ map symbol t = S
    /\ forall i e, t !! i = Some e ->
         0 <= symbol e < Z.of_nat (length N)
         /\ 0 < nth (Z.to_nat (symbol e)) N 0
         /\ e = decode_entry tableLog (symbol e)
                  (nth (Z.to_nat (symbol e)) N 0 + occ_before S i)
         /\ 0 <= occ_before S i < nth (Z.to_nat (symbol e)) N 0
         /\ 0 <= nbBits e <= tableLog
         /\ 0 <= newState e /\ newState e + 2 ^ nbBits e <= T.
Proof.
  destruct buildDTable_entries as (t & Ht & Hlen & Hent).
  exists t. split; [exact Ht|]. split; [exact Hlen|].
  pose proof spread_of_length as HS.
  assert (Hcell : forall i e, t !! i = Some e ->
            (i < length S)%nat /\ e = decode_entry tableLog (nth i S 0)
                          (nth (Z.to_nat (nth i S 0)) N 0 + occ_before S i)).
  { intros i e Hi. assert (Hlt : (i < length S)%nat).
    { apply lookup_lt_Some in Hi. lia. }
    split; [exact Hlt|]. rewrite (Hent i Hlt) in Hi. congruence. }
  split.
  - apply nth_ext with (d := 0) (d' := 0); [rewrite length_map; lia|].
    intros i Hi. rewrite length_map in Hi.
    destruct (lookup_lt_is_Some_2 t i Hi) as [e He].
    rewrite (nth_indep _ 0 (symbol e)) by (rewrite length_map; exact Hi).
    rewrite map_nth. rewrite (nth_lookup_Some t i e e He).
    destruct (Hcell i e He) as [_ ->]. reflexivity.
  - intros i e Hi. destruct (Hcell i e Hi) as [Hlt He].
    destruct (spread_of_symbol i Hlt) as (Hs & Hocc & Hocc0).
    assert (Hsym : symbol e = nth i S 0) by (rewrite He; reflexivity).
    rewrite Hsym.
    pose proof (N_entry_le (nth i S 0) Hs) as HNs.
    destruct (decode_entry_bounds (nth i S 0) (nth (Z.to_nat (nth i S 0)) N 0)
                (nth (Z.to_nat (nth i S 0)) N 0 + occ_before S i)) as (Hnb & Hnbr & Hns & Hns0 & Hfit);
      [lia | lia |].
    rewrite <- He in Hnb, Hnbr, Hns, Hns0, Hfit.
    repeat split; try lia; try assumption.
Qed.

End Tables.

Lemma readBits_range (bitC : bitContainer_backward_t) (nb : Z) :
  0 <= nb <= 31 ->
  0 <= (FSE_readBits bitC nb).1 < 2 ^ nb
  /\ b_bitsConsumed (FSE_readBits bitC nb).2 = b_bitsConsumed bitC + nb.
Proof.
  intros Hnb. unfold FSE_readBits. cbn [fst snd b_bitsConsumed]. split; [|reflexivity].
  set (w := u32 _). assert (Hw : 0 <= w < 2 ^ 32) by (apply Z.mod_pos_bound; lia).
  rewrite Z.shiftr_shiftr by lia. rewrite Z.shiftr_div_pow2 by lia.
  assert (Hp : 0 < 2 ^ (1 + (31 - nb))) by (apply Z.pow_pos_nonneg; lia).
  split; [apply Z.div_pos; lia|].
  apply Z.div_lt_upper_bound; [lia|]. rewrite <- Z.pow_add_r by lia.
  replace (1 + (31 - nb) + nb) with 32 by lia. lia.
Qed.

(** X2.  The decoding table built from a normalized distribution has
    [2^tableLog] cells; symbol [s] owns exactly [N[s]] of them; and every
    cell reads at most [tableLog] bits and has room for them:
    [newState + 2^nbBits <= 2^tableLog], so whatever bits arrive, the next
    state is again a cell of the table. *)
Theorem decoding_table_cells_are_closed :
  forall (N : list Z) (tableLog : Z),
    normalized N tableLog ->
    exists t, FSE_buildDTable N (Z.of_nat (length N)) tableLog = Some (inr t)
      /\ Z.of_nat (length t) = 2 ^ tableLog
      /\ (forall s, 0 <= s < Z.of_nat (length N) ->
                    freq (map symbol t) s = nth (Z.to_nat s) N 0)
      /\ Forall (fun e => 0 <= symbol e < Z.of_nat (length N)
                          /\ 0 <= nbBits e <= tableLog
                          /\ 0 <= newState e
                          /\ newState e + 2 ^ nbBits e <= 2 ^ tableLog) t.
Proof.
  intros N L HN. destruct (buildDTable_cells N L HN) as (t & Ht & Hlen & Hsym & Hcells).
  destruct (tables_T N L HN) as (HT & _).
  exists t. split; [exact Ht|]. split; [lia|]. split.
  - intros s Hs. rewrite Hsym, (spread_of_freq N L HN).
    replace ((0 <=? s) && (s <? Z.of_nat (length N))) with true by lia. reflexivity.
  - apply Forall_lookup. intros i e Hi.
    destruct (Hcells i e Hi) as (H1 & _ & _ & _ & H2 & H3 & H4). rewrite HT in H4. auto.
Qed.

Lemma decoding_table_cells_are_closed_witness :
  exists t, FSE_buildDTable [10; 0; 22] 3 5 = Some (inr t)
    /\ Z.of_nat (length t) = 32
    /\ freq (map symbol t) 2 = 22.
Proof.
  destruct (decoding_table_cells_are_closed [10; 0; 22] 5) as (t & Ht & Hlen & Hfreq & _).
  - unfold normalized, FSE_MIN_TABLELOG, FSE_MAX_TABLELOG, FSE_MEMORY_USAGE.
    repeat split; try (simpl; lia). repeat constructor; lia.
  - exists t. split; [exact Ht|]. split; [exact Hlen|]. apply (Hfreq 2). simpl. lia.
Defined.

(** X3.  Decoding one symbol never leaves the table: from any state below
    [2^tableLog] and with any content of the bit container,
    [FSE_decodeSymbol] finds its cell, yields a symbol of positive weight,
    consumes at most [tableLog] bits and moves to a state below
    [2^tableLog]. *)
Theorem decodeSymbol_stays_in_table :
  forall (N : list Z) (tableLog : Z),
    normalized N tableLog ->
    exists t, FSE_buildDTable N (Z.of_nat (length N)) tableLog = Some (inr t)
      /\ forall (state : Z) (bitC : bitContainer_backward_t),
           0 <= state < 2 ^ tableLog ->
           exists sym state' bitC',
             FSE_decodeSymbol state bitC t = Some (sym, state', bitC')
             /\ 0 <= state' < 2 ^ tableLog
             /\ 0 <= sym < Z.of_nat (length N) /\ 0 < nth (Z.to_nat sym) N 0
             /\ b_bitContainer bitC' = b_bitContainer bitC
             /\ b_bitsConsumed bitC <= b_bitsConsumed bitC' <= b_bitsConsumed bitC + tableLog.
Proof.
  intros N L HN. destruct (buildDTable_cells N L HN) as (t & Ht & Hlen & Hsym & Hcells).
  destruct (tables_T N L HN) as (HT & HTr & HL).
  exists t. split; [exact Ht|]. intros state bitC Hstate.
  destruct (lookup_lt_is_Some_2 t (Z.to_nat state)) as [e He]; [lia|].
  destruct (Hcells _ e He) as (H1 & H2 & _ & _ & H3 & H4 & H5). rewrite HT in H5.
  unfold FSE_decodeSymbol. destruct (state <? 0) eqn:E; [lia|].
  rewrite He. cbn [mbind option_bind].
  destruct (readBits_range bitC (nbBits e)) as [Hr Hc]; [lia|].
  destruct (FSE_readBits bitC (nbBits e)) as [rest bitC'] eqn:ER. cbn [fst snd] in Hr, Hc.
  eexists _, _, _. split; [reflexivity|].
  rewrite u32_small by lia.
  assert (Hbc : b_bitContainer bitC' = b_bitContainer bitC).
  { unfold FSE_readBits in ER. inversion ER. reflexivity. }
  repeat split; try lia; assumption.
Qed.

Lemma decodeSymbol_stays_in_table_witness :
  exists t sym state' bitC',
    FSE_buildDTable [10; 0; 22] 3 5 = Some (inr t)
    /\ FSE_decodeSymbol 7 {| b_bitContainer := 305419896; b_bitsConsumed := 3 |} t
       = Some (sym, state', bitC')
    /\ 0 <= state' < 32.
Proof.
  destruct (decodeSymbol_stays_in_table [10; 0; 22] 5) as (t & Ht & Hdec).
  - unfold normalized, FSE_MIN_TABLELOG, FSE_MAX_TABLELOG, FSE_MEMORY_USAGE.
    repeat split; try (simpl; lia). repeat constructor; lia.
  - destruct (Hdec 7 {| b_bitContainer := 305419896; b_bitsConsumed := 3 |})
      as (sym & state' & bitC' & Hd & Hr & _); [lia|].
    exists t, sym, state', bitC'. auto.
Defined.

(** ** The compression table and its duality with the decoding table *)

Lemma cumul_fill_spec (n : nat) :
  forall (N : list Z) (prev : Z),
    (n <= length N)%nat -> Forall (fun c => 0 <= c) N ->
    0 <= prev -> prev + sum_list N < 2 ^ 31 ->
    exists l, cumul_fill n N prev = Some l /\ length l = n
      /\ forall j, (j < n)%nat -> nth j l 0 = prev + sum_list (take (Datatypes.S j) N).
Proof.
  induction n as [|n IH]; intros N prev Hn Hnn Hp Hsum.
  - exists []. repeat split. intros j Hj. lia.
  - destruct N as [|c N]; cbn [length] in Hn; [lia|].
    inversion Hnn as [|? ? Hc Hnn']; subst. cbn [sum_list] in Hsum.
    pose proof (sum_list_nonneg N Hnn') as Hs0.
    cbn [cumul_fill]. rewrite s32_small by lia.
    destruct (IH N (prev + c)) as (l & Hl & Hlen & Hnth); try lia; try assumption.
    rewrite Hl. cbn [mbind option_bind]. eexists. split; [reflexivity|].
    split; [cbn [length]; lia|].
    intros [|j] Hj.
    + cbn [nth]. rewrite firstn_cons, take_0. cbn [sum_list]. lia.
    + cbn [nth]. rewrite firstn_cons. cbn [sum_list]. rewrite Hnth by lia. lia.
Qed.

Lemma sum_list_take_le (N : list Z) :
  Forall (fun c => 0 <= c) N ->
  forall a b : nat, (a <= b)%nat ->
    sum_list (take a N) <= sum_list (take b N) <= sum_list N.
Proof.
  induction 1 as [|c N Hc Hnn IH]; intros a b Hab.
  - rewrite !take_nil. cbn [sum_list]. lia.
  - pose proof (sum_list_nonneg N Hnn) as Hs.
    destruct a as [|a], b as [|b]; try lia; rewrite ?firstn_cons, ?take_0; cbn [sum_list].
    + lia.
    + specialize (IH 0%nat b ltac:(lia)). rewrite take_0 in IH. cbn [sum_list] in IH. lia.
    + specialize (IH a b ltac:(lia)). lia.
Qed.

Lemma cumul_before_succ (N : list Z) (s : Z) :
  0 <= s < Z.of_nat (length N) ->
  cumul_before N (s + 1) = cumul_before N s + nth (Z.to_nat s) N 0.
Proof.
  intros Hs. unfold cumul_before. replace (Z.to_nat (s + 1)) with (Datatypes.S (Z.to_nat s)) by lia.
  rewrite (take_S_r N (Z.to_nat s) (nth (Z.to_nat s) N 0)) by (apply lookup_nth; lia).
  rewrite sum_list_app. cbn [sum_list]. lia.
Qed.

Lemma cumul_before_mono (N : list Z) (a b : Z) :
  Forall (fun c => 0 <= c) N -> 0 <= a <= b ->
  0 <= cumul_before N a <= cumul_before N b /\ cumul_before N b <= sum_list N.
Proof.
  intros Hnn Hab. unfold cumul_before.
  pose proof (sum_list_take_le N Hnn (Z.to_nat a) (Z.to_nat b) ltac:(lia)).
  assert (0 <= sum_list (take (Z.to_nat a) N)).
  { apply sum_list_nonneg. apply Forall_take. exact Hnn. }
  lia.
Qed.

Lemma occ_before_mono (S : list Z) (k k' : nat) :
  (k < k')%nat -> (k' < length S)%nat -> nth k S 0 = nth k' S 0 ->
  occ_before S k < occ_before S k'.
Proof.
  intros Hk Hk' Heq. unfold occ_before. rewrite <- Heq.
  assert (E : take k' S = take k (take k' S)
                          ++ nth k S 0 :: drop (Datatypes.S k) (take k' S)).
  { rewrite <- (take_drop k (take k' S)) at 1. f_equal.
    apply drop_S. rewrite lookup_take_lt by lia. apply lookup_nth. lia. }
  rewrite E at 1. rewrite take_take. replace (k `min` k')%nat with k by lia.
  rewrite (freq_app 0), freq_cons, Z.eqb_refl.
  pose proof (freq_bounds (drop (Datatypes.S k) (take k' S)) (nth k S 0)). lia.
Qed.

(** The [j]-th occurrence of a symbol exists when it occurs more than [j]
    times. *)
Lemma occurrence_exists (S : list Z) (s : Z) :
  forall j, 0 <= j < freq S s ->
            exists k, (k < length S)%nat /\ nth k S 0 = s /\ occ_before S k = j.
Proof.
  induction S as [|x S IH] using rev_ind; intros j Hj.
  - rewrite freq_nil in Hj. lia.
  - rewrite (freq_app 0), freq_cons, freq_nil in Hj.
    destruct (Z.eq_dec j (freq S s)) as [->|Hne].
    + destruct (Z.eqb_spec x s) as [->|Hx]; [|lia].
      exists (length S). rewrite length_app. cbn [length]. split; [lia|].
      unfold occ_before. rewrite app_nth2, Nat.sub_diag by lia. cbn [nth].
      split; [reflexivity|]. rewrite take_app_length. reflexivity.
    + destruct (IH j) as (k & Hk & Hs & Ho); [destruct (x =? s); lia|].
      exists k. rewrite length_app. cbn [length]. split; [lia|].
      unfold occ_before in *. rewrite app_nth1 by lia. split; [exact Hs|].
      rewrite take_app_le by lia. exact Ho.
Qed.

Lemma shiftr31_sign (a : Z) :
  - 2 ^ 31 <= a < 2 ^ 31 -> Z.shiftr a 31 = if a <? 0 then -1 else 0.
Proof.
  intros Ha. rewrite Z.shiftr_div_pow2 by lia. destruct (a <? 0) eqn:E.
  - symmetry. apply Z.div_unique with (r := a + 2 ^ 31); lia.
  - apply Z.div_small. lia.
Qed.

(** The number of bits the encoder flushes for a symbol of weight [c]
    brings the state into [[c, 2c)]. *)
Lemma transform_window (L c total x : Z) :
  5 <= L <= 12 -> 1 <= c <= 2 ^ L -> 0 <= total <= 4096 ->
  2 ^ L <= x < 2 ^ (L + 1) ->
  let tr := symbol_transform L c total in
  let nb := minBitsOut tr - Z.shiftr (maxState tr - x) 31 in
  0 <= nb <= L /\ c <= Z.shiftr x nb < 2 * c /\ deltaFindState tr = total - c.
Proof.
  intros HL Hc Htot Hx.
  assert (HT : 32 <= 2 ^ L <= 4096).
  { split; [change 32 with (2^5) | change 4096 with (2^12)]; apply Z.pow_le_mono_r; lia. }
  assert (HT2 : 2 ^ (L + 1) = 2 * 2 ^ L) by (rewrite Z.pow_add_r by lia; lia).
  cbv zeta. unfold symbol_transform. destruct (Z.eqb_spec c 1) as [->|Hc1].
  - cbn [minBitsOut maxState deltaFindState]. rewrite Z.shiftl_1_l.
    rewrite u8_small, u16_small by lia.
    rewrite shiftr31_sign by lia. destruct (_ <? 0) eqn:E; [lia|].
    rewrite Z.sub_0_r. rewrite Z.shiftr_div_pow2 by lia.
    assert (Hq : x / 2 ^ L = 1).
    { symmetry. apply Z.div_unique with (r := x - 2 ^ L); lia. }
    rewrite Hq. lia.
  - cbn [minBitsOut maxState deltaFindState]. unfold FSE_highbit.
    rewrite (u32_small (c - 1)) by lia.
    destruct (Z.log2_spec (c - 1)) as [Hlo Hhi]; [lia|].
    pose proof (Z.log2_nonneg (c - 1)) as Hh0.
    assert (Hh : Z.log2 (c - 1) < L) by (apply Z.log2_lt_pow2; lia).
    set (h := Z.log2 (c - 1)) in *.
    rewrite (u8_small (L - 1 - h)) by lia.
    set (mbo := L - 1 - h).
    assert (HP : 0 < 2 ^ mbo) by (apply Z.pow_pos_nonneg; lia).
    assert (Hsplit : 2 ^ L = 2 ^ Z.succ h * 2 ^ mbo).
    { rewrite <- Z.pow_add_r by lia. f_equal. lia. }
    assert (Hsucc : 2 ^ Z.succ h = 2 * 2 ^ h) by (rewrite Z.pow_succ_r by lia; lia).
    assert (HP2 : 2 ^ (mbo + 1) = 2 * 2 ^ mbo) by (rewrite Z.pow_add_r by lia; lia).
    assert (Hlow : c * 2 ^ mbo <= 2 ^ L) by nia.
    assert (Hup : 2 ^ L <= 2 * (c - 1) * 2 ^ mbo) by nia.
    rewrite shiftl_mul by lia. rewrite HP2.
    rewrite u16_small by nia. rewrite s32_small by lia.
    rewrite shiftr31_sign by nia.
    destruct (_ <? 0) eqn:E.
    + replace (mbo - -1) with (mbo + 1) by lia. rewrite Z.shiftr_div_pow2 by lia.
      rewrite HP2. split; [lia|]. split; [|reflexivity]. split.
      * apply Z.div_le_lower_bound; lia.
      * apply Z.div_lt_upper_bound; nia.
    + rewrite Z.sub_0_r. rewrite Z.shiftr_div_pow2 by lia.
      split; [lia|]. split; [|reflexivity]. split.
      * apply Z.div_le_lower_bound; lia.
      * apply Z.div_lt_upper_bound; lia.
Qed.

Lemma ctable_transforms_spec (L : Z) (M : list Z) :
  forall total : Z,
    exists tt, ctable_transforms (length M) M L (Z.shiftl 1 L) total = Some tt
      /\ length tt = length M
      /\ (Forall (fun c => 0 <= c) M -> 0 <= total -> total + sum_list M < 2 ^ 31 ->
          forall j, (j < length M)%nat ->
            tt !! j = Some (if nth j M 0 =? 0 then None
                            else Some (symbol_transform L (nth j M 0)
                                         (total + sum_list (take j M))))).
Proof.
  induction M as [|c M IH]; intros total.
  - exists []. repeat split. intros _ _ _ j Hj. cbn [length] in Hj. lia.
  - cbn [ctable_transforms length].
    destruct (Z.eqb_spec c 0) as [->|Hc0]; [|destruct (Z.eqb_spec c 1) as [->|Hc1]].
    + destruct (IH total) as (tt & Htt & Hlen & Hent). rewrite Htt. cbn [mbind option_bind].
      eexists. split; [reflexivity|]. split; [cbn [length]; lia|].
      intros Hnn Ht Hs [|j] Hj.
      * reflexivity.
      * inversion Hnn; subst. cbn [sum_list] in Hs.
        cbn [lookup list_lookup nth]. change (tt !! j = Some (if nth j M 0 =? 0 then None
            else Some (symbol_transform L (nth j M 0) (total + sum_list (take (Datatypes.S j) (0 :: M)))))).
        rewrite firstn_cons. cbn [sum_list].
        rewrite Hent by (try assumption; lia). reflexivity.
    + destruct (IH (total + 1)) as (tt & Htt & Hlen & Hent). rewrite Htt. cbn [mbind option_bind].
      eexists. split; [reflexivity|]. split; [cbn [length]; lia|].
      intros Hnn Ht Hs [|j] Hj.
      * cbn [lookup list_lookup nth take sum_list]. rewrite Z.add_0_r. reflexivity.
      * inversion Hnn; subst. cbn [sum_list] in Hs.
        cbn [lookup list_lookup nth]. change (tt !! j = Some (if nth j M 0 =? 0 then None
            else Some (symbol_transform L (nth j M 0) (total + sum_list (take (Datatypes.S j) (1 :: M)))))).
        rewrite firstn_cons. cbn [sum_list].
        rewrite Hent by (try assumption; lia).
        replace (total + 1 + sum_list (take j M)) with (total + (1 + sum_list (take j M))) by lia.
        reflexivity.
    + destruct (IH (s32 (total + c))) as (tt & Htt & Hlen & Hent). rewrite Htt.
      cbn [mbind option_bind].
      eexists. split; [reflexivity|]. split; [cbn [length]; lia|].
      intros Hnn Ht Hs [|j] Hj.
      * cbn [lookup list_lookup nth take sum_list]. rewrite Z.add_0_r.
        unfold symbol_transform. apply Z.eqb_neq in Hc0, Hc1. rewrite Hc0, Hc1. reflexivity.
      * inversion Hnn as [|? ? Hc Hnn']; subst. cbn [sum_list] in Hs.
        pose proof (sum_list_nonneg M Hnn').
        cbn [lookup list_lookup nth]. change (tt !! j = Some (if nth j M 0 =? 0 then None
            else Some (symbol_transform L (nth j M 0) (total + sum_list (take (Datatypes.S j) (c :: M)))))).
        rewrite firstn_cons. cbn [sum_list]. rewrite s32_small in Hent by lia.
        rewrite Hent by (try assumption; lia).
        replace (total + c + sum_list (take j M)) with (total + (c + sum_list (take j M))) by lia.
        reflexivity.
Qed.

Section CompressionTable.

Variable N : list Z.
Variable tableLog : Z.
Hypothesis N_normalized : normalized N tableLog.

Let T : Z := Z.shiftl 1 tableLog.
Let S : list Z := spread_of N tableLog.
Let W : list Z :=
  writes tableLog (repeat 0 (Z.to_nat FSE_MAX_TABLESIZE)) 0 (spread_plan N 0).

Lemma state_index_range (k : nat) :
  (k < length S)%nat ->
  cumul_before N (nth k S 0) <= state_index N S k < cumul_before N (nth k S 0 + 1)
  /\ 0 <= state_index N S k < T.
Proof.
  intros Hk. destruct (spread_of_symbol N tableLog N_normalized k Hk) as (Hs & Hocc & Hocc0).
  destruct (tables_N N tableLog N_normalized) as (_ & Hnn & Hsum).
  fold T in Hsum. fold S in Hs, Hocc, Hocc0.
  unfold state_index. rewrite cumul_before_succ by exact Hs.
  pose proof (cumul_before_mono N 0 (nth k S 0) Hnn ltac:(lia)) as H0.
  pose proof (cumul_before_mono N 0 (nth k S 0 + 1) Hnn ltac:(lia)) as H1.
  rewrite cumul_before_succ in H1 by exact Hs. lia.
Qed.

Lemma state_index_inj (k k' : nat) :
  (k < length S)%nat -> (k' < length S)%nat ->
  state_index N S k = state_index N S k' -> k = k'.
Proof.
  intros Hk Hk' Heq.
  destruct (state_index_range k Hk) as [Hr _]. destruct (state_index_range k' Hk') as [Hr' _].
  destruct (spread_of_symbol N tableLog N_normalized k Hk) as (Hs & _).
  destruct (spread_of_symbol N tableLog N_normalized k' Hk') as (Hs' & _).
  destruct (tables_N N tableLog N_normalized) as (_ & Hnn & _).
  fold S in Hs, Hs'.
  destruct (Z.lt_trichotomy (nth k S 0) (nth k' S 0)) as [Hlt|[Hsame|Hgt]].
  - pose proof (cumul_before_mono N (nth k S 0 + 1) (nth k' S 0) Hnn ltac:(lia)). lia.
  - unfold state_index in Heq. rewrite Hsame in Heq.
    destruct (Nat.lt_trichotomy k k') as [H|[H|H]]; [|exact H|].
    + pose proof (occ_before_mono S k k' H Hk' Hsame). lia.
    + pose proof (occ_before_mono S k' k H Hk (eq_sym Hsame)). lia.
  - pose proof (cumul_before_mono N (nth k' S 0 + 1) (nth k S 0) Hnn ltac:(lia)). lia.
Qed.

Lemma scratch_cell (i : nat) : (i < length S)%nat -> rd W (Z.of_nat i) = Some (nth i S 0).
Proof.
  intros Hi. unfold rd. destruct (Z.of_nat i <? 0) eqn:E; [lia|]. rewrite Nat2Z.id.
  rewrite <- (lookup_nth S i Hi). unfold S, spread_of. fold W.
  symmetry. apply lookup_take_lt.
  unfold S, spread_of in Hi. fold W in Hi. rewrite length_take in Hi. lia.
Qed.

Lemma ctable_fill_spec (n : nat) :
  forall (i : nat) (cumul U : list Z),
    (i + n = length S)%nat ->
    (length N < length cumul)%nat ->
    (forall s, 0 <= s < Z.of_nat (length N) ->
               nth (Z.to_nat s) cumul 0 = cumul_before N s + freq (take i S) s) ->
    Z.of_nat (length U) = T ->
    exists U', ctable_fill n W (Z.of_nat i) T cumul U = Some U'
      /\ Z.of_nat (length U') = T
      /\ (forall k, (i <= k < length S)%nat ->
                    nth (Z.to_nat (state_index N S k)) U' 0 = T + Z.of_nat k)
      /\ (forall p, 0 <= p < T ->
                    (forall k, (i <= k < length S)%nat -> state_index N S k <> p) ->
                    nth (Z.to_nat p) U' 0 = nth (Z.to_nat p) U 0).
Proof.
  destruct (tables_T N tableLog N_normalized) as (HT & HTr & HL). fold T in HT, HTr.
  pose proof (spread_of_length N tableLog N_normalized) as HS. fold S in HS. fold T in HS.
  induction n as [|n IH]; intros i cumul U Hin Hcl Hcumul HU.
  - exists U. cbn [ctable_fill]. split; [reflexivity|]. split; [exact HU|].
    split; [intros k Hk; lia | reflexivity].
  - assert (Hi : (i < length S)%nat) by lia.
    cbn [ctable_fill]. rewrite (scratch_cell i Hi). cbn [mbind option_bind].
    destruct (spread_of_symbol N tableLog N_normalized i Hi) as (Hs & _). fold S in Hs.
    rewrite (rd_in_range cumul (nth i S 0)) by lia. cbn [mbind option_bind].
    rewrite (Hcumul _ Hs). change (freq (take i S) (nth i S 0)) with (occ_before S i).
    fold (state_index N S i).
    destruct (state_index_range i Hi) as [_ Hidx].
    replace (Z.of_nat i + 1) with (Z.of_nat (Datatypes.S i)) by lia.
    destruct (IH (Datatypes.S i) (wr cumul (nth i S 0) (state_index N S i + 1))
                 (wr U (state_index N S i) (u16 (T + Z.of_nat i))))
      as (U' & HU' & Hlen & Hat & Hother).
    + lia.
    + rewrite wr_length. exact Hcl.
    + intros s Hs'. rewrite nth_wr by lia.
      rewrite (take_S_r S i (nth i S 0)) by (apply lookup_nth; exact Hi).
      rewrite (freq_app 0), freq_cons, freq_nil.
      destruct (Z.eqb_spec s (nth i S 0)) as [->|Hne].
      * rewrite Z.eqb_refl. unfold state_index, occ_before. lia.
      * destruct (Z.eqb_spec (nth i S 0) s); [congruence|]. rewrite (Hcumul _ Hs'). lia.
    + rewrite wr_length. exact HU.
    + exists U'. split; [exact HU'|]. split; [exact Hlen|]. split.
      * intros k Hk. destruct (Nat.eq_dec k i) as [->|Hne]; [|apply Hat; lia].
        rewrite Hother.
        -- rewrite nth_wr by lia. rewrite Z.eqb_refl. apply u16_small. lia.
        -- exact Hidx.
        -- intros k' Hk' Heq. apply state_index_inj in Heq; lia.
      * intros p Hp Hfree. rewrite Hother.
        -- rewrite nth_wr by lia. destruct (Z.eqb_spec p (state_index N S i)) as [->|]; [|reflexivity].
           exfalso. apply (Hfree i); [lia | reflexivity].
        -- exact Hp.
        -- intros k Hk. apply Hfree. lia.
Qed.

Lemma cumul_table :
  exists tl, cumul_fill (Z.to_nat (Z.of_nat (length N) - 1)) N 0 = Some tl
    /\ (length N < length (0 :: tl ++ [T + 1])%Z)%nat
    /\ forall s, 0 <= s < Z.of_nat (length N) ->
                 nth (Z.to_nat s) (0 :: tl ++ [T + 1]) 0 = cumul_before N s.
Proof.
  destruct (tables_N N tableLog N_normalized) as (H256 & Hnn & Hsum). fold T in Hsum.
  destruct (tables_T N tableLog N_normalized) as (_ & HTr & _). fold T in HTr.
  destruct (cumul_fill_spec (Z.to_nat (Z.of_nat (length N) - 1)) N 0) as (tl & Htl & Hlen & Hnth);
    try lia; try assumption.
  exists tl. split; [exact Htl|]. split.
  - cbn [length]. rewrite length_app. cbn [length]. lia.
  - intros s Hs. unfold cumul_before. destruct (Z.to_nat s) as [|j] eqn:E.
    + reflexivity.
    + cbn [nth]. rewrite app_nth1 by lia. rewrite Hnth by lia. lia.
Qed.

(** What [FSE_buildCTable] leaves in the table. *)
Lemma buildCTable_cells :
  exists ct, FSE_buildCTable N (Z.of_nat (length N)) tableLog = Some (inr ct)
    /\ ct_tableLog ct = tableLog
    /\ Z.of_nat (length (ct_stateTable ct)) = T
    /\ (forall k, (k < length S)%nat ->
          rd (ct_stateTable ct) (state_index N S k) = Some (T + Z.of_nat k))
    /\ (forall s, 0 <= s < Z.of_nat (length N) -> 0 < nth (Z.to_nat s) N 0 ->
          ct_symbolTT ct !! Z.to_nat s
          = Some (Some (symbol_transform tableLog (nth (Z.to_nat s) N 0)
                          (cumul_before N s)))).
Proof.
  destruct (tables_N N tableLog N_normalized) as (H256 & Hnn & Hsum). fold T in Hsum.
  destruct (tables_T N tableLog N_normalized) as (HT & HTr & HL). fold T in HT, HTr.
  pose proof (spread_of_length N tableLog N_normalized) as HS. fold S in HS. fold T in HS.
  unfold FSE_buildCTable.
  destruct cumul_table as (tl & Htl & Hcl & Hcumul). fold T. rewrite Htl.
  cbn [mbind option_bind].
  rewrite (spread_scratch N tableLog N_normalized). cbn [mbind option_bind].
  change (0 =? -1) with false. cbv iota. fold W.
  destruct (ctable_fill_spec (length S) 0 (0 :: tl ++ [T + 1]) (repeat 0 (Z.to_nat T)))
    as (U & HU & Hlen & Hat & _).
  - lia.
  - exact Hcl.
  - intros s Hs. rewrite take_0, freq_nil, Z.add_0_r. apply Hcumul. exact Hs.
  - rewrite repeat_length. lia.
  - replace (length S) with (Z.to_nat T) in HU by lia. change (Z.of_nat 0) with 0 in HU.
    rewrite HU.
    cbn [mbind option_bind]. rewrite Nat2Z.id.
    destruct (ctable_transforms_spec tableLog N 0) as (tt & Htt & Hlentt & Hent).
    fold T in Htt. rewrite Htt. cbn [mbind option_bind].
    eexists. split; [reflexivity|]. cbn [ct_tableLog ct_stateTable ct_symbolTT].
    split; [apply u16_small; lia|]. split; [exact Hlen|]. split.
    + intros k Hk. destruct (state_index_range k Hk) as [_ Hidx].
      rewrite rd_in_range by lia. f_equal. apply Hat. lia.
    + intros s Hs Hpos. rewrite Hent by (try assumption; lia).
      destruct (Z.eqb_spec (nth (Z.to_nat s) N 0) 0); [lia|].
      reflexivity.
Qed.

(** One encoding step and the decoding-table cell it leads to. *)
Lemma encode_decode_cell (x s : Z) :
  2 ^ tableLog <= x < 2 ^ (tableLog + 1) ->
  0 <= s < Z.of_nat (length N) -> 0 < nth (Z.to_nat s) N 0 ->
  exists k nb,
    (k < length S)%nat /\ nth k S 0 = s
    /\ 0 <= nb <= tableLog
    /\ nb = minBitsOut (symbol_transform tableLog (nth (Z.to_nat s) N 0) (cumul_before N s))
            - Z.shiftr (maxState (symbol_transform tableLog (nth (Z.to_nat s) N 0)
                                    (cumul_before N s)) - x) 31
    /\ Z.shiftr x nb
         + deltaFindState (symbol_transform tableLog (nth (Z.to_nat s) N 0) (cumul_before N s))
       = state_index N S k
    /\ decode_entry tableLog s (nth (Z.to_nat s) N 0 + occ_before S k)
       = {| newState := x - x mod 2 ^ nb - T; symbol := s; nbBits := nb |}.
Proof.
  intros Hx Hs Hpos.
  destruct (tables_N N tableLog N_normalized) as (H256 & Hnn & Hsum). fold T in Hsum.
  destruct (tables_T N tableLog N_normalized) as (HT & HTr & HL). fold T in HT, HTr.
  pose proof (N_entry_le N tableLog N_normalized s Hs) as Hc. fold T in Hc.
  pose proof (cumul_before_mono N 0 s Hnn ltac:(lia)) as Hcb.
  set (c := nth (Z.to_nat s) N 0) in *.
  destruct (transform_window tableLog c (cumul_before N s) x) as (Hnb & Hwin & Hdelta);
    try lia.
  set (tr := symbol_transform tableLog c (cumul_before N s)) in *.
  set (nb := minBitsOut tr - Z.shiftr (maxState tr - x) 31) in *.
  destruct (occurrence_exists S s (Z.shiftr x nb - c)) as (k & Hk & Hks & Hocc).
  { rewrite (spread_of_freq N tableLog N_normalized).
    replace ((0 <=? s) && (s <? Z.of_nat (length N))) with true by lia. fold c. lia. }
  exists k, nb. split; [exact Hk|]. split; [exact Hks|]. split; [exact Hnb|].
  split; [reflexivity|]. split.
  - unfold state_index. rewrite Hks, Hocc, Hdelta. lia.
  - rewrite Hocc. replace (c + (Z.shiftr x nb - c)) with (Z.shiftr x nb) by lia.
    assert (Hlogx : Z.log2 x = tableLog) by (apply Z.log2_unique; lia).
    assert (Hlog : Z.log2 (Z.shiftr x nb) = tableLog - nb).
    { rewrite Z.log2_shiftr by lia. rewrite Hlogx. lia. }
    unfold decode_entry, FSE_highbit. rewrite Hlog.
    replace (tableLog - (tableLog - nb)) with nb by lia.
    rewrite u8_small by lia. fold T.
    assert (HP : 0 < 2 ^ nb) by (apply Z.pow_pos_nonneg; lia).
    assert (Hshift : Z.shiftl (Z.shiftr x nb) nb = x - x mod 2 ^ nb).
    { rewrite shiftl_mul, Z.shiftr_div_pow2 by lia.
      pose proof (Z.div_mod x (2 ^ nb) ltac:(lia)). lia. }
    rewrite Hshift.
    pose proof (Z.mod_pos_bound x (2 ^ nb) HP) as Hm.
    assert (HT2 : 2 ^ (tableLog + 1) = 2 * T) by (rewrite Z.pow_add_r by lia; lia).
    assert (Hge : T <= x - x mod 2 ^ nb).
    { rewrite <- Hshift, shiftl_mul, Z.shiftr_div_pow2 by lia.
      assert (T = 2 ^ (tableLog - nb) * 2 ^ nb).
      { rewrite HT, <- Z.pow_add_r by lia. f_equal. lia. }
      assert (2 ^ (tableLog - nb) <= x / 2 ^ nb).
      { apply Z.div_le_lower_bound; lia. }
      nia. }
    rewrite u32_small by lia. rewrite u16_small by lia. reflexivity.
Qed.

End CompressionTable.

(** One step of the encoder and the step of the decoder that undoes it,
    for the two tables of a normalized distribution. *)
Lemma encode_decode_step (N : list Z) (tableLog : Z) (ct : CTable_t) (dt : list FSE_decode_t) :
  normalized N tableLog ->
  FSE_buildCTable N (Z.of_nat (length N)) tableLog = Some (inr ct) ->
  FSE_buildDTable N (Z.of_nat (length N)) tableLog = Some (inr dt) ->
  forall x s : Z,
    2 ^ tableLog <= x < 2 ^ (tableLog + 1) ->
    0 <= s < Z.of_nat (length N) -> 0 < nth (Z.to_nat s) N 0 ->
    exists x' nb,
      0 <= nb <= tableLog
      /\ 2 ^ tableLog <= x' < 2 ^ (tableLog + 1)
      /\ (forall bitC : bitContainer_forward_t,
            FSE_encodeByte x bitC s ct = Some (x', FSE_addBits bitC x nb))
      /\ (forall dbitC : bitContainer_backward_t,
            (FSE_readBits dbitC nb).1 = x mod 2 ^ nb ->
            FSE_decodeSymbol (x' - 2 ^ tableLog) dbitC dt
            = Some (s, x - 2 ^ tableLog, (FSE_readBits dbitC nb).2)).
Proof.
  intros HN Hct' Hdt' x s Hx Hs Hpos. rename tableLog into L.
  destruct (buildCTable_cells N L HN) as (ct0 & Hct & HctL & _ & Hstate & Htt).
  destruct (buildDTable_entries N L HN) as (dt0 & Hdt & _ & Hent).
  assert (ct0 = ct) by congruence. assert (dt0 = dt) by congruence. subst ct0 dt0.
  destruct (tables_T N L HN) as (HT & HTr & HL).
  assert (HT2 : 2 ^ (L + 1) = 2 * 2 ^ L) by (rewrite Z.pow_add_r by lia; lia).
  pose proof (spread_of_length N L HN) as HS.
  destruct (encode_decode_cell N L HN x s Hx Hs Hpos) as (k & nb & Hk & Hks & Hnb & Enb & Hidx & Hcell).
  exists (2 ^ L + Z.of_nat k), nb. split; [exact Hnb|]. split; [lia|]. split.
  - intros bitC. unfold FSE_encodeByte. rewrite (Htt s Hs Hpos). cbn [mbind option_bind].
    rewrite <- Enb, Hidx, (Hstate k Hk). cbn [mbind option_bind].
    rewrite HT. reflexivity.
  - intros dbitC Hbits. unfold FSE_decodeSymbol.
    replace (2 ^ L + Z.of_nat k - 2 ^ L) with (Z.of_nat k) by lia.
    destruct (Z.of_nat k <? 0) eqn:E; [lia|]. rewrite Nat2Z.id, (Hent k Hk), Hks, Hcell.
    cbn [mbind option_bind nbBits symbol newState].
    destruct (FSE_readBits dbitC nb) as [rest dbitC'] eqn:ER. cbn [fst snd] in *.
    rewrite Hbits.
    assert (HP : 0 < 2 ^ nb) by (apply Z.pow_pos_nonneg; lia).
    pose proof (Z.mod_pos_bound x (2 ^ nb) HP) as Hm.
    rewrite HT. replace (x - x mod 2 ^ nb - 2 ^ L + x mod 2 ^ nb) with (x - 2 ^ L) by lia.
    rewrite u32_small by lia. reflexivity.
Qed.

(** X4.  Encoding and decoding are dual, one symbol at a time.  With both
    tables built from the same normalized distribution, encoding a symbol
    [s] of positive weight from a state [x] in [[2^tableLog, 2^(tableLog+1))]
    flushes the [nb <= tableLog] low bits of [x] and lands on a state [x']
    of the same range; the decoder started on cell [x' - 2^tableLog] and fed
    those [nb] bits returns [s] and moves to cell [x - 2^tableLog]. *)
Theorem encode_step_is_undone_by_decode_step :
  forall (N : list Z) (tableLog : Z),
    normalized N tableLog ->
    exists ct dt,
      FSE_buildCTable N (Z.of_nat (length N)) tableLog = Some (inr ct)
      /\ FSE_buildDTable N (Z.of_nat (length N)) tableLog = Some (inr dt)
      /\ forall (x s : Z) (bitC : bitContainer_forward_t),
           2 ^ tableLog <= x < 2 ^ (tableLog + 1) ->
           0 <= s < Z.of_nat (length N) -> 0 < nth (Z.to_nat s) N 0 ->
           exists x' nb,
             FSE_encodeByte x bitC s ct = Some (x', FSE_addBits bitC x nb)
             /\ 0 <= nb <= tableLog
             /\ 2 ^ tableLog <= x' < 2 ^ (tableLog + 1)
             /\ forall dbitC : bitContainer_backward_t,
                  (FSE_readBits dbitC nb).1 = x mod 2 ^ nb ->
                  FSE_decodeSymbol (x' - 2 ^ tableLog) dbitC dt
                  = Some (s, x - 2 ^ tableLog, (FSE_readBits dbitC nb).2).
Proof.
  intros N L HN.
  destruct (buildCTable_cells N L HN) as (ct & Hct & _).
  destruct (buildDTable_entries N L HN) as (dt & Hdt & _).
  exists ct, dt. split; [exact Hct|]. split; [exact Hdt|].
  intros x s bitC Hx Hs Hpos.
  destruct (encode_decode_step N L ct dt HN Hct Hdt x s Hx Hs Hpos)
    as (x' & nb & Hnb & Hx' & Henc & Hdec).
  exists x', nb. auto.
Qed.

Lemma encode_step_is_undone_by_decode_step_witness :
  exists ct dt x' nb,
    FSE_buildCTable [10; 0; 22] 3 5 = Some (inr ct)
    /\ FSE_buildDTable [10; 0; 22] 3 5 = Some (inr dt)
    /\ FSE_encodeByte 45 {| f_bitContainer := 0; f_bitPos := 0 |} 2 ct
       = Some (x', FSE_addBits {| f_bitContainer := 0; f_bitPos := 0 |} 45 nb)
    /\ 32 <= x' < 64.
Proof.
  destruct (encode_step_is_undone_by_decode_step [10; 0; 22] 5) as (ct & dt & Hct & Hdt & Hstep).
  - unfold normalized, FSE_MIN_TABLELOG, FSE_MAX_TABLELOG, FSE_MEMORY_USAGE.
    repeat split; try (simpl; lia). repeat constructor; lia.
  - destruct (Hstep 45 2 {| f_bitContainer := 0; f_bitPos := 0 |})
      as (x' & nb & Henc & _ & Hr & _); [simpl; lia | simpl; lia | simpl; lia |].
    exists ct, dt, x', nb. auto.
Defined.

(** ** The forward bit container *)

Lemma lor_disjoint (a b k : Z) :
  0 <= k -> 0 <= a < 2 ^ k -> Z.lor a (Z.shiftl b k) = a + b * 2 ^ k.
Proof.
  intros Hk Ha. rewrite <- shiftl_mul by exact Hk. symmetry. apply Z.add_nocarry_lor.
  apply Z.bits_inj'. intros i Hi. rewrite Z.land_spec, Z.bits_0.
  destruct (Z.lt_ge_cases i k) as [Hlt|Hge].
  - rewrite Z.shiftl_spec_low by exact Hlt. apply andb_false_r.
  - rewrite <- (Z.mod_small a (2 ^ k)) by exact Ha.
    rewrite Z.mod_pow2_bits_high by lia. reflexivity.
Qed.

Lemma addBits_spec (acc bp x nb : Z) :
  0 <= bp -> 0 <= nb -> bp + nb <= 64 -> 0 <= acc < 2 ^ bp ->
  FSE_addBits {| f_bitContainer := acc; f_bitPos := bp |} x nb
  = {| f_bitContainer := acc + (x mod 2 ^ nb) * 2 ^ bp; f_bitPos := bp + nb |}.
Proof.
  intros Hbp Hnb Hsum Hacc. unfold FSE_addBits. cbn [f_bitContainer f_bitPos]. f_equal.
  rewrite Z.land_ones by exact Hnb.
  assert (Hf : 0 <= x mod 2 ^ nb < 2 ^ nb) by (apply Z.mod_pos_bound, pow2_pos; lia).
  assert (Hp : 0 < 2 ^ bp) by (apply pow2_pos; lia).
  rewrite Z.mod_small.
  - apply lor_disjoint; assumption.
  - rewrite shiftl_mul by exact Hbp. split; [nia|].
    apply Z.lt_le_trans with (2 ^ nb * 2 ^ bp); [nia|].
    rewrite <- Z.pow_add_r by lia. apply Z.pow_le_mono_r; lia.
Qed.

Lemma le_bytes_app (a b : nat) :
  forall v, le_bytes (a + b) v = le_bytes a v ++ le_bytes b (v / 2 ^ (8 * Z.of_nat a)).
Proof.
  induction a as [|a IH]; intros v.
  - cbn [Nat.add le_bytes app]. change (2 ^ (8 * Z.of_nat 0)) with 1. rewrite Z.div_1_r. reflexivity.
  - cbn [Nat.add le_bytes app]. f_equal. rewrite IH. f_equal. f_equal.
    rewrite Z.shiftr_div_pow2 by lia. rewrite Z.div_div by pow2_side.
    f_equal. rewrite pow2_8n. change (2 ^ 8) with 256. lia.
Qed.

Lemma le_bytes_mod (n : nat) :
  forall v v', v mod 2 ^ (8 * Z.of_nat n) = v' mod 2 ^ (8 * Z.of_nat n) ->
               le_bytes n v = le_bytes n v'.
Proof.
  induction n as [|n IH]; intros v v' H; [reflexivity|].
  cbn [le_bytes]. rewrite pow2_8n in H. change 256 with (2 ^ 8) in H.
  assert (Hp : 0 < 2 ^ (8 * Z.of_nat n)) by (apply pow2_pos; lia).
  rewrite !Z.rem_mul_r in H by lia.
  pose proof (Z.mod_pos_bound v (2 ^ 8) ltac:(lia)).
  pose proof (Z.mod_pos_bound v' (2 ^ 8) ltac:(lia)).
  pose proof (Z.mod_pos_bound (v / 2 ^ 8) (2 ^ (8 * Z.of_nat n)) Hp).
  pose proof (Z.mod_pos_bound (v' / 2 ^ 8) (2 ^ (8 * Z.of_nat n)) Hp).
  assert (E1 : v mod 2 ^ 8 = v' mod 2 ^ 8) by nia.
  assert (E2 : (v / 2 ^ 8) mod 2 ^ (8 * Z.of_nat n) = (v' / 2 ^ 8) mod 2 ^ (8 * Z.of_nat n)) by nia.
  rewrite !land_255. change 256 with (2 ^ 8). rewrite E1. f_equal.
  rewrite !Z.shiftr_div_pow2 by lia. apply IH. exact E2.
Qed.


Lemma store_empty (off : Z) (bs : list Z) :
  store [] off bs = repeat 0 (Z.to_nat off) ++ bs.
Proof.
  unfold store. cbn [length app]. rewrite Nat.sub_0_r, drop_nil, app_nil_r.
  rewrite take_ge by (rewrite repeat_length; lia). reflexivity.
Qed.

Lemma store_inside (buf : list Z) (off : Z) (bs : list Z) :
  (Z.to_nat off <= length buf)%nat ->
  store buf off bs = take (Z.to_nat off) buf ++ bs ++ drop (Z.to_nat off + length bs) buf.
Proof.
  intros H. unfold store. replace (Z.to_nat off - length buf)%nat with 0%nat by lia.
  cbn [repeat]. rewrite app_nil_r. reflexivity.
Qed.

Lemma push_inv (buf : list Z) (op : Z) (bitC : bitContainer_forward_t) (V0 V n x nb : Z) :
  enc_inv buf op bitC V0 V n -> 0 <= nb -> f_bitPos bitC + nb <= 63 ->
  enc_inv buf op (FSE_addBits bitC x nb) V0 (V + (x mod 2 ^ nb) * 2 ^ n) (n + nb).
Proof.
  intros (Hop & Hbp & Hn & HV & Hacc & Hbuf & Hlow) Hnb Hfit.
  destruct bitC as [acc bp]. cbn [f_bitContainer f_bitPos] in *.
  assert (Hp8 : 0 < 2 ^ (8 * (op - 4))) by (apply pow2_pos; lia).
  assert (Hpb : 0 < 2 ^ bp) by (apply pow2_pos; lia).
  assert (Hsplit : 2 ^ n = 2 ^ bp * 2 ^ (8 * (op - 4))).
  { rewrite <- Z.pow_add_r by lia. f_equal. lia. }
  assert (Hf : 0 <= x mod 2 ^ nb < 2 ^ nb) by (apply Z.mod_pos_bound, pow2_pos; lia).
  assert (Haccr : 0 <= acc < 2 ^ bp).
  { subst acc. split; [apply Z.div_pos; lia|]. apply Z.div_lt_upper_bound; lia. }
  rewrite addBits_spec by lia. unfold enc_inv. cbn [f_bitContainer f_bitPos].
  split; [exact Hop|]. split; [lia|]. split; [lia|]. split; [|split; [|split; [exact Hbuf|]]].
  - rewrite Z.pow_add_r by lia. nia.
  - rewrite Hsplit. rewrite Z.mul_assoc. rewrite Z.div_add by lia. lia.
  - rewrite <- Hlow. rewrite Hsplit, Z.mul_assoc. apply Z_mod_plus_full.
Qed.

Lemma flush_inv (buf : list Z) (op : Z) (bitC : bitContainer_forward_t) (V0 V n : Z) :
  enc_inv buf op bitC V0 V n ->
  exists buf' bitC',
    FSE_flushBits buf op bitC = (buf', op + f_bitPos bitC / 8, bitC')
    /\ f_bitPos bitC' = f_bitPos bitC mod 8
    /\ enc_inv buf' (op + f_bitPos bitC / 8) bitC' V V n
    /\ buf' = repeat 0 4 ++ le_bytes (Z.to_nat (op + 4)) V.
Proof.
  intros (Hop & Hbp & Hn & HV & Hacc & Hbuf & Hlow).
  destruct bitC as [acc bp]. cbn [f_bitContainer f_bitPos] in *.
  assert (Hnb : 0 <= bp / 8 <= 7).
  { split; [apply Z.div_pos; lia|].
    assert (bp / 8 < 8); [apply Z.div_lt_upper_bound; lia | lia]. }
  pose proof (Z.div_mod bp 8 ltac:(lia)) as Hdm.
  pose proof (Z.mod_pos_bound bp 8 ltac:(lia)) as Hm.
  assert (Hstore : store buf op (le_bytes 8 acc) = repeat 0 4 ++ le_bytes (Z.to_nat (op + 4)) V).
  { replace (Z.to_nat (op + 4)) with (Z.to_nat (op - 4) + 8)%nat by lia.
    rewrite le_bytes_app, Z2Nat.id by lia. rewrite <- Hacc.
    destruct Hbuf as [[-> ->]|[Htake Hlen]].
    - rewrite store_empty. reflexivity.
    - rewrite store_inside by lia. rewrite le_bytes_length.
      rewrite (drop_ge buf) by lia. rewrite app_nil_r, app_assoc. f_equal.
      assert (E : take (Z.to_nat op) buf = take (Z.to_nat op) (take (Z.to_nat (op + 1)) buf)).
      { rewrite take_take. f_equal. lia. }
      rewrite E, Htake.
      rewrite take_app_ge by (rewrite repeat_length; lia). rewrite repeat_length. f_equal.
      rewrite take_le_bytes by lia.
      replace (Z.to_nat op - 4)%nat with (Z.to_nat (op - 4)) by lia.
      apply le_bytes_mod. rewrite Z2Nat.id by lia. symmetry. exact Hlow. }
  unfold FSE_flushBits. cbn [f_bitContainer f_bitPos]. rewrite Hstore.
  rewrite !Z.shiftr_div_pow2 by lia. change (2 ^ 3) with 8.
  change 7 with (Z.ones 3). rewrite Z.land_ones by lia. change (2 ^ 3) with 8.
  eexists _, _. split; [reflexivity|]. cbn [f_bitPos]. split; [reflexivity|]. split; [|reflexivity].
  unfold enc_inv. cbn [f_bitContainer f_bitPos].
  split; [lia|]. split; [lia|]. split; [lia|]. split; [exact HV|]. split; [|split; [|reflexivity]].
  - rewrite Z.shiftr_div_pow2 by lia. rewrite Hacc. rewrite Z.div_div by pow2_side. f_equal.
    rewrite <- Z.pow_add_r by lia. f_equal. lia.
  - right. rewrite length_app, repeat_length, le_bytes_length. split; [|lia].
    rewrite take_app_ge by (rewrite repeat_length; lia). rewrite repeat_length. f_equal.
    rewrite take_le_bytes by lia. f_equal. lia.
Qed.

(** ** The backward bit container *)

Lemma mod_div_pow2 (a k w : Z) :
  0 <= k -> 0 <= w -> (a mod 2 ^ (k + w)) / 2 ^ k = (a / 2 ^ k) mod 2 ^ w.
Proof.
  intros Hk Hw. rewrite Z.pow_add_r by lia.
  rewrite Z.rem_mul_r by pow2_side.
  rewrite Z.mul_comm, Z.div_add by pow2_side.
  rewrite Z.div_small by pow2_side. lia.
Qed.

Lemma readBits_val (mem : list Z) (bitC : bitContainer_backward_t) (ip nb : Z) :
  Forall is_byte mem -> 0 <= ip -> b_bitContainer bitC = load32 mem ip ->
  0 <= b_bitsConsumed bitC -> 0 <= nb <= 31 -> b_bitsConsumed bitC + nb <= 32 ->
  FSE_readBits bitC nb
  = ((le_val mem / 2 ^ (8 * ip + 32 - b_bitsConsumed bitC - nb)) mod 2 ^ nb,
     {| b_bitContainer := load32 mem ip; b_bitsConsumed := b_bitsConsumed bitC + nb |}).
Proof.
  intros Hmem Hip Hw Hbc Hnb Hfit. destruct bitC as [w bc]. cbn [b_bitContainer b_bitsConsumed] in *.
  unfold FSE_readBits. cbn [b_bitContainer b_bitsConsumed]. rewrite Hw. f_equal.
  rewrite load32_val by assumption.
  set (X := le_val mem / 2 ^ (8 * ip)).
  set (k := 32 - bc - nb).
  rewrite Z.shiftr_shiftr by lia. replace (1 + (31 - nb)) with (bc + k) by lia.
  rewrite shiftl_mul by lia. unfold u32.
  replace 32 with ((k + nb) + bc) at 2 by lia.
  rewrite (Z.pow_add_r 2 (k + nb) bc) by lia.
  rewrite Z.mul_mod_distr_r by pow2_side.
  rewrite Z.shiftr_div_pow2 by lia. rewrite (Z.pow_add_r 2 bc k) by lia.
  rewrite <- Z.div_div by pow2_side. rewrite Z.div_mul by pow2_side.
  rewrite mod_div_pow2 by lia.
  rewrite <- (Z.shiftr_div_pow2 (X mod 2 ^ 32)) by lia.
  rewrite window_bits by lia.
  unfold X. rewrite Z.div_div by pow2_side. rewrite <- Z.pow_add_r by lia.
  do 3 f_equal. lia.
Qed.

Lemma dec_pop (mem : list Z) (c0 Vtot ntot : Z) (bitC : bitContainer_backward_t)
    (ip n nb V f : Z) :
  payload mem c0 Vtot ntot -> dec_at mem c0 bitC ip (n + nb) ->
  0 <= n -> 0 <= nb <= 31 -> n + nb <= ntot -> b_bitsConsumed bitC + nb <= 32 ->
  0 <= V < 2 ^ n -> 0 <= f < 2 ^ nb -> Vtot mod 2 ^ (n + nb) = V + f * 2 ^ n ->
  (FSE_readBits bitC nb).1 = f
  /\ dec_at mem c0 (FSE_readBits bitC nb).2 ip n
  /\ b_bitsConsumed (FSE_readBits bitC nb).2 = b_bitsConsumed bitC + nb.
Proof.
  intros (Hmem & Hc0 & Hnt & HV) (Hw & Hip & Hbc & Hpos) Hn Hnb Hle Hfit HVr Hf Hfield.
  rewrite (readBits_val mem bitC ip nb) by (try assumption; lia). cbn [fst snd].
  split; [|split; [|reflexivity]].
  - replace (8 * ip + 32 - b_bitsConsumed bitC - nb) with ((8 * c0 + 32) + n) by lia.
    rewrite Z.pow_add_r by lia. rewrite <- Z.div_div by pow2_side.
    apply (field_extract _ V f n nb); try lia.
    rewrite <- Hfield, <- HV. symmetry. apply mod_pow2_mod. lia.
  - unfold dec_at. cbn [b_bitContainer b_bitsConsumed]. repeat split; lia.
Qed.

Lemma dec_refill (mem : list Z) (c0 : Z) (bitC : bitContainer_backward_t) (ip n : Z) :
  dec_at mem c0 bitC ip n -> 0 <= n ->
  dec_at mem c0 (FSE_updateBitStream mem bitC ip).1 (FSE_updateBitStream mem bitC ip).2 n
  /\ b_bitsConsumed (FSE_updateBitStream mem bitC ip).1 < 8.
Proof.
  intros (Hw & Hip & Hbc & Hpos) Hn. unfold FSE_updateBitStream, dec_at.
  cbn [fst snd b_bitContainer b_bitsConsumed].
  rewrite Z.shiftr_div_pow2 by lia. change 7 with (Z.ones 3). rewrite Z.land_ones by lia.
  change (2 ^ 3) with 8.
  pose proof (Z.div_mod (b_bitsConsumed bitC) 8 ltac:(lia)).
  pose proof (Z.mod_pos_bound (b_bitsConsumed bitC) 8 ltac:(lia)).
  repeat split; lia.
Qed.

Lemma dec_hot_rounds (mem : list Z) (c0 olimit : Z) (safe : bool) (dt : list FSE_decode_t)
    (k : nat) :
  forall (fuel : nat) (D D' : dec_state),
    dec_rounds k mem c0 safe dt D = Some D' ->
    (k <= fuel)%nat -> d_op D + 2 * Z.of_nat k = olimit ->
    dec_hot fuel mem c0 olimit safe 2 dt D = Some D'.
Proof.
  induction k as [|k IH]; intros fuel D D' Hrun Hfuel Hop.
  - cbn [dec_rounds] in Hrun. destruct fuel as [|fuel]; [exact Hrun|]. cbn [dec_hot].
    destruct (d_op D <? olimit) eqn:E; [lia|]. exact Hrun.
  - destruct fuel as [|fuel]; [lia|]. cbn [dec_hot]. cbn [dec_rounds] in Hrun.
    destruct (d_op D <? olimit) eqn:E; [|lia]. rewrite andb_true_l.
    unfold dec_round in Hrun.
    destruct (negb safe || (d_ip D >=? c0)); [|discriminate].
    change (2 =? 2) with true. cbv iota.
    destruct (FSE_decodeSymbol (d_state2 D) (d_bitC D) dt) as [[[sym2 s2] bitC2]|];
      [|discriminate]. cbn [mbind option_bind] in *.
    destruct (FSE_decodeSymbol (d_state1 D) bitC2 dt) as [[[sym1 s1] bitC1]|];
      [|discriminate]. cbn [mbind option_bind] in *.
    destruct (FSE_updateBitStream mem bitC1 (d_ip D)) as [bitC' ip'].
    cbn [mbind option_bind] in *. apply IH; [exact Hrun|lia|].
    unfold d_op in *. cbn [d_out]. rewrite !length_app. cbn [length]. lia.
Qed.

Lemma dec_rounds_snoc (mem : list Z) (c0 : Z) (safe : bool) (dt : list FSE_decode_t) (k : nat) :
  forall D D1 D2 : dec_state,
    dec_rounds k mem c0 safe dt D = Some D1 ->
    dec_round mem c0 safe dt D1 = Some D2 ->
    dec_rounds (S k) mem c0 safe dt D = Some D2.
Proof.
  induction k as [|k IH]; intros D D1 D2 H1 H2.
  - cbn [dec_rounds] in *. inversion H1; subst. rewrite H2. reflexivity.
  - cbn [dec_rounds] in H1. destruct (dec_round mem c0 safe dt D) as [Da|] eqn:Ea; [|discriminate].
    cbn [mbind option_bind] in H1.
    change (dec_rounds (S (S k)) mem c0 safe dt D)
      with (st ← dec_round mem c0 safe dt D; dec_rounds (S k) mem c0 safe dt st).
    rewrite Ea. cbn [mbind option_bind]. apply (IH Da D1 D2 H1 H2).
Qed.

Lemma le_val_le_bytes_small (n : nat) (v : Z) :
  0 <= v < 2 ^ (8 * Z.of_nat n) -> le_val (le_bytes n v) = v.
Proof. intros H. rewrite le_val_le_bytes by lia. apply Z.mod_small. exact H. Qed.

(** A stream image placed in memory: the descriptor is the first word and
    the payload sits above it. *)
Lemma frame_payload (prefix tail : list Z) (desc V n : Z) (m : nat) :
  Forall is_byte prefix -> Forall is_byte tail ->
  0 <= desc < 2 ^ 32 -> 0 <= n <= 8 * Z.of_nat m -> 0 <= V < 2 ^ n ->
  let mem := prefix ++ (le_bytes 4 desc ++ le_bytes m V) ++ tail in
  payload mem (Z.of_nat (length prefix)) V n
  /\ load32 mem (Z.of_nat (length prefix)) = desc.
Proof.
  intros Hpre Htail Hdesc Hn HV mem.
  assert (Hmem : Forall is_byte mem).
  { unfold mem. repeat (apply Forall_app; split); try assumption; apply le_bytes_bytes. }
  assert (HVm : 0 <= V < 2 ^ (8 * Z.of_nat m)).
  { split; [lia|]. apply Z.lt_le_trans with (2 ^ n); [lia|]. apply Z.pow_le_mono_r; lia. }
  pose proof (le_val_bound prefix Hpre) as Hpb. pose proof (le_val_bound tail Htail) as Htb.
  set (c0 := Z.of_nat (length prefix)) in *.
  assert (Hval : le_val mem
                 = le_val prefix
                   + 2 ^ (8 * c0) * (desc + 2 ^ 32 * (V + 2 ^ (8 * Z.of_nat m) * le_val tail))).
  { unfold mem. rewrite !le_val_app. fold c0.
    rewrite length_app, !le_bytes_length.
    rewrite !le_val_le_bytes_small by (try assumption; change (8 * Z.of_nat 4) with 32; lia).
    change (8 * Z.of_nat 4) with 32.
    replace (8 * Z.of_nat (4 + m)) with (32 + 8 * Z.of_nat m) by lia.
    rewrite Z.pow_add_r by lia. ring. }
  assert (Hshift : le_val mem / 2 ^ (8 * c0)
                   = desc + 2 ^ 32 * (V + 2 ^ (8 * Z.of_nat m) * le_val tail)).
  { rewrite Hval. rewrite Z.mul_comm, Z.div_add by pow2_side.
    rewrite Z.div_small by lia. lia. }
  split.
  - unfold payload. split; [exact Hmem|]. split; [lia|]. split; [lia|].
    rewrite Z.pow_add_r by lia. rewrite <- Z.div_div by pow2_side. rewrite Hshift.
    rewrite Z.mul_comm, Z.div_add by pow2_side. rewrite Z.div_small by lia.
    rewrite Z.add_0_l.
    replace (8 * Z.of_nat m) with (n + (8 * Z.of_nat m - n)) by lia.
    rewrite Z.pow_add_r by lia.
    rewrite <- Z.mul_assoc, (Z.mul_comm (2 ^ n)), Z_mod_plus_full. apply Z.mod_small. exact HV.
  - rewrite load32_val by (try assumption; lia). rewrite Hshift.
    rewrite Z.mul_comm, Z_mod_plus_full. apply Z.mod_small. exact Hdesc.
Qed.

Section StreamCodec.

Variable N : list Z.
Variable tableLog : Z.
Variable ct : CTable_t.
Variable dt : list FSE_decode_t.
Hypothesis N_normalized : normalized N tableLog.
Hypothesis ct_built : FSE_buildCTable N (Z.of_nat (length N)) tableLog = Some (inr ct).
Hypothesis dt_built : FSE_buildDTable N (Z.of_nat (length N)) tableLog = Some (inr dt).

Let T : Z := 2 ^ tableLog.

Lemma stream_T : 32 <= T <= 4096 /\ 5 <= tableLog <= 12 /\ 2 ^ (tableLog + 1) = 2 * T.
Proof.
  destruct (tables_T N tableLog N_normalized) as (HT & HTr & HL). unfold T. rewrite <- HT.
  split; [exact HTr|]. split; [exact HL|]. rewrite Z.pow_add_r by lia. lia.
Qed.

(** One symbol: the encoder step on the stack of payload bits, and the
    decoder step that pops it. *)
Lemma symbol_step (x s : Z) :
  T <= x < 2 * T -> coded N s ->
  exists x' nb,
    0 <= nb <= tableLog /\ T <= x' < 2 * T
    /\ (forall bitC, FSE_encodeByte x bitC s ct = Some (x', FSE_addBits bitC x nb))
    /\ (forall mem c0 Vtot ntot bitC ip V n,
          payload mem c0 Vtot ntot -> 0 <= n -> 0 <= V < 2 ^ n -> n + nb <= ntot ->
          Vtot mod 2 ^ (n + nb) = V + (x mod 2 ^ nb) * 2 ^ n ->
          dec_at mem c0 bitC ip (n + nb) -> b_bitsConsumed bitC + nb <= 32 ->
          exists bitC',
            FSE_decodeSymbol (x' - T) bitC dt = Some (s, x - T, bitC')
            /\ dec_at mem c0 bitC' ip n
            /\ b_bitsConsumed bitC' = b_bitsConsumed bitC + nb).
Proof.
  intros Hx [Hs Hpos]. destruct stream_T as (HTr & HL & HT2).
  destruct (encode_decode_step N tableLog ct dt N_normalized ct_built dt_built x s)
    as (x' & nb & Hnb & Hx' & Henc & Hdec); try assumption.
  { fold T. lia. }
  fold T in Hx', Hdec. exists x', nb. split; [exact Hnb|]. split; [lia|]. split; [exact Henc|].
  intros mem c0 Vtot ntot bitC ip V n Hpay Hn HV Hfit Hfield Hat Hbc.
  assert (Hf : 0 <= x mod 2 ^ nb < 2 ^ nb) by (apply Z.mod_pos_bound, pow2_pos; lia).
  destruct (dec_pop mem c0 Vtot ntot bitC ip n nb V (x mod 2 ^ nb)) as (Hval & Hat' & Hbc');
    try assumption; try lia.
  exists (FSE_readBits bitC nb).2. split; [|split; assumption].
  apply Hdec. exact Hval.
Qed.

Lemma mod_mod_le (a m n : Z) : 0 <= n <= m -> (a mod 2 ^ m) mod 2 ^ n = a mod 2 ^ n.
Proof. intros H. apply mod_pow2_mod. exact H. Qed.

Lemma enc_loop_sim (k : nat) :
  forall (rsrc : list Z) (st : enc_state) (V n : Z),
    length rsrc = (2 * k)%nat -> Forall (coded N) rsrc -> enc_ok tableLog st V n ->
    exists st' V' n',
      enc_loop rsrc true ct st = Some st'
      /\ enc_ok tableLog st' V' n'
      /\ n <= n' <= n + tableLog * Z.of_nat (length rsrc)
      /\ V' mod 2 ^ n = V
      /\ forall mem c0 safe Vtot ntot D,
           payload mem c0 Vtot ntot -> n' <= ntot -> Vtot mod 2 ^ n' = V' ->
           dec_match tableLog mem c0 D (e_state1 st') (e_state2 st') n' ->
           exists D',
             dec_rounds k mem c0 safe dt D = Some D'
             /\ d_out D' = d_out D ++ rev rsrc
             /\ dec_match tableLog mem c0 D' (e_state1 st) (e_state2 st) n.
Proof.
  destruct stream_T as (HTr & HL & HT2).
  induction k as [|k IH]; intros rsrc st V n Hlen Hsyms Hok.
  - destruct rsrc; [|cbn [length] in Hlen; lia].
    destruct Hok as (Hinv & Hbp & Hx1 & Hx2).
    assert (Hn : 0 <= n) by (destruct Hinv as (? & ? & ? & ? & _); lia).
    assert (HV : 0 <= V < 2 ^ n) by (destruct Hinv as (? & ? & ? & ? & _); assumption).
    exists st, V, n. cbn [enc_loop length]. split; [reflexivity|].
    split; [unfold enc_ok; auto|]. split; [lia|].
    split; [apply Z.mod_small; exact HV|].
    intros mem c0 safe Vtot ntot D _ _ _ Hm. exists D. cbn [dec_rounds rev].
    rewrite app_nil_r. auto.
  - destruct rsrc as [|a [|b rest]]; cbn [length] in Hlen; try lia.
    inversion Hsyms as [|? ? Ha Hsyms']; subst. inversion Hsyms' as [|? ? Hb Hrest]; subst.
    destruct Hok as (Hinv & Hbp & Hx1 & Hx2). fold T in Hx1, Hx2.
    destruct (symbol_step (e_state1 st) a) as (x1' & nb1 & Hnb1 & Hx1' & Henc1 & Hdec1);
      [lia | exact Ha |].
    destruct (symbol_step (e_state2 st) b) as (x2' & nb2 & Hnb2 & Hx2' & Henc2 & Hdec2);
      [lia | exact Hb |].
    pose proof Hinv as (Hop & Hbp0 & Hn & HV & _).
    pose proof (push_inv _ _ _ _ _ _ (e_state1 st) nb1 Hinv ltac:(lia) ltac:(lia)) as Hinv1.
    set (V1 := V + e_state1 st mod 2 ^ nb1 * 2 ^ n) in *.
    assert (Hbp1 : f_bitPos (FSE_addBits (e_bitC st) (e_state1 st) nb1) = f_bitPos (e_bitC st) + nb1)
      by reflexivity.
    pose proof (push_inv _ _ _ _ _ _ (e_state2 st) nb2 Hinv1 ltac:(lia) ltac:(rewrite Hbp1; lia))
      as Hinv2.
    set (V2 := V1 + e_state2 st mod 2 ^ nb2 * 2 ^ (n + nb1)) in *.
    destruct (flush_inv _ _ _ _ _ _ Hinv2) as (buf' & bitC' & Hflush & Hbp' & Hinv' & _).
    set (st1 := {| e_buf := buf';
                   e_op := e_op st + f_bitPos (FSE_addBits (FSE_addBits (e_bitC st) (e_state1 st) nb1)
                                                 (e_state2 st) nb2) / 8;
                   e_bitC := bitC'; e_state1 := x1'; e_state2 := x2' |}).
    assert (Hok1 : enc_ok tableLog st1 V2 (n + nb1 + nb2)).
    { unfold enc_ok, st1. cbn [e_buf e_op e_bitC e_state1 e_state2]. fold T.
      split; [exact Hinv'|]. split; [|split; lia].
      rewrite Hbp'. apply Z.mod_pos_bound. lia. }
    destruct (IH rest st1 V2 (n + nb1 + nb2)) as (st' & V' & n' & Hrun & Hok' & Hn' & HV' & Hdec);
      [lia | exact Hrest | exact Hok1 |].
    assert (HV1r : 0 <= V1 < 2 ^ (n + nb1)) by (destruct Hinv1 as (? & ? & ? & ? & _); assumption).
    assert (HV2r : 0 <= V2 < 2 ^ (n + nb1 + nb2)) by (destruct Hinv2 as (? & ? & ? & ? & _); assumption).
    exists st', V', n'. split; [|split; [exact Hok'|split; [|split]]].
    + cbn [enc_loop]. rewrite Henc1. cbn [mbind option_bind]. rewrite Henc2.
      cbn [mbind option_bind]. rewrite Hflush. exact Hrun.
    + cbn [length] in *. nia.
    + rewrite <- (mod_mod_le V' (n + nb1 + nb2) n) by lia. rewrite HV'.
      unfold V2, V1. rewrite (Z.pow_add_r 2 n nb1) by lia.
      replace (V + e_state1 st mod 2 ^ nb1 * 2 ^ n + e_state2 st mod 2 ^ nb2 * (2 ^ n * 2 ^ nb1))
        with (V + (e_state1 st mod 2 ^ nb1 + e_state2 st mod 2 ^ nb2 * 2 ^ nb1) * 2 ^ n) by lia.
      rewrite Z_mod_plus_full. apply Z.mod_small. exact HV.
    + intros mem c0 safe Vtot ntot D Hpay Hnt HVtot Hm.
      destruct (Hdec mem c0 safe Vtot ntot D Hpay Hnt HVtot Hm) as (D1 & Hrounds & Hout1 & Hm1).
      destruct Hm1 as (Hat1 & Hbc1 & Hs1 & Hs2). unfold st1 in Hs1, Hs2.
      cbn [e_state1 e_state2] in Hs1, Hs2. fold T in Hs1, Hs2.
      assert (HVt2 : Vtot mod 2 ^ (n + nb1 + nb2) = V2).
      { rewrite <- HV', <- HVtot. symmetry. apply mod_mod_le. lia. }
      assert (HVt1 : Vtot mod 2 ^ (n + nb1) = V1).
      { rewrite <- (mod_mod_le Vtot (n + nb1 + nb2)) by lia. rewrite HVt2. unfold V2.
        rewrite Z_mod_plus_full. apply Z.mod_small. exact HV1r. }
      pose proof Hat1 as (_ & Hip1 & Hbc1' & _).
      destruct (Hdec2 mem c0 Vtot ntot (d_bitC D1) (d_ip D1) V1 (n + nb1))
        as (bitCa & Hda & Hata & Hbca); try assumption; try lia.
      destruct (Hdec1 mem c0 Vtot ntot bitCa (d_ip D1) V n)
        as (bitCb & Hdb & Hatb & Hbcb); try assumption; try lia.
      destruct (dec_refill mem c0 bitCb (d_ip D1) n Hatb ltac:(lia)) as (Hatc & Hbcc).
      destruct (FSE_updateBitStream mem bitCb (d_ip D1)) as [bitCc ipc] eqn:Eu.
      cbn [fst snd] in Hatc, Hbcc.
      exists {| d_out := (d_out D1 ++ [b]) ++ [a]; d_bitC := bitCc; d_ip := ipc;
                d_state1 := e_state1 st - T; d_state2 := e_state2 st - T |}.
      split; [|split].
      * eapply dec_rounds_snoc; [exact Hrounds|]. unfold dec_round.
        replace (negb safe || (d_ip D1 >=? c0)) with true
          by (destruct safe; cbn [negb orb]; lia).
        rewrite Hs2, Hda. cbn [mbind option_bind]. rewrite Hs1, Hdb. cbn [mbind option_bind].
        rewrite Eu. reflexivity.
      * cbn [d_out]. rewrite Hout1. cbn [rev]. rewrite <- !app_assoc. reflexivity.
      * unfold dec_match. cbn [d_bitC d_ip d_state1 d_state2]. fold T. auto.
Qed.

Lemma catchup_sim (b : Z) (rest : list Z) (st : enc_state) (V n : Z) :
  coded N b -> enc_ok tableLog st V n ->
  exists st' V' n',
    enc_catchup 1 (b :: rest) ct st = Some (rest, st')
    /\ enc_ok tableLog st' V' n'
    /\ e_state2 st' = e_state2 st
    /\ n <= n' <= n + tableLog
    /\ V' mod 2 ^ n = V
    /\ forall mem c0 safe Vtot ntot D (fuel : nat) oend,
         payload mem c0 Vtot ntot -> n' <= ntot -> Vtot mod 2 ^ n' = V' ->
         dec_match tableLog mem c0 D (e_state1 st') (e_state2 st') n' ->
         (1 <= fuel)%nat -> d_op D + 1 = oend ->
         exists D',
           dec_last fuel mem c0 oend safe dt D = Some D'
           /\ d_out D' = d_out D ++ [b]
           /\ dec_match tableLog mem c0 D' (e_state1 st) (e_state2 st) n.
Proof.
  intros Hb Hok. destruct stream_T as (HTr & HL & HT2).
  destruct Hok as (Hinv & Hbp & Hx1 & Hx2). fold T in Hx1, Hx2.
  destruct (symbol_step (e_state1 st) b) as (x1' & nb1 & Hnb1 & Hx1' & Henc1 & Hdec1);
    [lia | exact Hb |].
  pose proof Hinv as (Hop & Hbp0 & Hn & HV & _).
  pose proof (push_inv _ _ _ _ _ _ (e_state1 st) nb1 Hinv ltac:(lia) ltac:(lia)) as Hinv1.
  set (V1 := V + e_state1 st mod 2 ^ nb1 * 2 ^ n) in *.
  destruct (flush_inv _ _ _ _ _ _ Hinv1) as (buf' & bitC' & Hflush & Hbp' & Hinv' & _).
  assert (HV1r : 0 <= V1 < 2 ^ (n + nb1)) by (destruct Hinv1 as (? & ? & ? & ? & _); assumption).
  eexists _, V1, (n + nb1). split; [|split; [|split; [|split; [|split]]]].
  - cbn [enc_catchup]. rewrite Henc1. cbn [mbind option_bind]. rewrite Hflush. reflexivity.
  - unfold enc_ok. cbn [e_buf e_op e_bitC e_state1 e_state2]. fold T.
    split; [exact Hinv'|]. split; [|split; lia]. rewrite Hbp'. apply Z.mod_pos_bound. lia.
  - reflexivity.
  - lia.
  - unfold V1. rewrite Z_mod_plus_full. apply Z.mod_small. exact HV.
  - cbn [e_state1 e_state2].
    intros mem c0 safe Vtot ntot D fuel oend Hpay Hnt HVtot (Hat & Hbc & Hs1 & Hs2) Hfuel Hoend.
    fold T in Hs1, Hs2. pose proof Hat as (_ & Hip & Hbc0 & _).
    destruct (Hdec1 mem c0 Vtot ntot (d_bitC D) (d_ip D) V n)
      as (bitCb & Hdb & Hatb & Hbcb); try assumption; try lia.
    destruct (dec_refill mem c0 bitCb (d_ip D) n Hatb ltac:(lia)) as (Hatc & Hbcc).
    destruct (FSE_updateBitStream mem bitCb (d_ip D)) as [bitCc ipc] eqn:Eu.
    cbn [fst snd] in Hatc, Hbcc.
    exists {| d_out := d_out D ++ [b]; d_bitC := bitCc; d_ip := ipc;
              d_state1 := e_state1 st - T; d_state2 := d_state2 D |}.
    split; [|split].
    + destruct fuel as [|fuel]; [lia|]. cbn [dec_last].
      replace ((d_op D <? oend) && (negb safe || (d_ip D >=? c0))) with true
        by (destruct safe; cbn [negb orb]; lia).
      rewrite Hs1, Hdb. cbn [mbind option_bind]. rewrite Eu.
      destruct fuel as [|fuel]; [reflexivity|]. cbn [dec_last].
      match goal with |- (if ?c then _ else _) = _ => replace c with false end; [reflexivity|].
      unfold d_op in *. cbn [d_out]. rewrite length_app. cbn [length]. lia.
    + reflexivity.
    + unfold dec_match. cbn [d_bitC d_ip d_state1 d_state2]. fold T. auto.
Qed.

Lemma ct_log : ct_tableLog ct = tableLog.
Proof.
  destruct (buildCTable_cells N tableLog N_normalized) as (ct0 & Hct & HctL & _).
  congruence.
Qed.

Lemma state_low_bits (x : Z) : T <= x < 2 * T -> x mod 2 ^ tableLog = x - T.
Proof.
  intros Hx. fold T. symmetry. apply Z.mod_unique with (q := 1); lia.
Qed.

(** Closing a two-state stream: both states are pushed, the descriptor
    records the length and the padding. *)
Lemma close_spec (st : enc_state) (V n x3 x4 : Z) :
  enc_ok tableLog st V n ->
  4 + (n + 2 * tableLog + 7) / 8 < 2 ^ 27 ->
  exists image,
    FSE_closeCompressionStream (e_buf st) (e_op st) (e_bitC st) 2
      (e_state1 st) (e_state2 st) x3 x4 ct
    = (4 + (n + 2 * tableLog + 7) / 8, image)
    /\ take (Z.to_nat (4 + (n + 2 * tableLog + 7) / 8)) image
       = le_bytes 4 (8 * (4 + (n + 2 * tableLog + 7) / 8) + (- (n + 2 * tableLog)) mod 8 + 2 ^ 30)
         ++ le_bytes (Z.to_nat ((n + 2 * tableLog + 7) / 8))
              (V + (e_state2 st - T) * 2 ^ n + (e_state1 st - T) * 2 ^ (n + tableLog))
    /\ 0 <= V + (e_state2 st - T) * 2 ^ n < 2 ^ (n + tableLog)
    /\ 0 <= V + (e_state2 st - T) * 2 ^ n + (e_state1 st - T) * 2 ^ (n + tableLog)
       < 2 ^ (n + 2 * tableLog).
Proof.
  intros (Hinv & Hbp & Hx1 & Hx2) Hp. fold T in Hx1, Hx2.
  destruct stream_T as (HTr & HL & HT2).
  pose proof Hinv as (Hop & Hbp0 & Hn & HV & _).
  pose proof (push_inv _ _ _ _ _ _ (e_state2 st) tableLog Hinv ltac:(lia) ltac:(lia)) as Hinv1.
  rewrite (state_low_bits _ Hx2) in Hinv1.
  set (V1 := V + (e_state2 st - T) * 2 ^ n) in *.
  destruct (flush_inv _ _ _ _ _ _ Hinv1) as (buf1 & bitC1 & Hflush1 & Hbp1 & Hinv1' & _).
  assert (Hbp1r : 0 <= f_bitPos bitC1 < 8) by (rewrite Hbp1; apply Z.mod_pos_bound; lia).
  pose proof (push_inv _ _ _ _ _ _ (e_state1 st) tableLog Hinv1' ltac:(lia) ltac:(lia)) as Hinv2.
  rewrite (state_low_bits _ Hx1) in Hinv2.
  set (V2 := V1 + (e_state1 st - T) * 2 ^ (n + tableLog)) in *.
  destruct (flush_inv _ _ _ _ _ _ Hinv2) as (buf2 & bitC2 & Hflush2 & Hbp2 & Hinv2' & Hbuf2).
  assert (Hbp2r : 0 <= f_bitPos bitC2 < 8) by (rewrite Hbp2; apply Z.mod_pos_bound; lia).
  set (op1 := e_op st + f_bitPos (FSE_addBits (e_bitC st) (e_state2 st) tableLog) / 8) in *.
  set (op2 := op1 + f_bitPos (FSE_addBits bitC1 (e_state1 st) tableLog) / 8) in *.
  assert (Hop12 : op1 <= op2 <= op1 + 2).
  { unfold op2. change (f_bitPos (FSE_addBits bitC1 (e_state1 st) tableLog))
      with (f_bitPos bitC1 + tableLog).
    split.
    - assert (0 <= (f_bitPos bitC1 + tableLog) / 8) by (apply Z.div_pos; lia). lia.
    - assert ((f_bitPos bitC1 + tableLog) / 8 < 3) by (apply Z.div_lt_upper_bound; lia). lia. }
  pose proof Hinv2' as (Hop2 & _ & Hn2 & HV2 & _).
  pose proof Hinv1' as (_ & _ & _ & HV1 & _).
  replace (n + tableLog + tableLog) with (n + 2 * tableLog) in * by lia.
  set (n2 := n + 2 * tableLog) in *.
  assert (Hceil : (n2 + 7) / 8 = op2 - 4 + (if f_bitPos bitC2 >? 0 then 1 else 0)).
  { rewrite Hn2. replace (8 * (op2 - 4) + f_bitPos bitC2 + 7)
      with ((f_bitPos bitC2 + 7) + (op2 - 4) * 8) by lia.
    rewrite Z.div_add by lia.
    destruct (f_bitPos bitC2 >? 0) eqn:E.
    - assert ((f_bitPos bitC2 + 7) / 8 = 1); [|lia].
      symmetry. apply Z.div_unique with (r := f_bitPos bitC2 - 1); lia.
    - assert (f_bitPos bitC2 = 0) by lia. replace (f_bitPos bitC2) with 0 by lia.
      change ((0 + 7) / 8) with 0. lia. }
  assert (Hpad : (- n2) mod 8 = if 8 - f_bitPos bitC2 =? 8 then 0 else 8 - f_bitPos bitC2).
  { rewrite Hn2. destruct (8 - f_bitPos bitC2 =? 8) eqn:E.
    - symmetry. apply Z.mod_unique with (q := - (op2 - 4)); lia.
    - symmetry. apply Z.mod_unique with (q := - (op2 - 4) - 1); lia. }
  set (p := 4 + (n2 + 7) / 8) in *.
  assert (Hpr : op2 <= p <= op2 + 1 /\ p - 4 = (n2 + 7) / 8).
  { unfold p. rewrite Hceil. destruct (f_bitPos bitC2 >? 0); lia. }
  exists (store buf2 0 (le_bytes 4 (8 * p + (- n2) mod 8 + 2 ^ 30))).
  split; [|split; [|split; [exact HV1 | exact HV2]]].
  - unfold FSE_closeCompressionStream. rewrite ct_log.
    change ((2 <? 1) || (2 >? 4)) with false.
    change (2 >=? 4) with false. change (2 >=? 3) with false.
    change (2 >=? 2) with true. change (2 >=? 1) with true. cbv beta iota zeta.
    rewrite Hflush1. cbv beta iota zeta. fold op1. rewrite Hflush2. cbv beta iota zeta.
    fold op2.
    assert (Hpcode : op2 + (if f_bitPos bitC2 >? 0 then 1 else 0) = p) by (unfold p; lia).
    rewrite Hpcode. f_equal. f_equal. f_equal.
    rewrite shiftl_mul by lia. change (2 ^ 3) with 8. rewrite <- Hpad.
    pose proof (Z.mod_pos_bound (- n2) 8 ltac:(lia)).
    assert (Hp0 : 0 <= p < 2 ^ 27).
    { split; [|exact Hp]. unfold p. assert (0 <= (n2 + 7) / 8) by (apply Z.div_pos; lia). lia. }
    clear - Hp0 H.
    rewrite (u32_small (p * 8)) by lia. rewrite (u32_small (p * 8 + _)) by lia.
    change (Z.shiftl (2 - 1) 30) with (2 ^ 30). rewrite u32_small by lia. lia.
  - rewrite store_inside by (cbn; lia). change (Z.to_nat 0) with 0%nat.
    rewrite take_0, app_nil_l, le_bytes_length. cbn [Nat.add].
    rewrite take_app_ge by (rewrite le_bytes_length; lia). rewrite le_bytes_length.
    f_equal. rewrite Hbuf2. rewrite drop_app_ge by (rewrite repeat_length; lia).
    rewrite repeat_length. cbn [Nat.sub drop].
    replace (Z.to_nat p - 4)%nat with (Z.to_nat ((n2 + 7) / 8)) by lia.
    apply take_le_bytes. lia.
Qed.

Lemma catchup_any (c : nat) (rsrc : list Z) (st : enc_state) (V n : Z) :
  (c <= 1)%nat -> (c <= length rsrc)%nat -> Forall (coded N) rsrc -> enc_ok tableLog st V n ->
  exists st' V' n',
    enc_catchup c rsrc ct st = Some (drop c rsrc, st')
    /\ enc_ok tableLog st' V' n'
    /\ e_state2 st' = e_state2 st
    /\ n <= n' <= n + tableLog * Z.of_nat c
    /\ V' mod 2 ^ n = V
    /\ forall mem c0 safe Vtot ntot D (fuel : nat) oend,
         payload mem c0 Vtot ntot -> n' <= ntot -> Vtot mod 2 ^ n' = V' ->
         dec_match tableLog mem c0 D (e_state1 st') (e_state2 st') n' ->
         (c <= fuel)%nat -> d_op D + Z.of_nat c = oend ->
         exists D',
           dec_last fuel mem c0 oend safe dt D = Some D'
           /\ d_out D' = d_out D ++ rev (take c rsrc)
           /\ dec_match tableLog mem c0 D' (e_state1 st) (e_state2 st) n.
Proof.
  intros Hc Hlen Hsyms Hok. destruct c as [|[|c]]; [| |lia].
  - pose proof Hok as ((_ & _ & _ & HV & _) & _).
    exists st, V, n. cbn [enc_catchup drop]. split; [reflexivity|]. split; [exact Hok|].
    split; [reflexivity|]. split; [lia|]. split; [apply Z.mod_small; exact HV|].
    intros mem c0 safe Vtot ntot D fuel oend _ _ _ Hm _ Hoend. exists D.
    rewrite take_0. cbn [rev]. rewrite app_nil_r. split; [|auto].
    destruct fuel as [|fuel]; [reflexivity|]. cbn [dec_last].
    destruct (d_op D <? oend) eqn:E; [lia|]. reflexivity.
  - destruct rsrc as [|b rest]; [cbn [length] in Hlen; lia|].
    inversion Hsyms; subst.
    destruct (catchup_sim b rest st V n) as (st' & V' & n' & Hrun & Hok' & Hs2 & Hn' & HV' & Hdec);
      try assumption.
    exists st', V', n'. cbn [drop]. rewrite drop_0. split; [exact Hrun|]. split; [exact Hok'|].
    split; [exact Hs2|]. split; [lia|]. split; [exact HV'|].
    intros mem c0 safe Vtot ntot D fuel oend Hpay Hnt HVt Hm Hfuel Hoend.
    cbn [take]. rewrite take_0. cbn [rev app].
    apply (Hdec mem c0 safe Vtot ntot D fuel oend); try assumption; lia.
Qed.

Lemma ceil8 (n : Z) : 8 * ((n + 7) / 8) = n + (- n) mod 8.
Proof.
  pose proof (Z.div_mod (n + 7) 8 ltac:(lia)) as H1.
  pose proof (Z.mod_pos_bound (n + 7) 8 ltac:(lia)) as H2.
  assert (E : (- n) mod 8 = 7 - (n + 7) mod 8).
  { symmetry. apply Z.mod_unique with (q := - ((n + 7) / 8)); lia. }
  lia.
Qed.

(** Initialising the decoder on a closed two-state stream recovers both
    final states of the encoder and stands on the payload below them. *)
Lemma init_spec (mem : list Z) (c0 V n x1 x2 maxC : Z) (safe : bool) :
  let n2 := n + 2 * tableLog in
  let p := 4 + (n2 + 7) / 8 in
  let V2 := V + (x2 - T) * 2 ^ n + (x1 - T) * 2 ^ (n + tableLog) in
  payload mem c0 V2 n2 ->
  load32 mem c0 = 8 * p + (- n2) mod 8 + 2 ^ 30 ->
  p < 2 ^ 27 -> 0 <= n -> 0 <= V < 2 ^ n -> T <= x1 < 2 * T -> T <= x2 < 2 * T ->
  (safe = true -> p <= maxC) ->
  exists bitC ip,
    FSE_initDecompressionStream_generic mem c0 tableLog maxC safe
    = {| di_iend := Some (c0 + p); di_bitC := bitC; di_nbStates := 2;
         di_state1 := x1 - T; di_state2 := x2 - T; di_ip := ip |}
    /\ dec_at mem c0 bitC ip n /\ b_bitsConsumed bitC < 8.
Proof.
  intros n2 p V2 Hpay Hdesc Hp Hn HV Hx1 Hx2 Hsafe.
  destruct stream_T as (HTr & HL & HT2).
  pose proof (Z.mod_pos_bound (- n2) 8 ltac:(lia)) as Hpad.
  set (pad := (- n2) mod 8) in *.
  assert (Hp4 : 0 <= (n2 + 7) / 8) by (apply Z.div_pos; lia).
  assert (Hp0 : 4 <= p) by (unfold p; lia).
  pose proof (ceil8 n2) as Hceil. fold pad in Hceil.
  assert (Hpow : 2 ^ (n + tableLog) = T * 2 ^ n).
  { rewrite Z.pow_add_r by lia. fold T. lia. }
  assert (Hp2n : 0 < 2 ^ n) by (apply pow2_pos; lia).
  assert (HV1 : 0 <= V + (x2 - T) * 2 ^ n < 2 ^ (n + tableLog)) by (rewrite Hpow; nia).
  unfold FSE_initDecompressionStream_generic. rewrite Hdesc.
  assert (Hnb : Z.shiftr (8 * p + pad + 2 ^ 30) 30 + 1 = 2).
  { rewrite Z.shiftr_div_pow2 by lia.
    replace (8 * p + pad + 2 ^ 30) with (8 * p + pad + 1 * 2 ^ 30) by lia.
    rewrite Z.div_add by lia. rewrite Z.div_small by lia. reflexivity. }
  assert (Hlow : Z.land (8 * p + pad + 2 ^ 30) 1073741823 = 8 * p + pad).
  { change 1073741823 with (Z.ones 30). rewrite Z.land_ones by lia.
    replace (8 * p + pad + 2 ^ 30) with (8 * p + pad + 1 * 2 ^ 30) by lia.
    rewrite Z_mod_plus_full. apply Z.mod_small. lia. }
  rewrite Hnb, Hlow.
  assert (Hbc : Z.land (8 * p + pad) 7 = pad).
  { change 7 with (Z.ones 3). rewrite Z.land_ones by lia. change (2 ^ 3) with 8.
    symmetry. apply Z.mod_unique with (q := p); lia. }
  assert (Hlen : Z.shiftr (8 * p + pad) 3 = p).
  { rewrite Z.shiftr_div_pow2 by lia. change (2 ^ 3) with 8.
    symmetry. apply Z.div_unique with (r := pad); lia. }
  rewrite Hbc, Hlen.
  replace (safe && (c0 + p >? c0 + maxC)) with false
    by (destruct safe; cbn [andb]; [specialize (Hsafe eq_refl); lia | reflexivity]).
  change (2 >=? 2) with true. change (2 >=? 3) with false. change (2 >=? 4) with false.
  cbv iota.
  set (bitC0 := {| b_bitContainer := load32 mem (c0 + p - 4); b_bitsConsumed := pad |}).
  assert (Hat0 : dec_at mem c0 bitC0 (c0 + p - 4) ((n + tableLog) + tableLog)).
  { unfold dec_at, bitC0. cbn [b_bitContainer b_bitsConsumed].
    split; [reflexivity|]. split; [lia|]. split; [lia|]. unfold p. fold n2. lia. }
  destruct (dec_pop mem c0 V2 n2 bitC0 (c0 + p - 4) (n + tableLog) tableLog
              (V + (x2 - T) * 2 ^ n) (x1 - T)) as (Hv1 & Hat1 & Hbc1);
    try assumption; try (unfold n2; lia); try (cbn; fold T; lia).
  { apply Z.mod_small. unfold V2, n2. rewrite Hpow.
    replace (n + 2 * tableLog) with (n + tableLog + tableLog) by lia.
    rewrite (Z.pow_add_r 2 (n + tableLog)) by lia. rewrite Hpow. fold T. nia. }
  destruct (FSE_readBits bitC0 tableLog) as [s1 bitC1] eqn:E1. cbn [fst snd] in Hv1, Hat1, Hbc1.
  destruct (dec_refill mem c0 bitC1 (c0 + p - 4) (n + tableLog) Hat1 ltac:(lia)) as (Hat2 & Hbc2).
  destruct (FSE_updateBitStream mem bitC1 (c0 + p - 4)) as [bitC2 ip2] eqn:E2.
  cbn [fst snd] in Hat2, Hbc2.
  pose proof Hat2 as (_ & _ & Hbc2' & _).
  destruct (dec_pop mem c0 V2 n2 bitC2 ip2 n tableLog V (x2 - T)) as (Hv2 & Hat3 & Hbc3);
    try assumption; try (unfold n2; lia); try (fold T; lia).
  { unfold V2. rewrite Hpow. rewrite Z_mod_plus_full. apply Z.mod_small. nia. }
  destruct (FSE_readBits bitC2 tableLog) as [s2 bitC3] eqn:E3. cbn [fst snd] in Hv2, Hat3, Hbc3.
  destruct (dec_refill mem c0 bitC3 ip2 n Hat3 Hn) as (Hat4 & Hbc4).
  destruct (FSE_updateBitStream mem bitC3 ip2) as [bitC4 ip4] eqn:E4.
  cbn [fst snd] in Hat4, Hbc4.
  exists bitC4, ip4. subst s1 s2. split; [reflexivity|]. split; assumption.
Qed.

(** The whole stream: what [FSE_compress_usingCTable] stores for the
    source [rev rsrc ++ [b; last]] is decoded back by the two-state
    decoder, in the plain and in the safe variant. *)
Lemma stream_codec (last b : Z) (rsrc : list Z) :
  Forall (coded N) (last :: b :: rsrc) ->
  Z.of_nat (length N) <= T ->
  Z.of_nat (length rsrc) + 2 <= 2 ^ 26 ->
  exists p stream,
    FSE_compress_usingCTable (rev rsrc ++ [b; last]) ct = Some (p, stream)
    /\ 4 < p <= 4 + (tableLog * (Z.of_nat (length rsrc) + 2) + 7) / 8
    /\ Forall is_byte (take (Z.to_nat p) stream)
    /\ Z.of_nat (length (take (Z.to_nat p) stream)) = p
    /\ forall (prefix tail : list Z) (maxC : Z) (safe : bool),
         Forall is_byte prefix -> Forall is_byte tail ->
         (safe = true -> p <= maxC) ->
         FSE_decompress_usingDTable_generic (Z.of_nat (length rsrc) + 2)
           (prefix ++ take (Z.to_nat p) stream ++ tail) (Z.of_nat (length prefix))
           maxC dt tableLog safe
         = Some (p, rev rsrc ++ [b; last]).
Proof.
  intros Hsyms HNT Hsize. destruct stream_T as (HTr & HL & HT2).
  inversion Hsyms as [|? ? Hlast Hsyms']; subst. inversion Hsyms' as [|? ? Hb Hrsrc]; subst.
  destruct (tables_N N tableLog N_normalized) as (H256 & _).
  set (size := Z.of_nat (length rsrc) + 2) in *.
  set (c := Z.to_nat (Z.of_nat (length rsrc) mod 2)).
  pose proof (Z.mod_pos_bound (Z.of_nat (length rsrc)) 2 ltac:(lia)) as Hcr.
  pose proof (Z.div_mod (Z.of_nat (length rsrc)) 2 ltac:(lia)) as Hdm.
  set (k := Z.to_nat (Z.of_nat (length rsrc) / 2)).
  assert (Hk0 : 0 <= Z.of_nat (length rsrc) / 2) by (apply Z.div_pos; lia).
  set (st0 := {| e_buf := []; e_op := 4; e_bitC := {| f_bitContainer := 0; f_bitPos := 0 |};
                 e_state1 := T + last; e_state2 := T + b |}).
  assert (Hok0 : enc_ok tableLog st0 0 0).
  { unfold enc_ok, enc_inv, st0. cbn [e_buf e_op e_bitC e_state1 e_state2 f_bitContainer f_bitPos].
    fold T. destruct Hlast as [Hl _]. destruct Hb as [Hb' _].
    repeat split; try lia; try reflexivity. left. auto. }
  destruct (catchup_any c rsrc st0 0 0) as (st1 & V1 & n1 & Hrun1 & Hok1 & Hs21 & Hn1 & HV1 & Hdec1);
    try assumption; try (unfold c; lia).
  destruct (enc_loop_sim k (drop c rsrc) st1 V1 n1) as (st2 & V2 & n2 & Hrun2 & Hok2 & Hn2 & HV2 & Hdec2);
    try assumption.
  { rewrite length_drop. unfold c, k. lia. }
  { apply Forall_drop. exact Hrsrc. }
  assert (Hlen2 : Z.of_nat (length (drop c rsrc)) = 2 * Z.of_nat k).
  { rewrite length_drop. unfold c, k. lia. }
  assert (Hbits : n2 + 2 * tableLog <= tableLog * size).
  { unfold size. nia. }
  assert (Hceil : (n2 + 2 * tableLog + 7) / 8 <= (tableLog * size + 7) / 8).
  { apply Z.div_le_mono; lia. }
  assert (Hcap : (tableLog * size + 7) / 8 < 2 ^ 27 - 4).
  { apply Z.div_lt_upper_bound; [lia|]. nia. }
  destruct (close_spec st2 V2 n2 T 0 Hok2) as (image & Hclose & Htake & HVa & HVb);
    [lia|].
  set (p := 4 + (n2 + 2 * tableLog + 7) / 8) in *.
  set (Vf := V2 + (e_state2 st2 - T) * 2 ^ n2 + (e_state1 st2 - T) * 2 ^ (n2 + tableLog)) in *.
  pose proof Hok2 as ((_ & _ & _ & HV2r & _) & _ & Hx12 & Hx22). fold T in Hx12, Hx22.
  pose proof Hok1 as ((_ & _ & _ & HV1r & _) & _).
  assert (Hn2pos : 0 <= n2) by lia.
  assert (Hp4 : 0 <= (n2 + 2 * tableLog + 7) / 8) by (apply Z.div_pos; lia).
  assert (Hp8 : 8 * ((n2 + 2 * tableLog + 7) / 8) = n2 + 2 * tableLog + (- (n2 + 2 * tableLog)) mod 8)
    by apply ceil8.
  pose proof (Z.mod_pos_bound (- (n2 + 2 * tableLog)) 8 ltac:(lia)) as Hpad.
  exists p, image. split; [|split; [|split; [|split]]].
  - unfold FSE_compress_usingCTable, FSE_compress_usingCTable_generic, FSE_ILP.
    rewrite rev_app_distr, rev_involutive. cbn [rev app]. cbv iota. rewrite ct_log.
    rewrite Z.shiftl_1_l. fold T. change (1 + 1) with 2.
    rewrite length_app, length_rev. cbn [length].
    replace (Z.of_nat (length rsrc + 2) - 2) with (Z.of_nat (length rsrc)) by lia.
    rewrite Z.rem_mod_nonneg by lia.
    destruct (Z.of_nat (length rsrc) mod 2 <? 0) eqn:E; [lia|].
    cbn [mbind option_bind]. fold c. fold st0. rewrite Hrun1. cbn [mbind option_bind].
    rewrite Hrun2. cbn [mbind option_bind]. rewrite Hclose. reflexivity.
  - unfold p. lia.
  - rewrite Htake. apply Forall_app. split; apply le_bytes_bytes.
  - rewrite Htake, length_app, !le_bytes_length. unfold p. lia.
  - intros prefix tail maxC safe Hpre Htail Hsafe.
    rewrite Htake.
    set (desc := 8 * p + (- (n2 + 2 * tableLog)) mod 8 + 2 ^ 30).
    destruct (frame_payload prefix tail desc Vf (n2 + 2 * tableLog)
                (Z.to_nat ((n2 + 2 * tableLog + 7) / 8))) as (Hpay & Hload);
      try assumption; try (unfold desc, p; lia).
    set (mem := prefix ++ (le_bytes 4 desc ++ le_bytes (Z.to_nat ((n2 + 2 * tableLog + 7) / 8)) Vf)
                ++ tail) in *.
    set (c0 := Z.of_nat (length prefix)) in *.
    destruct (init_spec mem c0 V2 n2 (e_state1 st2) (e_state2 st2)
                (if safe then maxC else 0) safe) as (bitC & ip & Hinit & Hat & Hbc);
      try assumption; try (fold p; lia).
    fold p in Hinit.
    unfold FSE_decompress_usingDTable_generic, FSE_getNbStates. rewrite Hload.
    assert (Hnb : Z.shiftr desc 30 + 1 = 2).
    { rewrite Z.shiftr_div_pow2 by lia. unfold desc.
      replace (8 * p + (- (n2 + 2 * tableLog)) mod 8 + 2 ^ 30)
        with (8 * p + (- (n2 + 2 * tableLog)) mod 8 + 1 * 2 ^ 30) by lia.
      rewrite Z.div_add by lia. rewrite Z.div_small by (unfold p; lia). reflexivity. }
    rewrite Hnb. change (2 =? 2) with true. cbv iota.
    unfold FSE_decompressStreams_usingDTable_generic. rewrite Hinit.
    cbn [di_iend di_nbStates di_bitC di_ip di_state1 di_state2].
    set (D0 := {| d_out := []; d_bitC := bitC; d_ip := ip;
                  d_state1 := e_state1 st2 - T; d_state2 := e_state2 st2 - T |}).
    assert (Hm0 : dec_match tableLog mem c0 D0 (e_state1 st2) (e_state2 st2) n2).
    { unfold dec_match, D0. cbn [d_bitC d_ip d_state1 d_state2]. fold T. auto. }
    assert (HVf2 : Vf mod 2 ^ n2 = V2).
    { unfold Vf. rewrite (Z.pow_add_r 2 n2 tableLog) by lia.
      replace (V2 + (e_state2 st2 - T) * 2 ^ n2 + (e_state1 st2 - T) * (2 ^ n2 * 2 ^ tableLog))
        with (V2 + ((e_state2 st2 - T) + (e_state1 st2 - T) * 2 ^ tableLog) * 2 ^ n2) by lia.
      rewrite Z_mod_plus_full. apply Z.mod_small. exact HV2r. }
    destruct (Hdec2 mem c0 safe Vf (n2 + 2 * tableLog) D0 Hpay ltac:(lia) HVf2 Hm0)
      as (D1 & Hrounds & Hout1 & Hm1).
    assert (HVf1 : Vf mod 2 ^ n1 = V1).
    { rewrite <- (mod_mod_le Vf n2 n1) by lia. rewrite HVf2. exact HV2. }
    assert (Hop1 : d_op D1 = 2 * Z.of_nat k).
    { unfold d_op. rewrite Hout1. unfold D0. cbn [d_out app]. rewrite length_rev. exact Hlen2. }
    replace (size - 2) with (Z.of_nat (length rsrc)) by (unfold size; lia).
    rewrite Z.rem_mod_nonneg by lia.
    assert (Holimit : Z.of_nat (length rsrc) - Z.of_nat (length rsrc) mod 2 = 2 * Z.of_nat k).
    { unfold k. lia. }
    rewrite Holimit.
    rewrite (dec_hot_rounds mem c0 (2 * Z.of_nat k) safe dt k _ D0 D1 Hrounds)
      by (unfold D0, d_op; cbn [d_out length]; lia).
    cbn [mbind option_bind].
    destruct (Hdec1 mem c0 safe Vf (n2 + 2 * tableLog) D1
                (Z.to_nat (Z.of_nat (length rsrc))) (Z.of_nat (length rsrc)) Hpay ltac:(lia) HVf1 Hm1)
      as (D2 & Hlast2 & Hout2 & Hm2); [unfold c; lia | unfold c; lia |].
    rewrite Hlast2. cbn [mbind option_bind].
    destruct Hm2 as ((_ & Hip2 & Hbc2 & Hpos2) & Hbc2' & Hs1 & Hs2).
    unfold st0 in Hs1, Hs2. cbn [e_state1 e_state2] in Hs1, Hs2. fold T in Hs1, Hs2.
    assert (Hip : d_ip D2 = c0) by lia.
    assert (Hb0 : b_bitsConsumed (d_bitC D2) = 0) by lia.
    rewrite Hip, Hb0, Z.eqb_refl. change (0 =? 0) with true. cbn [negb orb].
    change (2 >=? 2) with true. cbv iota.
    rewrite Hs1, Hs2.
    replace (T + b - T) with b by lia. replace (T + last - T) with last by lia.
    destruct Hlast as [Hl _]. destruct Hb as [Hb' _].
    rewrite !u8_small by lia.
    f_equal. f_equal; [lia|].
    rewrite Hout2, Hout1. unfold D0. cbn [d_out app].
    rewrite <- rev_app_distr, take_drop. rewrite <- app_assoc. reflexivity.
Qed.

End StreamCodec.

(** X5.  Stream round trip.  For a normalized distribution [N] over at
    most [2^tableLog] symbols and a source of 2 to [2^26] symbols of
    positive weight, [FSE_compress_usingCTable] returns a stream of
    [4 < p <= 4 + ceil(tableLog * size / 8)] byte values, and the two-state
    decoder run on those [p] bytes, wherever they lie in memory and
    whatever follows them, returns [p] and restores the source; so does
    the safe decoder whenever it is allowed at least [p] bytes. *)
Theorem stream_round_trip :
  forall (N : list Z) (tableLog : Z) (source : list Z),
    normalized N tableLog ->
    Z.of_nat (length N) <= 2 ^ tableLog ->
    Forall (coded N) source ->
    2 <= Z.of_nat (length source) <= 2 ^ 26 ->
    exists ct dt p stream,
      FSE_buildCTable N (Z.of_nat (length N)) tableLog = Some (inr ct)
      /\ FSE_buildDTable N (Z.of_nat (length N)) tableLog = Some (inr dt)
      /\ FSE_compress_usingCTable source ct = Some (p, stream)
      /\ 4 < p <= 4 + (tableLog * Z.of_nat (length source) + 7) / 8
      /\ Forall is_byte (take (Z.to_nat p) stream)
      /\ forall prefix tail : list Z,
           Forall is_byte prefix -> Forall is_byte tail ->
           FSE_decompress_usingDTable (Z.of_nat (length source))
             (prefix ++ take (Z.to_nat p) stream ++ tail) (Z.of_nat (length prefix)) dt tableLog
           = Some (p, source)
           /\ forall maxCompressedSize, p <= maxCompressedSize ->
                FSE_decompress_usingDTable_safe (Z.of_nat (length source))
                  (prefix ++ take (Z.to_nat p) stream ++ tail) (Z.of_nat (length prefix))
                  maxCompressedSize dt tableLog
                = Some (p, source).
Proof.
  intros N L source HN HNT Hsyms Hsize.
  destruct (buildCTable_cells N L HN) as (ct & Hct & _).
  destruct (buildDTable_entries N L HN) as (dt & Hdt & _).
  exists ct, dt.
  assert (Hsrc : exists last b rsrc, source = rev rsrc ++ [b; last]).
  { rewrite <- (rev_involutive source). rewrite <- (length_rev source) in Hsize.
    destruct (rev source) as [|last [|b rsrc]]; cbn [length] in Hsize; try lia.
    exists last, b, rsrc. cbn [rev]. rewrite <- app_assoc. reflexivity. }
  destruct Hsrc as (last & b & rsrc & ->).
  assert (Hlen : Z.of_nat (length (rev rsrc ++ [b; last])) = Z.of_nat (length rsrc) + 2).
  { rewrite length_app, length_rev. cbn [length]. lia. }
  rewrite Hlen in *.
  assert (Hsyms' : Forall (coded N) (last :: b :: rsrc)).
  { apply Forall_app in Hsyms. destruct Hsyms as [Hr Hbl].
    inversion Hbl as [|? ? Hb Hl']; subst. inversion Hl' as [|? ? Hl _]; subst.
    constructor; [exact Hl|]. constructor; [exact Hb|].
    apply Forall_rev in Hr. rewrite rev_involutive in Hr. exact Hr. }
  destruct (stream_codec N L ct dt HN Hct Hdt last b rsrc Hsyms' HNT ltac:(lia))
    as (p & stream & Hcomp & Hp & Hbytes & _ & Hdec).
  exists p, stream. split; [exact Hct|]. split; [exact Hdt|]. split; [exact Hcomp|].
  split; [exact Hp|]. split; [exact Hbytes|].
  intros prefix tail Hpre Htail. split.
  - unfold FSE_decompress_usingDTable. apply Hdec; try assumption. discriminate.
  - intros maxC HmaxC. unfold FSE_decompress_usingDTable_safe. apply Hdec; try assumption.
    intros _. exact HmaxC.
Qed.

Lemma stream_round_trip_witness :
  exists ct dt p stream,
    FSE_buildCTable [10; 0; 22] 3 5 = Some (inr ct)
    /\ FSE_buildDTable [10; 0; 22] 3 5 = Some (inr dt)
    /\ FSE_compress_usingCTable [0; 2; 2; 0; 2] ct = Some (p, stream)
    /\ FSE_decompress_usingDTable 5 ([7] ++ take (Z.to_nat p) stream ++ [9]) 1 dt 5
       = Some (p, [0; 2; 2; 0; 2]).
Proof.
  destruct (stream_round_trip [10; 0; 22] 5 [0; 2; 2; 0; 2])
    as (ct & dt & p & stream & Hct & Hdt & Hcomp & _ & _ & Hdec).
  - unfold normalized, FSE_MIN_TABLELOG, FSE_MAX_TABLELOG, FSE_MEMORY_USAGE.
    repeat split; try (simpl; lia). repeat constructor; lia.
  - simpl. lia.
  - repeat constructor; simpl; lia.
  - simpl. lia.
  - exists ct, dt, p, stream. split; [exact Hct|]. split; [exact Hdt|]. split; [exact Hcomp|].
    apply (Hdec [7] [9]); repeat constructor; unfold is_byte; lia.
Defined.

(** ** Normalization of inputs no longer than the table *)

Lemma sum_list_entry_le (C : list Z) :
  Forall (fun c => 0 <= c) C -> Forall (fun c => c <= sum_list C) C.
Proof.
  induction 1 as [|c C Hc HC IH]; constructor.
  - cbn [sum_list]. pose proof (sum_list_nonneg C HC). lia.
  - eapply Forall_impl; [exact IH|]. intros x Hx. cbn [sum_list]. cbn beta in Hx. lia.
Qed.

Section SmallInput.

Variable L total : Z.
Hypothesis L_range : 5 <= L <= 12.
Hypothesis total_range : 1 <= total <= 2 ^ L.

Let scale : Z := 30 - L.
Let vStep : Z := 2 ^ scale.
Let step : Z := 2 ^ 30 / total.

Lemma small_consts :
  2 ^ 18 <= vStep <= 2 ^ 25 /\ vStep * 2 ^ L = 2 ^ 30 /\ 2 ^ L <= 4096
  /\ vStep <= step /\ step * total <= 2 ^ 30 < step * total + total.
Proof.
  assert (H1 : 2 ^ 18 <= vStep <= 2 ^ 25).
  { unfold vStep, scale. split; apply Z.pow_le_mono_r; lia. }
  assert (H2 : vStep * 2 ^ L = 2 ^ 30).
  { unfold vStep, scale. rewrite <- Z.pow_add_r by lia. f_equal. lia. }
  assert (H3 : 2 ^ L <= 4096) by (change 4096 with (2 ^ 12); apply Z.pow_le_mono_r; lia).
  pose proof (Z.div_mod (2 ^ 30) total ltac:(lia)) as Hdm.
  pose proof (Z.mod_pos_bound (2 ^ 30) total ltac:(lia)) as Hm. fold step in Hdm.
  repeat split; try lia.
  unfold step. apply Z.div_le_lower_bound; [lia|]. nia.
Qed.

Lemma norm_scale_spec (C : list Z) :
  forall (rest : list Z) (cr : Z),
    Forall (fun c => 0 <= c <= total) C -> 0 <= cr < vStep ->
    exists single N,
      norm_scale (length C) (C ++ rest) total step scale vStep cr = Some (single, N ++ rest)
      /\ length N = length C
      /\ (single = true <-> Exists (fun c => c = total) C)
      /\ (single = false ->
          exists cr', 0 <= cr' < vStep
            /\ vStep * sum_list N + cr' = cr + step * sum_list C
            /\ Forall2 (fun c n => (c = 0 -> n = 0) /\ (0 < c -> 1 <= n)) C N).
Proof.
  destruct small_consts as (HvS & Hprod & HT & Hstep & Hst).
  induction C as [|c C IH]; intros rest cr HC Hcr.
  - exists false, []. cbn [norm_scale length app sum_list]. split; [reflexivity|].
    split; [reflexivity|]. split.
    + split; [discriminate|]. intros H. inversion H.
    + intros _. exists cr. split; [exact Hcr|]. split; [lia|constructor].
  - inversion HC as [|? ? Hc HC']; subst. cbn [norm_scale length app].
    rewrite (u32_small total) by lia.
    destruct (Z.eqb_spec c total) as [->|Hne].
    + exists true, (total :: C). split; [reflexivity|]. split; [reflexivity|].
      split; [|discriminate]. split; [|reflexivity]. intros _. left. reflexivity.
    + destruct (c >? 0) eqn:Epos.
      * assert (Hcs : 0 <= c * step <= 2 ^ 30) by nia.
        rewrite (u32_small (c * step)) by lia.
        rewrite Z.shiftr_div_pow2 by (unfold scale; lia). fold vStep.
        pose proof (Z.div_mod (c * step) vStep ltac:(lia)) as Hdm.
        pose proof (Z.mod_pos_bound (c * step) vStep ltac:(lia)) as Hm.
        assert (Hq : 1 <= c * step / vStep <= 2 ^ L).
        { split; [apply Z.div_le_lower_bound; nia | apply Z.div_le_upper_bound; nia]. }
        rewrite (u32_small (c * step / vStep * vStep)) by nia.
        replace (c * step - c * step / vStep * vStep) with ((c * step) mod vStep) by lia.
        rewrite (s32_small ((c * step) mod vStep)) by lia.
        rewrite (s32_small (cr + _)) by lia.
        rewrite Z.shiftr_div_pow2 by (unfold scale; lia). fold vStep.
        change (Z.land (cr + (c * step) mod vStep) (vStep - 1))
          with (Z.land (cr + (c * step) mod vStep) (2 ^ scale - 1)).
        rewrite land_pow2_pred by (unfold scale; lia). fold vStep.
        pose proof (Z.div_mod (cr + (c * step) mod vStep) vStep ltac:(lia)) as Hdm2.
        pose proof (Z.mod_pos_bound (cr + (c * step) mod vStep) vStep ltac:(lia)) as Hm2.
        assert (Hcarry : 0 <= (cr + (c * step) mod vStep) / vStep <= 1).
        { split; [apply Z.div_pos; lia|].
          assert ((cr + (c * step) mod vStep) / vStep < 2); [|lia].
          apply Z.div_lt_upper_bound; lia. }
        rewrite u32_small by lia.
        destruct (IH rest ((cr + (c * step) mod vStep) mod vStep) HC' Hm2)
          as (single & N & Hrun & Hlen & Hsingle & Hsum).
        rewrite Hrun. cbn [mbind option_bind].
        exists single, (c * step / vStep + (cr + (c * step) mod vStep) / vStep :: N).
        split; [reflexivity|]. split; [cbn [length]; lia|]. split.
        -- rewrite Hsingle. split; [intros H; right; exact H|].
           intros H. inversion H; subst; [congruence | assumption].
        -- intros Hs. destruct (Hsum Hs) as (cr' & Hcr' & Heq & Hall).
           exists cr'. split; [exact Hcr'|]. split.
           ++ cbn [sum_list]. nia.
           ++ constructor; [|exact Hall]. split; lia.
      * assert (c = 0) by lia. subst c.
        destruct (IH rest cr HC' Hcr) as (single & N & Hrun & Hlen & Hsingle & Hsum).
        rewrite Hrun. cbn [mbind option_bind].
        exists single, (0 :: N). split; [reflexivity|]. split; [cbn [length]; lia|]. split.
        -- rewrite Hsingle. split; [intros H; right; exact H|].
           intros H. inversion H; subst; [lia | assumption].
        -- intros Hs. destruct (Hsum Hs) as (cr' & Hcr' & Heq & Hall).
           exists cr'. split; [exact Hcr'|]. split.
           ++ cbn [sum_list]. lia.
           ++ constructor; [|exact Hall]. split; lia.
Qed.

End SmallInput.

Lemma half_sum_window (vStep e : Z) :
  0 <= e < vStep -> 0 <= (vStep + e) / 2 - e /\ 2 * ((vStep + e) / 2 - e) <= vStep.
Proof.
  intros H. pose proof (Z.div_mod (vStep + e) 2 ltac:(lia)).
  pose proof (Z.mod_pos_bound (vStep + e) 2 ltac:(lia)). lia.
Qed.

Lemma normalizeCount_small (fuel : nat) (hint : Z) (C rest : list Z) (total : Z) :
  let L := norm_tableLog hint total (Z.of_nat (length C)) in
  Forall (fun c => 0 <= c) C -> sum_list C = total ->
  1 <= total <= 2 ^ L -> L <= FSE_MAX_TABLELOG ->
  exists r N,
    FSE_normalizeCount fuel hint (C ++ rest) total (Z.of_nat (length C)) = Some (r, N ++ rest)
    /\ length N = length C
    /\ ((r = 0 /\ Exists (fun c => c = total) C)
        \/ (r = L /\ ~ Exists (fun c => c = total) C
            /\ sum_list N = 2 ^ L
            /\ Forall2 (fun c n => (c = 0 -> n = 0) /\ (0 < c -> 1 <= n)) C N)).
Proof.
  intros L HC Hsum Htot HL.
  pose proof (norm_tableLog_ge_min hint total (Z.of_nat (length C))) as Hmin. fold L in Hmin.
  unfold FSE_MIN_TABLELOG in Hmin. unfold FSE_MAX_TABLELOG, FSE_MEMORY_USAGE in HL.
  assert (HLr : 5 <= L <= 12) by lia.
  destruct (small_consts L total HLr Htot) as (HvS & Hprod & HT & Hstep & Hst).
  unfold FSE_normalizeCount. fold L. rewrite Nat2Z.id.
  rewrite gtb_false by (unfold FSE_MAX_TABLELOG, FSE_MEMORY_USAGE; lia).
  unfold FSE_VIRTUAL_LOG, FSE_VIRTUAL_RANGE, FSE_highbit.
  rewrite (u32_small (total - 1)) by lia. rewrite (u32_small total) by lia.
  assert (Hlog : Z.log2 (total - 1) + 1 <= 12).
  { destruct (Z.eq_dec total 1) as [E1|Hne]; [rewrite E1; change (Z.log2 (1 - 1)) with 0; lia|].
    assert (Z.log2 (total - 1) < 12); [|lia]. apply Z.log2_lt_pow2; lia. }
  rewrite (gtb_false (Z.log2 (total - 1) + 1)) by lia. cbn [mbind option_bind].
  rewrite (gtb_false total) by (rewrite Z.shiftl_1_l; lia). cbn [mbind option_bind].
  unfold FSE_VIRTUAL_RANGE, FSE_VIRTUAL_LOG. rewrite !Z.shiftl_1_l.
  rewrite !(u32_small total) by lia.
  destruct (Z.eqb_spec total 0) as [?|_]; [lia|].
  set (vStep := 2 ^ (30 - L)) in *. set (step := 2 ^ 30 / total) in *.
  rewrite !(u32_small (step * total)) by lia.
  rewrite !(u32_small (2 ^ 30 - step * total)) by lia.
  set (e := 2 ^ 30 - step * total).
  assert (He : 0 <= e < vStep) by (unfold e; lia).
  rewrite (gtb_false e) by lia.
  rewrite (u32_small (vStep + e)) by lia.
  rewrite Z.shiftr_div_pow2 by lia. change (2 ^ 1) with 2.
  destruct (half_sum_window vStep e He) as [Hh0 Hh1].
  rewrite s32_small by lia.
  assert (HCt : Forall (fun c => 0 <= c <= total) C).
  { pose proof (sum_list_entry_le C HC) as Hle. rewrite Hsum in Hle.
    rewrite Forall_forall in *. intros x Hx. split; [apply HC | apply Hle]; exact Hx. }
  destruct (norm_scale_spec L total HLr Htot C rest ((vStep + e) / 2) HCt)
    as (single & N & Hrun & Hlen & Hsingle & Hrest); [fold vStep; lia|].
  fold vStep step in Hrun. rewrite Hrun. cbn [mbind option_bind].
  destruct single.
  - exists 0, N. split; [reflexivity|]. split; [exact Hlen|]. left.
    split; [reflexivity|]. apply Hsingle. reflexivity.
  - exists L, N. split; [reflexivity|]. split; [exact Hlen|]. right.
    split; [reflexivity|]. split.
    + intros H. apply Hsingle in H. discriminate.
    + destruct (Hrest eq_refl) as (cr' & Hcr' & Heq & Hall). fold vStep step in Hcr', Heq.
      split; [|exact Hall]. rewrite Hsum in Heq.
      assert (Hmul : vStep * (sum_list N - 2 ^ L) = (vStep + e) / 2 - e - cr') by (unfold e in *; nia).
      assert (sum_list N - 2 ^ L < 1) by nia.
      assert (-1 < sum_list N - 2 ^ L) by nia. lia.
Qed.

(** Under the default table log, an input of at most 4096 symbols is no
    longer than its table. *)
Lemma default_tableLog_covers_total (total nbSymbols : Z) :
  1 <= total <= 4096 -> 1 <= nbSymbols <= 256 ->
  total <= 2 ^ norm_tableLog FSE_MAX_TABLELOG total nbSymbols
  /\ norm_tableLog FSE_MAX_TABLELOG total nbSymbols <= FSE_MAX_TABLELOG
  /\ nbSymbols <= 2 ^ norm_tableLog FSE_MAX_TABLELOG total nbSymbols.
Proof.
  intros Ht Hn. unfold norm_tableLog, FSE_MAX_TABLELOG, FSE_MEMORY_USAGE, FSE_MIN_TABLELOG, FSE_highbit.
  change (14 - 2 =? 0) with false. cbv iota. change (14 - 2) with 12.
  rewrite (u32_small (total - 1)), (u32_small nbSymbols), (u32_small (nbSymbols - 1)) by lia.
  assert (Ht1 : total <= 2 ^ (Z.log2 (total - 1) + 1) /\ Z.log2 (total - 1) + 1 <= 12).
  { destruct (Z.eq_dec total 1) as [->|Hne]; [change (Z.log2 (1 - 1)) with 0; cbn; lia|].
    destruct (Z.log2_spec (total - 1) ltac:(lia)) as [_ Hhi].
    replace (Z.succ (Z.log2 (total - 1))) with (Z.log2 (total - 1) + 1) in Hhi by lia.
    split; [lia|]. assert (Z.log2 (total - 1) < 12); [|lia]. apply Z.log2_lt_pow2; lia. }
  assert (Hn1 : nbSymbols <= 2 ^ (Z.log2 (nbSymbols - 1) + 1) /\ Z.log2 (nbSymbols - 1) + 1 <= 8
                /\ Z.log2 nbSymbols <= Z.log2 (nbSymbols - 1) + 1).
  { destruct (Z.eq_dec nbSymbols 1) as [->|Hne]; [change (Z.log2 (1 - 1)) with 0; cbn; lia|].
    destruct (Z.log2_spec (nbSymbols - 1) ltac:(lia)) as [_ Hhi].
    replace (Z.succ (Z.log2 (nbSymbols - 1))) with (Z.log2 (nbSymbols - 1) + 1) in Hhi by lia.
    split; [lia|]. split.
    - assert (Z.log2 (nbSymbols - 1) < 8); [|lia]. apply Z.log2_lt_pow2; lia.
    - assert (Z.log2 nbSymbols < Z.log2 (nbSymbols - 1) + 1 + 1); [|lia].
      apply Z.log2_lt_pow2; [lia|]. rewrite Z.pow_add_r by (pose proof (Z.log2_nonneg (nbSymbols - 1)); lia).
      lia. }
  assert (Hn2 : nbSymbols < 2 ^ (Z.log2 nbSymbols + 1)).
  { destruct (Z.log2_spec nbSymbols ltac:(lia)) as [_ Hhi].
    replace (Z.succ (Z.log2 nbSymbols)) with (Z.log2 nbSymbols + 1) in Hhi by lia. exact Hhi. }
  assert (Hmono : forall a b, 0 <= a <= b -> 2 ^ a <= 2 ^ b).
  { intros a b Hab. apply Z.pow_le_mono_r; lia. }
  pose proof (Z.log2_nonneg (total - 1)). pose proof (Z.log2_nonneg (nbSymbols - 1)).
  pose proof (Z.log2_nonneg nbSymbols).
  set (t1 := if Z.log2 (total - 1) + 1 <? 12 then Z.log2 (total - 1) + 1 else 12).
  assert (Ht1' : total <= 2 ^ t1 /\ 1 <= t1 <= 12).
  { unfold t1. destruct (Z.log2 (total - 1) + 1 <? 12) eqn:E; [lia|].
    split; [|lia]. change (2 ^ 12) with 4096. lia. }
  set (t2 := if Z.log2 nbSymbols + 1 >? t1 then Z.log2 (nbSymbols - 1) + 1 else t1).
  assert (Ht2 : total <= 2 ^ t2 /\ nbSymbols <= 2 ^ t2 /\ 1 <= t2 <= 12).
  { unfold t2. destruct (Z.log2 nbSymbols + 1 >? t1) eqn:E.
    - split; [|split; lia]. pose proof (Hmono t1 (Z.log2 (nbSymbols - 1) + 1) ltac:(lia)). lia.
    - split; [lia|]. split; [|lia].
      pose proof (Hmono (Z.log2 nbSymbols + 1) t1 ltac:(lia)). lia. }
  destruct (t2 <? 5) eqn:E5.
  - pose proof (Hmono t2 5 ltac:(lia)). lia.
  - lia.
Qed.

(** X6.  Normalization is exact on inputs no longer than the table.  When
    the total does not exceed [2^L], [L <= 12] being the table log the
    function selects, [FSE_normalizeCount] returns for every fuel: 0 if
    one symbol carries the whole total, and otherwise [L] with weights
    that sum to exactly [2^L], a weight of at least 1 for every symbol that
    occurs and 0 for every symbol that does not; the array beyond
    [nbSymbols] is left untouched. *)
Theorem normalizeCount_exact_on_small_inputs :
  forall (fuel : nat) (hint : Z) (C rest : list Z) (total : Z),
    Forall (fun c => 0 <= c) C -> sum_list C = total ->
    1 <= total <= 2 ^ norm_tableLog hint total (Z.of_nat (length C)) ->
    norm_tableLog hint total (Z.of_nat (length C)) <= FSE_MAX_TABLELOG ->
    exists r N,
      FSE_normalizeCount fuel hint (C ++ rest) total (Z.of_nat (length C)) = Some (r, N ++ rest)
      /\ length N = length C
      /\ ((r = 0 /\ Exists (fun c => c = total) C)
          \/ (r = norm_tableLog hint total (Z.of_nat (length C))
              /\ ~ Exists (fun c => c = total) C
              /\ sum_list N = 2 ^ r
              /\ Forall2 (fun c n => (c = 0 -> n = 0) /\ (0 < c -> 1 <= n)) C N)).
Proof.
  intros fuel hint C rest total HC Hsum Htot HL.
  destruct (normalizeCount_small fuel hint C rest total HC Hsum Htot HL)
    as (r & N & Hrun & Hlen & Hcases).
  exists r, N. split; [exact Hrun|]. split; [exact Hlen|].
  destruct Hcases as [H|(Hr & Hne & Hs & Hall)]; [left; exact H|].
  right. rewrite Hr. auto.
Qed.

Lemma normalizeCount_exact_on_small_inputs_witness :
  exists r N,
    FSE_normalizeCount 0 0 ([3; 0; 5] ++ [7; 7]) 8 3 = Some (r, N ++ [7; 7])
    /\ length N = 3%nat
    /\ ((r = 0 /\ Exists (fun c => c = 8) [3; 0; 5])
        \/ (r = 5 /\ ~ Exists (fun c => c = 8) [3; 0; 5]
            /\ sum_list N = 2 ^ r
            /\ Forall2 (fun c n => (c = 0 -> n = 0) /\ (0 < c -> 1 <= n)) [3; 0; 5] N)).
Proof.
  apply (normalizeCount_exact_on_small_inputs 0 0 [3; 0; 5] [7; 7] 8).
  - repeat constructor; lia.
  - reflexivity.
  - vm_compute. split; discriminate.
  - vm_compute. discriminate.
Defined.

(** ** The header inside a frame *)

(** The header of a normalized table whose last entry is positive, written
    for any [nbSymbols] that covers it: its size, its first byte, and what
    the reader makes of it. *)
Lemma header_codec (N0 : list Z) (k : nat) (L nbSymbols : Z) (tail : list Z) (fuel : nat) :
  FSE_MIN_TABLELOG <= L <= FSE_MAX_TABLELOG ->
  Forall (fun c => 0 <= c) N0 ->
  sum_list N0 = 2 ^ L ->
  (exists N' c, N0 = N' ++ [c] /\ 0 < c) ->
  Forall is_byte tail ->
  (length (N0 ++ repeat 0%Z k) < fuel)%nat ->
  Z.of_nat (length N0) <= nbSymbols ->
  exists size image,
    FSE_writeHeader (N0 ++ repeat 0 k) nbSymbols L = Some (size, image)
    /\ 0 < size
    /\ Forall is_byte (take (Z.to_nat size) image)
    /\ Z.of_nat (length (take (Z.to_nat size) image)) = size
    /\ byte_at (take (Z.to_nat size) image ++ tail) 0 mod 2 ^ 6 = 2 + 4 * (L - 5)
    /\ FSE_readHeader fuel (take (Z.to_nat size) image ++ tail)
       = Some {| rh_ret := size; rh_normalizedCounter := N0;
                 rh_nbSymbols := Z.of_nat (length N0); rh_tableLog := L |}.
Proof.
  intros HL HN0 Hsum (N' & clast & HN0eq & Hclast) Htail Hfuel Hnb0.
  set (N := N0 ++ repeat 0 k) in *.
  assert (HLr : 5 <= L <= 12) by exact HL.
  assert (HN : Forall (fun c => 0 <= c) N).
  { apply Forall_app. split; [exact HN0|]. apply Forall_forall.
    intros x Hx. apply list_elem_of_In, repeat_spec in Hx. lia. }
  assert (HsumN : sum_list N = 2 ^ L).
  { unfold N. rewrite sum_list_app, sum_list_repeat0. lia. }
  assert (Hpow : 32 <= 2 ^ L <= 4096).
  { split; [change 32 with (2 ^ 5) | change 4096 with (2 ^ 12)];
      apply Z.pow_le_mono_r; lia. }
  assert (Hsmall : sum_list N <= 4096) by lia.
  set (ws0 := {| wh_out := []; wh_bitStream := 2 + 4 * (L - 5); wh_bitCount := 6;
                 wh_charnum := 0; wh_remaining := 2 ^ L; wh_threshold := 2 ^ L;
                 wh_nbBits := L + 1; wh_previous0 := false |}).
  assert (Hws0 : winv N ws0).
  { unfold winv, ws0. proj_simpl. split; [constructor|]. split; [lia|].
    split; [change (2 ^ 6) with 64; lia|]. split.
    - unfold hdr_inv. replace (L + 1 - 1) with L by lia. repeat split; lia.
    - split; [lia|]. unfold suffix_sum. change (Z.to_nat 0) with 0%nat.
      rewrite drop_0. lia. }
  destruct (loop_sim N HN Hsmall (S (length N)) ws0 Hws0)
    as (wsf & Hloop & Hwsf & Hrem0 & Hext & Hm & Hread).
  { unfold ws0. proj_simpl. lia. }
  assert (Hchf : wh_charnum wsf = Z.of_nat (length N0)).
  { assert (Hle : wh_charnum wsf <= Z.of_nat (length N0)).
    { apply Hm; [unfold ws0; proj_simpl; lia|].
      unfold suffix_sum, N. rewrite Nat2Z.id, drop_app_length. apply sum_list_repeat0. }
    destruct (Z_lt_le_dec (wh_charnum wsf) (Z.of_nat (length N0))) as [Hlt|]; [|lia].
    exfalso. destruct Hwsf as (_ & _ & _ & _ & Hr & Hs).
    rewrite Hrem0 in Hs. unfold suffix_sum, N in Hs.
    rewrite drop_app_le in Hs by lia. rewrite sum_list_app, sum_list_repeat0 in Hs.
    assert (HN' : Forall (fun c => 0 <= c) N')
      by (rewrite HN0eq in HN0; apply Forall_app in HN0; tauto).
    assert (Hlen' : Z.of_nat (length N0) = Z.of_nat (length N') + 1)
      by (rewrite HN0eq, length_app; cbn [length]; lia).
    pose proof (sum_list_last_positive N' clast (wh_charnum wsf) HN' Hclast ltac:(lia)) as Hp.
    rewrite <- HN0eq in Hp. lia. }
  destruct (winv_wval_bound N wsf Hwsf) as [Hposf Hvalf].
  pose proof Hwsf as (Houtf & Hbcf & Hbsf & Hinvf & _ & _).
  set (outf := wh_out wsf) in *. set (bsf := wh_bitStream wsf) in *.
  set (bcf := wh_bitCount wsf) in *.
  set (j := (bcf + 7) / 8).
  assert (Hj : 0 <= j <= 2 /\ bcf <= 8 * j < bcf + 8).
  { unfold j. pose proof (Z.div_mod (bcf + 7) 8 ltac:(lia)).
    pose proof (Z.mod_pos_bound (bcf + 7) 8 ltac:(lia)). lia. }
  set (size := Z.of_nat (length outf) + j).
  set (image := outf ++ le_bytes 2 (u16 bsf)).
  assert (Hext0 : wpos ws0 = 6 /\ wval ws0 = 2 + 4 * (L - 5)).
  { unfold wpos, wval, bits_val, ws0. proj_simpl. cbn [length le_val]. split; lia. }
  assert (Hsize : 0 < size).
  { destruct Hext as [Hle _]. destruct Hext0 as [Hp0 _]. rewrite Hp0 in Hle.
    unfold wpos in Hle. fold outf bcf in Hle. unfold size. lia. }
  exists size, image. split.
  { unfold FSE_writeHeader.
    rewrite (gtb_false L FSE_MAX_TABLELOG) by apply HL.
    replace (L <? FSE_MIN_TABLELOG) with false by (symmetry; apply Z.ltb_ge, HL).
    rewrite !shiftl_mul by lia. rewrite Z.mul_1_l.
    unfold FSE_MIN_TABLELOG. change (2 ^ 2) with 4. change (2 + 4) with 6.
    rewrite u32_small by lia.
    replace (2 + (L - 5) * 4) with (2 + 4 * (L - 5)) by lia.
    fold N. fold ws0. rewrite Hloop. cbn [mbind option_bind].
    rewrite Hrem0. change (0 <? 0) with false. cbv iota.
    rewrite Hchf, (gtb_false (Z.of_nat (length N0))) by lia.
    reflexivity. }
  split; [exact Hsize|].
  set (mem := take (Z.to_nat size) image ++ tail).
  assert (Hbsf16 : u16 bsf = bsf).
  { apply u16_small. split; [lia|]. eapply Z.lt_le_trans; [apply Hbsf|].
    apply Z.pow_le_mono_r; lia. }
  assert (Htake : take (Z.to_nat size) image = outf ++ le_bytes (Z.to_nat j) bsf).
  { unfold image, size. rewrite take_app_ge by lia. f_equal.
    replace (Z.to_nat (Z.of_nat (length outf) + j) - length outf)%nat with (Z.to_nat j) by lia.
    rewrite Hbsf16. apply take_le_bytes. lia. }
  assert (Hhead : Forall is_byte (take (Z.to_nat size) image)
                  /\ Z.of_nat (length (take (Z.to_nat size) image)) = size
                  /\ le_val (take (Z.to_nat size) image) = wval wsf).
  { rewrite Htake. split; [apply Forall_app; split; [exact Houtf | apply le_bytes_bytes]|].
    split; [rewrite length_app, le_bytes_length; unfold size; lia|].
    rewrite le_val_app, le_val_le_bytes by lia. unfold wval, bits_val. fold outf bsf.
    rewrite Z2Nat.id by lia. rewrite Z.mod_small; [reflexivity|].
    split; [lia|]. eapply Z.lt_le_trans; [apply Hbsf|]. apply Z.pow_le_mono_r; lia. }
  destruct Hhead as (Hhb & Hhl & Hhv).
  split; [exact Hhb|]. split; [exact Hhl|].
  assert (Hmem : Forall is_byte mem) by (apply Forall_app; split; assumption).
  assert (Hfit : wpos wsf <= 8 * size).
  { unfold wpos, size. fold outf bcf. lia. }
  assert (Hsees : sees (le_val mem) wsf).
  { unfold sees, mem. rewrite le_val_app, Hhl, Hhv.
    replace (8 * size) with (wpos wsf + (8 * size - wpos wsf)) by lia.
    rewrite Z.pow_add_r by lia.
    replace (wval wsf + 2 ^ wpos wsf * 2 ^ (8 * size - wpos wsf) * le_val tail)
      with (wval wsf + (2 ^ (8 * size - wpos wsf) * le_val tail) * 2 ^ wpos wsf) by lia.
    rewrite Z_mod_plus_full. apply Z.mod_small. exact Hvalf. }
  assert (Hsees0 : sees (le_val mem) ws0) by (eapply sees_extends; eassumption).
  destruct Hext0 as [Hp0 Hv0]. unfold sees in Hsees0. rewrite Hp0, Hv0 in Hsees0.
  split.
  { change 0 with (Z.of_nat 0) at 1. rewrite (byte_at_val mem Hmem 0).
    change (2 ^ (8 * Z.of_nat 0)) with 1. rewrite Z.div_1_r.
    change 256 with (2 ^ 8). rewrite mod_pow2_mod by lia. exact Hsees0. }
  assert (HtabLog : (le_val mem / 2 ^ 2) mod 2 ^ 4 = L - 5).
  { apply (field_extract (le_val mem) 2 (L - 5) 2 4);
      [lia | lia | change (2 ^ 2) with 4; lia | change (2 ^ 4) with 16; lia |].
    change (2 + 4) with 6. rewrite Hsees0. change (2 ^ 2) with 4. lia. }
  set (rs0 := {| rh_counts := []; rh_ip := 0; rh_bitStream := Z.shiftr (load32 mem 0) 6;
                 rh_bitCount := 6; rh_remaining := 2 ^ L; rh_threshold := 2 ^ L;
                 rh_nbBits := L + 1; rh_previous0 := false |}).
  assert (Hrs0 : rinv mem rs0) by (unfold rinv, rs0; proj_simpl; repeat split; lia).
  assert (Hrel0 : rel N ws0 rs0).
  { unfold rel, rs0, ws0, rpos, wpos. proj_simpl. repeat split; reflexivity. }
  destruct (Hread mem rs0 fuel Hmem Hrs0 Hrel0 Hsees) as (rsf & Hrloop & Hrsf & Hrelf).
  { unfold mem. rewrite length_app. lia. }
  { unfold ws0. proj_simpl. lia. }
  unfold FSE_readHeader. fold mem.
  assert (Hnb : Z.land (Z.shiftr (load32 mem 0) 2) 15 + FSE_MIN_TABLELOG = L).
  { change 15 with (Z.ones 4). rewrite Z.land_ones by lia.
    rewrite load32_val by (try assumption; lia). change (2 ^ (8 * 0)) with 1.
    rewrite Z.div_1_r, window_bits by lia. rewrite HtabLog. unfold FSE_MIN_TABLELOG. lia. }
  rewrite Hnb, Z.shiftr_shiftr by lia. change (2 + 4) with 6.
  rewrite shiftl_mul, Z.mul_1_l by lia. fold rs0. rewrite Hrloop. cbn [mbind option_bind].
  destruct Hrelf as (Rc & Rrem & Rthr & Rnb & Rp0 & Rpos).
  destruct Hrsf as (Hipf & Hrbcf & _).
  rewrite Rrem, Hrem0. change (0 <? 0) with false. cbv iota.
  assert (Hnbf : wh_nbBits wsf = 0).
  { destruct Hinvf as (Hthr & Hnbr & Hle & _). rewrite Hrem0 in Hle.
    destruct (Z_lt_le_dec (wh_nbBits wsf) 1) as [|Hge]; [lia|].
    pose proof (pow2_pos (wh_nbBits wsf - 1) ltac:(lia)). lia. }
  rewrite Rnb, Hnbf. change (0 >? FSE_MAX_TABLELOG) with false. cbv iota.
  rewrite Rc, Hchf. unfold N at 1 2. rewrite Nat2Z.id, take_app_length.
  do 2 f_equal.
  unfold rpos, wpos in Rpos. fold outf bcf in Rpos. unfold size.
  destruct (rh_bitCount rsf >? 0) eqn:E; lia.
Qed.

(** ** Loops that read only the first [nbSymbols] entries *)

Lemma cumul_fill_prefix (n : nat) :
  forall (N X : list Z) (prev : Z),
    (n <= length N)%nat -> cumul_fill n (N ++ X) prev = cumul_fill n N prev.
Proof.
  induction n as [|n IH]; intros N X prev Hn; [reflexivity|].
  destruct N as [|c N]; cbn [length] in Hn; [lia|].
  cbn [cumul_fill app]. rewrite IH by lia. reflexivity.
Qed.

Lemma spread_loop_prefix (N : list Z) :
  forall (X tbl : list Z) (s pos step mask : Z),
    spread_loop (length N) (N ++ X) tbl s pos step mask
    = spread_loop (length N) N tbl s pos step mask.
Proof.
  induction N as [|c N IH]; intros X tbl s pos step mask; [reflexivity|].
  cbn [spread_loop length app]. destruct (spread_symbol _ _ _ _ _ _) as [t p]. apply IH.
Qed.

Lemma ctable_transforms_prefix (N : list Z) :
  forall (X : list Z) (L T total : Z),
    ctable_transforms (length N) (N ++ X) L T total
    = ctable_transforms (length N) N L T total.
Proof.
  induction N as [|c N IH]; intros X L T total; [reflexivity|].
  cbn [ctable_transforms length app]. rewrite !IH. reflexivity.
Qed.

Lemma buildCTable_prefix (N X : list Z) (L : Z) :
  (1 <= length N)%nat ->
  FSE_buildCTable (N ++ X) (Z.of_nat (length N)) L = FSE_buildCTable N (Z.of_nat (length N)) L.
Proof.
  intros Hn. unfold FSE_buildCTable, FSE_spreadSymbols8.
  rewrite cumul_fill_prefix by lia. rewrite Nat2Z.id.
  rewrite spread_loop_prefix, ctable_transforms_prefix. reflexivity.
Qed.

(** ** Counting, as the compressor uses it *)

Lemma sum_list_map_add (f g : nat -> Z) (l : list nat) :
  sum_list (map (fun i => f i + g i) l) = sum_list (map f l) + sum_list (map g l).
Proof. induction l as [|i l IH]; cbn [map sum_list]; lia. Qed.

Lemma sum_list_indicator (x : nat) (n : nat) :
  forall start : nat,
    sum_list (map (fun i => if Z.of_nat x =? Z.of_nat i then 1 else 0) (seq start n))
    = if ((start <=? x) && (x <? start + n))%nat then 1 else 0.
Proof.
  induction n as [|n IH]; intros start.
  - cbn [seq map sum_list]. destruct ((start <=? x)%nat && (x <? start + 0)%nat) eqn:E; lia.
  - cbn [seq map sum_list]. rewrite IH.
    destruct (Z.eqb_spec (Z.of_nat x) (Z.of_nat start)) as [E|E];
      destruct ((S start <=? x)%nat && (x <? S start + n)%nat) eqn:E1;
      destruct ((start <=? x)%nat && (x <? start + S n)%nat) eqn:E2; lia.
Qed.

Lemma sum_freq (src : list Z) (n : nat) :
  Forall (fun b => 0 <= b < Z.of_nat n) src ->
  sum_list (map (fun i => freq src (Z.of_nat i)) (seq 0 n)) = Z.of_nat (length src).
Proof.
  induction 1 as [|x src Hx Hsrc IH].
  - cbn [length]. induction (seq 0 n) as [|i l IHl]; cbn [map sum_list]; [reflexivity|].
    rewrite freq_nil. exact IHl.
  - cbn [length]. rewrite Nat2Z.inj_succ, <- IH.
    rewrite (map_ext (fun i => freq (x :: src) (Z.of_nat i))
               (fun i => (if Z.of_nat (Z.to_nat x) =? Z.of_nat i then 1 else 0)
                         + freq src (Z.of_nat i))).
    + rewrite sum_list_map_add, sum_list_indicator.
      replace ((0 <=? Z.to_nat x)%nat && (Z.to_nat x <? 0 + n)%nat) with true by lia. lia.
    + intros i. rewrite freq_cons, Z2Nat.id by lia. reflexivity.
Qed.

(** [FSE_count] on a non-empty byte buffer with the cap 256. *)
Lemma count_default (source : list Z) :
  Forall (fun b => 0 <= b < 256) source -> source <> [] ->
  Z.of_nat (length source) < 2 ^ 31 ->
  exists n C1,
    FSE_count source FSE_MAX_NB_SYMBOLS_CHAR
    = Some (Z.of_nat (length C1), C1 ++ repeat 0 n)
    /\ (1 <= length C1 <= 256)%nat
    /\ (length C1 + n = 256)%nat
    /\ (forall s, (s < length C1)%nat -> nth s C1 0 = freq source (Z.of_nat s))
    /\ (forall s, Z.of_nat (length C1) <= s -> freq source s = 0)
    /\ 0 < freq source (Z.of_nat (length C1) - 1)
    /\ sum_list C1 = Z.of_nat (length source)
    /\ Forall (fun c => 0 <= c) C1.
Proof.
  intros Hbytes Hne Hlen.
  unfold FSE_count. change (FSE_MAX_NB_SYMBOLS_CHAR >? FSE_MAX_NB_SYMBOLS_CHAR) with false.
  change (FSE_MAX_NB_SYMBOLS_CHAR =? 0) with false. cbv iota.
  replace (Z.of_nat (length source) =? 0) with false
    by (symmetry; apply Z.eqb_neq; destruct source; [congruence | cbn [length]; lia]).
  set (zeros := repeat 0 (Z.to_nat FSE_MAX_NB_SYMBOLS_CHAR)).
  assert (Hz : table_ok zeros (Z.of_nat (length source))) by (apply zeros_table_ok; lia).
  destruct (count_scan_spec (length source) source zeros zeros zeros zeros
              ltac:(lia) Hbytes (conj Hz (conj Hz (conj Hz Hz)))) as [Hok Hat].
  destruct (count_scan source zeros zeros zeros zeros) as [[[c1 c2] c3] c4] eqn:Escan.
  change FSE_MAX_NB_SYMBOLS_CHAR with 256.
  set (C := count_sum c1 c2 c3 c4 256).
  assert (HC : C = map (fun i => freq source (Z.of_nat i)) (seq 0 256)).
  { unfold C, count_sum. apply map_ext. intros i.
    pose proof (Hat i) as Hi. cbn [tables_at] in Hi. unfold zeros in Hi.
    rewrite !nth_repeat in Hi. rewrite Hi.
    pose proof (freq_bounds source (Z.of_nat i)). apply u32_small. lia. }
  assert (Hval : forall s, 0 <= s < 256 -> rd C s = Some (freq source s)).
  { intros s Hs. unfold rd. destruct (s <? 0) eqn:E; [lia|]. rewrite HC.
    rewrite list_lookup_fmap, lookup_seq_lt by lia. cbn. rewrite Z2Nat.id by lia. reflexivity. }
  assert (Hbeyond : forall s, 256 <= s -> freq source s = 0).
  { intros s Hs. unfold freq.
    rewrite (proj1 (count_occ_not_In Z.eq_dec source s)); [reflexivity|].
    intros Hin. rewrite Forall_forall in Hbytes. apply list_elem_of_In in Hin.
    specialize (Hbytes s Hin). lia. }
  destruct (count_trim_spec 257 C 256) as (n & c & Htrim & Hn & Hrn & Hcn & Hzero).
  { lia. }
  { unfold C. rewrite count_sum_length. lia. }
  { destruct source as [|b src]; [congruence|].
    inversion Hbytes as [|? ? Hb _]; subst.
    exists b, (freq (b :: src) b). split; [lia|]. split; [apply Hval; lia|].
    rewrite freq_cons, Z.eqb_refl. pose proof (freq_bounds src b). lia. }
  change (S (Z.to_nat 256)) with 257%nat. rewrite Htrim. cbn [mbind option_bind].
  assert (HlenC : length C = 256%nat) by (unfold C; rewrite count_sum_length; reflexivity).
  assert (Hsplit : C = take (Z.to_nat n) C ++ repeat 0 (256 - Z.to_nat n)).
  { rewrite <- (take_drop (Z.to_nat n) C) at 1. f_equal.
    apply nth_ext with (d := 0) (d' := 0).
    - rewrite length_drop, repeat_length. lia.
    - intros i Hi. rewrite length_drop in Hi. rewrite nth_repeat.
      rewrite !nth_lookup, lookup_drop.
      specialize (Hzero (Z.of_nat (Z.to_nat n + i)) ltac:(lia)).
      unfold rd in Hzero. destruct (_ <? 0) eqn:E; [lia|]. rewrite Nat2Z.id in Hzero.
      rewrite Hzero. reflexivity. }
  exists (256 - Z.to_nat n)%nat, (take (Z.to_nat n) C).
  assert (Hl1 : length (take (Z.to_nat n) C) = Z.to_nat n) by (rewrite length_take; lia).
  rewrite Hl1, Z2Nat.id by lia. rewrite <- Hsplit.
  split; [reflexivity|]. split; [lia|]. split; [lia|].
  assert (Hnth : forall s, (s < Z.to_nat n)%nat ->
                           nth s (take (Z.to_nat n) C) 0 = freq source (Z.of_nat s)).
  { intros s Hs. rewrite nth_lookup, lookup_take_lt by lia.
    pose proof (Hval (Z.of_nat s) ltac:(lia)) as Hv. unfold rd in Hv.
    destruct (_ <? 0) eqn:E; [lia|]. rewrite Nat2Z.id in Hv. rewrite Hv. reflexivity. }
  assert (Hz0 : forall s, n <= s -> freq source s = 0).
  { intros s Hs. destruct (Z_lt_le_dec s 256) as [Hlt|Hge]; [|apply Hbeyond; exact Hge].
    specialize (Hzero s ltac:(lia)). rewrite Hval in Hzero by lia. congruence. }
  split; [exact Hnth|]. split; [exact Hz0|]. split; [|split].
  - rewrite Hval in Hrn by lia. inversion Hrn; subst c.
    pose proof (freq_bounds source (n - 1)). lia.
  - rewrite <- (sum_freq source 256) by exact Hbytes. rewrite <- HC.
    rewrite Hsplit at 2. rewrite sum_list_app, sum_list_repeat0. lia.
  - apply Forall_forall. intros x Hx. apply list_elem_of_In in Hx.
    apply (In_nth _ _ 0) in Hx. destruct Hx as (i & Hi & <-). rewrite Hl1 in Hi.
    rewrite Hnth by exact Hi. apply freq_bounds.
Qed.

(** ** Raw and single-symbol frames *)

Lemma uniform_source (source : list Z) (s : Z) :
  freq source s = Z.of_nat (length source) -> source = repeat s (length source).
Proof.
  induction source as [|x src IH]; intros H; [reflexivity|].
  rewrite freq_cons in H. cbn [length] in *. pose proof (freq_bounds src s) as Hb.
  destruct (Z.eqb_spec x s) as [->|Hne]; [|lia].
  cbn [repeat]. f_equal. apply IH. lia.
Qed.

Lemma store_front (buf bs : list Z) : take (length bs) (store buf 0 bs) = bs.
Proof.
  unfold store. change (Z.to_nat 0) with 0%nat. rewrite take_0, app_nil_l.
  rewrite take_app_length. reflexivity.
Qed.

Lemma store_append (buf bs : list Z) (op : Z) (p : nat) :
  0 <= op <= Z.of_nat (length buf) -> (p <= length bs)%nat ->
  take (Z.to_nat op + p) (store buf op bs) = take (Z.to_nat op) buf ++ take p bs.
Proof.
  intros Hop Hp. rewrite store_inside by lia.
  rewrite take_app_ge by (rewrite length_take; lia). rewrite length_take.
  replace (Z.to_nat op + p - Z.to_nat op `min` length buf)%nat with p by lia.
  f_equal. rewrite take_app_le by lia. reflexivity.
Qed.

Lemma decode_raw (src tail : list Z) :
  map (fun i => byte_at ((0 :: src) ++ tail) (1 + Z.of_nat i)) (seq 0 (length src)) = src.
Proof.
  apply nth_ext with (d := 0) (d' := 0); [rewrite length_map, length_seq; reflexivity|].
  intros i Hi. rewrite length_map, length_seq in Hi.
  rewrite (nth_indep (map _ _) 0 (byte_at ((0 :: src) ++ tail) (1 + Z.of_nat 0)))
    by (rewrite length_map, length_seq; exact Hi).
  rewrite (map_nth (fun i => byte_at ((0 :: src) ++ tail) (1 + Z.of_nat i))), seq_nth by exact Hi.
  cbn [Nat.add]. unfold byte_at. destruct (1 + Z.of_nat i <? 0) eqn:E; [lia|].
  replace (Z.to_nat (1 + Z.of_nat i)) with (S i) by lia. cbn [app nth].
  apply app_nth1. exact Hi.
Qed.

Lemma decompress_raw_frame (fuel : nat) (src tail : list Z) (maxC : Z) (safe : bool) :
  (safe = true -> 2 <= maxC) ->
  FSE_decompress_generic fuel (Z.of_nat (length src)) ((0 :: src) ++ tail) maxC safe
  = Some (Z.of_nat (length src) + 1, src).
Proof.
  intros Hsafe. unfold FSE_decompress_generic.
  replace (safe && (maxC <? 2)) with false
    by (destruct safe; cbn [andb]; [specialize (Hsafe eq_refl); lia | reflexivity]).
  change (byte_at ((0 :: src) ++ tail) 0) with 0. change (0 =? 0) with true. cbv iota.
  unfold FSE_decompressRaw. rewrite Nat2Z.id, decode_raw. reflexivity.
Qed.

Lemma decompress_single_frame (fuel : nat) (b size : Z) (tail : list Z) (maxC : Z) (safe : bool) :
  (safe = true -> 2 <= maxC) ->
  FSE_decompress_generic fuel size ([1; b] ++ tail) maxC safe
  = Some (2, repeat b (Z.to_nat size)).
Proof.
  intros Hsafe. unfold FSE_decompress_generic.
  replace (safe && (maxC <? 2)) with false
    by (destruct safe; cbn [andb]; [specialize (Hsafe eq_refl); lia | reflexivity]).
  change (byte_at ([1; b] ++ tail) 0) with 1. change (1 =? 0) with false.
  change (1 =? 1) with true. cbv iota. reflexivity.
Qed.



(** ** The whole codec on inputs of at most 4096 bytes *)

Lemma weights_of_counts (C1 N : list Z) :
  Forall (fun c => 0 <= c) C1 ->
  Forall2 (fun c n => (c = 0 -> n = 0) /\ (0 < c -> 1 <= n)) C1 N ->
  Forall (fun c => 0 <= c) N
  /\ forall s, (s < length C1)%nat -> 0 < nth s C1 0 -> 0 < nth s N 0.
Proof.
  intros HC H. induction H as [|c n C1 N [Hz Hp] H IH].
  - split; [constructor|]. intros s Hs. cbn [length] in Hs. lia.
  - inversion HC as [|? ? Hc HC']; subst. destruct (IH HC') as [IH1 IH2]. split.
    + constructor; [|exact IH1]. destruct (Z.eq_dec c 0) as [E|E]; [rewrite Hz by exact E; lia|].
      specialize (Hp ltac:(lia)). lia.
    + intros [|s] Hs Hpos; cbn [nth length] in *; [specialize (Hp Hpos); lia|].
      apply IH2; [lia | exact Hpos].
Qed.

Lemma freq_positive (source : list Z) (x : Z) : x ∈ source -> 0 < freq source x.
Proof.
  intros Hin. apply list_elem_of_In in Hin. unfold freq.
  apply (count_occ_In Z.eq_dec) in Hin. lia.
Qed.

Lemma last_entry (N : list Z) :
  (1 <= length N)%nat -> N = removelast N ++ [nth (length N - 1) N 0].
Proof.
  intros H. destruct N as [|x N] using rev_ind; [cbn [length] in H; lia|].
  rewrite removelast_last, length_app. cbn [length].
  replace (length N + 1 - 1)%nat with (length N) by lia.
  rewrite app_nth2, Nat.sub_diag by lia. reflexivity.
Qed.

Lemma compress_small (fuel fuel' : nat) (source : list Z) :
  Forall is_byte source -> Z.of_nat (length source) <= 4096 -> (256 < fuel')%nat ->
  exists n image,
    FSE_compress fuel source = Some (n, image)
    /\ 1 <= n <= Z.of_nat (length source) + 1
    /\ forall (tail : list Z) (maxC : Z) (safe : bool),
         Forall is_byte tail -> (safe = true -> n <= maxC /\ 2 <= maxC) ->
         FSE_decompress_generic fuel' (Z.of_nat (length source))
           (take (Z.to_nat n) image ++ tail) maxC safe
         = Some (n, source).
Proof.
  intros Hbytes Hsize Hfuel. set (size := Z.of_nat (length source)) in *.
  assert (Hraw : forall dest,
            exists n image, Some (FSE_noCompression dest source size) = Some (n, image)
              /\ 1 <= n <= size + 1
              /\ forall (tail : list Z) (maxC : Z) (safe : bool),
                   Forall is_byte tail -> (safe = true -> n <= maxC /\ 2 <= maxC) ->
                   FSE_decompress_generic fuel' size (take (Z.to_nat n) image ++ tail) maxC safe
                   = Some (n, source)).
  { intros dest. unfold FSE_noCompression. eexists _, _. split; [reflexivity|].
    split; [unfold size; lia|]. intros tail maxC safe _ Hsafe.
    replace (Z.to_nat (size + 1)) with (length (0 :: source)) by (cbn [length]; lia).
    rewrite store_front. apply decompress_raw_frame.
    intros E. apply Hsafe. exact E. }
  assert (Hsingle : forall b, 2 <= size -> source = repeat b (length source) ->
            exists n image, Some (FSE_writeSingleChar [] (byte_at source 0)) = Some (n, image)
              /\ 1 <= n <= size + 1
              /\ forall (tail : list Z) (maxC : Z) (safe : bool),
                   Forall is_byte tail -> (safe = true -> n <= maxC /\ 2 <= maxC) ->
                   FSE_decompress_generic fuel' size (take (Z.to_nat n) image ++ tail) maxC safe
                   = Some (n, source)).
  { intros b Hs2 Huni. unfold FSE_writeSingleChar. eexists _, _. split; [reflexivity|].
    split; [lia|]. intros tail maxC safe _ Hsafe.
    assert (Hb0 : byte_at source 0 = b).
    { rewrite Huni. destruct (length source) as [|m] eqn:E; [unfold size in Hs2; lia|].
      reflexivity. }
    rewrite Hb0. change (Z.to_nat 2) with (length [1; b]). rewrite store_front.
    rewrite decompress_single_frame by (intros E; apply Hsafe; exact E).
    unfold size. rewrite Nat2Z.id, <- Huni. reflexivity. }
  unfold FSE_compress, FSE_compress2. fold size.
  destruct (size <=? 1) eqn:Esize; [apply Hraw|].
  change (FSE_MAX_NB_SYMBOLS_CHAR =? 0) with false. change (FSE_MAX_TABLELOG =? 0) with false.
  cbv iota.
  assert (Hne : source <> []) by (destruct source; [cbn in Esize; discriminate | discriminate]).
  destruct (count_default source Hbytes Hne ltac:(fold size; lia))
    as (nz & C1 & Hcount & HlenC & Hlenz & HC1 & Hzero & Hlastpos & HsumC & HnnC).
  rewrite Hcount. cbn [mbind option_bind].
  remember (Z.of_nat (length C1)) as n eqn:Hn.
  destruct (Z.eqb_spec n (-1)) as [?|_]; [lia|].
  destruct (Z.eqb_spec n 1) as [En1|Hn1].
  { apply (Hsingle 0); [lia|]. apply uniform_source.
    destruct C1 as [|c [|c' C1]]; cbn [length] in *; try lia.
    cbn [sum_list] in HsumC. pose proof (HC1 0%nat ltac:(lia)) as H0. cbn [nth] in H0.
    change (Z.of_nat 0) with 0 in H0. rewrite <- H0. unfold size in HsumC. lia. }
  destruct (default_tableLog_covers_total size n ltac:(lia) ltac:(lia)) as (Hcov & HLmax & HnT).
  pose proof (norm_tableLog_ge_min FSE_MAX_TABLELOG size n) as HLmin.
  remember (norm_tableLog FSE_MAX_TABLELOG size n) as L eqn:HeqL.
  destruct (normalizeCount_small fuel FSE_MAX_TABLELOG C1 (repeat 0 nz) size HnnC)
    as (r & N & Hnorm & HlenN & Hcases);
    [exact HsumC | rewrite <- Hn, <- HeqL; lia | rewrite <- Hn, <- HeqL; exact HLmax |].
  rewrite <- Hn in Hnorm, Hcases. rewrite <- HeqL in Hcases.
  rewrite Hnorm. cbn [mbind option_bind].
  destruct Hcases as [[-> Hex]|(-> & Hnex & HsumN & Hall)].
  { change (0 =? -1) with false. change (0 =? 0) with true. cbv iota.
    apply Exists_exists in Hex. destruct Hex as (c & Hin & Hc).
    apply list_elem_of_In in Hin. apply (In_nth _ _ 0) in Hin. destruct Hin as (s & Hs & Hnth).
    apply (Hsingle (Z.of_nat s)); [lia|]. apply uniform_source.
    rewrite <- HC1 by exact Hs. rewrite Hnth, Hc. reflexivity. }
  assert (HLr : FSE_MIN_TABLELOG <= L <= FSE_MAX_TABLELOG) by lia.
  destruct (Z.eqb_spec L (-1)) as [?|_]; [unfold FSE_MIN_TABLELOG in *; lia|].
  destruct (Z.eqb_spec L 0) as [?|_]; [unfold FSE_MIN_TABLELOG in *; lia|].
  destruct (weights_of_counts C1 N HnnC Hall) as [HnnN HposN].
  assert (HN : normalized N L).
  { unfold normalized. split; [exact HLr|]. split; [lia|]. split; assumption. }
  assert (Hcoded : Forall (coded N) source).
  { apply Forall_forall. intros x Hx. pose proof (freq_positive source x Hx) as Hf.
    rewrite Forall_forall in Hbytes. pose proof (Hbytes x Hx) as Hxb. unfold is_byte in Hxb.
    assert (Hxn : x < n).
    { destruct (Z_lt_le_dec x n) as [|Hge]; [assumption|]. rewrite (Hzero x Hge) in Hf. lia. }
    unfold coded. rewrite HlenN, <- Hn. split; [lia|].
    apply HposN; [lia|]. rewrite HC1 by lia. rewrite Z2Nat.id by lia. exact Hf. }
  (* the header *)
  assert (Hlast : exists N' c, N = N' ++ [c] /\ 0 < c).
  { exists (removelast N), (nth (length N - 1) N 0). split; [apply last_entry; lia|].
    apply HposN; [lia|]. rewrite HlenN, HC1 by lia.
    replace (Z.of_nat (length C1 - 1)) with (n - 1) by lia. exact Hlastpos. }
  (* the stream *)
  destruct (buildCTable_cells N L HN) as (ct & Hct & _).
  destruct (buildDTable_entries N L HN) as (dt & Hdt & _).
  assert (Hsrc : exists last b rsrc, source = rev rsrc ++ [b; last]).
  { rewrite <- (rev_involutive source). assert (Hl := length_rev source).
    destruct (rev source) as [|last [|b rsrc]]; cbn [length] in Hl; unfold size in Esize; try lia.
    exists last, b, rsrc. cbn [rev]. rewrite <- app_assoc. reflexivity. }
  destruct Hsrc as (last & b & rsrc & Esrc).
  assert (Hsz : size = Z.of_nat (length rsrc) + 2).
  { unfold size. rewrite Esrc, length_app, length_rev. cbn [length]. lia. }
  assert (Hcoded' : Forall (coded N) (last :: b :: rsrc)).
  { rewrite Esrc in Hcoded. apply Forall_app in Hcoded. destruct Hcoded as [Hr Hbl].
    inversion Hbl as [|? ? Hb Hl']; subst. inversion Hl' as [|? ? Hl _]; subst.
    constructor; [exact Hl|]. constructor; [exact Hb|].
    apply Forall_rev in Hr. rewrite rev_involutive in Hr. exact Hr. }
  destruct (stream_codec N L ct dt HN Hct Hdt last b rsrc Hcoded')
    as (p & stream & Hcomp & Hp & Hsbytes & Hslen & Hdec).
  { rewrite HlenN, <- Hn. exact HnT. }
  { lia. }
  rewrite <- Esrc in Hcomp, Hdec. rewrite <- Hsz in Hdec.
  assert (HnN : n = Z.of_nat (length N)) by lia.
  rewrite HnN.
  assert (Hwrite : forall tail', Forall is_byte tail' ->
            exists hsize himage,
              FSE_writeHeader (N ++ repeat 0 nz) (Z.of_nat (length N)) L = Some (hsize, himage)
              /\ 0 < hsize
              /\ Forall is_byte (take (Z.to_nat hsize) himage)
              /\ Z.of_nat (length (take (Z.to_nat hsize) himage)) = hsize
              /\ byte_at (take (Z.to_nat hsize) himage ++ tail') 0 mod 2 ^ 6 = 2 + 4 * (L - 5)
              /\ FSE_readHeader fuel' (take (Z.to_nat hsize) himage ++ tail')
                 = Some {| rh_ret := hsize; rh_normalizedCounter := N;
                           rh_nbSymbols := Z.of_nat (length N); rh_tableLog := L |}).
  { intros tail' Htail'. apply header_codec; try assumption; try lia.
    rewrite length_app, repeat_length. lia. }
  destruct (Hwrite [] ltac:(constructor)) as (hsize & himage & Hwh & Hhs & _ & Hhl & _).
  rewrite Hwh. cbn [mbind option_bind].
  destruct (Z.eqb_spec hsize (-1)) as [?|_]; [lia|].
  rewrite buildCTable_prefix by lia. rewrite Hct. cbn [mbind option_bind].
  rewrite Hcomp. cbn [mbind option_bind].
  destruct (hsize + p >=? size - 1) eqn:Ebig; [apply Hraw|].
  exists (hsize + p), (store himage hsize stream). split; [reflexivity|]. split; [lia|].
  intros tail maxC safe Htail Hsafe.
  assert (Hframe : take (Z.to_nat (hsize + p)) (store himage hsize stream)
                   = take (Z.to_nat hsize) himage ++ take (Z.to_nat p) stream).
  { replace (Z.to_nat (hsize + p)) with (Z.to_nat hsize + Z.to_nat p)%nat by lia.
    apply store_append.
    - rewrite length_take in Hhl. lia.
    - rewrite length_take in Hslen. lia. }
  rewrite Hframe, <- app_assoc.
  assert (Htail' : Forall is_byte (take (Z.to_nat p) stream ++ tail))
    by (apply Forall_app; split; assumption).
  destruct (Hwrite _ Htail') as (hsize' & himage' & Hwh' & _ & Hhb & _ & Hb0 & Hrh).
  assert (hsize' = hsize /\ himage' = himage) as [-> ->] by (split; congruence).
  set (mem := take (Z.to_nat hsize) himage ++ take (Z.to_nat p) stream ++ tail) in *.
  unfold FSE_decompress_generic.
  replace (safe && (maxC <? 2)) with false
    by (destruct safe; cbn [andb]; [destruct (Hsafe eq_refl); lia | reflexivity]).
  assert (Hb0' : byte_at mem 0 mod 4 = 2).
  { change 4 with (2 ^ 2). rewrite <- (mod_pow2_mod _ 6 2) by lia. rewrite Hb0.
    unfold FSE_MIN_TABLELOG in HLr. change (2 ^ 2) with 4.
    replace (2 + 4 * (L - 5)) with (2 + (L - 5) * 4) by lia. rewrite Z_mod_plus_full. reflexivity. }
  destruct (Z.eqb_spec (byte_at mem 0) 0) as [E0|_]; [rewrite E0 in Hb0'; discriminate|].
  destruct (Z.eqb_spec (byte_at mem 0) 1) as [E1|_]; [rewrite E1 in Hb0'; discriminate|].
  change 3 with (Z.ones 2). rewrite Z.land_ones by lia. change (2 ^ 2) with 4.
  rewrite Hb0'. change (negb (2 =? 2)) with false. cbv iota.
  rewrite Hrh. cbn [mbind option_bind rh_ret rh_normalizedCounter rh_nbSymbols rh_tableLog].
  destruct (Z.eqb_spec hsize (-1)) as [?|_]; [lia|].
  rewrite Hdt. cbn [mbind option_bind].
  assert (Hrun : FSE_decompress_usingDTable_generic size mem hsize maxC dt L safe
                 = Some (p, source)).
  { rewrite <- Hhl at 1. apply Hdec; try assumption.
    intros E. destruct (Hsafe E). lia. }
  unfold FSE_decompress_usingDTable_safe, FSE_decompress_usingDTable.
  destruct safe.
  - rewrite Hrun. cbn [mbind option_bind].
    destruct (Z.eqb_spec p (-1)) as [?|_]; [lia|]. reflexivity.
  - assert (Hrun0 : FSE_decompress_usingDTable_generic size mem hsize 0 dt L false
                    = Some (p, source)).
    { rewrite <- Hhl at 1. apply Hdec; try assumption. discriminate. }
    rewrite Hrun0. cbn [mbind option_bind].
    destruct (Z.eqb_spec p (-1)) as [?|_]; [lia|]. reflexivity.
Qed.

(** X8.  Round trip of the whole codec on inputs of at most 4096 bytes.
    [FSE_compress] returns for every such input, with any fuel: a frame of
    [1 <= n <= length + 1] bytes.  [FSE_decompress], given the original
    length and those [n] bytes followed by anything, returns [n] and
    restores the input; so does [FSE_decompress_safe] when it is allowed
    at least [n] and at least 2 bytes.  (The reader of the header needs
    fuel for its at most 256 rounds.) *)
Theorem compress_decompress_round_trip :
  forall (fuel fuel' : nat) (source : list Z),
    Forall is_byte source -> Z.of_nat (length source) <= 4096 -> (256 < fuel')%nat ->
    exists n image,
      FSE_compress fuel source = Some (n, image)
      /\ 1 <= n <= Z.of_nat (length source) + 1
      /\ forall tail : list Z,
           Forall is_byte tail ->
           FSE_decompress fuel' (Z.of_nat (length source)) (take (Z.to_nat n) image ++ tail)
           = Some (n, source)
           /\ forall maxCompressedSize,
                n <= maxCompressedSize -> 2 <= maxCompressedSize ->
                FSE_decompress_safe fuel' (Z.of_nat (length source))
                  (take (Z.to_nat n) image ++ tail) maxCompressedSize
                = Some (n, source).
Proof.
  intros fuel fuel' source Hbytes Hsize Hfuel.
  destruct (compress_small fuel fuel' source Hbytes Hsize Hfuel) as (n & image & Hc & Hn & Hd).
  exists n, image. split; [exact Hc|]. split; [exact Hn|].
  intros tail Htail. split.
  - unfold FSE_decompress. apply Hd; [exact Htail | discriminate].
  - intros maxC H1 H2. unfold FSE_decompress_safe. apply Hd; [exact Htail | auto].
Qed.

Lemma compress_decompress_round_trip_witness :
  exists n image,
    FSE_compress 0 [3; 1; 3; 3; 0; 3; 1; 3; 3; 3; 3; 3; 3; 3; 3; 3; 3; 3; 3; 3; 3; 3; 3; 3] = Some (n, image)
    /\ FSE_decompress 257 24 (take (Z.to_nat n) image ++ [42])
       = Some (n, [3; 1; 3; 3; 0; 3; 1; 3; 3; 3; 3; 3; 3; 3; 3; 3; 3; 3; 3; 3; 3; 3; 3; 3]).
Proof.
  destruct (compress_decompress_round_trip 0 257
              [3; 1; 3; 3; 0; 3; 1; 3; 3; 3; 3; 3; 3; 3; 3; 3; 3; 3; 3; 3; 3; 3; 3; 3])
    as (n & image & Hc & _ & Hd).
  - repeat constructor; unfold is_byte; lia.
  - simpl. lia.
  - lia.
  - exists n, image. split; [exact Hc|]. apply (Hd [42]). repeat constructor; unfold is_byte; lia.
Defined.

(** X9.  Layout of the first header byte.  For a normalized table whose
    last counted entry is positive, [FSE_writeHeader] succeeds with a
    positive size for every [nbSymbols] that covers the table, and the six
    low bits of the first byte are the mode [2] (bits 0-1) and
    [tableLog - 5] (bits 2-5): a normal frame never starts with the byte 0
    of a raw frame or the byte 1 of a single-symbol frame. *)
Theorem header_first_byte :
  forall (N0 : list Z) (k : nat) (L nbSymbols : Z),
    FSE_MIN_TABLELOG <= L <= FSE_MAX_TABLELOG ->
    Forall (fun c => 0 <= c) N0 ->
    sum_list N0 = 2 ^ L ->
    (exists N' c, N0 = N' ++ [c] /\ 0 < c) ->
    Z.of_nat (length N0) <= nbSymbols ->
    exists size image,
      FSE_writeHeader (N0 ++ repeat 0 k) nbSymbols L = Some (size, image)
      /\ 0 < size <= Z.of_nat (length image)
      /\ Forall is_byte (take (Z.to_nat size) image)
      /\ byte_at image 0 mod 4 = 2
      /\ (byte_at image 0 / 4) mod 16 = L - 5.
Proof.
  intros N0 k L nbSymbols HL HN0 Hsum Hlast Hnb.
  destruct (header_codec N0 k L nbSymbols [] (S (length (N0 ++ repeat 0 k))) HL HN0 Hsum Hlast)
    as (size & image & Hw & Hs & Hb & Hl & Hb0 & _); [constructor | lia | exact Hnb |].
  exists size, image. split; [exact Hw|].
  assert (Hlen : size <= Z.of_nat (length image)) by (rewrite length_take in Hl; lia).
  split; [lia|]. split; [exact Hb|].
  rewrite app_nil_r in Hb0.
  assert (E : byte_at (take (Z.to_nat size) image) 0 = byte_at image 0).
  { unfold byte_at. cbn. destruct image as [|x image]; [cbn [length] in Hlen; lia|].
    destruct (Z.to_nat size) as [|m] eqn:Em; [lia|]. reflexivity. }
  rewrite E in Hb0. unfold FSE_MIN_TABLELOG, FSE_MAX_TABLELOG, FSE_MEMORY_USAGE in HL.
  change (2 ^ 6) with 64 in Hb0.
  pose proof (Z.div_mod (byte_at image 0) 64 ltac:(lia)) as Hdm. rewrite Hb0 in Hdm.
  split.
  - rewrite Hdm. symmetry.
    apply Z.mod_unique with (q := 16 * (byte_at image 0 / 64) + (L - 5)); lia.
  - assert (Hq : byte_at image 0 / 4 = 16 * (byte_at image 0 / 64) + (L - 5)).
    { rewrite Hdm at 1. symmetry.
      apply Z.div_unique with (r := 2); lia. }
    rewrite Hq. symmetry. apply Z.mod_unique with (q := byte_at image 0 / 64); lia.
Qed.

Lemma header_first_byte_witness :
  exists size image,
    FSE_writeHeader ([10; 0; 22] ++ repeat 0 2) 3 5 = Some (size, image)
    /\ 0 < size <= Z.of_nat (length image)
    /\ Forall is_byte (take (Z.to_nat size) image)
    /\ byte_at image 0 mod 4 = 2
    /\ (byte_at image 0 / 4) mod 16 = 0.
Proof.
  apply (header_first_byte [10; 0; 22] 2 5 3).
  - unfold FSE_MIN_TABLELOG, FSE_MAX_TABLELOG, FSE_MEMORY_USAGE. lia.
  - repeat constructor; lia.
  - reflexivity.
  - exists [10; 0], 22. split; [reflexivity | lia].
  - simpl. lia.
Defined.

Lemma hdr_halve_wide (fuel : nat) :
  forall remaining threshold nbBits : Z,
    0 <= remaining ->
    threshold = 2 ^ (nbBits - 1) -> 0 <= nbBits <= 32 ->
    remaining < 2 * threshold \/ remaining = 0 ->
    (Z.to_nat nbBits < fuel)%nat ->
    exists threshold' nbBits',
      hdr_halve fuel remaining threshold nbBits = Some (threshold', nbBits')
      /\ threshold' = 2 ^ (nbBits' - 1) /\ 0 <= nbBits' <= nbBits
      /\ (0 < remaining -> threshold' <= remaining < 2 * threshold' /\ 1 <= nbBits')
      /\ (remaining = 0 -> nbBits' = 0).
Proof.
  induction fuel as [|fuel IH]; intros remaining threshold nbBits Hrem Hthr Hnb Hlt Hfuel; [lia|].
  cbn [hdr_halve]. destruct (remaining <? threshold) eqn:E.
  - assert (Hnb1 : 1 <= nbBits).
    { destruct (Z_lt_le_dec nbBits 1) as [Hn|]; [|assumption].
      rewrite Z.pow_neg_r in Hthr by lia. lia. }
    destruct (IH remaining (Z.shiftr threshold 1) (nbBits - 1)) as (t' & n' & Hrun & Ht & Hn & Hp & Hz);
      try lia.
    + rewrite Hthr. apply pow2_pred_halve. exact Hnb1.
    + rewrite Hthr, pow2_pred_halve by exact Hnb1.
      destruct (Z.eq_dec nbBits 1) as [->|Hne]; [simpl in Hthr; lia|].
      replace (2 * 2 ^ (nbBits - 1 - 1)) with (2 ^ (nbBits - 1)); [lia|].
      replace (nbBits - 1) with (1 + (nbBits - 1 - 1)) at 1 by lia.
      rewrite Z.pow_add_r by lia. reflexivity.
    + exists t', n'. split; [exact Hrun|]. split; [exact Ht|]. split; [lia|]. auto.
  - exists threshold, nbBits. split; [reflexivity|]. split; [exact Hthr|]. split; [lia|]. split.
    + intros Hpos. split; [lia|].
      destruct (Z_lt_le_dec nbBits 1) as [Hn|]; [|assumption].
      rewrite Z.pow_neg_r in Hthr by lia. lia.
    + intros ->. destruct (Z_lt_le_dec nbBits 1) as [Hn|Hn]; [lia|].
      pose proof (pow2_pos (nbBits - 1)). lia.
Qed.

Lemma rh_run24_mono (fuel : nat) :
  forall (mem : list Z) (n0 ip bs bc n0' ip' bs' : Z),
    rh_run24 fuel mem n0 ip bs bc = Some (n0', ip', bs') -> n0 <= n0' /\ ip <= ip'.
Proof.
  induction fuel as [|fuel IH]; intros mem n0 ip bs bc n0' ip' bs' H; [discriminate|].
  cbn [rh_run24] in H. destruct (Z.land bs 65535 =? 65535).
  - apply IH in H. lia.
  - inversion H; subst. lia.
Qed.

Lemma rh_run3_mono (fuel : nat) :
  forall n0 bs bc : Z,
    n0 <= (rh_run3 fuel n0 bs bc).1.1 /\ bc <= (rh_run3 fuel n0 bs bc).2.
Proof.
  induction fuel as [|fuel IH]; intros n0 bs bc; cbn [rh_run3]; [cbn; lia|].
  destruct (Z.land bs 3 =? 3); [|cbn; lia].
  specialize (IH (n0 + 3) (Z.shiftr bs 2) (bc + 2)). lia.
Qed.

Lemma refill_geq (ip bc : Z) :
  0 <= ip -> 0 <= bc ->
  0 <= ip + Z.shiftr bc 3 /\ 0 <= Z.land bc 7
  /\ 8 * (ip + Z.shiftr bc 3) + Z.land bc 7 = 8 * ip + bc.
Proof.
  intros Hip Hbc. destruct (refill_pos ip bc Hbc) as (H1 & H2 & H3). lia.
Qed.

Lemma rh_zero_run_inv (L : Z) (mem : list Z) (st st' : rh_state) :
  rh_inv L st -> rh_zero_run mem st = Some st' -> rh_inv L st'.
Proof.
  intros (Hip & Hbc & Hpos & Hnn & Hrem & Hnb & Hthr & Hwin) H.
  unfold rh_zero_run in H. apply bind_Some in H. destruct H as ([[n0 ip] bs] & Hrun & H).
  apply rh_run24_mono in Hrun. destruct Hrun as [Hn0 Hip'].
  pose proof (rh_run3_mono 16 n0 bs (rh_bitCount st)) as [Hm1 Hm2].
  destruct (rh_run3 16 n0 bs (rh_bitCount st)) as [[n1 bs1] bc1]. cbn [fst snd] in Hm1, Hm2.
  inversion H; subst; clear H. unfold rh_inv. proj_simpl.
  destruct (refill_geq ip (bc1 + 2) ltac:(lia) ltac:(lia)) as (R1 & R2 & R3).
  split; [exact R1|]. split; [exact R2|]. split; [lia|]. split.
  - apply Forall_app. split; [exact Hnn|]. apply Forall_forall. intros x Hx.
    apply list_elem_of_In, repeat_spec in Hx. lia.
  - rewrite sum_list_app, sum_list_repeat0. repeat split; try lia; assumption.
Qed.

Lemma rh_count_inv (L : Z) (mem : list Z) (st : rh_state) :
  rh_inv L st ->
  exists st', rh_count mem st = Some st' /\ (rh_inv L st' \/ rh_done L st').
Proof.
  intros (Hip & Hbc & Hpos & Hnn & Hrem & Hnb & Hthr & Hwin).
  unfold rh_count.
  set (thr := rh_threshold st) in *. set (rem := rh_remaining st) in *.
  set (nb := rh_nbBits st) in *.
  assert (Hthr1 : 1 <= thr) by (rewrite Hthr; pose proof (pow2_pos (nb - 1) ltac:(lia)); lia).
  assert (Hthr2 : thr <= 2 ^ 20) by (rewrite Hthr; apply Z.pow_le_mono_r; lia).
  assert (H2thr : 2 * thr = 2 ^ nb).
  { rewrite Hthr. replace nb with (1 + (nb - 1)) at 2 by lia. rewrite Z.pow_add_r by lia. lia. }
  rewrite (u32_small (2 * thr - 1 - rem)) by lia.
  set (max := 2 * thr - 1 - rem).
  assert (Hlow : 0 <= Z.land (rh_bitStream st) (thr - 1) < thr).
  { rewrite Hthr, land_pow2_pred by lia. apply Z.mod_pos_bound. lia. }
  assert (Hfull : 0 <= Z.land (rh_bitStream st) (2 * thr - 1) < 2 * thr).
  { rewrite H2thr, land_pow2_pred by lia. rewrite <- H2thr. apply Z.mod_pos_bound. lia. }
  (* the decoded count and the bits it takes *)
  assert (Hcount : exists count bitCount,
             (if Z.land (rh_bitStream st) (thr - 1) <? max
              then (Z.land (rh_bitStream st) (thr - 1), rh_bitCount st + (nb - 1))
              else
                (if Z.land (rh_bitStream st) (2 * thr - 1) >=? thr
                 then s32 (Z.land (rh_bitStream st) (2 * thr - 1) - max)
                 else Z.land (rh_bitStream st) (2 * thr - 1),
                 rh_bitCount st + nb))
             = (count, bitCount)
             /\ 0 <= count <= rem /\ rh_bitCount st <= bitCount).
  { destruct (Z.land (rh_bitStream st) (thr - 1) <? max) eqn:E1.
    - eexists _, _. split; [reflexivity|]. unfold max in E1. lia.
    - destruct (Z.land (rh_bitStream st) (2 * thr - 1) >=? thr) eqn:E2.
      + eexists _, _. split; [reflexivity|]. rewrite s32_small by (unfold max; lia).
        unfold max. lia.
      + eexists _, _. split; [reflexivity|]. lia. }
  destruct Hcount as (count & bitCount & -> & Hcr & Hbcr).
  rewrite (u32_small count) by lia.
  destruct (hdr_halve_wide 33 (rem - count) thr nb) as (t' & n' & Hrun & Ht & Hn & Hp & Hz);
    try lia.
  rewrite Hrun. cbn [mbind option_bind]. eexists. split; [reflexivity|].
  destruct (refill_geq (rh_ip st) bitCount Hip ltac:(lia)) as (R1 & R2 & R3).
  destruct (Z.eq_dec (rem - count) 0) as [Hz0|Hnz].
  - right. unfold rh_done. proj_simpl. split; [exact R1|]. split; [exact R2|].
    split; [lia|]. split.
    + apply Forall_app. split; [exact Hnn|]. repeat constructor. lia.
    + rewrite sum_list_app. cbn [sum_list]. split; [lia|]. split; [exact Hz0|].
      split; [apply Hz; exact Hz0|]. exists (rh_counts st), count. split; [reflexivity|]. lia.
  - left. unfold rh_inv. proj_simpl. destruct (Hp ltac:(lia)) as [Hw Hn1].
    split; [exact R1|]. split; [exact R2|]. split; [lia|]. split.
    + apply Forall_app. split; [exact Hnn|]. repeat constructor. lia.
    + rewrite sum_list_app. cbn [sum_list]. repeat split; try lia.
Qed.

Lemma rh_loop_inv (L : Z) (mem : list Z) (fuel : nat) :
  forall st st' : rh_state,
    rh_inv L st -> rh_loop fuel mem st = Some st' -> rh_done L st'.
Proof.
  induction fuel as [|fuel IH]; intros st st' Hinv H; [discriminate|].
  cbn [rh_loop] in H.
  assert (Hpos : (rh_remaining st >? 0) = true).
  { destruct Hinv as (_ & _ & _ & _ & _ & Hnb & Hthr & Hwin).
    pose proof (pow2_pos (rh_nbBits st - 1) ltac:(lia)). lia. }
  rewrite Hpos in H.
  apply bind_Some in H. destruct H as (st1 & H1 & H).
  assert (Hinv1 : rh_inv L st1).
  { destruct (rh_previous0 st).
    - eapply rh_zero_run_inv; eassumption.
    - inversion H1; subst. exact Hinv. }
  destruct (rh_count_inv L mem st1 Hinv1) as (st2 & Hc & Hcases).
  rewrite Hc in H. cbn [mbind option_bind] in H.
  destruct Hcases as [Hinv2|Hdone].
  - eapply IH; eassumption.
  - destruct fuel as [|fuel]; [discriminate|]. cbn [rh_loop] in H.
    destruct Hdone as (D1 & D2 & D3 & D4 & D5 & D6 & D7 & D8).
    rewrite D6 in H. change (0 >? 0) with false in H. cbv iota in H.
    inversion H; subst. unfold rh_done. auto 10.
Qed.

(** X10.  Whatever bytes it is given, when [FSE_readHeader] returns it
    reports no error: the return value is positive, the table log it
    announces lies in [[5, 20]] (the comparison with [FSE_MAX_TABLELOG] is
    made on a counter that is 0 by then, so logs above 12 pass), and the
    counts it has stored are non-negative, sum to exactly [2^tableLog] and
    end with a positive count. *)
Theorem readHeader_yields_a_distribution :
  forall (fuel : nat) (header : list Z) (r : rh_result),
    FSE_readHeader fuel header = Some r ->
    1 <= rh_ret r
    /\ 5 <= rh_tableLog r <= 20
    /\ rh_nbSymbols r = Z.of_nat (length (rh_normalizedCounter r))
    /\ Forall (fun c => 0 <= c) (rh_normalizedCounter r)
    /\ sum_list (rh_normalizedCounter r) = 2 ^ rh_tableLog r
    /\ exists N' c, rh_normalizedCounter r = N' ++ [c] /\ 0 < c.
Proof.
  intros fuel header r H. unfold FSE_readHeader in H.
  set (L := Z.land (Z.shiftr (load32 header 0) 2) 15 + FSE_MIN_TABLELOG) in *.
  assert (HL : 5 <= L <= 20).
  { unfold L, FSE_MIN_TABLELOG. change 15 with (2 ^ 4 - 1). rewrite land_pow2_pred by lia.
    pose proof (Z.mod_pos_bound (Z.shiftr (load32 header 0) 2) (2 ^ 4) ltac:(lia)). lia. }
  apply bind_Some in H. destruct H as (st & Hloop & H).
  assert (Hinv0 : rh_inv L {| rh_counts := []; rh_ip := 0;
                              rh_bitStream := Z.shiftr (Z.shiftr (load32 header 0) 2) 4;
                              rh_bitCount := 6; rh_remaining := Z.shiftl 1 L;
                              rh_threshold := Z.shiftl 1 L; rh_nbBits := L + 1;
                              rh_previous0 := false |}).
  { unfold rh_inv. proj_simpl. rewrite Z.shiftl_1_l. cbn [sum_list].
    replace (L + 1 - 1) with L by lia. pose proof (pow2_pos L ltac:(lia)).
    repeat split; try lia. constructor. }
  pose proof (rh_loop_inv L header fuel _ st Hinv0 Hloop)
    as (D1 & D2 & D3 & D4 & D5 & D6 & D7 & D8).
  rewrite D6, D7 in H. change (0 <? 0) with false in H.
  change (0 >? FSE_MAX_TABLELOG) with false in H. cbv iota in H.
  inversion H; subst r; clear H. cbn [rh_ret rh_tableLog rh_nbSymbols rh_normalizedCounter].
  split; [destruct (rh_bitCount st >? 0) eqn:E; lia|].
  split; [exact HL|]. split; [reflexivity|]. split; [exact D4|]. split; [exact D5|exact D8].
Qed.

Lemma readHeader_yields_a_distribution_witness :
  exists r,
    FSE_readHeader 3 [254; 255; 255; 7] = Some r
    /\ rh_tableLog r = 20
    /\ 1 <= rh_ret r
    /\ sum_list (rh_normalizedCounter r) = 2 ^ rh_tableLog r.
Proof.
  exists {| rh_ret := 4; rh_normalizedCounter := [1048576]; rh_nbSymbols := 1;
            rh_tableLog := 20 |}.
  split; [vm_compute; reflexivity|]. split; [reflexivity|].
  destruct (readHeader_yields_a_distribution 3 [254; 255; 255; 7]
              {| rh_ret := 4; rh_normalizedCounter := [1048576]; rh_nbSymbols := 1;
                 rh_tableLog := 20 |}) as (H1 & _ & _ & _ & H5 & _).
  - vm_compute. reflexivity.
  - split; [exact H1 | exact H5].
Defined.

(** ** How many bytes the block decoder stores *)

Lemma init_nbStates (mem : list Z) (p tableLog maxC : Z) (safe : bool) :
  di_nbStates (FSE_initDecompressionStream_generic mem p tableLog maxC safe)
  = FSE_getNbStates mem p.
Proof.
  unfold FSE_initDecompressionStream_generic, FSE_getNbStates, FSE_readBits, FSE_updateBitStream.
  destruct (safe && _); [reflexivity|].
  repeat match goal with
         | |- context [if ?c then _ else _] => destruct c
         end; reflexivity.
Qed.

Lemma dec_hot_length (mem : list Z) (c0 olimit : Z) (safe : bool) (ns : Z)
    (dt : list FSE_decode_t) (fuel : nat) :
  1 <= ns <= 2 ->
  forall st st' : dec_state,
    dec_hot fuel mem c0 olimit safe ns dt st = Some st' ->
    (olimit - d_op st) mod ns = 0 ->
    d_op st <= d_op st' <= Z.max (d_op st) olimit
    /\ (safe = false -> (Z.to_nat (olimit - d_op st) <= fuel)%nat ->
        d_op st' = Z.max (d_op st) olimit).
Proof.
  intros Hns. induction fuel as [|fuel IH]; intros st st' H Hmod.
  - cbn [dec_hot] in H. inversion H; subst. split; [lia|]. intros _ Hf. lia.
  - cbn [dec_hot] in H.
    destruct ((d_op st <? olimit) && (negb safe || (d_ip st >=? c0))) eqn:Econd.
    + apply bind_Some in H. destruct H as ([[out s2] bitC] & Hfirst & H).
      apply bind_Some in H. destruct H as ([[sym s1] bitC1] & _ & H).
      destruct (FSE_updateBitStream mem bitC1 (d_ip st)) as [bitC2 ip2].
      assert (Hout : Z.of_nat (length out) = d_op st + (ns - 1)).
      { destruct (Z.eqb_spec ns 2) as [->|Hne].
        - apply bind_Some in Hfirst. destruct Hfirst as ([[sym2 s2'] bitC'] & _ & Hf).
          inversion Hf; subst. unfold d_op. rewrite length_app. cbn [length]. lia.
        - inversion Hfirst; subst. unfold d_op. lia. }
      assert (Hlt : d_op st < olimit).
      { apply andb_true_iff in Econd. destruct Econd as [E _]. apply Z.ltb_lt in E. exact E. }
      assert (Hstep : d_op st + ns <= olimit).
      { destruct (Z.eq_dec ns 1) as [->|]; [lia|]. assert (ns = 2) by lia. subst ns.
        pose proof (Z.div_mod (olimit - d_op st) 2 ltac:(lia)). lia. }
      match type of H with dec_hot _ _ _ _ _ _ _ ?s = _ => remember s as st1 eqn:Hst1 end.
      assert (Hop1 : d_op st1 = d_op st + ns).
      { subst st1. unfold d_op at 1. cbn [d_out]. rewrite length_app. cbn [length]. lia. }
      apply IH in H.
      * rewrite Hop1 in H. destruct H as [H1 H2]. split; [lia|]. intros Hs Hf.
        rewrite H2; [lia | exact Hs | lia].
      * rewrite Hop1.
        replace (olimit - (d_op st + ns)) with ((olimit - d_op st) + (-1) * ns) by lia.
        rewrite Z_mod_plus_full. exact Hmod.
    + inversion H; subst. split; [lia|]. intros Hs _. subst safe.
      cbn [negb orb] in Econd. rewrite andb_true_r in Econd. apply Z.ltb_ge in Econd. lia.
Qed.

Lemma dec_last_length (mem : list Z) (c0 oend : Z) (safe : bool)
    (dt : list FSE_decode_t) (fuel : nat) :
  forall st st' : dec_state,
    dec_last fuel mem c0 oend safe dt st = Some st' ->
    d_op st <= d_op st' <= Z.max (d_op st) oend
    /\ (safe = false -> (Z.to_nat (oend - d_op st) <= fuel)%nat ->
        d_op st' = Z.max (d_op st) oend).
Proof.
  induction fuel as [|fuel IH]; intros st st' H.
  - cbn [dec_last] in H. inversion H; subst. split; [lia|]. intros _ Hf. lia.
  - cbn [dec_last] in H.
    destruct ((d_op st <? oend) && (negb safe || (d_ip st >=? c0))) eqn:Econd.
    + apply bind_Some in H. destruct H as ([[sym s1] bitC1] & _ & H).
      destruct (FSE_updateBitStream mem bitC1 (d_ip st)) as [bitC2 ip2].
      match type of H with dec_last _ _ _ _ _ _ ?s = _ => remember s as st1 eqn:Hst1 end.
      assert (Hop1 : d_op st1 = d_op st + 1).
      { subst st1. unfold d_op. cbn [d_out]. rewrite length_app. cbn [length]. lia. }
      assert (Hlt : d_op st < oend).
      { apply andb_true_iff in Econd. destruct Econd as [E _]. apply Z.ltb_lt in E. exact E. }
      apply IH in H. rewrite Hop1 in H. destruct H as [H1 H2]. split; [lia|]. intros Hs Hf.
      rewrite H2; [lia | exact Hs | lia].
    + inversion H; subst. split; [lia|]. intros Hs _. subst safe.
      cbn [negb orb] in Econd. rewrite andb_true_r in Econd. apply Z.ltb_ge in Econd. lia.
Qed.

Lemma streams_length (originalSize : Z) (mem : list Z) (c0 maxC : Z)
    (dt : list FSE_decode_t) (tableLog : Z) (safe : bool) (nbStates r : Z) (out : list Z) :
  1 <= FSE_getNbStates mem c0 <= 2 ->
  FSE_decompressStreams_usingDTable_generic originalSize mem c0 maxC dt tableLog safe nbStates
  = Some (r, out) ->
  (r = -1 /\ out = [])
  \/ (FSE_getNbStates mem c0 <= Z.of_nat (length out)
                              <= Z.max originalSize (FSE_getNbStates mem c0)
      /\ (safe = false ->
          Z.of_nat (length out) = Z.max originalSize (FSE_getNbStates mem c0))).
Proof.
  intros Hns H. unfold FSE_decompressStreams_usingDTable_generic in H.
  cbv zeta in H. rewrite !init_nbStates in H.
  remember (FSE_getNbStates mem c0) as ns eqn:Ens.
  remember (FSE_initDecompressionStream_generic mem c0 tableLog (if safe then maxC else 0) safe)
    as init eqn:Einit.
  destruct (di_iend init) as [iend|]; [|inversion H; left; split; reflexivity].
  right.
  apply bind_Some in H. destruct H as (st1 & Hhot & H).
  apply bind_Some in H. destruct H as (st2 & Hlast & H).
  assert (Hrem : (originalSize - ns - Z.rem (originalSize - ns) ns - 0) mod ns = 0
                 /\ (0 <= originalSize - ns ->
                     originalSize - ns - 1 <= originalSize - ns - Z.rem (originalSize - ns) ns
                                           <= originalSize - ns)
                 /\ (originalSize - ns < 0 ->
                     originalSize - ns - Z.rem (originalSize - ns) ns <= 0)).
  { pose proof (Z.quot_rem' (originalSize - ns) ns) as Hq.
    replace (originalSize - ns - Z.rem (originalSize - ns) ns - 0)
      with (Z.quot (originalSize - ns) ns * ns) by lia.
    rewrite Z_mod_mult. split; [reflexivity|]. split.
    - intros Hpos. pose proof (Z.rem_bound_pos (originalSize - ns) ns Hpos ltac:(lia)). lia.
    - intros Hneg. pose proof (Z.rem_bound_pos_neg (originalSize - ns) ns ltac:(lia) ltac:(lia)). nia. }
  destruct Hrem as (Hmod & Hpos & Hneg).
  match type of Hhot with dec_hot _ _ _ _ _ _ _ ?s = _ => remember s as st0 eqn:Hst0 end.
  assert (Hop0 : d_op st0 = 0) by (subst st0; reflexivity).
  apply dec_hot_length in Hhot; [|exact Hns|rewrite Hop0; exact Hmod].
  apply dec_last_length in Hlast. rewrite Hop0 in Hhot.
  destruct Hhot as [Hh1 Hh2]. destruct Hlast as [Hl1 Hl2].
  assert (Hlen : Z.of_nat (length out) = d_op st2 + ns).
  { destruct (negb (d_ip st2 =? c0) || negb (b_bitsConsumed (d_bitC st2) =? 0));
      inversion H; subst out; rewrite length_app; cbn [length];
      destruct (Z.geb_spec ns 2); rewrite ?length_app; cbn [length]; unfold d_op; lia. }
  rewrite Hlen. split; [|intros Hs; rewrite (Hl2 Hs), (Hh2 Hs)]; lia.
Qed.

(** X11. The block decoder stores [nbStates] bytes however small
    [originalSize] is: its output is never shorter than the number of
    states announced by the stream descriptor, and never longer than
    the larger of [originalSize] and that number; in the unguarded
    variant the length is exactly that maximum.  A caller whose
    destination holds [originalSize] bytes is therefore overrun by one
    byte when a two-state stream is decoded with [originalSize = 1]. *)
Theorem decoder_output_length :
  forall (originalSize : Z) (mem : list Z) (c0 maxCompressedSize : Z)
         (dt : list FSE_decode_t) (tableLog : Z) (safe : bool) (r : Z) (out : list Z),
    FSE_decompress_usingDTable_generic originalSize mem c0 maxCompressedSize dt tableLog safe
    = Some (r, out) ->
    (r = -1 /\ out = [])
    \/ (1 <= FSE_getNbStates mem c0 <= 2
        /\ FSE_getNbStates mem c0 <= Z.of_nat (length out)
                                  <= Z.max originalSize (FSE_getNbStates mem c0)
        /\ (safe = false ->
            Z.of_nat (length out) = Z.max originalSize (FSE_getNbStates mem c0))).
Proof.
  intros originalSize mem c0 maxC dt tableLog safe r out H.
  unfold FSE_decompress_usingDTable_generic in H. cbv zeta in H.
  destruct (Z.eqb_spec (FSE_getNbStates mem c0) 2) as [E2|N2].
  - apply streams_length in H; [|lia]. destruct H as [H|H]; [left; exact H|right].
    split; [lia|exact H].
  - destruct (Z.eqb_spec (FSE_getNbStates mem c0) 1) as [E1|N1].
    + apply streams_length in H; [|lia]. destruct H as [H|H]; [left; exact H|right].
      split; [lia|exact H].
    + inversion H. left. split; reflexivity.
Qed.

Lemma decoder_output_length_witness :
  exists dt,
    FSE_buildDTable [10; 0; 22] 3 5 = Some (inr dt)
    /\ FSE_decompress_usingDTable_generic 1 [54; 0; 0; 64; 64; 0] 0 0 dt 5 false
       = Some (6, [0; 2])
    /\ Z.of_nat (length [0; 2]) = Z.max 1 (FSE_getNbStates [54; 0; 0; 64; 64; 0] 0).
Proof.
  eexists. split; [vm_compute; reflexivity|].
  match goal with |- ?A /\ _ => assert (H : A) by (vm_compute; reflexivity) end.
  split; [exact H|].
  destruct (decoder_output_length _ _ _ _ _ _ _ _ _ H) as [[H1 _]|(_ & _ & H3)];
    [discriminate H1 | apply H3; reflexivity].
Defined.

(** ** Normalization: when the [minBase] iteration ends *)

Lemma bias_cap (L ns total x : Z) :
  5 <= L <= 12 -> 0 <= ns <= 256 -> ns < 2 ^ L -> 0 <= total <= 2 ^ 20 -> 0 <= x ->
  (2 ^ L - ns) * x <= 2 ^ L * total -> x <= 2 ^ 28.
Proof.
  intros HL Hns Hlt Ht Hx H.
  destruct (Z_le_gt_dec L 8) as [H8|H8].
  - assert (2 ^ L <= 2 ^ 8) by (apply Z.pow_le_mono_r; lia).
    change (2 ^ 8) with 256 in *. change (2 ^ 20) with 1048576 in *.
    change (2 ^ 28) with 268435456. nia.
  - assert (2 ^ 9 <= 2 ^ L) by (apply Z.pow_le_mono_r; lia).
    change (2 ^ 9) with 512 in *. change (2 ^ 20) with 1048576 in *.
    change (2 ^ 28) with 268435456.
    assert (2 ^ L * x <= 2 ^ L * (2 * total)) by nia.
    assert (x <= 2 * total) by nia. lia.
Qed.

Lemma norm_minBase_ends (L ns total : Z) :
  5 <= L <= 12 -> 0 <= ns <= 256 -> ns < 2 ^ L -> 0 <= total <= 2 ^ 20 ->
  forall (fuel : nat) (minBase add : Z),
    0 <= minBase -> 0 <= add ->
    (2 ^ L - ns) * minBase + 2 ^ L * add <= 2 ^ L * total ->
    (Z.to_nat add < fuel)%nat ->
    exists r, norm_minBase fuel minBase add ns L = Some r
              /\ 0 <= r /\ (2 ^ L - ns) * r <= 2 ^ L * total.
Proof.
  intros HL Hns Hlt Ht fuel. induction fuel as [|fuel IH]; intros minBase add Hm Ha Hinv Hf; [lia|].
  assert (HP : 0 < 2 ^ L) by (apply Z.pow_pos_nonneg; lia).
  assert (Hadd : add <= total) by nia.
  assert (Hsum : (2 ^ L - ns) * (minBase + add) <= 2 ^ L * total) by nia.
  pose proof (bias_cap L ns total (minBase + add) HL Hns Hlt Ht ltac:(lia) Hsum) as Hcap.
  cbn [norm_minBase]. cbv zeta.
  rewrite (u32_small (minBase + add)) by lia.
  rewrite (u32_small ns) by lia.
  assert (Hprod : 0 <= add * ns <= 2 ^ 28).
  { change (2 ^ 20) with 1048576 in *. change (2 ^ 28) with 268435456. nia. }
  rewrite (u32_small (add * ns)) by lia.
  rewrite Z.shiftr_div_pow2 by lia.
  pose proof (Z.div_pos (add * ns) (2 ^ L) ltac:(lia) HP) as Hq0.
  pose proof (Z.mul_div_le (add * ns) (2 ^ L) HP) as Hq1.
  destruct (Z.eqb_spec (add * ns / 2 ^ L) 0) as [E|E].
  - exists (minBase + add). split; [reflexivity|]. split; [lia|exact Hsum].
  - assert (Hdec : add * ns / 2 ^ L < add).
    { apply Z.div_lt_upper_bound; [exact HP|].
      assert (0 < add).
      { destruct (Z.eq_dec add 0) as [->|]; [|lia]. rewrite Z.mul_0_l, Z.div_0_l in E; lia. }
      nia. }
    apply IH; [lia | lia | nia | lia].
Qed.

Lemma prescale_entry (c shift : Z) :
  0 <= shift -> 0 <= c ->
  0 <= (c + (2 ^ shift - 1)) / 2 ^ shift <= c
  /\ (0 < c -> 0 < (c + (2 ^ shift - 1)) / 2 ^ shift).
Proof.
  intros Hs Hc. assert (HP : 0 < 2 ^ shift) by (apply Z.pow_pos_nonneg; lia).
  split; [split|].
  - apply Z.div_pos; lia.
  - assert ((c + (2 ^ shift - 1)) / 2 ^ shift < c + 1); [|lia].
    apply Z.div_lt_upper_bound; [exact HP|]. nia.
  - intros Hpos. assert (1 <= (c + (2 ^ shift - 1)) / 2 ^ shift); [|lia].
    apply Z.div_le_lower_bound; [exact HP|]. lia.
Qed.

Lemma norm_prescale_spec (shift : Z) (rest : list Z) :
  0 <= shift <= 10 ->
  forall (C : list Z) (v : Z),
    Forall (fun c => 0 <= c <= 2 ^ 20) C -> 0 <= v -> v + sum_list C < 2 ^ 31 ->
    exists C' v',
      norm_prescale (length C) (C ++ rest) (Z.shiftl 1 shift - 1) shift v = Some (C' ++ rest, v')
      /\ length C' = length C
      /\ Forall (fun c => 0 <= c <= 2 ^ 20) C'
      /\ v <= v' <= v + sum_list C
      /\ (0 < sum_list C -> v < v').
Proof.
  intros Hs. induction C as [|c C IH]; intros v HC Hv Hsum.
  - exists [], v. cbn [length norm_prescale app sum_list]. repeat split; try lia. constructor.
  - inversion HC as [|? ? Hc HC']; subst. cbn [sum_list] in Hsum.
    assert (HCn : 0 <= sum_list C).
    { apply sum_list_nonneg. eapply Forall_impl; [exact HC'|]. cbn. intros; lia. }
    cbn [length app norm_prescale]. cbv zeta. rewrite Z.shiftl_1_l.
    assert (HP : 0 < 2 ^ shift <= 2 ^ 10) by (split; [apply Z.pow_pos_nonneg|apply Z.pow_le_mono_r]; lia).
    change (2 ^ 10) with 1024 in HP. change (2 ^ 20) with 1048576 in *.
    change (2 ^ 31) with 2147483648 in *.
    rewrite u32_small by (change (2 ^ 32) with 4294967296; lia).
    rewrite Z.shiftr_div_pow2 by lia.
    destruct (prescale_entry c shift ltac:(lia) ltac:(lia)) as [Hr Hp].
    set (c' := (c + (2 ^ shift - 1)) / 2 ^ shift) in *.
    rewrite s32_small by (change (2 ^ 31) with 2147483648; lia).
    destruct (IH (v + c') HC' ltac:(lia) ltac:(lia)) as (C' & v' & Hrun & Hlen & HC'' & Hv' & Hpos).
    rewrite Z.shiftl_1_l in Hrun. rewrite Hrun. cbn [mbind option_bind]. exists (c' :: C'), v'.
    split; [reflexivity|]. split; [cbn [length]; lia|]. split; [constructor; [lia|exact HC'']|].
    cbn [sum_list]. split; [lia|]. intros Hsp.
    destruct (Z.eq_dec c 0) as [->|]; [|lia]. apply Hpos in Hsp. lia.
Qed.

Lemma norm_bias_spec (m : Z) (rest : list Z) :
  0 <= m ->
  forall (C : list Z) (v : Z),
    0 <= v -> v + m * Z.of_nat (length C) < 2 ^ 31 ->
    exists C' v',
      norm_bias (length C) (C ++ rest) m v = Some (C' ++ rest, v')
      /\ length C' = length C
      /\ v <= v' <= v + m * Z.of_nat (length C).
Proof.
  intros Hm. induction C as [|c C IH]; intros v Hv Hb.
  - exists [], v. cbn [length norm_bias app]. repeat split; lia.
  - cbn [length] in Hb. cbn [length app norm_bias]. rewrite Nat2Z.inj_succ in Hb.
    destruct (c =? 0).
    + destruct (IH v Hv ltac:(nia)) as (C' & v' & Hrun & Hlen & Hv').
      rewrite Hrun. cbn [mbind option_bind]. exists (c :: C'), v'.
      split; [reflexivity|]. split; [cbn [length]; lia|]. rewrite Nat2Z.inj_succ. nia.
    + rewrite s32_small by (change (2 ^ 31) with 2147483648 in *; nia).
      destruct (IH (v + m) ltac:(lia) ltac:(nia)) as (C' & v' & Hrun & Hlen & Hv').
      rewrite Hrun. cbn [mbind option_bind]. exists (u32 (c + m) :: C'), v'.
      split; [reflexivity|]. split; [cbn [length]; lia|]. rewrite Nat2Z.inj_succ. nia.
Qed.

Lemma norm_scale_total (rest : list Z) (vTotal step scale vStep : Z) :
  forall (C : list Z) (cr : Z),
    exists single N,
      norm_scale (length C) (C ++ rest) vTotal step scale vStep cr = Some (single, N ++ rest)
      /\ length N = length C.
Proof.
  induction C as [|c C IH]; intros cr.
  - exists false, []. split; reflexivity.
  - cbn [length app norm_scale].
    destruct (c =? u32 vTotal).
    + exists true, (c :: C). split; reflexivity.
    + destruct (c >? 0); cbv zeta.
      * match goal with |- context [norm_scale _ _ _ _ _ _ ?x] => destruct (IH x) as (single & N & Hrun & Hlen) end.
        rewrite Hrun. cbn [mbind option_bind]. eexists single, (_ :: N).
        split; [reflexivity|]. cbn [length]. lia.
      * destruct (IH cr) as (single & N & Hrun & Hlen).
        rewrite Hrun. cbn [mbind option_bind]. exists single, (c :: N).
        split; [reflexivity|]. cbn [length]. lia.
Qed.

Lemma norm_minBase_loops (L ns add : Z) :
  0 <= L -> ns = 2 ^ L -> 0 < add -> add * 2 ^ L < 2 ^ 32 ->
  forall (fuel : nat) (minBase : Z), norm_minBase fuel minBase add ns L = None.
Proof.
  intros HL -> Ha Hb. assert (HP : 0 < 2 ^ L) by (apply Z.pow_pos_nonneg; lia).
  induction fuel as [|fuel IH]; intros minBase; [reflexivity|].
  cbn [norm_minBase]. cbv zeta.
  rewrite (u32_small (2 ^ L)) by nia.
  rewrite (u32_small (add * 2 ^ L)) by nia.
  rewrite Z.shiftr_div_pow2 by lia. rewrite Z.div_mul by lia.
  destruct (Z.eqb_spec add 0) as [?|_]; [lia|]. apply IH.
Qed.

Lemma ensure_scale (L total : Z) (C rest : list Z) :
  5 <= L <= 12 -> 1 <= total <= 2 ^ 20 ->
  Forall (fun c => 0 <= c) C -> sum_list C = total ->
  exists C1 v1,
    (if FSE_highbit (u32 (total - 1)) + 1 >? FSE_VIRTUAL_LOG - L
     then norm_prescale (length C) (C ++ rest)
            (Z.shiftl 1 (FSE_highbit (u32 (total - 1)) + 1 - (FSE_VIRTUAL_LOG - L)) - 1)
            (FSE_highbit (u32 (total - 1)) + 1 - (FSE_VIRTUAL_LOG - L)) 0
     else Some (C ++ rest, total)) = Some (C1 ++ rest, v1)
    /\ length C1 = length C /\ 1 <= v1 <= total.
Proof.
  intros HL Ht HC Hsum. unfold FSE_highbit, FSE_VIRTUAL_LOG.
  change (2 ^ 20) with 1048576 in *.
  rewrite (u32_small (total - 1)) by (change (2 ^ 32) with 4294967296; lia).
  assert (Hlog : 0 <= Z.log2 (total - 1) < 20).
  { split; [apply Z.log2_nonneg|].
    destruct (Z.eq_dec total 1) as [E1|Hne]; [rewrite E1; change (Z.log2 (1 - 1)) with 0; lia|].
    apply Z.log2_lt_pow2; [lia|]. change (2 ^ 20) with 1048576. lia. }
  destruct (Z.gtb_spec (Z.log2 (total - 1) + 1) (30 - L)) as [Hgt|Hle].
  - assert (HCt : Forall (fun c => 0 <= c <= 2 ^ 20) C).
    { pose proof (sum_list_entry_le C HC) as Hle. rewrite Hsum in Hle.
      rewrite Forall_forall in *. intros x Hx. change (2 ^ 20) with 1048576.
      specialize (HC x Hx). specialize (Hle x Hx). cbn beta in *. lia. }
    destruct (norm_prescale_spec (Z.log2 (total - 1) + 1 - (30 - L)) rest ltac:(lia) C 0 HCt
                ltac:(lia) ltac:(rewrite Hsum; change (2 ^ 31) with 2147483648; lia))
      as (C1 & v1 & Hrun & Hlen & _ & Hv & Hpos).
    exists C1, v1. split; [exact Hrun|]. split; [exact Hlen|].
    rewrite Hsum in Hv, Hpos. specialize (Hpos ltac:(lia)). lia.
  - exists C, total. split; [reflexivity|]. split; [reflexivity|lia].
Qed.

Lemma symbols_fit (hint total ns : Z) :
  0 <= ns <= 256 -> ns <= 2 ^ norm_tableLog hint total ns.
Proof.
  intros Hns. pose proof (norm_tableLog_ge_min hint total ns) as Hmin.
  unfold FSE_MIN_TABLELOG in Hmin.
  destruct (Z_lt_ge_dec ns 2) as [Hs|Hs].
  - assert (2 ^ 5 <= 2 ^ norm_tableLog hint total ns) by (apply Z.pow_le_mono_r; lia).
    change (2 ^ 5) with 32 in *. lia.
  - pose proof (norm_tableLog_covers hint total ns ltac:(change (2 ^ 31) with 2147483648; lia)) as Hc.
    pose proof (Z.log2_up_spec ns ltac:(lia)) as [_ Hup].
    assert (2 ^ Z.log2_up ns <= 2 ^ norm_tableLog hint total ns) by (apply Z.pow_le_mono_r; lia).
    lia.
Qed.

Lemma normalizeCount_ends (fuel : nat) (hint : Z) (C rest : list Z) (total : Z) :
  let L := norm_tableLog hint total (Z.of_nat (length C)) in
  Forall (fun c => 0 <= c) C -> sum_list C = total -> 1 <= total <= 2 ^ 20 ->
  (length C <= 256)%nat ->
  (Z.of_nat (length C) = 2 ^ L -> total <= 2 ^ L) ->
  (Z.to_nat total < fuel)%nat ->
  exists r N,
    FSE_normalizeCount fuel hint (C ++ rest) total (Z.of_nat (length C)) = Some (r, N ++ rest)
    /\ length N = length C.
Proof.
  intros L HC Hsum Ht Hlen Hfit Hfuel.
  pose proof (norm_tableLog_ge_min hint total (Z.of_nat (length C))) as Hmin. fold L in Hmin.
  pose proof (symbols_fit hint total (Z.of_nat (length C)) ltac:(lia)) as Hns. fold L in Hns.
  unfold FSE_MIN_TABLELOG in Hmin.
  unfold FSE_normalizeCount. fold L. rewrite Nat2Z.id. cbv zeta.
  destruct (Z.gtb_spec L FSE_MAX_TABLELOG) as [Hbig|HL].
  { exists (-1), C. split; reflexivity. }
  unfold FSE_MAX_TABLELOG, FSE_MEMORY_USAGE in HL.
  assert (HLr : 5 <= L <= 12) by lia.
  destruct (ensure_scale L total C rest HLr Ht HC Hsum) as (C1 & v1 & Hrun & Hlen1 & Hv1).
  rewrite Hrun. cbn [mbind option_bind].
  assert (HP : 0 < 2 ^ L) by (apply Z.pow_pos_nonneg; lia).
  change (2 ^ 20) with 1048576 in *.
  match goal with
  | |- exists r N, mbind ?f ?e = _ /\ _ =>
      assert (He : exists C2 v2, e = Some (C2 ++ rest, v2)
                                 /\ length C2 = length C /\ 1 <= v2 < 2 ^ 31)
  end.
  { rewrite Z.shiftl_1_l.
    destruct (Z.gtb_spec total (2 ^ L)) as [Hgt|Hle].
    - assert (Hlt : Z.of_nat (length C) < 2 ^ L) by lia.
      rewrite (u32_small total) by (change (2 ^ 32) with 4294967296; lia).
      rewrite (u32_small (Z.of_nat (length C))) by (change (2 ^ 32) with 4294967296; lia).
      rewrite (u32_small (total * Z.of_nat (length C))) by (change (2 ^ 32) with 4294967296; nia).
      rewrite Z.shiftr_div_pow2 by lia.
      pose proof (Z.div_pos (total * Z.of_nat (length C)) (2 ^ L) ltac:(nia) HP) as Hq0.
      pose proof (Z.mul_div_le (total * Z.of_nat (length C)) (2 ^ L) HP) as Hq1.
      assert (Hq2 : total * Z.of_nat (length C) / 2 ^ L <= total).
      { apply Z.div_le_upper_bound; [exact HP|]. nia. }
      destruct (norm_minBase_ends L (Z.of_nat (length C)) total HLr ltac:(lia) Hlt
                  ltac:(change (2 ^ 20) with 1048576; lia) fuel total
                  (total * Z.of_nat (length C) / 2 ^ L) ltac:(lia) Hq0 ltac:(nia) ltac:(lia))
        as (r & Hr & Hr0 & Hrb).
      rewrite Hr. cbn [mbind option_bind]. rewrite Z.shiftr_div_pow2 by lia.
      pose proof (Z.div_pos r (2 ^ L) Hr0 HP) as Hm0.
      pose proof (Z.mul_div_le r (2 ^ L) HP) as Hm1.
      assert (Hm : r / 2 ^ L <= total).
      { assert (2 ^ L * ((2 ^ L - Z.of_nat (length C)) * (r / 2 ^ L)) <= 2 ^ L * total) by nia.
        assert ((2 ^ L - Z.of_nat (length C)) * (r / 2 ^ L) <= total) by nia. nia. }
      rewrite <- Hlen1.
      destruct (norm_bias_spec (r / 2 ^ L) rest Hm0 C1 v1 ltac:(lia)
                  ltac:(rewrite Hlen1; change (2 ^ 31) with 2147483648; nia))
        as (C2 & v2 & Hb & Hlen2 & Hv2).
      exists C2, v2. split; [exact Hb|]. split; [lia|].
      rewrite Hlen1 in Hv2. change (2 ^ 31) with 2147483648. nia.
    - exists C1, v1. split; [reflexivity|]. split; [exact Hlen1|].
      change (2 ^ 31) with 2147483648. lia. }
  destruct He as (C2 & v2 & He & Hlen2 & Hv2). rewrite He. cbn [mbind option_bind].
  rewrite (u32_small v2) by (change (2 ^ 31) with 2147483648 in Hv2; change (2 ^ 32) with 4294967296; lia).
  destruct (Z.eqb_spec v2 0) as [?|_]; [lia|].
  rewrite <- Hlen2.
  match goal with
  | |- context [norm_scale _ _ ?a ?b ?c ?d ?e] =>
      destruct (norm_scale_total rest a b c d C2 e) as (single & N & Hs & HlenN)
  end.
  rewrite Hs. cbn [mbind option_bind].
  destruct single; eexists _, N; (split; [reflexivity|lia]).
Qed.

Lemma normalizeCount_loops (fuel : nat) (hint : Z) (C rest : list Z) (total : Z) :
  let L := norm_tableLog hint total (Z.of_nat (length C)) in
  Forall (fun c => 0 <= c) C -> sum_list C = total -> 1 <= total <= 2 ^ 20 ->
  (length C <= 256)%nat ->
  Z.of_nat (length C) = 2 ^ L -> 2 ^ L < total ->
  FSE_normalizeCount fuel hint (C ++ rest) total (Z.of_nat (length C)) = None.
Proof.
  intros L HC Hsum Ht Hlen Heq Hgt.
  pose proof (norm_tableLog_ge_min hint total (Z.of_nat (length C))) as Hmin. fold L in Hmin.
  unfold FSE_MIN_TABLELOG in Hmin.
  assert (HL8 : L <= 8).
  { destruct (Z_le_gt_dec L 8) as [?|Hb]; [assumption|].
    assert (2 ^ 9 <= 2 ^ L) by (apply Z.pow_le_mono_r; lia). change (2 ^ 9) with 512 in *. lia. }
  unfold FSE_normalizeCount. fold L. rewrite Nat2Z.id. cbv zeta.
  rewrite (gtb_false L) by (unfold FSE_MAX_TABLELOG, FSE_MEMORY_USAGE; lia).
  destruct (ensure_scale L total C rest ltac:(lia) Ht HC Hsum) as (C1 & v1 & Hrun & Hlen1 & Hv1).
  rewrite Hrun. cbn [mbind option_bind].
  rewrite (Z.shiftl_1_l L). rewrite (gtb_true total (2 ^ L) Hgt).
  change (2 ^ 20) with 1048576 in *.
  rewrite (u32_small total) by (change (2 ^ 32) with 4294967296; lia).
  rewrite (u32_small (Z.of_nat (length C))) by (change (2 ^ 32) with 4294967296; lia).
  rewrite (u32_small (total * Z.of_nat (length C))) by (change (2 ^ 32) with 4294967296; nia).
  rewrite Z.shiftr_div_pow2 by lia. rewrite Heq at 1. rewrite Z.div_mul by lia.
  rewrite (norm_minBase_loops L (Z.of_nat (length C)) total ltac:(lia) Heq ltac:(lia)
             ltac:(rewrite <- Heq; change (2 ^ 32) with 4294967296; nia)).
  reflexivity.
Qed.

(** X12.  Exactly when [FSE_normalizeCount] returns.  For counts of at
    most 256 symbols that sum to [total <= 2^20], with [L] the table log
    chosen by the [// Check] block: if [nbSymbols = 2^L < total] the
    [do ... while (add)] loop never ends, whatever the fuel; in every
    other case the call returns, within [total] iterations of that loop
    and without dividing by zero, and touches only the first
    [nbSymbols] counters. *)
Theorem normalizeCount_returns_unless_table_is_full :
  forall (hint : Z) (C rest : list Z) (total : Z),
    Forall (fun c => 0 <= c) C -> sum_list C = total -> 1 <= total <= 2 ^ 20 ->
    (length C <= 256)%nat ->
    let nbSymbols := Z.of_nat (length C) in
    let L := norm_tableLog hint total nbSymbols in
    (nbSymbols = 2 ^ L /\ 2 ^ L < total ->
     forall fuel, FSE_normalizeCount fuel hint (C ++ rest) total nbSymbols = None)
    /\ (~ (nbSymbols = 2 ^ L /\ 2 ^ L < total) ->
        forall fuel, (Z.to_nat total < fuel)%nat ->
          exists r N,
            FSE_normalizeCount fuel hint (C ++ rest) total nbSymbols = Some (r, N ++ rest)
            /\ length N = length C).
Proof.
  intros hint C rest total HC Hsum Ht Hlen nbSymbols L. split.
  - intros [Heq Hgt] fuel. apply normalizeCount_loops; assumption.
  - intros Hnot fuel Hfuel. apply normalizeCount_ends; try assumption.
    intros Heq. fold L in Heq. fold L. destruct (Z_le_gt_dec total (2 ^ L)); [assumption|].
    exfalso. apply Hnot. split; [exact Heq|lia].
Qed.

Lemma normalizeCount_returns_unless_table_is_full_witness :
  (forall fuel, FSE_normalizeCount fuel 5 ((2 :: repeat 1 31) ++ [0; 0]) 33 32 = None)
  /\ exists r N, FSE_normalizeCount 50 5 ([40; 2] ++ [0; 0]) 42 2 = Some (r, N ++ [0; 0])
                 /\ length N = 2%nat.
Proof.
  split.
  - intros fuel.
    refine (proj1 (normalizeCount_returns_unless_table_is_full 5 (2 :: repeat 1 31) [0; 0] 33
                     _ _ _ _) _ fuel).
    + repeat constructor; lia.
    + reflexivity.
    + simpl; lia.
    + simpl; lia.
    + vm_compute. split; reflexivity.
  - refine (proj2 (normalizeCount_returns_unless_table_is_full 5 [40; 2] [0; 0] 42
                     _ _ _ _) _ 50%nat _).
    + repeat constructor; lia.
    + reflexivity.
    + simpl; lia.
    + simpl; lia.
    + vm_compute. intros [H _]. discriminate H.
    + lia.
Defined.

(** ** The state table as a whole *)

Lemma map_nth_seq (l : list Z) : map (fun i => nth i l 0) (seq 0 (length l)) = l.
Proof.
  apply (nth_ext _ _ 0 0).
  - rewrite length_map, length_seq. reflexivity.
  - intros i Hi. rewrite length_map, length_seq in Hi.
    rewrite (nth_indep _ 0 (nth 0 l 0)) by (rewrite length_map, length_seq; exact Hi).
    rewrite (map_nth (fun i => nth i l 0)). rewrite seq_nth by exact Hi. reflexivity.
Qed.

Section StateTable.

Variable N : list Z.
Variable tableLog : Z.
Hypothesis N_normalized : normalized N tableLog.

Let T : Z := Z.shiftl 1 tableLog.
Let S : list Z := spread_of N tableLog.
Let cell (k : nat) : nat := Z.to_nat (state_index N S k).

Lemma cells_perm : Permutation (map cell (seq 0 (length S))) (seq 0 (length S)).
Proof.
  pose proof (spread_of_length N tableLog N_normalized) as HS. fold S T in HS.
  apply NoDup_Permutation_bis.
  - apply NoDup_map_NoDup_ForallPairs; [|apply seq_NoDup].
    intros k k' Hk Hk' Heq. apply in_seq in Hk, Hk'.
    apply (state_index_inj N tableLog N_normalized); fold S; [lia | lia |].
    destruct (state_index_range N tableLog N_normalized k ltac:(fold S; lia)) as [_ Hr].
    destruct (state_index_range N tableLog N_normalized k' ltac:(fold S; lia)) as [_ Hr'].
    fold S in Hr, Hr' |- *. unfold cell in Heq. lia.
  - rewrite length_map. lia.
  - intros i Hi. apply in_map_iff in Hi. destruct Hi as (k & <- & Hk). apply in_seq in Hk.
    destruct (state_index_range N tableLog N_normalized k ltac:(fold S; lia)) as [_ Hr].
    fold S T in Hr. apply in_seq. unfold cell. lia.
Qed.

Lemma cell_onto (i : Z) :
  0 <= i < T -> exists k, (k < length S)%nat /\ state_index N S k = i.
Proof.
  intros Hi. pose proof (spread_of_length N tableLog N_normalized) as HS. fold S T in HS.
  assert (Hin : In (Z.to_nat i) (seq 0 (length S))) by (apply in_seq; lia).
  apply (Permutation_in _ (Permutation_sym cells_perm)) in Hin.
  apply in_map_iff in Hin. destruct Hin as (k & Hk & Hks). apply in_seq in Hks.
  exists k. split; [lia|].
  destruct (state_index_range N tableLog N_normalized k ltac:(fold S; lia)) as [_ Hr].
  fold S T in Hr. unfold cell in Hk. lia.
Qed.

Lemma symbol_of_cell (s : Z) (k : nat) :
  0 <= s < Z.of_nat (length N) -> (k < length S)%nat ->
  cumul_before N s <= state_index N S k < cumul_before N (s + 1) ->
  nth k S 0 = s.
Proof.
  intros Hs Hk Hr.
  destruct (state_index_range N tableLog N_normalized k Hk) as [Hr' _]. fold S in Hr'.
  destruct (spread_of_symbol N tableLog N_normalized k Hk) as (Hs' & _). fold S in Hs'.
  destruct (tables_N N tableLog N_normalized) as (_ & Hnn & _).
  destruct (Z.lt_trichotomy (nth k S 0) s) as [Hlt|[Heq|Hgt]]; [|exact Heq|].
  - pose proof (cumul_before_mono N (nth k S 0 + 1) s Hnn ltac:(lia)). lia.
  - pose proof (cumul_before_mono N (s + 1) (nth k S 0) Hnn ltac:(lia)). lia.
Qed.

Lemma state_table_shape :
  exists ct,
    FSE_buildCTable N (Z.of_nat (length N)) tableLog = Some (inr ct)
    /\ Permutation (ct_stateTable ct)
         (map (fun k => T + Z.of_nat k) (seq 0 (Z.to_nat T)))
    /\ forall s i,
         0 <= s < Z.of_nat (length N) ->
         cumul_before N s <= i < cumul_before N (s + 1) ->
         exists k : nat,
           rd (ct_stateTable ct) i = Some (T + Z.of_nat k)
           /\ (k < length S)%nat /\ nth k S 0 = s
           /\ forall i' (k' : nat),
                i < i' < cumul_before N (s + 1) ->
                rd (ct_stateTable ct) i' = Some (T + Z.of_nat k') -> (k < k')%nat.
Proof.
  pose proof (spread_of_length N tableLog N_normalized) as HS. fold S T in HS.
  destruct (tables_N N tableLog N_normalized) as (_ & Hnn & Hsum). fold T in Hsum.
  destruct (buildCTable_cells N tableLog N_normalized) as (ct & Hct & _ & Hlen & Hcells & _).
  fold S T in Hlen, Hcells.
  exists ct. split; [exact Hct|]. split.
  - rewrite <- (map_nth_seq (ct_stateTable ct)).
    replace (length (ct_stateTable ct)) with (length S) by lia.
    replace (Z.to_nat T) with (length S) by lia.
    rewrite <- cells_perm at 1. rewrite map_map.
    apply Permutation_refl'. apply map_ext_in. intros k Hk. apply in_seq in Hk.
    apply (rd_nth 0). unfold cell.
    destruct (state_index_range N tableLog N_normalized k ltac:(fold S; lia)) as [_ Hr].
    fold S T in Hr. rewrite Z2Nat.id by lia. apply Hcells. lia.
  - intros s i Hs Hi.
    pose proof (cumul_before_mono N 0 s Hnn ltac:(lia)) as H0.
    pose proof (cumul_before_mono N 0 (s + 1) Hnn ltac:(lia)) as H1.
    destruct (cell_onto i ltac:(lia)) as (k & Hk & Hki).
    exists k. split; [rewrite <- Hki; apply Hcells; exact Hk|]. split; [exact Hk|].
    assert (Hsym : nth k S 0 = s) by (apply symbol_of_cell; [exact Hs|exact Hk|lia]).
    split; [exact Hsym|].
    intros i' k' Hi' Hrd.
    destruct (cell_onto i' ltac:(lia)) as (k2 & Hk2 & Hki2).
    pose proof (Hcells k2 Hk2) as Hrd2. rewrite Hki2, Hrd in Hrd2.
    assert (k' = k2) by (inversion Hrd2; lia). subst k2.
    assert (Hsym' : nth k' S 0 = s) by (apply symbol_of_cell; [exact Hs|exact Hk2|lia]).
    destruct (Nat.lt_trichotomy k k') as [Hlt|[Heq|Hgt]]; [exact Hlt| |].
    + subst k'. lia.
    + pose proof (occ_before_mono S k' k Hgt Hk ltac:(congruence)) as Hocc.
      unfold state_index in Hki, Hki2. rewrite Hsym in Hki. rewrite Hsym' in Hki2. lia.
Qed.

End StateTable.

(** X13.  For a normalized table the state table built by
    [FSE_buildCTable] is a rearrangement of the states [T .. 2T-1],
    sorted by symbol: the cells from the cumulated weight before a
    symbol up to the cumulated weight after it hold exactly the states
    whose cell of the spread array carries that symbol, in increasing
    order. *)
Theorem state_table_is_sorted_by_symbol :
  forall (N : list Z) (tableLog : Z),
    normalized N tableLog ->
    exists ct,
      FSE_buildCTable N (Z.of_nat (length N)) tableLog = Some (inr ct)
      /\ Permutation (ct_stateTable ct)
           (map (fun k => Z.shiftl 1 tableLog + Z.of_nat k)
                (seq 0 (Z.to_nat (Z.shiftl 1 tableLog))))
      /\ forall s i,
           0 <= s < Z.of_nat (length N) ->
           cumul_before N s <= i < cumul_before N (s + 1) ->
           exists k : nat,
             rd (ct_stateTable ct) i = Some (Z.shiftl 1 tableLog + Z.of_nat k)
             /\ (k < length (spread_of N tableLog))%nat
             /\ nth k (spread_of N tableLog) 0 = s
             /\ forall i' (k' : nat),
                  i < i' < cumul_before N (s + 1) ->
                  rd (ct_stateTable ct) i' = Some (Z.shiftl 1 tableLog + Z.of_nat k') ->
                  (k < k')%nat.
Proof. intros N tableLog H. exact (state_table_shape N tableLog H). Qed.

Lemma state_table_is_sorted_by_symbol_witness :
  exists ct,
    FSE_buildCTable [10; 0; 22] 3 5 = Some (inr ct)
    /\ Permutation (ct_stateTable ct) (map (fun k => 32 + Z.of_nat k) (seq 0 32)).
Proof.
  destruct (state_table_is_sorted_by_symbol [10; 0; 22] 5) as (ct & Hct & Hperm & _).
  - unfold normalized, FSE_MIN_TABLELOG, FSE_MAX_TABLELOG, FSE_MEMORY_USAGE.
    repeat split; try (simpl; lia). repeat constructor; lia.
  - exists ct. split; [exact Hct|exact Hperm].
Defined.

(** ** 16-bit symbols: the compression table *)

Lemma wr_local_in (a : list Z) (i v : Z) :
  0 <= i < Z.of_nat (length a) -> wr_local a i v = Some (wr a i v).
Proof.
  intros H. unfold wr_local.
  destruct (Z.leb_spec 0 i); [|lia]. destruct (Z.ltb_spec i (Z.of_nat (length a))); [|lia].
  reflexivity.
Qed.

Lemma spread_plan_nth (N : list Z) :
  forall (s0 i : Z),
    Forall (fun c => 0 <= c) N -> 0 <= s0 -> s0 + Z.of_nat (length N) <= 256 ->
    0 <= i < sum_list N ->
    exists j : nat,
      (j < length N)%nat
      /\ nth (Z.to_nat i) (spread_plan N s0) 0 = s0 + Z.of_nat j
      /\ sum_list (take j N) <= i < sum_list (take (Datatypes.S j) N).
Proof.
  induction N as [|c N IH]; intros s0 i HN Hs0 Hlen Hi; cbn [sum_list] in Hi; [lia|].
  inversion HN as [|? ? Hc HN']; subst. cbn [length] in Hlen. cbn [spread_plan].
  destruct (Z_lt_ge_dec i c) as [Hlt|Hge].
  - exists 0%nat. cbn [length]. split; [lia|].
    rewrite app_nth1 by (rewrite repeat_length; lia).
    rewrite (nth_indep _ 0 (u8 s0)) by (rewrite repeat_length; lia). rewrite nth_repeat.
    unfold u8. rewrite Z.mod_small by (change (2 ^ 8) with 256; lia).
    split; [lia|]. change (take 1 (c :: N)) with [c]. rewrite take_0. cbn [sum_list]. lia.
  - destruct (IH (s0 + 1) (i - c) HN' ltac:(lia) ltac:(lia) ltac:(lia)) as (j & Hj & Hn & Hr).
    exists (Datatypes.S j). cbn [length]. split; [lia|].
    rewrite app_nth2 by (rewrite repeat_length; lia). rewrite repeat_length.
    replace (Z.to_nat i - Z.to_nat c)%nat with (Z.to_nat (i - c)) by lia.
    rewrite Hn. split; [lia|]. rewrite !firstn_cons. cbn [sum_list]. lia.
Qed.

Section Table16.

Variable N : list Z.
Variable tableLog : Z.
Hypothesis N_normalized : normalized N tableLog.

Let T : Z := Z.shiftl 1 tableLog.
Let plan : list Z := spread_plan N 0.

Lemma table16_log : FSE_MIN_TABLELOG <= tableLog <= FSE_MAX_TABLELOG.
Proof. destruct N_normalized as (H & _). exact H. Qed.

Lemma plan_symbol (i : Z) :
  0 <= i < T ->
  0 <= nth (Z.to_nat i) plan 0 < Z.of_nat (length N)
  /\ cumul_before N (nth (Z.to_nat i) plan 0) <= i
     < cumul_before N (nth (Z.to_nat i) plan 0 + 1).
Proof.
  intros Hi. destruct (tables_N N tableLog N_normalized) as (H256 & Hnn & Hsum). fold T in Hsum.
  destruct (spread_plan_nth N 0 i Hnn ltac:(lia) ltac:(lia) ltac:(lia)) as (j & Hj & Hn & Hr).
  fold plan in Hn. rewrite Hn. unfold cumul_before.
  replace (Z.to_nat (0 + Z.of_nat j)) with j by lia.
  replace (Z.to_nat (0 + Z.of_nat j + 1)) with (Datatypes.S j) by lia. lia.
Qed.

Lemma symbolPos_cells :
  exists tl,
    cumul_fill (Z.to_nat (Z.of_nat (length N) - 1)) N 0 = Some tl
    /\ Z.of_nat (length (0 :: tl ++ [T + 1])) = Z.of_nat (length N) + 1
    /\ (forall s, 0 <= s < Z.of_nat (length N) ->
                  rd (0 :: tl ++ [T + 1]) s = Some (cumul_before N s))
    /\ rd (0 :: tl ++ [T + 1]) (Z.of_nat (length N)) = Some (T + 1).
Proof.
  destruct (tables_N N tableLog N_normalized) as (H256 & Hnn & Hsum). fold T in Hsum.
  destruct (tables_T N tableLog N_normalized) as (_ & HTr & _). fold T in HTr.
  assert (Hne : (0 < length N)%nat).
  { destruct N; [cbn [sum_list] in Hsum; lia | cbn [length]; lia]. }
  destruct (cumul_table N tableLog N_normalized) as (tl & Htl & _ & Hnth). fold T in Hnth.
  destruct (cumul_fill_spec (Z.to_nat (Z.of_nat (length N) - 1)) N 0) as (tl' & Htl' & Hlen & _);
    try lia; try assumption.
  rewrite Htl in Htl'. inversion Htl'; subst tl'.
  assert (Hl : Z.of_nat (length (0 :: tl ++ [T + 1])) = Z.of_nat (length N) + 1).
  { cbn [length]. rewrite length_app. cbn [length]. lia. }
  exists tl. split; [exact Htl|]. split; [exact Hl|]. split.
  - intros s Hs. rewrite rd_in_range by lia. rewrite Hnth by lia. reflexivity.
  - rewrite rd_in_range by lia. f_equal.
    replace (Z.to_nat (Z.of_nat (length N))) with (Datatypes.S (length tl)) by lia.
    cbn [nth]. rewrite app_nth2 by lia. rewrite Nat.sub_diag. reflexivity.
Qed.

Lemma cumul_top : cumul_before N (Z.of_nat (length N)) = T.
Proof.
  destruct (tables_N N tableLog N_normalized) as (_ & _ & Hsum). fold T in Hsum.
  unfold cumul_before. rewrite Nat2Z.id, take_ge by lia. exact Hsum.
Qed.

(** The scan stops on the first symbol, from [s] on, whose range ends
    beyond [i + 1]. *)
Lemma next_symbol_spec (symbolPos : list Z) (i : Z) :
  (forall s, 0 <= s < Z.of_nat (length N) -> rd symbolPos s = Some (cumul_before N s)) ->
  rd symbolPos (Z.of_nat (length N)) = Some (T + 1) ->
  -1 <= i < T ->
  forall (fuel : nat) (s s' : Z),
    0 <= s <= s' -> s' < Z.of_nat (length N) ->
    (s < s' -> cumul_before N s' <= i + 1) ->
    (s' + 1 < Z.of_nat (length N) -> i + 1 < cumul_before N (s' + 1)) ->
    (Z.to_nat (s' - s) < fuel)%nat ->
    next_symbol fuel symbolPos i s = Some s'.
Proof.
  intros Hcells Hlast Hi.
  destruct (tables_N N tableLog N_normalized) as (H256 & Hnn & Hsum). fold T in Hsum.
  induction fuel as [|fuel IH]; intros s s' Hs Hs' Hlow Hhigh Hf; [lia|].
  cbn [next_symbol].
  destruct (Z.eq_dec s s') as [<-|Hne].
  - destruct (Z.eq_dec (s + 1) (Z.of_nat (length N))) as [E|E].
    + rewrite E, Hlast. cbn [mbind option_bind]. rewrite gtb_false by lia. reflexivity.
    + rewrite Hcells by lia. cbn [mbind option_bind]. rewrite gtb_false by lia. reflexivity.
  - rewrite Hcells by lia. cbn [mbind option_bind].
    pose proof (cumul_before_mono N (s + 1) s' Hnn ltac:(lia)) as Hm.
    rewrite gtb_true by lia.
    unfold u16. rewrite Z.mod_small by (change (2 ^ 16) with 65536; lia).
    apply IH; lia.
Qed.

Lemma skip_empty_spec (symbolPos : list Z) :
  (forall s, 0 <= s < Z.of_nat (length N) -> rd symbolPos s = Some (cumul_before N s)) ->
  rd symbolPos (Z.of_nat (length N)) = Some (T + 1) ->
  forall (fuel : nat) (s s' : Z),
    0 <= s <= s' -> s' < Z.of_nat (length N) ->
    (s < s' -> cumul_before N s' <= 0) ->
    (s' + 1 < Z.of_nat (length N) -> 0 < cumul_before N (s' + 1)) ->
    (Z.to_nat (s' - s) < fuel)%nat ->
    skip_empty fuel symbolPos s = Some s'.
Proof.
  intros Hcells Hlast.
  destruct (tables_N N tableLog N_normalized) as (H256 & Hnn & Hsum). fold T in Hsum.
  destruct (tables_T N tableLog N_normalized) as (_ & HTr & _). fold T in HTr.
  induction fuel as [|fuel IH]; intros s s' Hs Hs' Hlow Hhigh Hf; [lia|].
  cbn [skip_empty].
  destruct (Z.eq_dec s s') as [<-|Hne].
  - destruct (Z.eq_dec (s + 1) (Z.of_nat (length N))) as [E|E].
    + rewrite E, Hlast. cbn [mbind option_bind].
      destruct (Z.eqb_spec (T + 1) 0); [lia|reflexivity].
    + rewrite Hcells by lia. cbn [mbind option_bind].
      destruct (Z.eqb_spec (cumul_before N (s + 1)) 0); [lia|reflexivity].
  - rewrite Hcells by lia. cbn [mbind option_bind].
    pose proof (cumul_before_mono N (s + 1) s' Hnn ltac:(lia)) as Hm.
    pose proof (cumul_before_mono N 0 (s + 1) Hnn ltac:(lia)) as Hm0.
    destruct (Z.eqb_spec (cumul_before N (s + 1)) 0); [|lia].
    unfold u16. rewrite Z.mod_small by (change (2 ^ 16) with 65536; lia).
    apply IH; lia.
Qed.

Lemma spread_u16_writes (symbolPos : list Z) :
  (forall s, 0 <= s < Z.of_nat (length N) -> rd symbolPos s = Some (cumul_before N s)) ->
  rd symbolPos (Z.of_nat (length N)) = Some (T + 1) ->
  Z.of_nat (length symbolPos) = Z.of_nat (length N) + 1 ->
  forall (n : nat) (i : Z) (tbl : list Z),
    0 <= i -> i + Z.of_nat n = T -> T <= Z.of_nat (length tbl) ->
    spread_u16 n symbolPos tbl i (nth (Z.to_nat i) plan 0) (cursor tableLog i)
               (FSE_TABLESTEP T) (T - 1)
    = Some (writes tableLog tbl i (drop (Z.to_nat i) plan)).
Proof.
  intros Hcells Hlast Hlen.
  destruct (tables_N N tableLog N_normalized) as (H256 & Hnn & Hsum). fold T in Hsum.
  assert (Hplan : Z.of_nat (length plan) = T).
  { unfold plan. rewrite (spread_plan_length 0) by exact Hnn. exact Hsum. }
  induction n as [|n IH]; intros i tbl Hi Hn Htbl.
  - cbn [spread_u16]. rewrite drop_ge by lia. reflexivity.
  - cbn [spread_u16].
    pose proof (cursor_range tableLog table16_log i) as Hcur. fold T in Hcur.
    rewrite wr_local_in by lia. cbn [mbind option_bind].
    destruct (plan_symbol i ltac:(lia)) as (Hs & Hr).
    assert (Hnext : exists s', next_symbol (length symbolPos) symbolPos i
                                 (nth (Z.to_nat i) plan 0) = Some s'
                               /\ (i + 1 < T -> s' = nth (Z.to_nat (i + 1)) plan 0)).
    { destruct (Z_lt_ge_dec (i + 1) T) as [Hlt|Hge].
      - destruct (plan_symbol (i + 1) ltac:(lia)) as (Hs' & Hr').
        exists (nth (Z.to_nat (i + 1)) plan 0). split; [|reflexivity].
        assert (Hle : nth (Z.to_nat i) plan 0 <= nth (Z.to_nat (i + 1)) plan 0).
        { destruct (Z_le_gt_dec (nth (Z.to_nat i) plan 0) (nth (Z.to_nat (i + 1)) plan 0));
            [assumption|].
          pose proof (cumul_before_mono N (nth (Z.to_nat (i + 1)) plan 0 + 1)
                        (nth (Z.to_nat i) plan 0) Hnn ltac:(lia)). lia. }
        apply (next_symbol_spec symbolPos i Hcells Hlast); lia.
      - exists (Z.of_nat (length N) - 1). split; [|lia].
        apply (next_symbol_spec symbolPos i Hcells Hlast); try lia.
        intros Hlt.
        pose proof (cumul_before_mono N (Z.of_nat (length N) - 1) (Z.of_nat (length N)) Hnn
                      ltac:(lia)) as Hm.
        rewrite cumul_top in Hm. lia. }
    destruct Hnext as (s' & Hs'run & Hs'eq). rewrite Hs'run. cbn [mbind option_bind].
    rewrite (cursor_next tableLog table16_log).
    rewrite (drop_S plan (nth (Z.to_nat i) plan 0) (Z.to_nat i)) by (apply lookup_nth; lia).
    cbn [writes]. replace (Datatypes.S (Z.to_nat i)) with (Z.to_nat (i + 1)) by lia.
    destruct n as [|n'].
    + cbn [spread_u16]. rewrite drop_ge by lia. reflexivity.
    + rewrite Hs'eq by lia. apply IH; [lia|lia|]. rewrite wr_length. exact Htbl.
Qed.

Lemma buildCTableU16_agrees :
  exists ct,
    FSE_buildCTableU16 N (Z.of_nat (length N)) tableLog = Some (0, ct)
    /\ FSE_buildCTable N (Z.of_nat (length N)) tableLog = Some (inr ct).
Proof.
  destruct (tables_N N tableLog N_normalized) as (H256 & Hnn & Hsum). fold T in Hsum.
  destruct (tables_T N tableLog N_normalized) as (_ & HTr & _). fold T in HTr.
  destruct (buildCTable_cells N tableLog N_normalized) as (ct & Hct & _).
  exists ct. split; [|exact Hct].
  unfold FSE_buildCTable in Hct. unfold FSE_buildCTableU16. fold T in Hct |- *.
  destruct symbolPos_cells as (tl & Htl & Hlen & Hcells & Hlast).
  rewrite Htl in Hct |- *. cbn [mbind option_bind] in Hct |- *.
  rewrite (spread_scratch N tableLog N_normalized) in Hct. cbn [mbind option_bind] in Hct.
  change (0 =? -1) with false in Hct. cbv iota in Hct.
  destruct (plan_symbol 0 ltac:(lia)) as (Hs0 & Hr0).
  rewrite (skip_empty_spec _ Hcells Hlast _ 0 (nth (Z.to_nat 0) plan 0)); try lia.
  cbn [mbind option_bind].
  change 0 with (cursor tableLog 0) at 4.
  rewrite (spread_u16_writes _ Hcells Hlast Hlen (Z.to_nat T) 0)
    by (rewrite ?repeat_length; change (Z.to_nat FSE_MAX_TABLESIZE) with 4096%nat; lia).
  cbn [mbind option_bind]. change (Z.to_nat 0) with 0%nat. rewrite drop_0. fold plan in Hct.
  destruct (ctable_fill _ _ _ _ _ _) as [tableU16|]; [|discriminate Hct].
  cbn [mbind option_bind] in Hct |- *.
  destruct (ctable_transforms _ _ _ _ _) as [tt|]; [|discriminate Hct].
  cbn [mbind option_bind] in Hct |- *. inversion Hct. reflexivity.
Qed.

End Table16.

(** X14.  On a normalized table [FSE_buildCTableU16] returns 0 and
    builds the very table [FSE_buildCTable] builds: its spread loop,
    driven by the cell index and the sentinel [symbolPos[nbSymbols]],
    emits the symbols in the same order as the count-driven loop of
    [FSE_spreadSymbols8], and reads [symbolPos] only where it has been
    written. *)
Theorem buildCTableU16_builds_the_byte_table :
  forall (N : list Z) (tableLog : Z),
    normalized N tableLog ->
    exists ct,
      FSE_buildCTableU16 N (Z.of_nat (length N)) tableLog = Some (0, ct)
      /\ FSE_buildCTable N (Z.of_nat (length N)) tableLog = Some (inr ct).
Proof. intros N tableLog H. exact (buildCTableU16_agrees N tableLog H). Qed.

Lemma buildCTableU16_builds_the_byte_table_witness :
  exists ct,
    FSE_buildCTableU16 [10; 0; 22] 3 5 = Some (0, ct)
    /\ FSE_buildCTable [10; 0; 22] 3 5 = Some (inr ct).
Proof.
  apply (buildCTableU16_builds_the_byte_table [10; 0; 22] 5).
  unfold normalized, FSE_MIN_TABLELOG, FSE_MAX_TABLELOG, FSE_MEMORY_USAGE.
  repeat split; try (simpl; lia). repeat constructor; lia.
Defined.

(** ** 16-bit symbols: the decoding table *)

Lemma symbolNext_fill_spec (n : nat) :
  forall (N : list Z) (prev : Z),
    (n <= length N)%nat -> Forall (fun c => 0 <= c) N ->
    0 <= prev -> prev + sum_list N < 2 ^ 32 ->
    exists l, symbolNext_fill n N prev = Some l /\ length l = n
      /\ forall j, (j < n)%nat -> nth j l 0 = prev + sum_list (take (Datatypes.S j) N).
Proof.
  induction n as [|n IH]; intros N prev Hn Hnn Hp Hsum.
  - exists []. repeat split. intros j Hj. lia.
  - destruct N as [|c N]; cbn [length] in Hn; [lia|].
    inversion Hnn as [|? ? Hc Hnn']; subst. cbn [sum_list] in Hsum.
    pose proof (sum_list_nonneg N Hnn') as Hs0.
    cbn [symbolNext_fill]. rewrite u32_small by lia.
    destruct (IH N (prev + c) ltac:(lia) Hnn' ltac:(lia) ltac:(lia)) as (l & Hl & Hlen & Hnth).
    rewrite Hl. cbn [mbind option_bind]. exists (prev + c :: l).
    split; [reflexivity|]. split; [cbn [length]; lia|].
    intros [|j] Hj.
    + cbn [nth]. rewrite firstn_cons, take_0. cbn [sum_list]. lia.
    + cbn [nth]. rewrite Hnth by lia. rewrite firstn_cons. cbn [sum_list]. lia.
Qed.

(** The scan stops on the first cell, from [s] on, that holds the bound
    or more; it leaves the array when there is none. *)
Lemma next_counter_scan (a : list Z) (i : Z) :
  forall (fuel : nat) (s s' : Z),
    0 <= s <= s' ->
    (forall j, s <= j < s' -> exists v, rd a j = Some v /\ v < u32 (u32 i + 2)) ->
    (exists v, rd a s' = Some v /\ u32 (u32 i + 2) <= v) ->
    (Z.to_nat (s' - s) < fuel)%nat ->
    next_counter fuel a i s = Some s'.
Proof.
  induction fuel as [|fuel IH]; intros s s' Hs Hlow Hhigh Hf; [lia|].
  cbn [next_counter]. destruct (Z.eq_dec s s') as [<-|Hne].
  - destruct Hhigh as (v & -> & Hv). cbn [mbind option_bind]. rewrite gtb_false by lia.
    reflexivity.
  - destruct (Hlow s ltac:(lia)) as (v & -> & Hv). cbn [mbind option_bind].
    rewrite gtb_true by lia. apply IH; [lia| |exact Hhigh|lia].
    intros j Hj. apply Hlow. lia.
Qed.

Lemma next_counter_found (a : list Z) (i : Z) :
  forall (fuel : nat) (s : nat),
    (length a <= fuel + s)%nat ->
    Exists (fun v => u32 (u32 i + 2) <= v) (drop s a) ->
    exists s', next_counter fuel a i (Z.of_nat s) = Some s'.
Proof.
  induction fuel as [|fuel IH]; intros s Hf Hex.
  - rewrite drop_ge in Hex by lia. inversion Hex.
  - cbn [next_counter].
    destruct (a !! s) as [v|] eqn:Ev.
    + unfold rd. destruct (Z.of_nat s <? 0) eqn:E; [lia|]. rewrite Nat2Z.id, Ev.
      cbn [mbind option_bind].
      rewrite (drop_S a v s Ev) in Hex.
      destruct (Z.gtb_spec (u32 (u32 i + 2)) v) as [Hgt|Hle].
      * replace (Z.of_nat s + 1) with (Z.of_nat (Datatypes.S s)) by lia. apply IH; [lia|].
        inversion Hex; subst; [lia|assumption].
      * eexists. reflexivity.
    + apply lookup_ge_None in Ev. rewrite drop_ge in Hex by lia. inversion Hex.
Qed.

Lemma next_counter_lost (a : list Z) (i : Z) :
  forall (fuel : nat) (s : nat),
    Forall (fun v => v < u32 (u32 i + 2)) (drop s a) ->
    next_counter fuel a i (Z.of_nat s) = None.
Proof.
  induction fuel as [|fuel IH]; intros s Hall; [reflexivity|].
  cbn [next_counter]. unfold rd. destruct (Z.of_nat s <? 0) eqn:E; [lia|]. rewrite Nat2Z.id.
  destruct (a !! s) as [v|] eqn:Ev; [|reflexivity].
  cbn [mbind option_bind]. rewrite (drop_S a v s Ev) in Hall.
  inversion Hall as [|? ? Hv Hall']; subst. rewrite gtb_true by lia.
  replace (Z.of_nat s + 1) with (Z.of_nat (Datatypes.S s)) by lia. apply IH. exact Hall'.
Qed.

Lemma skip_zero_scan (a : list Z) :
  forall (fuel : nat) (s s' : Z),
    0 <= s <= s' ->
    (forall j, s <= j < s' -> rd a j = Some 0) ->
    (exists v, rd a s' = Some v /\ v <> 0) ->
    (Z.to_nat (s' - s) < fuel)%nat ->
    skip_zero fuel a s = Some s'.
Proof.
  induction fuel as [|fuel IH]; intros s s' Hs Hlow Hhigh Hf; [lia|].
  cbn [skip_zero]. destruct (Z.eq_dec s s') as [<-|Hne].
  - destruct Hhigh as (v & -> & Hv). cbn [mbind option_bind].
    destruct (Z.eqb_spec v 0); [lia|reflexivity].
  - rewrite (Hlow s ltac:(lia)). cbn [mbind option_bind]. change (0 =? 0) with true. cbv iota.
    apply IH; [lia| |exact Hhigh|lia]. intros j Hj. apply Hlow. lia.
Qed.

(** The two entry types hold the same fields as long as the bit count
    fits the 4-bit field. *)
Lemma dtable_fill_u16_agrees (tableLog tableSize : Z) (g : list Z) :
  forall (syms next : list Z) (t8 : list FSE_decode_t),
    dtable_fill syms next tableLog tableSize = Some t8 ->
    Forall (fun e => 0 <= nbBits e < 16) t8 ->
    exists t, dtable_fill_u16 syms (next ++ g) tableLog tableSize = Some t
      /\ map U16.symbol t = map symbol t8
      /\ map U16.nbBits t = map nbBits t8
      /\ map U16.newState t = map newState t8.
Proof.
  induction syms as [|s syms IH]; intros next t8 H8 Hnb.
  - cbn [dtable_fill] in H8. inversion H8; subst. exists []. repeat split.
  - cbn [dtable_fill] in H8. apply bind_Some in H8. destruct H8 as (nextState & Hrd & H8).
    cbv zeta in H8. apply bind_Some in H8. destruct H8 as (l & Hl & H8).
    inversion H8; subst t8. inversion Hnb as [|? ? Hnb0 Hnb']; subst. cbn [nbBits] in Hnb0.
    assert (Hs : 0 <= s /\ (Z.to_nat s < length next)%nat).
    { unfold rd in Hrd. destruct (s <? 0) eqn:E; [discriminate|].
      apply lookup_lt_Some in Hrd. lia. }
    assert (Hrd' : rd (next ++ g) s = Some nextState).
    { unfold rd in *. destruct (s <? 0); [discriminate|].
      rewrite lookup_app_l by lia. exact Hrd. }
    assert (Hwr : wr (next ++ g) s (u32 (nextState + 1)) = wr next s (u32 (nextState + 1)) ++ g).
    { unfold wr. destruct (s <? 0) eqn:E; [lia|]. apply insert_app_l. lia. }
    cbn [dtable_fill_u16]. rewrite Hrd'. cbn [mbind option_bind]. cbv zeta. rewrite Hwr.
    destruct (IH _ _ Hl Hnb') as (t & Ht & H1 & H2 & H3). rewrite Ht. cbn [mbind option_bind].
    assert (Hland : Z.land (u8 (tableLog - FSE_highbit nextState)) 15
                    = u8 (tableLog - FSE_highbit nextState)).
    { change 15 with (Z.ones 4). rewrite Z.land_ones by lia. apply Z.mod_small.
      change (2 ^ 4) with 16. lia. }
    rewrite Hland. eexists. split; [reflexivity|].
    cbn [map U16.symbol U16.nbBits U16.newState symbol nbBits newState].
    rewrite H1, H2, H3. repeat split.
Qed.

Section DecodeTable16.

Variable N : list Z.
Variable tableLog : Z.
Hypothesis N_normalized : normalized N tableLog.

Let T : Z := Z.shiftl 1 tableLog.
Let plan : list Z := spread_plan N 0.

Lemma symbolNext_written :
  exists c0 tl,
    rd N 0 = Some c0
    /\ symbolNext_fill (Z.to_nat (Z.of_nat (length N) - 1)) (drop 1 N) c0 = Some tl
    /\ length (c0 :: tl) = length N
    /\ forall s, 0 <= s < Z.of_nat (length N) ->
                 (c0 :: tl) !! Z.to_nat s = Some (cumul_before N (s + 1)).
Proof.
  destruct (tables_N N tableLog N_normalized) as (H256 & Hnn & Hsum). fold T in Hsum.
  destruct (tables_T N tableLog N_normalized) as (_ & HTr & _). fold T in HTr.
  destruct N as [|c0 N'] eqn:EN; [cbn [sum_list] in Hsum; lia|].
  inversion Hnn as [|? ? Hc0 Hnn']; subst. cbn [sum_list] in Hsum.
  pose proof (sum_list_nonneg N' Hnn') as Hs0.
  exists c0. cbn [length drop].
  replace (Z.to_nat (Z.of_nat (Datatypes.S (length N')) - 1)) with (length N') by lia.
  destruct (symbolNext_fill_spec (length N') N' c0 ltac:(lia) Hnn' Hc0
              ltac:(change (2 ^ 32) with 4294967296; lia)) as (tl & Htl & Hlen & Hnth).
  exists tl. split; [reflexivity|]. split; [exact Htl|]. split; [cbn [length]; lia|].
  intros s Hs. unfold cumul_before.
  destruct (Z.to_nat s) as [|j] eqn:Ej.
  - replace (Z.to_nat (s + 1)) with 1%nat by lia. change ((c0 :: tl) !! 0%nat) with (Some c0).
    rewrite firstn_cons, take_0. cbn [sum_list]. f_equal. lia.
  - replace (Z.to_nat (s + 1)) with (Datatypes.S (Datatypes.S j)) by lia.
    change ((c0 :: tl) !! Datatypes.S j) with (tl !! j).
    rewrite (lookup_nth tl j) by lia. rewrite Hnth by lia.
    rewrite (firstn_cons (Datatypes.S j) c0 N'). cbn [sum_list]. reflexivity.
Qed.

Variable stack : list Z.
Let G : list Z := drop (length N) stack.

Variable A : list Z.
Hypothesis A_cells :
  forall s, 0 <= s < Z.of_nat (length N) -> rd A s = Some (cumul_before N (s + 1)).
Hypothesis A_rest : drop (length N) A = G.

Lemma A_scan_to (i s s' : Z) :
  0 <= i < T -> 0 <= s <= s' -> s' < Z.of_nat (length N) ->
  (s < s' -> cumul_before N s' <= i + 1) ->
  i + 1 < cumul_before N (s' + 1) ->
  next_counter (length A) A i s = Some s'.
Proof.
  intros Hi Hs Hs' Hlow Hhigh.
  destruct (tables_N N tableLog N_normalized) as (H256 & Hnn & Hsum). fold T in Hsum.
  destruct (tables_T N tableLog N_normalized) as (_ & HTr & _). fold T in HTr.
  assert (Hb : u32 (u32 i + 2) = i + 2).
  { rewrite (u32_small i) by (change (2 ^ 32) with 4294967296; lia).
    apply u32_small. change (2 ^ 32) with 4294967296. lia. }
  assert (HlenA : Z.of_nat (length N) <= Z.of_nat (length A)).
  { destruct (Z_le_gt_dec (Z.of_nat (length N)) (Z.of_nat (length A))); [assumption|].
    specialize (A_cells (Z.of_nat (length N) - 1) ltac:(lia)).
    unfold rd in A_cells. destruct (_ <? 0); [discriminate|].
    apply lookup_lt_Some in A_cells. lia. }
  apply next_counter_scan; [lia| | |lia].
  - intros j Hj. exists (cumul_before N (j + 1)). split; [apply A_cells; lia|].
    pose proof (cumul_before_mono N (j + 1) s' Hnn ltac:(lia)). rewrite Hb. lia.
  - exists (cumul_before N (s' + 1)). split; [apply A_cells; lia|]. rewrite Hb. lia.
Qed.

Lemma plan_mono (i : Z) :
  0 <= i -> i + 1 < T -> nth (Z.to_nat i) plan 0 <= nth (Z.to_nat (i + 1)) plan 0.
Proof.
  intros Hi Hlt. destruct (tables_N N tableLog N_normalized) as (_ & Hnn & _).
  destruct (plan_symbol N tableLog N_normalized i ltac:(fold T; lia)) as (Hs & Hr).
  destruct (plan_symbol N tableLog N_normalized (i + 1) ltac:(fold T; lia)) as (Hs' & Hr').
  fold plan in Hs, Hr, Hs', Hr'.
  destruct (Z_le_gt_dec (nth (Z.to_nat i) plan 0) (nth (Z.to_nat (i + 1)) plan 0));
    [assumption|].
  pose proof (cumul_before_mono N (nth (Z.to_nat (i + 1)) plan 0 + 1)
                (nth (Z.to_nat i) plan 0) Hnn ltac:(lia)). lia.
Qed.

Lemma spread_decode_u16_writes :
  forall (n : nat) (i : Z) (tbl : list Z),
    0 <= i -> i + Z.of_nat n = T -> (0 < n)%nat -> T <= Z.of_nat (length tbl) ->
    spread_decode_u16 n A tbl i (nth (Z.to_nat i) plan 0) (cursor tableLog i)
                      (u32 (FSE_TABLESTEP T)) (T - 1)
    = (s ← next_counter (length A) A (T - 1) (nth (Z.to_nat (T - 1)) plan 0);
       Some (writes tableLog tbl i (drop (Z.to_nat i) plan))).
Proof.
  destruct (tables_N N tableLog N_normalized) as (H256 & Hnn & Hsum). fold T in Hsum.
  destruct (tables_T N tableLog N_normalized) as (_ & HTr & _). fold T in HTr.
  assert (Hplan : Z.of_nat (length plan) = T).
  { unfold plan. rewrite (spread_plan_length 0) by exact Hnn. exact Hsum. }
  assert (Hstep : u32 (FSE_TABLESTEP T) = FSE_TABLESTEP T).
  { apply u32_small. unfold FSE_TABLESTEP. rewrite !Z.shiftr_div_pow2 by lia.
    change (2 ^ 1) with 2. change (2 ^ 3) with 8. change (2 ^ 32) with 4294967296.
    pose proof (Z.div_pos T 2 ltac:(lia) ltac:(lia)).
    pose proof (Z.div_pos T 8 ltac:(lia) ltac:(lia)).
    pose proof (Z.div_le_upper_bound T 2 T ltac:(lia) ltac:(lia)).
    pose proof (Z.div_le_upper_bound T 8 T ltac:(lia) ltac:(lia)). lia. }
  rewrite Hstep.
  induction n as [|n IH]; intros i tbl Hi Hn Hpos Htbl; [lia|].
  cbn [spread_decode_u16].
  pose proof (cursor_range tableLog (table16_log N tableLog N_normalized) i) as Hcur.
  fold T in Hcur. rewrite wr_local_in by lia. cbn [mbind option_bind].
  destruct (plan_symbol N tableLog N_normalized i ltac:(fold T; lia)) as (Hs & Hr).
  fold plan in Hs, Hr.
  assert (Hfield : Z.land (u16 (nth (Z.to_nat i) plan 0)) 4095 = nth (Z.to_nat i) plan 0).
  { rewrite u16_small by (change (2 ^ 16) with 65536; lia).
    change 4095 with (Z.ones 12). rewrite Z.land_ones by lia. apply Z.mod_small.
    change (2 ^ 12) with 4096. lia. }
  rewrite Hfield.
  rewrite (drop_S plan (nth (Z.to_nat i) plan 0) (Z.to_nat i)) by (apply lookup_nth; lia).
  cbn [writes]. replace (Datatypes.S (Z.to_nat i)) with (Z.to_nat (i + 1)) by lia.
  destruct n as [|n'].
  - replace i with (T - 1) by lia.
    destruct (next_counter _ _ _ _); cbn [mbind option_bind spread_decode_u16]; [|reflexivity].
    rewrite drop_ge by lia. reflexivity.
  - destruct (plan_symbol N tableLog N_normalized (i + 1) ltac:(fold T; lia)) as (Hs' & Hr').
    fold plan in Hs', Hr'.
    rewrite (A_scan_to i _ (nth (Z.to_nat (i + 1)) plan 0)); try lia.
    + cbn [mbind option_bind]. rewrite (cursor_next tableLog (table16_log N tableLog N_normalized)).
      apply IH; [lia|lia|lia|]. rewrite wr_length. exact Htbl.
    + pose proof (plan_mono i ltac:(lia) ltac:(lia)). lia.
Qed.

(** The last round scans from the last symbol of the plan: every counter
    it meets is at most [T], and then come the cells the function never
    wrote. *)
Lemma last_scan_cells :
  exists sl : nat,
    nth (Z.to_nat (T - 1)) plan 0 = Z.of_nat sl
    /\ exists W, drop sl A = W ++ G /\ Forall (fun v => v <= T) W.
Proof.
  destruct (tables_N N tableLog N_normalized) as (H256 & Hnn & Hsum). fold T in Hsum.
  destruct (tables_T N tableLog N_normalized) as (_ & HTr & _). fold T in HTr.
  destruct (plan_symbol N tableLog N_normalized (T - 1) ltac:(fold T; lia)) as (Hs & _).
  fold plan in Hs.
  exists (Z.to_nat (nth (Z.to_nat (T - 1)) plan 0)). split; [lia|].
  set (sl := Z.to_nat (nth (Z.to_nat (T - 1)) plan 0)).
  exists (take (length N - sl) (drop sl A)). split.
  - rewrite <- A_rest. rewrite <- (take_drop (length N - sl) (drop sl A)) at 1.
    f_equal. rewrite drop_drop. f_equal. lia.
  - apply Forall_forall. intros v Hv. apply list_elem_of_In in Hv.
    apply (In_nth _ _ 0) in Hv. destruct Hv as (k & Hk & <-).
    rewrite length_take in Hk. rewrite nth_lookup, lookup_take_lt, lookup_drop by lia.
    specialize (A_cells (Z.of_nat (sl + k)) ltac:(lia)).
    unfold rd in A_cells. destruct (_ <? 0); [discriminate|]. rewrite Nat2Z.id in A_cells.
    rewrite A_cells. cbn [default from_option option_map id].
    pose proof (cumul_before_mono N (Z.of_nat (sl + k) + 1) (Z.of_nat (length N)) Hnn
                  ltac:(lia)) as Hm.
    rewrite (cumul_top N tableLog N_normalized) in Hm. fold T in Hm. lia.
Qed.

Lemma last_bound : u32 (u32 (T - 1) + 2) = T + 1.
Proof.
  destruct (tables_T N tableLog N_normalized) as (_ & HTr & _). fold T in HTr.
  rewrite (u32_small (T - 1)) by (change (2 ^ 32) with 4294967296; lia).
  rewrite u32_small by (change (2 ^ 32) with 4294967296; lia). lia.
Qed.

Lemma last_scan_lost :
  Forall (fun v => v <= T) G ->
  next_counter (length A) A (T - 1) (nth (Z.to_nat (T - 1)) plan 0) = None.
Proof.
  intros HG. destruct last_scan_cells as (sl & -> & W & HW & HWle).
  apply next_counter_lost. rewrite HW, last_bound. apply Forall_app. split.
  - eapply Forall_impl; [exact HWle|]. cbn. intros; lia.
  - eapply Forall_impl; [exact HG|]. cbn. intros; lia.
Qed.

Lemma last_scan_found :
  Exists (fun v => T < v) G ->
  exists s', next_counter (length A) A (T - 1) (nth (Z.to_nat (T - 1)) plan 0) = Some s'.
Proof.
  intros HG. destruct last_scan_cells as (sl & -> & W & HW & HWle).
  apply next_counter_found; [lia|]. rewrite HW, last_bound. apply Exists_app. right.
  eapply Exists_impl; [exact HG|]. cbn. intros; lia.
Qed.

Lemma first_symbol_found : skip_zero (length A) A 0 = Some (nth (Z.to_nat 0) plan 0).
Proof.
  destruct (tables_N N tableLog N_normalized) as (H256 & Hnn & Hsum). fold T in Hsum.
  destruct (tables_T N tableLog N_normalized) as (_ & HTr & _). fold T in HTr.
  destruct (plan_symbol N tableLog N_normalized 0 ltac:(fold T; lia)) as (Hs & Hr).
  fold plan in Hs, Hr.
  assert (HlenA : Z.of_nat (length N) <= Z.of_nat (length A)).
  { destruct (Z_le_gt_dec (Z.of_nat (length N)) (Z.of_nat (length A))); [assumption|].
    specialize (A_cells (Z.of_nat (length N) - 1) ltac:(lia)).
    unfold rd in A_cells. destruct (_ <? 0); [discriminate|].
    apply lookup_lt_Some in A_cells. lia. }
  apply skip_zero_scan; [lia| | |lia].
  - intros j Hj. rewrite A_cells by lia. f_equal.
    pose proof (cumul_before_mono N 0 (j + 1) Hnn ltac:(lia)).
    pose proof (cumul_before_mono N (j + 1) (nth (Z.to_nat 0) plan 0) Hnn ltac:(lia)). lia.
  - exists (cumul_before N (nth (Z.to_nat 0) plan 0 + 1)). split; [apply A_cells; lia|lia].
Qed.

End DecodeTable16.

Lemma cursor_start (tableLog : Z) : cursor tableLog 0 = 0.
Proof. unfold cursor. rewrite Z.mul_0_l. apply Zmod_0_l. Qed.

Lemma buildDTableU16_spec (N : list Z) (tableLog : Z) (stack : list Z) :
  normalized N tableLog ->
  Z.of_nat (length stack) = FSE_MAX_NB_SYMBOLS ->
  (Forall (fun v => v <= Z.shiftl 1 tableLog) (drop (length N) stack) ->
   FSE_buildDTableU16 stack N (Z.of_nat (length N)) tableLog = None)
  /\ (Exists (fun v => Z.shiftl 1 tableLog < v) (drop (length N) stack) ->
      exists t t8,
        FSE_buildDTableU16 stack N (Z.of_nat (length N)) tableLog = Some (inr t)
        /\ FSE_buildDTable N (Z.of_nat (length N)) tableLog = Some (inr t8)
        /\ map U16.symbol t = map symbol t8
        /\ map U16.nbBits t = map nbBits t8
        /\ map U16.newState t = map newState t8).
Proof.
  intros Hnorm Hstack.
  destruct (tables_N N tableLog Hnorm) as (H256 & Hnn & Hsum).
  destruct (tables_T N tableLog Hnorm) as (_ & HTr & HL).
  unfold FSE_MAX_NB_SYMBOLS in Hstack.
  destruct (symbolNext_written N tableLog Hnorm) as (c0 & tl & Hc0 & Htl & Hlen & Hcells).
  set (A := (c0 :: tl) ++ drop (length N) stack).
  assert (HA : take (Z.to_nat FSE_MAX_NB_SYMBOLS)
                 ((c0 :: tl) ++ drop (Datatypes.S (length tl)) stack) = A).
  { replace (Datatypes.S (length tl)) with (length N) by (cbn [length] in Hlen; lia).
    apply take_ge. unfold A. rewrite length_app, length_drop, Hlen.
    unfold FSE_MAX_NB_SYMBOLS. lia. }
  assert (A_cells : forall s, 0 <= s < Z.of_nat (length N) ->
                              rd A s = Some (cumul_before N (s + 1))).
  { intros s Hs. unfold rd. destruct (s <? 0) eqn:E; [lia|]. unfold A.
    rewrite lookup_app_l by lia. apply Hcells. exact Hs. }
  assert (A_rest : drop (length N) A = drop (length N) stack).
  { unfold A. rewrite <- Hlen. apply drop_app_length. }
  assert (Hprefix : FSE_buildDTableU16 stack N (Z.of_nat (length N)) tableLog
                    = (s ← next_counter (length A) A (Z.shiftl 1 tableLog - 1)
                            (nth (Z.to_nat (Z.shiftl 1 tableLog - 1)) (spread_plan N 0) 0);
                       t ← dtable_fill_u16 (spread_of N tableLog)
                             (N ++ drop (length N) stack) tableLog (Z.shiftl 1 tableLog);
                       Some (inr t))).
  { unfold FSE_buildDTableU16. cbv zeta.
    rewrite gtb_false by (unfold FSE_MAX_NB_SYMBOLS; lia).
    rewrite Hc0. cbn [mbind option_bind]. rewrite Htl. cbn [mbind option_bind].
    rewrite HA. rewrite (first_symbol_found N tableLog Hnorm A A_cells).
    cbn [mbind option_bind].
    pose proof (spread_decode_u16_writes N tableLog Hnorm A A_cells
                  (Z.to_nat (Z.shiftl 1 tableLog)) 0
                  (repeat 0 (Z.to_nat FSE_MAX_TABLESIZE)) ltac:(lia) ltac:(lia) ltac:(lia)
                  ltac:(rewrite repeat_length; change (Z.to_nat FSE_MAX_TABLESIZE) with 4096%nat;
                        lia))
      as Hspread.
    rewrite cursor_start in Hspread. rewrite Hspread.
    destruct (next_counter _ _ _ _); cbn [mbind option_bind]; [|reflexivity].
    change (Z.to_nat 0) with 0%nat. rewrite drop_0.
    rewrite Nat2Z.id, firstn_all, A_rest. reflexivity. }
  destruct (buildDTable_cells N tableLog Hnorm) as (t8 & Ht8 & _ & _ & Hent).
  assert (Hfill : dtable_fill (spread_of N tableLog) N tableLog (Z.shiftl 1 tableLog)
                  = Some t8).
  { unfold FSE_buildDTable in Ht8.
    rewrite gtb_false in Ht8 by (change FSE_MAX_NB_SYMBOLS_CHAR with 256; lia).
    rewrite gtb_false in Ht8 by (change FSE_MAX_TABLELOG with 12; lia).
    rewrite (spread_scratch N tableLog Hnorm) in Ht8. cbn [mbind option_bind] in Ht8.
    change (0 =? -1) with false in Ht8. cbv iota in Ht8.
    rewrite Nat2Z.id, firstn_all in Ht8. fold (spread_of N tableLog) in Ht8.
    destruct (dtable_fill _ _ _ _); [|discriminate Ht8].
    cbn [mbind option_bind] in Ht8. inversion Ht8. reflexivity. }
  split.
  - intros HG. rewrite Hprefix.
    rewrite (last_scan_lost N tableLog Hnorm stack A A_cells A_rest HG). reflexivity.
  - intros HG. rewrite Hprefix.
    destruct (last_scan_found N tableLog Hnorm stack A A_cells A_rest HG) as (s' & ->).
    cbn [mbind option_bind].
    destruct (dtable_fill_u16_agrees tableLog (Z.shiftl 1 tableLog) (drop (length N) stack)
                _ _ _ Hfill) as (t & Ht & H1 & H2 & H3).
    + apply Forall_forall. intros e He. apply list_elem_of_lookup_1 in He.
      destruct He as (k & Hk). destruct (Hent k e Hk) as (_ & _ & _ & _ & Hb & _). lia.
    + exists t, t8. rewrite Ht. cbn [mbind option_bind]. repeat split; assumption.
Qed.

(** X15.  [FSE_buildDTableU16] scans past the counters it has written.
    For a normalized table, the last round of its spread loop looks for
    a counter above the table size [T], and the counters it wrote stop
    at [T]: the scan goes on through the cells of the local array
    [symbolNext] that the function never initialised.  If none of them
    holds more than [T] it leaves the array; if one does, the table that
    results is the table of [FSE_buildDTable], field by field. *)
Theorem buildDTableU16_scans_unwritten_counters :
  forall (N : list Z) (tableLog : Z) (stack : list Z),
    normalized N tableLog ->
    Z.of_nat (length stack) = FSE_MAX_NB_SYMBOLS ->
    (Forall (fun v => v <= Z.shiftl 1 tableLog) (drop (length N) stack) ->
     FSE_buildDTableU16 stack N (Z.of_nat (length N)) tableLog = None)
    /\ (Exists (fun v => Z.shiftl 1 tableLog < v) (drop (length N) stack) ->
        exists t t8,
          FSE_buildDTableU16 stack N (Z.of_nat (length N)) tableLog = Some (inr t)
          /\ FSE_buildDTable N (Z.of_nat (length N)) tableLog = Some (inr t8)
          /\ map U16.symbol t = map symbol t8
          /\ map U16.nbBits t = map nbBits t8
          /\ map U16.newState t = map newState t8).
Proof. intros N tableLog stack H Hs. exact (buildDTableU16_spec N tableLog stack H Hs). Qed.

Lemma buildDTableU16_scans_unwritten_counters_witness :
  FSE_buildDTableU16 (repeat 0 286) [10; 0; 22] 3 5 = None
  /\ exists t t8,
       FSE_buildDTableU16 (repeat 33 286) [10; 0; 22] 3 5 = Some (inr t)
       /\ FSE_buildDTable [10; 0; 22] 3 5 = Some (inr t8)
       /\ map U16.symbol t = map symbol t8.
Proof.
  assert (Hn : normalized [10; 0; 22] 5).
  { unfold normalized, FSE_MIN_TABLELOG, FSE_MAX_TABLELOG, FSE_MEMORY_USAGE.
    repeat split; try (simpl; lia). repeat constructor; lia. }
  split.
  - apply (proj1 (buildDTableU16_scans_unwritten_counters [10; 0; 22] 5 (repeat 0 286)
                    Hn eq_refl)).
    apply Forall_drop, Forall_forall. intros v Hv. apply list_elem_of_In in Hv.
    apply repeat_spec in Hv. subst v. vm_compute. discriminate.
  - destruct (proj2 (buildDTableU16_scans_unwritten_counters [10; 0; 22] 5 (repeat 33 286)
                      Hn eq_refl)) as (t & t8 & H1 & H2 & H3 & _).
    + apply Exists_exists. exists 33. split; [|vm_compute; reflexivity].
      apply list_elem_of_In. vm_compute. left. reflexivity.
    + exists t, t8. auto.
Defined.

(** ** Streams of 16-bit symbols *)

Lemma pushed_app (F F' : list (Z * Z)) :
  forall V n, pushed (F ++ F') V n = pushed F' (pushed F V n).1 (pushed F V n).2.
Proof.
  induction F as [|[x nb] F IH]; intros V n; cbn [app pushed]; [reflexivity|]. apply IH.
Qed.

Lemma chain_app (P : Z -> Z -> Z -> Z -> Prop) (x : Z) (syms : list Z) (F : list (Z * Z))
    (x' : Z) :
  chain P x syms F x' ->
  forall s x'' nb, P x' s x'' nb -> chain P x (syms ++ [s]) (F ++ [(x', nb)]) x''.
Proof.
  induction 1 as [x|x s0 x1 nb0 syms F x2 HP Hch IH]; intros s x'' nb Hs; cbn [app].
  - apply chain_cons with x''; [exact Hs|constructor].
  - apply chain_cons with x1; [exact HP|]. apply IH. exact Hs.
Qed.

Lemma unchain_snoc (P : Z -> Z -> Z -> Z -> Prop) (x' : Z) (syms : list Z) (G : list (Z * Z))
    (x : Z) :
  unchain P x' syms G x ->
  forall x0 s nb, P x0 s x nb -> unchain P x' (syms ++ [s]) (G ++ [(x0, nb)]) x0.
Proof.
  induction 1 as [x|x s0 x1 nb0 syms G xe HP Hun IH]; intros x0 s nb Hs; cbn [app].
  - apply unchain_cons; [exact Hs|constructor].
  - apply unchain_cons; [exact HP|]. apply IH. exact Hs.
Qed.

Lemma chain_unchain (P : Z -> Z -> Z -> Z -> Prop) (x : Z) (syms : list Z) (F : list (Z * Z))
    (x' : Z) :
  chain P x syms F x' -> unchain P x' (rev syms) (rev F) x.
Proof.
  induction 1 as [x|x s x1 nb syms F x2 HP Hch IH]; cbn [rev]; [constructor|].
  apply unchain_snoc with x1; assumption.
Qed.

Lemma chain_length (P : Z -> Z -> Z -> Z -> Prop) (x : Z) (syms : list Z) (F : list (Z * Z))
    (x' : Z) :
  chain P x syms F x' -> length F = length syms.
Proof. induction 1; cbn [length]; congruence. Qed.

Lemma decodeU16_agrees (dt : list FSE_decode_t) (dt16 : list U16.FSE_decodeU16_t)
    (st : Z) (bitC bitC' : bitContainer_backward_t) (s st' : Z) :
  map U16.symbol dt16 = map symbol dt ->
  map U16.nbBits dt16 = map nbBits dt ->
  map U16.newState dt16 = map newState dt ->
  FSE_decodeSymbol st bitC dt = Some (s, st', bitC') ->
  FSE_decodeSymbolU16 st (b_bitContainer bitC) (b_bitsConsumed bitC) dt16
  = Some (s, st', b_bitsConsumed bitC')
  /\ bitC' = {| b_bitContainer := b_bitContainer bitC;
                b_bitsConsumed := b_bitsConsumed bitC' |}.
Proof.
  intros Hsym Hnb Hns H. unfold FSE_decodeSymbol in H. unfold FSE_decodeSymbolU16.
  destruct (st <? 0); [discriminate|].
  apply bind_Some in H. destruct H as (e & He & H).
  assert (Hlen : length dt16 = length dt).
  { rewrite <- (length_map U16.symbol), Hsym, length_map. reflexivity. }
  destruct (dt16 !! Z.to_nat st) as [e16|] eqn:He16.
  - cbn [mbind option_bind].
    assert (E1 : U16.symbol e16 = symbol e).
    { pose proof (f_equal (fun l => l !! Z.to_nat st) Hsym) as E. cbn beta in E.
      rewrite !list_lookup_fmap, He, He16 in E. inversion E. reflexivity. }
    assert (E2 : U16.nbBits e16 = nbBits e).
    { pose proof (f_equal (fun l => l !! Z.to_nat st) Hnb) as E. cbn beta in E.
      rewrite !list_lookup_fmap, He, He16 in E. inversion E. reflexivity. }
    assert (E3 : U16.newState e16 = newState e).
    { pose proof (f_equal (fun l => l !! Z.to_nat st) Hns) as E. cbn beta in E.
      rewrite !list_lookup_fmap, He, He16 in E. inversion E. reflexivity. }
    unfold FSE_readBits in H. inversion H; subst. cbn [b_bitContainer b_bitsConsumed].
    rewrite E1, E2, E3. split; reflexivity.
  - apply lookup_lt_Some in He. apply lookup_ge_None in He16. lia.
Qed.

Section StreamU16.

Variable N : list Z.
Variable tableLog : Z.
Variable ct : CTable_t.
Variable dt : list FSE_decode_t.
Variable dt16 : list U16.FSE_decodeU16_t.
Hypothesis N_normalized : normalized N tableLog.
Hypothesis ct_built : FSE_buildCTable N (Z.of_nat (length N)) tableLog = Some (inr ct).
Hypothesis dt_built : FSE_buildDTable N (Z.of_nat (length N)) tableLog = Some (inr dt).
Hypothesis dt16_symbol : map U16.symbol dt16 = map symbol dt.
Hypothesis dt16_nbBits : map U16.nbBits dt16 = map nbBits dt.
Hypothesis dt16_newState : map U16.newState dt16 = map newState dt.

Let T : Z := 2 ^ tableLog.

Lemma stepU16_exists (x s : Z) :
  T <= x < 2 * T -> coded N s -> exists x' nb, stepU16 tableLog ct dt16 x s x' nb.
Proof.
  intros Hx Hs.
  destruct (symbol_step N tableLog ct dt N_normalized ct_built dt_built x s Hx Hs)
    as (x' & nb & Hnb & Hx' & Henc & Hdec).
  exists x', nb. unfold stepU16. fold T.
  split; [exact Hnb|]. split; [exact Hx|]. split; [exact Hx'|].
  split; [exact Henc|].
  intros mem c0 Vtot ntot bitC ip V n Hpay Hn HV Hfit Hfield Hat Hbc.
  destruct (Hdec mem c0 Vtot ntot bitC ip V n Hpay Hn HV Hfit Hfield Hat Hbc)
    as (bitC' & Hd & Hat' & Hbc').
  destruct (decodeU16_agrees dt dt16 _ _ _ _ _ dt16_symbol dt16_nbBits dt16_newState Hd)
    as [Hd16 Hshape].
  rewrite Hbc' in Hd16, Hshape. split; [exact Hd16|]. rewrite <- Hshape. exact Hat'.
Qed.

Lemma chain_exists (syms : list Z) :
  forall x, T <= x < 2 * T -> Forall (coded N) syms ->
            exists F x', chain (stepU16 tableLog ct dt16) x syms F x' /\ T <= x' < 2 * T.
Proof.
  induction syms as [|s syms IH]; intros x Hx Hs.
  - exists [], x. split; [constructor|exact Hx].
  - inversion Hs as [|? ? Hs0 Hs']; subst.
    destruct (stepU16_exists x s Hx Hs0) as (x1 & nb & Hstep).
    pose proof Hstep as (_ & _ & Hx1 & _).
    destruct (IH x1 Hx1 Hs') as (F & x' & Hch & Hx').
    exists ((x, nb) :: F), x'. split; [|exact Hx']. apply chain_cons with x1; assumption.
Qed.

Lemma pushed_bounds (x : Z) (syms : list Z) (F : list (Z * Z)) (x' : Z) :
  chain (stepU16 tableLog ct dt16) x syms F x' ->
  forall V n, 0 <= n -> 0 <= V < 2 ^ n ->
    n <= (pushed F V n).2 <= n + tableLog * Z.of_nat (length syms)
    /\ 0 <= (pushed F V n).1 < 2 ^ (pushed F V n).2
    /\ (pushed F V n).1 mod 2 ^ n = V.
Proof.
  induction 1 as [x|x s x1 nb syms F x2 HP Hch IH]; intros V n Hn HV; cbn [pushed length].
  - cbn [fst snd]. split; [lia|]. split; [exact HV|]. apply Z.mod_small. exact HV.
  - destruct HP as (Hnb & _).
    assert (Hp : 0 < 2 ^ n) by (apply Z.pow_pos_nonneg; lia).
    assert (Hq : 0 < 2 ^ nb) by (apply Z.pow_pos_nonneg; lia).
    pose proof (Z.mod_pos_bound x (2 ^ nb) Hq) as Hf.
    assert (HV1 : 0 <= V + x mod 2 ^ nb * 2 ^ n < 2 ^ (n + nb)).
    { rewrite Z.pow_add_r by lia. nia. }
    destruct (IH (V + x mod 2 ^ nb * 2 ^ n) (n + nb) ltac:(lia) HV1) as (H1 & H2 & H3).
    split; [nia|]. split; [exact H2|].
    rewrite <- (mod_mod_le _ (n + nb) n) by lia. rewrite H3.
    rewrite Z_mod_plus_full. apply Z.mod_small. exact HV.
Qed.

Lemma streamU16_T : 32 <= T <= 4096 /\ 5 <= tableLog <= 12.
Proof.
  destruct (tables_T N tableLog N_normalized) as (HT & HTr & HL). unfold T. rewrite <- HT.
  split; assumption.
Qed.

(** One coding step on the encoder's accumulator. *)
Lemma encU16_push (x s x' nb : Z) (buf : list Z) (op : Z) (bitC : bitContainer_forward_t)
    (V0 V n : Z) :
  stepU16 tableLog ct dt16 x s x' nb ->
  enc_inv buf op bitC V0 V n -> f_bitPos bitC + tableLog <= 63 ->
  FSE_encodeU16 x bitC s ct = Some (x', FSE_addBits bitC x nb)
  /\ enc_inv buf op (FSE_addBits bitC x nb) V0 (V + (x mod 2 ^ nb) * 2 ^ n) (n + nb)
  /\ f_bitPos (FSE_addBits bitC x nb) = f_bitPos bitC + nb.
Proof.
  intros (Hnb & _ & _ & Henc & _) Hinv Hfit. split; [apply Henc|]. split; [|reflexivity].
  apply push_inv; [exact Hinv|lia|lia].
Qed.

Lemma encU16_flush (buf : list Z) (op : Z) (bitC : bitContainer_forward_t) (V0 V n x : Z) :
  enc_inv buf op bitC V0 V n -> T <= x < 2 * T ->
  exists buf' op' bitC',
    FSE_flushBits buf op bitC = (buf', op', bitC')
    /\ encU16_ok tableLog {| eu_buf := buf'; eu_op := op'; eu_bitC := bitC'; eu_state := x |} V n.
Proof.
  intros Hinv Hx. destruct (flush_inv buf op bitC V0 V n Hinv) as (buf' & bitC' & Hf & Hbp & Hinv' & _).
  exists buf', (op + f_bitPos bitC / 8), bitC'. split; [exact Hf|].
  unfold encU16_ok. cbn [eu_buf eu_op eu_bitC eu_state]. fold T.
  split; [exact Hinv'|]. split; [|exact Hx].
  rewrite Hbp. pose proof (Z.mod_pos_bound (f_bitPos bitC) 8 ltac:(lia)). lia.
Qed.

Lemma encU16_tail_sim (x : Z) (syms : list Z) (F : list (Z * Z)) (x' : Z) :
  chain (stepU16 tableLog ct dt16) x syms F x' ->
  forall (st : encU16_state) (V n : Z),
    encU16_ok tableLog st V n -> eu_state st = x ->
    exists st', encU16_tail syms ct st = Some st'
      /\ encU16_ok tableLog st' (pushed F V n).1 (pushed F V n).2
      /\ eu_state st' = x'.
Proof.
  destruct streamU16_T as (HTr & HL).
  induction 1 as [x|x s x1 nb syms F x2 HP Hch IH]; intros st V n Hok Hst.
  - exists st. cbn [encU16_tail pushed fst snd]. auto.
  - destruct Hok as (Hinv & Hbp & Hx). cbn [encU16_tail pushed].
    destruct (encU16_push x s x1 nb _ _ _ _ _ _ HP Hinv ltac:(lia)) as (Henc & Hinv1 & _).
    rewrite Hst, Henc. cbn [mbind option_bind].
    pose proof HP as (_ & _ & Hx1 & _). fold T in Hx1.
    destruct (encU16_flush _ _ _ _ _ _ x1 Hinv1 Hx1) as (buf' & op' & bitC' & Hf & Hok').
    rewrite Hf. apply IH; [exact Hok'|reflexivity].
Qed.

Lemma encU16_loop_sim (k : nat) :
  forall (syms : list Z) (x : Z) (F : list (Z * Z)) (x' : Z),
    (length syms <= k)%nat ->
    chain (stepU16 tableLog ct dt16) x syms F x' ->
    forall (st : encU16_state) (V n : Z),
      encU16_ok tableLog st V n -> eu_state st = x ->
      exists st', encU16_loop syms ct st = Some st'
        /\ encU16_ok tableLog st' (pushed F V n).1 (pushed F V n).2
        /\ eu_state st' = x'.
Proof.
  destruct streamU16_T as (HTr & HL).
  induction k as [|k IH]; intros syms x F x' Hlen Hch st V n Hok Hst.
  - destruct syms; [|cbn [length] in Hlen; lia].
    change (encU16_loop [] ct st) with (encU16_tail [] ct st).
    apply (encU16_tail_sim x [] F x' Hch); assumption.
  - destruct syms as [|a [|b [|c rest]]].
    + change (encU16_loop [] ct st) with (encU16_tail [] ct st).
      apply (encU16_tail_sim x [] F x' Hch); assumption.
    + change (encU16_loop [a] ct st) with (encU16_tail [a] ct st).
      apply (encU16_tail_sim x [a] F x' Hch); assumption.
    + change (encU16_loop [a; b] ct st) with (encU16_tail [a; b] ct st).
      apply (encU16_tail_sim x [a; b] F x' Hch); assumption.
    + inversion Hch as [|? ? x1 nb1 ? F1 ? HP1 Hch1]; subst.
      inversion Hch1 as [|? ? x2 nb2 ? F2 ? HP2 Hch2]; subst.
      inversion Hch2 as [|? ? x3 nb3 ? F3 ? HP3 Hch3]; subst.
      destruct Hok as (Hinv & Hbp & Hx).
      pose proof HP1 as (Hnb1 & _). pose proof HP2 as (Hnb2 & _).
      pose proof HP3 as (Hnb3 & _ & Hx3 & _). fold T in Hx3.
      cbn [encU16_loop pushed].
      destruct (encU16_push _ _ _ _ _ _ _ _ _ _ HP1 Hinv ltac:(lia)) as (Henc1 & Hinv1 & Hbp1).
      rewrite Henc1. cbn [mbind option_bind].
      destruct (encU16_push _ _ _ _ _ _ _ _ _ _ HP2 Hinv1 ltac:(lia)) as (Henc2 & Hinv2 & Hbp2).
      rewrite Henc2. cbn [mbind option_bind].
      destruct (encU16_push _ _ _ _ _ _ _ _ _ _ HP3 Hinv2 ltac:(lia)) as (Henc3 & Hinv3 & Hbp3).
      rewrite Henc3. cbn [mbind option_bind].
      destruct (encU16_flush _ _ _ _ _ _ x3 Hinv3 Hx3) as (buf' & op' & bitC' & Hf & Hok').
      rewrite Hf. apply (IH rest x3 F3 x' ltac:(cbn [length] in Hlen; lia) Hch3);
        [exact Hok'|reflexivity].
Qed.

Lemma pushed_fields (Vtot : Z) (F : list (Z * Z)) :
  forall V n,
    Forall (fun f => 0 <= f.2) F -> 0 <= n -> 0 <= V < 2 ^ n ->
    Vtot mod 2 ^ (pushed F V n).2 = (pushed F V n).1 ->
    fields_at Vtot (rev F) (pushed F V n).2
    /\ n <= (pushed F V n).2 /\ 0 <= (pushed F V n).1 < 2 ^ (pushed F V n).2.
Proof.
  induction F as [|[x nb] F IH] using rev_ind; intros V n HF Hn HV Hmod.
  - cbn [rev pushed fields_at fst snd]. split; [exact I|]. split; [lia|exact HV].
  - apply Forall_app in HF. destruct HF as [HF Hlast].
    inversion Hlast as [|? ? Hnb _]; subst. cbn [snd] in Hnb.
    rewrite rev_unit. rewrite pushed_app in *. cbn [pushed fst snd] in *.
    set (V0 := (pushed F V n).1) in *. set (n0 := (pushed F V n).2) in *.
    assert (Hq : 0 < 2 ^ nb) by (apply Z.pow_pos_nonneg; lia).
    pose proof (Z.mod_pos_bound x (2 ^ nb) Hq) as Hf.
    assert (Hrange : n <= n0 /\ 0 <= V0 < 2 ^ n0).
    { clear - HF Hn HV. unfold V0, n0. clear V0 n0. revert V n Hn HV.
      induction F as [|[y mb] F IH]; intros V n Hn HV; cbn [pushed fst snd]; [lia|].
      inversion HF as [|? ? Hmb HF']; subst. cbn [snd] in Hmb.
      assert (Hp : 0 < 2 ^ n) by (apply Z.pow_pos_nonneg; lia).
      assert (Hq : 0 < 2 ^ mb) by (apply Z.pow_pos_nonneg; lia).
      pose proof (Z.mod_pos_bound y (2 ^ mb) Hq) as Hf.
      assert (HV1 : 0 <= V + y mod 2 ^ mb * 2 ^ n < 2 ^ (n + mb)).
      { rewrite Z.pow_add_r by lia. nia. }
      specialize (IH HF' (V + y mod 2 ^ mb * 2 ^ n) (n + mb) ltac:(lia) HV1). lia. }
    destruct Hrange as [Hn0 HV0].
    assert (Hp0 : 0 < 2 ^ n0) by (apply Z.pow_pos_nonneg; lia).
    assert (Hlow : Vtot mod 2 ^ n0 = V0).
    { rewrite <- (mod_mod_le Vtot (n0 + nb) n0) by lia. rewrite Hmod.
      rewrite Z_mod_plus_full. apply Z.mod_small. exact HV0. }
    cbn [fields_at]. replace (n0 + nb - nb) with n0 by lia.
    split; [|split; [lia|]].
    + split; [lia|]. split; [rewrite Hmod, Hlow; reflexivity|].
      apply (IH V n HF Hn HV). exact Hlow.
    + rewrite Z.pow_add_r by lia. nia.
Qed.

Lemma store_at_end (buf bs : list Z) : store buf (Z.of_nat (length buf)) bs = buf ++ bs.
Proof.
  unfold store. rewrite Nat2Z.id, Nat.sub_diag. cbn [repeat]. rewrite app_nil_r.
  rewrite firstn_all. rewrite drop_ge by lia. rewrite app_nil_r. reflexivity.
Qed.

Lemma decU16_pop (x s x' nb : Z) (mem : list Z) (c0 Vtot ntot w bc ip n : Z) :
  stepU16 tableLog ct dt16 x s x' nb ->
  payload mem c0 Vtot ntot -> n <= ntot ->
  0 <= n - nb ->
  Vtot mod 2 ^ n = Vtot mod 2 ^ (n - nb) + (x mod 2 ^ nb) * 2 ^ (n - nb) ->
  dec_at mem c0 {| b_bitContainer := w; b_bitsConsumed := bc |} ip n -> bc + nb <= 32 ->
  FSE_decodeSymbolU16 (x' - T) w bc dt16 = Some (s, x - T, bc + nb)
  /\ dec_at mem c0 {| b_bitContainer := w; b_bitsConsumed := bc + nb |} ip (n - nb).
Proof.
  intros (Hnb & _ & _ & _ & Hdec) Hpay Hle Hn Hfield Hat Hbc. fold T in Hdec.
  assert (Hp : 0 < 2 ^ (n - nb)) by (apply Z.pow_pos_nonneg; lia).
  apply (Hdec mem c0 Vtot ntot {| b_bitContainer := w; b_bitsConsumed := bc |} ip
              (Vtot mod 2 ^ (n - nb)) (n - nb)); try assumption; try lia.
  - apply Z.mod_pos_bound. exact Hp.
  - replace (n - nb + nb) with n by lia. exact Hfield.
  - replace (n - nb + nb) with n by lia. exact Hat.
Qed.

(** The hot loop and the conditional decode after it store the symbols
    of the run, last coded first, and leave the decoder on the cell of
    the state the run started from. *)
Lemma decU16_sim (mem : list Z) (c0 Vtot ntot : Z) (k : nat) :
  payload mem c0 Vtot ntot ->
  forall (D : list Z) (G : list (Z * Z)) (x' x0 : Z) (St : decU16_state) (n : Z)
         (out0 : list Z) (fuel : nat) (oend : Z),
    (length D <= k)%nat ->
    unchain (stepU16 tableLog ct dt16) x' D G x0 ->
    fields_at Vtot G n -> n <= ntot ->
    decU16_match tableLog mem c0 St x' n out0 ->
    oend - Z.of_nat (length out0) = Z.of_nat (length D) ->
    (length D <= 2 * fuel)%nat ->
    exists st St',
      decU16_hot fuel mem dt16 oend St = Some st
      /\ (if du_op st <? oend then
            '(sym, state, bc) ←
              FSE_decodeSymbolU16 (du_state st) (b_bitContainer (du_bitC st))
                                  (b_bitsConsumed (du_bitC st)) dt16;
            Some {| du_out := store (du_out st) (oend - 1) [sym]; du_op := du_op st;
                    du_bitC := {| b_bitContainer := b_bitContainer (du_bitC st);
                                  b_bitsConsumed := bc |};
                    du_ip := du_ip st; du_state := state |}
          else Some st) = Some St'
      /\ du_out St' = out0 ++ D /\ du_state St' = x0 - T.
Proof.
  intros Hpay. destruct streamU16_T as (HTr & HL).
  induction k as [|k IH]; intros D G x' x0 St n out0 fuel oend Hlen Hun Hfields Hn Hm Hoend Hfuel.
  - destruct D; [|cbn [length] in Hlen; lia]. inversion Hun; subst.
    destruct Hm as (Hat & Hbc & Hst & Hout & Hop). cbn [length] in *.
    assert (Hhot : decU16_hot fuel mem dt16 oend St = Some St).
    { destruct fuel; [reflexivity|]. cbn [decU16_hot].
      destruct (Z.ltb_spec (du_op St) (oend - 1)); [lia|]. reflexivity. }
    exists St, St. split; [exact Hhot|].
    destruct (Z.ltb_spec (du_op St) oend); [lia|].
    rewrite app_nil_r. fold T in Hst. auto.
  - destruct D as [|a [|b D']].
    + inversion Hun; subst.
      destruct Hm as (Hat & Hbc & Hst & Hout & Hop). cbn [length] in *.
      assert (Hhot : decU16_hot fuel mem dt16 oend St = Some St).
      { destruct fuel; [reflexivity|]. cbn [decU16_hot].
        destruct (Z.ltb_spec (du_op St) (oend - 1)); [lia|]. reflexivity. }
      exists St, St. split; [exact Hhot|].
      destruct (Z.ltb_spec (du_op St) oend); [lia|].
      rewrite app_nil_r. fold T in Hst. auto.
    + inversion Hun as [|x ? ? nb ? G1 ? HP Hun1]; subst. inversion Hun1; subst.
      destruct Hm as (Hat & Hbc & Hst & Hout & Hop). cbn [length] in *.
      destruct Hfields as (Hn1 & Hfield & _).
      pose proof HP as (Hnb & _).
      assert (Hhot : decU16_hot fuel mem dt16 oend St = Some St).
      { destruct fuel; [reflexivity|]. cbn [decU16_hot].
        destruct (Z.ltb_spec (du_op St) (oend - 1)); [lia|]. reflexivity. }
      exists St. rewrite Hhot.
      destruct (Z.ltb_spec (du_op St) oend); [|lia].
      destruct (du_bitC St) as [w bc] eqn:EbitC. cbn [b_bitContainer b_bitsConsumed] in *.
      destruct (decU16_pop _ _ _ _ mem c0 Vtot ntot w bc (du_ip St) n HP Hpay Hn Hn1 Hfield Hat
                  ltac:(lia)) as (Hdec & _).
      fold T in Hst. rewrite Hst, Hdec. cbn [mbind option_bind].
      eexists. split; [reflexivity|]. split; [reflexivity|].
      cbn [du_out du_state]. split; [|reflexivity].
      rewrite Hout. replace (oend - 1) with (Z.of_nat (length out0)) by lia.
      apply store_at_end.
    + inversion Hun as [|x1 ? ? nb1 ? G1 ? HP1 Hun1]; subst.
      inversion Hun1 as [|x2 ? ? nb2 ? G2 ? HP2 Hun2]; subst.
      destruct Hm as (Hat & Hbc & Hst & Hout & Hop). cbn [length] in *.
      destruct Hfields as (Hn1 & Hfield1 & Hn2 & Hfield2 & Hrest).
      pose proof HP1 as (Hnb1 & _). pose proof HP2 as (Hnb2 & _).
      destruct fuel as [|fuel]; [lia|]. cbn [decU16_hot].
      destruct (Z.ltb_spec (du_op St) (oend - 1)); [|lia].
      destruct (du_bitC St) as [w bc] eqn:EbitC. cbn [b_bitContainer b_bitsConsumed] in *.
      destruct (decU16_pop _ _ _ _ mem c0 Vtot ntot w bc (du_ip St) n HP1 Hpay Hn Hn1 Hfield1 Hat
                  ltac:(lia)) as (Hdec1 & Hat1).
      fold T in Hst. rewrite Hst, Hdec1. cbn [mbind option_bind].
      destruct (decU16_pop _ _ _ _ mem c0 Vtot ntot w (bc + nb1) (du_ip St) (n - nb1) HP2 Hpay
                  ltac:(lia) Hn2 Hfield2 Hat1 ltac:(lia)) as (Hdec2 & Hat2).
      rewrite Hdec2. cbn [mbind option_bind].
      destruct (dec_refill mem c0 _ (du_ip St) (n - nb1 - nb2) Hat2 ltac:(lia)) as (Hat3 & Hbc3).
      destruct (FSE_updateBitStream mem _ (du_ip St)) as [bitC3 ip3] eqn:Eup.
      cbn [fst snd] in Hat3, Hbc3.
      replace (out0 ++ a :: b :: D') with ((out0 ++ [a; b]) ++ D')
        by (rewrite <- app_assoc; reflexivity).
      apply (IH D' G2 x2 x0 _ (n - nb1 - nb2) (out0 ++ [a; b]) fuel); try assumption; try lia.
      * unfold decU16_match. cbn [du_bitC du_ip du_state du_out du_op]. fold T.
        split; [exact Hat3|]. split; [exact Hbc3|]. split; [reflexivity|].
        rewrite Hout, Hop. split.
        -- rewrite store_at_end.
           replace (Z.of_nat (length out0) + 1) with (Z.of_nat (length (out0 ++ [a])))
             by (rewrite length_app; cbn [length]; lia).
           rewrite store_at_end, <- app_assoc. reflexivity.
        -- rewrite length_app. cbn [length]. lia.
      * rewrite length_app. cbn [length]. lia.
Qed.

Lemma chain_widths (x : Z) (syms : list Z) (F : list (Z * Z)) (x' : Z) :
  chain (stepU16 tableLog ct dt16) x syms F x' -> Forall (fun f => 0 <= f.2) F.
Proof.
  induction 1 as [x|x s x1 nb syms F x2 HP Hch IH]; constructor; [|exact IH].
  destruct HP as (Hnb & _). cbn [snd]. lia.
Qed.

Lemma closeU16_spec (st : encU16_state) (V n : Z) :
  encU16_ok tableLog st V n -> n + tableLog + 39 < 2 ^ 32 ->
  exists buf op bitC,
    FSE_flushBits (eu_buf st) (eu_op st) (FSE_addBits (eu_bitC st) (eu_state st) tableLog)
    = (buf, op, bitC)
    /\ u32 (op * 8 + f_bitPos bitC) = 32 + (n + tableLog)
    /\ op + (if f_bitPos bitC >? 0 then 1 else 0) = 4 + (n + tableLog + 7) / 8
    /\ take (Z.to_nat (4 + (n + tableLog + 7) / 8))
            (store buf 0 (le_bytes 4 (32 + (n + tableLog))))
       = le_bytes 4 (32 + (n + tableLog))
         ++ le_bytes (Z.to_nat ((n + tableLog + 7) / 8)) (V + (eu_state st - T) * 2 ^ n)
    /\ 0 <= V + (eu_state st - T) * 2 ^ n < 2 ^ (n + tableLog).
Proof.
  intros (Hinv & Hbp & Hx) Hsize. fold T in Hx. destruct streamU16_T as (HTr & HL).
  pose proof Hinv as (Hop & Hbp0 & Hn & HV & _).
  pose proof (push_inv _ _ _ _ _ _ (eu_state st) tableLog Hinv ltac:(lia) ltac:(lia)) as Hinv1.
  rewrite (state_low_bits _ _ Hx) in Hinv1. fold T in Hinv1.
  set (V2 := V + (eu_state st - T) * 2 ^ n) in *.
  destruct (flush_inv _ _ _ _ _ _ Hinv1) as (buf2 & bitC2 & Hflush & Hbp2 & Hinv2 & Hbuf2).
  assert (Hbp2r : 0 <= f_bitPos bitC2 < 8) by (rewrite Hbp2; apply Z.mod_pos_bound; lia).
  set (op2 := eu_op st + f_bitPos (FSE_addBits (eu_bitC st) (eu_state st) tableLog) / 8) in *.
  assert (Hop12 : eu_op st <= op2 <= eu_op st + 2).
  { unfold op2. change (f_bitPos (FSE_addBits (eu_bitC st) (eu_state st) tableLog))
      with (f_bitPos (eu_bitC st) + tableLog).
    split.
    - assert (0 <= (f_bitPos (eu_bitC st) + tableLog) / 8) by (apply Z.div_pos; lia). lia.
    - assert ((f_bitPos (eu_bitC st) + tableLog) / 8 < 3)
        by (apply Z.div_lt_upper_bound; lia). lia. }
  pose proof Hinv2 as (Hop2 & _ & Hn2 & HV2 & _).
  set (n2 := n + tableLog) in *.
  assert (Hceil : (n2 + 7) / 8 = op2 - 4 + (if f_bitPos bitC2 >? 0 then 1 else 0)).
  { rewrite Hn2. replace (8 * (op2 - 4) + f_bitPos bitC2 + 7)
      with ((f_bitPos bitC2 + 7) + (op2 - 4) * 8) by lia.
    rewrite Z.div_add by lia.
    destruct (f_bitPos bitC2 >? 0) eqn:E.
    - assert ((f_bitPos bitC2 + 7) / 8 = 1); [|lia].
      symmetry. apply Z.div_unique with (r := f_bitPos bitC2 - 1); lia.
    - assert (f_bitPos bitC2 = 0) by lia. replace (f_bitPos bitC2) with 0 by lia.
      change ((0 + 7) / 8) with 0. lia. }
  set (p := 4 + (n2 + 7) / 8) in *.
  assert (Hpr : op2 <= p <= op2 + 1 /\ p - 4 = (n2 + 7) / 8).
  { unfold p. rewrite Hceil. destruct (f_bitPos bitC2 >? 0); lia. }
  exists buf2, op2, bitC2. split; [exact Hflush|]. split; [|split; [|split; [|exact HV2]]].
  - rewrite u32_small by lia. lia.
  - unfold p. lia.
  - rewrite store_inside by (cbn; lia). change (Z.to_nat 0) with 0%nat.
    rewrite take_0, app_nil_l, le_bytes_length. cbn [Nat.add].
    rewrite take_app_ge by (rewrite le_bytes_length; lia). rewrite le_bytes_length.
    f_equal. rewrite Hbuf2. rewrite drop_app_ge by (rewrite repeat_length; lia).
    rewrite repeat_length. cbn [Nat.sub drop].
    replace (Z.to_nat p - 4)%nat with (Z.to_nat ((n2 + 7) / 8)) by lia.
    apply take_le_bytes. lia.
Qed.

(** The decoder's prelude on a closed stream recovers the final state
    of the encoder and stands on the payload below it. *)
Lemma initU16_spec (mem : list Z) (c0 V n x : Z) :
  let n2 := n + tableLog in
  payload mem c0 (V + (x - T) * 2 ^ n) n2 ->
  load32 mem c0 = 32 + n2 -> n2 + 39 < 2 ^ 32 ->
  0 <= n -> 0 <= V < 2 ^ n -> T <= x < 2 * T ->
  let iend := c0 + u32 (load32 mem c0 + 7) / 8 in
  let bitContainer := load32 mem (iend - 4) in
  let bitsConsumed := 32 - (Z.land (u32 (load32 mem c0 - 1)) 7 + 1 + 24) in
  iend = c0 + 4 + (n2 + 7) / 8
  /\ Z.shiftr (u32 (Z.shiftl bitContainer bitsConsumed)) (32 - tableLog) = x - T
  /\ dec_at mem c0
       (FSE_updateBitStream mem {| b_bitContainer := bitContainer;
                                   b_bitsConsumed := bitsConsumed + tableLog |} (iend - 4)).1
       (FSE_updateBitStream mem {| b_bitContainer := bitContainer;
                                   b_bitsConsumed := bitsConsumed + tableLog |} (iend - 4)).2 n
  /\ b_bitsConsumed
       (FSE_updateBitStream mem {| b_bitContainer := bitContainer;
                                   b_bitsConsumed := bitsConsumed + tableLog |} (iend - 4)).1 < 8.
Proof.
  intros n2 Hpay Hload Hsize Hn HV Hx iend bitContainer bitsConsumed.
  destruct streamU16_T as (HTr & HL).
  assert (Hp2n : 0 < 2 ^ n) by (apply Z.pow_pos_nonneg; lia).
  assert (Hpow : 2 ^ (n + tableLog) = T * 2 ^ n).
  { rewrite Z.pow_add_r by lia. fold T. lia. }
  assert (HV2 : 0 <= V + (x - T) * 2 ^ n < 2 ^ n2) by (unfold n2; rewrite Hpow; nia).
  pose proof (Z.div_mod (n2 + 7) 8 ltac:(lia)) as Hdm.
  pose proof (Z.mod_pos_bound (n2 + 7) 8 ltac:(lia)) as Hmb.
  assert (Hiend : iend = c0 + 4 + (n2 + 7) / 8).
  { unfold iend. rewrite Hload. rewrite u32_small by lia.
    replace (32 + n2 + 7) with ((n2 + 7) + 4 * 8) by lia. rewrite Z.div_add by lia. lia. }
  assert (Hbc : bitsConsumed = 7 - (n2 + 7) mod 8).
  { unfold bitsConsumed. rewrite Hload. rewrite u32_small by lia.
    change 7 with (Z.ones 3) at 1. rewrite Z.land_ones by lia. change (2 ^ 3) with 8.
    replace (32 + n2 - 1) with ((n2 + 7) + 3 * 8) by lia. rewrite Z_mod_plus_full. lia. }
  assert (Hpay' := Hpay). destruct Hpay' as (Hmem & Hc0 & _).
  set (bitC0 := {| b_bitContainer := bitContainer; b_bitsConsumed := bitsConsumed |}).
  assert (Hat0 : dec_at mem c0 bitC0 (iend - 4) (n + tableLog)).
  { unfold dec_at, bitC0. cbn [b_bitContainer b_bitsConsumed].
    split; [reflexivity|]. rewrite Hiend, Hbc.
    assert (0 <= (n2 + 7) / 8) by (apply Z.div_pos; lia). fold n2. repeat split; lia. }
  destruct (dec_pop mem c0 (V + (x - T) * 2 ^ n) n2 bitC0 (iend - 4) n tableLog V (x - T))
    as (Hval & Hat1 & Hbc1); try assumption; try lia.
  { unfold bitC0. cbn [b_bitsConsumed]. lia. }
  { fold n2. apply Z.mod_small. exact HV2. }
  split; [exact Hiend|]. split.
  - rewrite <- Hval. unfold FSE_readBits, bitC0. cbn [fst b_bitContainer b_bitsConsumed].
    rewrite Z.shiftr_shiftr by lia. f_equal. lia.
  - change {| b_bitContainer := bitContainer; b_bitsConsumed := bitsConsumed + tableLog |}
      with (FSE_readBits bitC0 tableLog).2.
    apply dec_refill; [exact Hat1|exact Hn].
Qed.

Lemma streamU16_codec (last : Z) (rsrc : list Z) :
  Forall (coded N) (last :: rsrc) ->
  Z.of_nat (length N) <= T ->
  Z.of_nat (length rsrc) + 1 <= 2 ^ 26 ->
  exists p stream,
    FSE_compressU16_usingCTable (rev rsrc ++ [last]) ct = Some (p, stream)
    /\ 4 < p <= 4 + (tableLog * (Z.of_nat (length rsrc) + 1) + 7) / 8
    /\ Forall is_byte (take (Z.to_nat p) stream)
    /\ Z.of_nat (length (take (Z.to_nat p) stream)) = p
    /\ forall (prefix tail : list Z),
         Forall is_byte prefix -> Forall is_byte tail ->
         FSE_decompressU16_usingDTable (Z.of_nat (length rsrc) + 1)
           (prefix ++ take (Z.to_nat p) stream ++ tail) (Z.of_nat (length prefix)) dt16 tableLog
         = Some (p, rev rsrc ++ [last]).
Proof.
  intros Hsyms HNT Hsize. destruct streamU16_T as (HTr & HL).
  inversion Hsyms as [|? ? Hlast Hrsrc]; subst.
  destruct (tables_N N tableLog N_normalized) as (H256 & _).
  assert (Hx0 : T <= T + last < 2 * T) by (destruct Hlast as [Hl _]; lia).
  destruct (chain_exists rsrc (T + last) Hx0 Hrsrc) as (F & x' & Hch & Hx').
  set (st0 := {| eu_buf := []; eu_op := 4;
                 eu_bitC := {| f_bitContainer := 0; f_bitPos := 0 |};
                 eu_state := T + last |}).
  assert (Hok0 : encU16_ok tableLog st0 0 0).
  { unfold encU16_ok, enc_inv, st0. cbn [eu_buf eu_op eu_bitC eu_state f_bitContainer f_bitPos].
    fold T. repeat split; try lia; try reflexivity. left. auto. }
  destruct (encU16_loop_sim (length rsrc) rsrc (T + last) F x' ltac:(lia) Hch st0 0 0 Hok0
              eq_refl) as (st1 & Hrun & Hok1 & Hst1).
  destruct (pushed_bounds (T + last) rsrc F x' Hch 0 0 ltac:(lia) ltac:(lia))
    as (Hn1 & HV1 & _).
  set (V1 := (pushed F 0 0).1) in *. set (n1 := (pushed F 0 0).2) in *.
  assert (Hbits : n1 + tableLog <= tableLog * (Z.of_nat (length rsrc) + 1)) by nia.
  assert (Hceil : (n1 + tableLog + 7) / 8 <= (tableLog * (Z.of_nat (length rsrc) + 1) + 7) / 8).
  { apply Z.div_le_mono; lia. }
  assert (Hcap : n1 + tableLog + 39 < 2 ^ 32).
  { change (2 ^ 26) with 67108864 in Hsize. change (2 ^ 32) with 4294967296. nia. }
  destruct (closeU16_spec st1 V1 n1 Hok1 Hcap)
    as (buf2 & op2 & bitC2 & Hflush & Hdesc & Hp & Htake & HV2).
  rewrite Hst1 in Htake, HV2.
  set (n2 := n1 + tableLog) in *. set (p := 4 + (n2 + 7) / 8) in *.
  set (V2 := V1 + (x' - T) * 2 ^ n1) in *.
  assert (Hp4 : 0 < (n2 + 7) / 8).
  { apply Z.div_str_pos. unfold n2. lia. }
  exists p, (store buf2 0 (le_bytes 4 (32 + n2))). split; [|split; [|split; [|split]]].
  - unfold FSE_compressU16_usingCTable.
    rewrite rev_app_distr, rev_involutive. cbn [rev app].
    rewrite (ct_log N tableLog ct N_normalized ct_built). rewrite Z.shiftl_1_l. fold T.
    fold st0. rewrite Hrun. cbn [mbind option_bind]. rewrite Hflush.
    rewrite Hp, Hdesc. reflexivity.
  - unfold p. lia.
  - rewrite Htake. apply Forall_app. split; apply le_bytes_bytes.
  - rewrite Htake, length_app, !le_bytes_length. unfold p. lia.
  - intros prefix tail Hpre Htail. rewrite Htake.
    destruct (frame_payload prefix tail (32 + n2) V2 n2 (Z.to_nat ((n2 + 7) / 8)))
      as (Hpay & Hload); try assumption; try lia.
    { pose proof (Z.div_mod (n2 + 7) 8 ltac:(lia)).
      pose proof (Z.mod_pos_bound (n2 + 7) 8 ltac:(lia)). lia. }
    set (mem := prefix ++ (le_bytes 4 (32 + n2) ++ le_bytes (Z.to_nat ((n2 + 7) / 8)) V2)
                ++ tail) in *.
    set (c0 := Z.of_nat (length prefix)) in *.
    destruct (initU16_spec mem c0 V1 n1 x' Hpay Hload ltac:(lia) ltac:(lia) HV1 Hx')
      as (Hiend & Hstate & Hat & Hbc).
    unfold FSE_decompressU16_usingDTable. cbv zeta.
    rewrite Hstate.
    destruct (FSE_updateBitStream mem _ _) as [bitC ip] eqn:Eup. cbn [fst snd] in Hat, Hbc.
    replace (Z.of_nat (length rsrc) + 1 - 1) with (Z.of_nat (length rsrc)) by lia.
    set (D0 := {| du_out := []; du_op := 0; du_bitC := bitC; du_ip := ip;
                  du_state := x' - T |}).
    assert (HV2low : V2 mod 2 ^ n1 = V1).
    { unfold V2. rewrite Z_mod_plus_full. apply Z.mod_small. exact HV1. }
    destruct (pushed_fields V2 F 0 0 (chain_widths _ _ _ _ Hch) ltac:(lia) ltac:(lia) HV2low)
      as (Hfields & _).
    fold n1 in Hfields.
    destruct (decU16_sim mem c0 V2 n2 (length rsrc) Hpay (rev rsrc) (rev F) x' (T + last) D0 n1
                [] (Z.to_nat (Z.of_nat (length rsrc))) (Z.of_nat (length rsrc)))
      as (Smid & St' & Hhot & Hdec & Hout & Hstate').
    + rewrite length_rev. lia.
    + apply chain_unchain. exact Hch.
    + exact Hfields.
    + unfold n2. lia.
    + unfold decU16_match, D0. cbn [du_bitC du_ip du_state du_out du_op length]. fold T.
      split; [exact Hat|]. split; [exact Hbc|]. split; [reflexivity|]. split; reflexivity.
    + rewrite length_rev. cbn [length]. lia.
    + rewrite length_rev. lia.
    + fold D0. rewrite Hhot. cbn [mbind option_bind]. rewrite Hdec. cbn [mbind option_bind].
      destruct (Z.ltb_spec (Z.of_nat (length rsrc)) 0) as [?|_]; [lia|].
      rewrite Hout, Hstate'. cbn [app]. rewrite Hiend. f_equal.
      f_equal; [unfold p, c0, n2; lia|].
      replace (T + last - T) with last by lia.
      rewrite u16_small by (destruct Hlast as [Hl _]; change (2 ^ 16) with 65536; lia).
      rewrite <- (length_rev rsrc). apply store_at_end.
Qed.

End StreamU16.

(** X16.  Stream round trip for 16-bit symbols.  With the tables that
    [FSE_buildCTableU16] and [FSE_buildDTableU16] build from one
    normalized distribution (whose symbols all lie below the table
    size), [FSE_compressU16_usingCTable] turns any non-empty source of
    symbols of positive weight into a stream of [p] bytes, the 4-byte
    bit count included, and [FSE_decompressU16_usingDTable], given the
    number of symbols and those bytes anywhere in memory, returns [p]
    and the source. *)
Theorem streamU16_round_trip :
  forall (N : list Z) (tableLog : Z) (source stack : list Z),
    normalized N tableLog -> Z.of_nat (length N) <= 2 ^ tableLog ->
    Forall (coded N) source -> 1 <= Z.of_nat (length source) <= 2 ^ 26 ->
    Z.of_nat (length stack) = FSE_MAX_NB_SYMBOLS ->
    Exists (fun v => Z.shiftl 1 tableLog < v) (drop (length N) stack) ->
    exists ct dt16 p stream,
      FSE_buildCTableU16 N (Z.of_nat (length N)) tableLog = Some (0, ct)
      /\ FSE_buildDTableU16 stack N (Z.of_nat (length N)) tableLog = Some (inr dt16)
      /\ FSE_compressU16_usingCTable source ct = Some (p, stream)
      /\ 4 < p <= 4 + (tableLog * Z.of_nat (length source) + 7) / 8
      /\ Forall is_byte (take (Z.to_nat p) stream)
      /\ forall prefix tail,
           Forall is_byte prefix -> Forall is_byte tail ->
           FSE_decompressU16_usingDTable (Z.of_nat (length source))
             (prefix ++ take (Z.to_nat p) stream ++ tail) (Z.of_nat (length prefix))
             dt16 tableLog
           = Some (p, source).
Proof.
  intros N tableLog source stack HN Hfit Hsyms Hlen Hstack Hgarbage.
  destruct (buildCTableU16_agrees N tableLog HN) as (ct & Hct16 & Hct).
  destruct (proj2 (buildDTableU16_spec N tableLog stack HN Hstack) Hgarbage)
    as (dt16 & dt & Hdt16 & Hdt & H1 & H2 & H3).
  destruct (exists_last (l := source)) as (init & last & ->).
  { intros ->. cbn [length] in Hlen. lia. }
  apply Forall_app in Hsyms. destruct Hsyms as [Hinit Hlast].
  inversion Hlast as [|? ? Hl _]; subst.
  rewrite length_app in *. cbn [length] in *.
  destruct (streamU16_codec N tableLog ct dt dt16 HN Hct Hdt H1 H2 H3 last (rev init))
    as (p & stream & Hc & Hp & Hbytes & _ & Hd).
  - constructor; [exact Hl|]. apply Forall_rev. exact Hinit.
  - exact Hfit.
  - rewrite length_rev. lia.
  - rewrite rev_involutive, length_rev in *.
    replace (Z.of_nat (length init) + 1) with (Z.of_nat (length init + 1)) in * by lia.
    exists ct, dt16, p, stream. repeat split; try assumption; try lia.
Qed.

Lemma streamU16_round_trip_witness :
  exists ct dt16 p stream,
    FSE_buildCTableU16 [10; 0; 22] 3 5 = Some (0, ct)
    /\ FSE_buildDTableU16 (repeat 33 286) [10; 0; 22] 3 5 = Some (inr dt16)
    /\ FSE_compressU16_usingCTable [0; 2; 2; 0] ct = Some (p, stream)
    /\ FSE_decompressU16_usingDTable 4 ([7] ++ take (Z.to_nat p) stream ++ [9]) 1 dt16 5
       = Some (p, [0; 2; 2; 0]).
Proof.
  destruct (streamU16_round_trip [10; 0; 22] 5 [0; 2; 2; 0] (repeat 33 286))
    as (ct & dt16 & p & stream & Hct & Hdt & Hc & _ & _ & Hd).
  - unfold normalized, FSE_MIN_TABLELOG, FSE_MAX_TABLELOG, FSE_MEMORY_USAGE.
    repeat split; try (simpl; lia). repeat constructor; lia.
  - simpl. lia.
  - repeat constructor; simpl; lia.
  - simpl. lia.
  - reflexivity.
  - apply Exists_exists. exists 33. split; [|vm_compute; reflexivity].
    apply list_elem_of_In. vm_compute. left. reflexivity.
  - exists ct, dt16, p, stream. split; [exact Hct|]. split; [exact Hdt|]. split; [exact Hc|].
    apply (Hd [7] [9]); repeat constructor; unfold is_byte; lia.
Defined.

(** ** Counting 16-bit symbols *)

Lemma counts_ok_weaken (size : nat) (c : list Z) (room room' : Z) :
  room' <= room -> counts_ok size c room -> counts_ok size c room'.
Proof.
  intros Hr [Hlen Hb]. split; [exact Hlen|]. intros i. specialize (Hb i). lia.
Qed.

Lemma bump_local_spec (size : nat) (c : list Z) (x room : Z) :
  0 <= x < Z.of_nat size -> counts_ok size c (room + 1) -> 0 <= room ->
  exists c', bump_local c x = Some c'
    /\ counts_ok size c' room
    /\ forall i : nat, nth i c' 0 = nth i c 0 + (if x =? Z.of_nat i then 1 else 0).
Proof.
  intros Hx [Hlen Hb] Hroom. unfold bump_local.
  rewrite rd_in_range by lia. cbn [mbind option_bind]. eexists. split; [reflexivity|].
  assert (Hnth : forall i : nat,
             nth i (wr c x (u32 (nth (Z.to_nat x) c 0 + 1))) 0
             = nth i c 0 + (if x =? Z.of_nat i then 1 else 0)).
  { intros i. destruct (Nat.lt_ge_cases i size) as [Hi|Hi].
    - rewrite <- (Nat2Z.id i) at 1. rewrite nth_wr by lia.
      specialize (Hb (Z.to_nat x)).
      destruct (Z.eqb_spec (Z.of_nat i) x) as [E|E].
      + rewrite <- E, Nat2Z.id, Z.eqb_refl. rewrite <- E, Nat2Z.id in Hb.
        rewrite u32_small by lia. lia.
      + rewrite Nat2Z.id. destruct (Z.eqb_spec x (Z.of_nat i)); [lia|]. lia.
    - rewrite !nth_overflow by (rewrite ?wr_length; lia).
      destruct (Z.eqb_spec x (Z.of_nat i)); [lia|]. lia. }
  split; [|exact Hnth]. split; [rewrite wr_length; exact Hlen|].
  intros i. rewrite Hnth. specialize (Hb i). destruct (x =? Z.of_nat i); lia.
Qed.

Lemma bump_local_outside (c : list Z) (x : Z) :
  x < 0 \/ Z.of_nat (length c) <= x -> bump_local c x = None.
Proof.
  intros Hx. unfold bump_local, rd. destruct (x <? 0) eqn:E; [reflexivity|].
  rewrite (proj2 (lookup_ge_None c (Z.to_nat x))) by lia. reflexivity.
Qed.

Lemma bump_local_length (c c' : list Z) (x : Z) :
  bump_local c x = Some c' -> length c' = length c.
Proof.
  unfold bump_local. intros H. apply bind_Some in H. destruct H as (v & _ & H).
  inversion H. apply wr_length.
Qed.

Lemma countU16_tail_spec (size : nat) (src : list Z) :
  forall c : list Z,
    Forall (fun b => 0 <= b < Z.of_nat size) src ->
    counts_ok size c (Z.of_nat (length src)) ->
    exists c', countU16_tail src c = Some c'
      /\ counts_ok size c' 0
      /\ forall i : nat, nth i c' 0 = nth i c 0 + freq src (Z.of_nat i).
Proof.
  induction src as [|x src IH]; intros c Hb Hok.
  - exists c. cbn [countU16_tail]. split; [reflexivity|]. split; [exact Hok|].
    intros i. rewrite freq_nil. lia.
  - inversion Hb as [|? ? Hx Hb']; subst. cbn [length] in Hok. rewrite Nat2Z.inj_succ in Hok.
    destruct (bump_local_spec size c x (Z.of_nat (length src)) Hx) as (c1 & Hrun & Hok1 & Hnth);
      [eapply counts_ok_weaken; [|exact Hok]; lia | lia |].
    destruct (IH c1 Hb' Hok1) as (c' & Hrun' & Hok' & Hnth').
    exists c'. cbn [countU16_tail]. rewrite Hrun. cbn [mbind option_bind].
    split; [exact Hrun'|]. split; [exact Hok'|].
    intros i. rewrite Hnth', Hnth, freq_cons. lia.
Qed.

Lemma countU16_scan_spec (size : nat) (n : nat) :
  forall (src c1 c2 c3 c4 : list Z),
    (length src <= n)%nat ->
    Forall (fun b => 0 <= b < Z.of_nat size) src ->
    counts_ok size c1 (Z.of_nat (length src)) -> counts_ok size c2 (Z.of_nat (length src)) ->
    counts_ok size c3 (Z.of_nat (length src)) -> counts_ok size c4 (Z.of_nat (length src)) ->
    exists t, countU16_scan src c1 c2 c3 c4 = Some t
      /\ forall i : nat,
           0 <= tables_at t i < 2 ^ 34
           /\ tables_at t i = tables_at (c1, c2, c3, c4) i + freq src (Z.of_nat i).
Proof.
  induction n as [n IH] using lt_wf_ind.
  intros src c1 c2 c3 c4 Hn Hb H1 H2 H3 H4.
  assert (Htail : forall l : list Z,
             l = src ->
             exists t, (c1 ← countU16_tail l c1; Some (c1, c2, c3, c4)) = Some t
               /\ forall i : nat,
                    0 <= tables_at t i < 2 ^ 34
                    /\ tables_at t i = tables_at (c1, c2, c3, c4) i + freq l (Z.of_nat i)).
  { intros l ->. destruct (countU16_tail_spec size src c1 Hb H1) as (c' & Hrun & Hok & Hnth).
    rewrite Hrun. cbn [mbind option_bind]. eexists. split; [reflexivity|].
    intros i. cbn [tables_at]. rewrite Hnth.
    destruct Hok as [_ Hk]. destruct H2 as [_ K2]. destruct H3 as [_ K3]. destruct H4 as [_ K4].
    specialize (Hk i). specialize (K2 i). specialize (K3 i). specialize (K4 i).
    rewrite Hnth in Hk. change (2 ^ 34) with 17179869184. change (2 ^ 32) with 4294967296 in *.
    lia. }
  destruct src as [|a [|b [|c [|d rest]]]]; try (apply Htail; reflexivity).
  clear Htail. cbn [countU16_scan].
  inversion Hb as [|? ? Ha Hb1]; subst. inversion Hb1 as [|? ? Hb' Hb2]; subst.
  inversion Hb2 as [|? ? Hc Hb3]; subst. inversion Hb3 as [|? ? Hd Hb4]; subst.
  cbn [length] in *. rewrite !Nat2Z.inj_succ in *.
  set (r := Z.of_nat (length rest)) in *.
  assert (Hr : 0 <= r) by (unfold r; lia).
  destruct (bump_local_spec size c1 a r Ha) as (d1 & R1 & K1 & N1);
    [eapply counts_ok_weaken; [|exact H1]; lia | lia |].
  destruct (bump_local_spec size c2 b r Hb') as (d2 & R2 & K2 & N2);
    [eapply counts_ok_weaken; [|exact H2]; lia | lia |].
  destruct (bump_local_spec size c3 c r Hc) as (d3 & R3 & K3 & N3);
    [eapply counts_ok_weaken; [|exact H3]; lia | lia |].
  destruct (bump_local_spec size c4 d r Hd) as (d4 & R4 & K4 & N4);
    [eapply counts_ok_weaken; [|exact H4]; lia | lia |].
  rewrite R1. cbn [mbind option_bind]. rewrite R2. cbn [mbind option_bind].
  rewrite R3. cbn [mbind option_bind]. rewrite R4. cbn [mbind option_bind].
  destruct (IH (length rest) ltac:(lia) rest d1 d2 d3 d4 ltac:(lia) Hb4 K1 K2 K3 K4)
    as (t & Hrun & Hat).
  exists t. split; [exact Hrun|].
  intros i. destruct (Hat i) as [Hrange Heq]. split; [exact Hrange|].
  rewrite Heq. cbn [tables_at]. rewrite N1, N2, N3, N4, !freq_cons. lia.
Qed.

(** A symbol outside the tables stops the scan, wherever it stands. *)
Lemma countU16_tail_outside (size : nat) (src : list Z) :
  forall c : list Z,
    length c = size ->
    Exists (fun b => b < 0 \/ Z.of_nat size <= b) src ->
    countU16_tail src c = None.
Proof.
  induction src as [|x src IH]; intros c Hlen Hex; [inversion Hex|].
  cbn [countU16_tail]. destruct (bump_local c x) as [c1|] eqn:E; [|reflexivity].
  cbn [mbind option_bind]. apply IH.
  - rewrite (bump_local_length _ _ _ E). exact Hlen.
  - inversion Hex as [? ? Hx|? ? Hx]; subst; [|exact Hx].
    rewrite bump_local_outside in E by lia. discriminate.
Qed.

Lemma countU16_scan_outside (size : nat) (n : nat) :
  forall (src c1 c2 c3 c4 : list Z),
    (length src <= n)%nat ->
    length c1 = size -> length c2 = size -> length c3 = size -> length c4 = size ->
    Exists (fun b => b < 0 \/ Z.of_nat size <= b) src ->
    countU16_scan src c1 c2 c3 c4 = None.
Proof.
  induction n as [n IH] using lt_wf_ind.
  intros src c1 c2 c3 c4 Hn L1 L2 L3 L4 Hex.
  assert (Htail : forall l : list Z,
             l = src -> (c1 ← countU16_tail l c1; Some (c1, c2, c3, c4)) = None).
  { intros l ->. rewrite (countU16_tail_outside size src c1 L1 Hex). reflexivity. }
  destruct src as [|a [|b [|c [|d rest]]]]; try (apply Htail; reflexivity).
  clear Htail. cbn [countU16_scan]. cbn [length] in Hn.
  destruct (bump_local c1 a) as [d1|] eqn:E1; [|reflexivity]. cbn [mbind option_bind].
  destruct (bump_local c2 b) as [d2|] eqn:E2; [|reflexivity]. cbn [mbind option_bind].
  destruct (bump_local c3 c) as [d3|] eqn:E3; [|reflexivity]. cbn [mbind option_bind].
  destruct (bump_local c4 d) as [d4|] eqn:E4; [|reflexivity]. cbn [mbind option_bind].
  apply (IH (length rest) ltac:(lia)); try lia.
  - rewrite (bump_local_length _ _ _ E1). exact L1.
  - rewrite (bump_local_length _ _ _ E2). exact L2.
  - rewrite (bump_local_length _ _ _ E3). exact L3.
  - rewrite (bump_local_length _ _ _ E4). exact L4.
  - inversion Hex as [? ? Hx|? ? Hex1]; subst.
    { rewrite bump_local_outside in E1 by lia. discriminate. }
    inversion Hex1 as [? ? Hx|? ? Hex2]; subst.
    { rewrite bump_local_outside in E2 by lia. discriminate. }
    inversion Hex2 as [? ? Hx|? ? Hex3]; subst.
    { rewrite bump_local_outside in E3 by lia. discriminate. }
    inversion Hex3 as [? ? Hx|? ? Hex4]; subst; [|exact Hex4].
    rewrite bump_local_outside in E4 by lia. discriminate.
Qed.

Lemma zeros_counts_ok (size : nat) (room : Z) :
  0 <= room < 2^32 -> counts_ok size (repeat 0 size) room.
Proof.
  intros Hr. split; [apply repeat_length|]. intros i.
  assert (nth i (repeat 0 size) 0 = 0) as -> by (rewrite nth_repeat; reflexivity). lia.
Qed.

Lemma countU16_spec (source : list Z) (maxNbSymbols : Z) :
  Forall (fun b => 0 <= b < FSE_MAX_NB_SYMBOLS) source ->
  Z.of_nat (length source) < 2^31 ->
  let cap := if maxNbSymbols =? 0 then FSE_MAX_NB_SYMBOLS else maxNbSymbols in
  source <> [] -> maxNbSymbols <= FSE_MAX_NB_SYMBOLS -> Exists (fun b => b < cap) source ->
  exists n C,
    FSE_countU16 source maxNbSymbols = Some (n, C)
    /\ Z.of_nat (length C) = cap
    /\ (forall s, 0 <= s < cap -> rd C s = Some (freq source s))
    /\ 1 <= n <= cap
    /\ freq source (n - 1) > 0
    /\ (forall s, n <= s < cap -> freq source s = 0).
Proof.
  intros Hsyms Hlen cap Hne Hmax Hex. unfold FSE_MAX_NB_SYMBOLS in *.
  assert (Hcap : 0 < cap <= 286).
  { apply Exists_exists in Hex. destruct Hex as (b & Hin & Hb).
    rewrite Forall_forall in Hsyms. specialize (Hsyms b Hin).
    unfold cap in *. destruct (maxNbSymbols =? 0); lia. }
  unfold FSE_countU16, FSE_MAX_NB_SYMBOLS.
  rewrite gtb_false by lia.
  destruct (Z.eqb_spec (Z.of_nat (length source)) 0) as [E|_].
  { destruct source; [congruence|cbn [length] in E; lia]. }
  fold cap. change (Z.to_nat 286) with 286%nat.
  assert (Hz : counts_ok 286 (repeat 0 286) (Z.of_nat (length source))).
  { apply zeros_counts_ok. change (2 ^ 31) with 2147483648 in Hlen.
    change (2 ^ 32) with 4294967296. lia. }
  destruct (countU16_scan_spec 286 (length source) source _ _ _ _ ltac:(lia) Hsyms Hz Hz Hz Hz)
    as ([[[c1 c2] c3] c4] & Hrun & Hat).
  rewrite Hrun. cbn [mbind option_bind].
  assert (Hcount : forall s, 0 <= s < cap ->
                     rd (count_sum c1 c2 c3 c4 cap) s = Some (freq source s)).
  { intros s Hs. rewrite rd_count_sum by lia. f_equal.
    destruct (Hat (Z.to_nat s)) as [_ Heq]. rewrite Heq. cbn [tables_at].
    rewrite !nth_repeat, Z2Nat.id by lia.
    pose proof (freq_bounds source s). apply u32_small.
    change (2 ^ 31) with 2147483648 in Hlen. change (2 ^ 32) with 4294967296. lia. }
  destruct (count_trim_spec (Datatypes.S (Z.to_nat cap)) (count_sum c1 c2 c3 c4 cap) cap)
    as (n & c & Hn & Hr & Hc1 & Hc2 & Hz0).
  - lia.
  - rewrite count_sum_length. lia.
  - apply Exists_exists in Hex. destruct Hex as (b & Hin & Hb).
    rewrite Forall_forall in Hsyms. pose proof (Hsyms b Hin) as Hb0.
    exists b, (freq source b). split; [lia|]. split; [apply Hcount; lia|].
    unfold freq. apply list_elem_of_In in Hin.
    apply (count_occ_In Z.eq_dec) in Hin. lia.
  - rewrite Hn. cbn [mbind option_bind]. exists n, (count_sum c1 c2 c3 c4 cap).
    split; [reflexivity|]. split; [rewrite count_sum_length; lia|].
    split; [exact Hcount|]. split; [exact Hr|].
    rewrite Hcount in Hc1 by lia. inversion Hc1; subst c.
    pose proof (freq_bounds source (n - 1)). split; [lia|].
    intros s Hs. specialize (Hz0 s Hs). rewrite Hcount in Hz0 by lia. congruence.
Qed.

(** X17.  [FSE_countU16] does not check the symbols it counts: one source
    value of [FSE_MAX_NB_SYMBOLS] or more indexes a counter outside its
    table, whatever [maxNbSymbols] is.  With every value below that
    bound, and one of them below the cap ([maxNbSymbols], 0 standing for
    [FSE_MAX_NB_SYMBOLS]), it fills the counts with the occurrence
    numbers of the symbols below the cap and returns the largest [n]
    with a non-zero count at [n-1]. *)
Theorem countU16_counts_or_overruns :
  forall (source : list Z) (maxNbSymbols : Z),
    source <> [] -> Z.of_nat (length source) < 2^31 ->
    maxNbSymbols <= FSE_MAX_NB_SYMBOLS ->
    Forall (fun b => 0 <= b < 2 ^ 16) source ->
    let cap := if maxNbSymbols =? 0 then FSE_MAX_NB_SYMBOLS else maxNbSymbols in
    (Exists (fun b => FSE_MAX_NB_SYMBOLS <= b) source ->
     FSE_countU16 source maxNbSymbols = None)
    /\ (Forall (fun b => b < FSE_MAX_NB_SYMBOLS) source ->
        Exists (fun b => b < cap) source ->
        exists n C,
          FSE_countU16 source maxNbSymbols = Some (n, C)
          /\ Z.of_nat (length C) = cap
          /\ (forall s, 0 <= s < cap -> rd C s = Some (freq source s))
          /\ 1 <= n <= cap
          /\ freq source (n - 1) > 0
          /\ (forall s, n <= s < cap -> freq source s = 0)).
Proof.
  intros source maxNbSymbols Hne Hlen Hmax H16 cap. split.
  - intros Hex. unfold FSE_countU16. rewrite gtb_false by exact Hmax.
    destruct (Z.eqb_spec (Z.of_nat (length source)) 0) as [E|_].
    { destruct source; [congruence|cbn [length] in E; lia]. }
    rewrite (countU16_scan_outside 286 (length source)); try reflexivity; try lia.
    eapply Exists_impl; [exact Hex|]. cbn. unfold FSE_MAX_NB_SYMBOLS. intros; lia.
  - intros Hin Hex. apply countU16_spec; try assumption.
    rewrite Forall_forall in *. intros b Hb. specialize (H16 b Hb). specialize (Hin b Hb).
    cbn beta in *. lia.
Qed.

Lemma countU16_counts_or_overruns_witness :
  FSE_countU16 [3; 300; 3] 0 = None
  /\ exists n C, FSE_countU16 [3; 285; 3] 0 = Some (n, C) /\ 1 <= n <= 286.
Proof.
  assert (H16a : Forall (fun b => 0 <= b < 2 ^ 16) [3; 300; 3]) by (repeat constructor; lia).
  assert (H16b : Forall (fun b => 0 <= b < 2 ^ 16) [3; 285; 3]) by (repeat constructor; lia).
  split.
  - apply (proj1 (countU16_counts_or_overruns [3; 300; 3] 0 ltac:(discriminate)
                    ltac:(simpl; lia) ltac:(unfold FSE_MAX_NB_SYMBOLS; lia) H16a)).
    apply Exists_cons_tl, Exists_cons_hd. unfold FSE_MAX_NB_SYMBOLS. lia.
  - destruct (proj2 (countU16_counts_or_overruns [3; 285; 3] 0 ltac:(discriminate)
                      ltac:(simpl; lia) ltac:(unfold FSE_MAX_NB_SYMBOLS; lia) H16b))
      as (n & C & Hrun & _ & _ & Hn & _).
    + repeat constructor; unfold FSE_MAX_NB_SYMBOLS; lia.
    + apply Exists_cons_hd. simpl. unfold FSE_MAX_NB_SYMBOLS. lia.
    + exists n, C. split; [exact Hrun|]. simpl in Hn. unfold FSE_MAX_NB_SYMBOLS in Hn. exact Hn.
Defined.

(** ** Raw and single-symbol frames of 16-bit symbols *)

Lemma load16_at (pre rest : list Z) (x : Z) :
  0 <= x < 2 ^ 16 ->
  load16 (pre ++ le_bytes 2 x ++ rest) (Z.of_nat (length pre)) = x.
Proof.
  intros Hx. unfold load16, byte_at.
  destruct (Z.ltb_spec (Z.of_nat (length pre)) 0) as [?|_]; [lia|].
  destruct (Z.ltb_spec (Z.of_nat (length pre) + 1) 0) as [?|_]; [lia|].
  rewrite Nat2Z.id. replace (Z.to_nat (Z.of_nat (length pre) + 1)) with (length pre + 1)%nat by lia.
  rewrite (app_nth2 pre _ 0 (n := length pre)) by lia.
  rewrite (app_nth2 pre _ 0 (n := length pre + 1)) by lia. rewrite Nat.sub_diag.
  replace (length pre + 1 - length pre)%nat with 1%nat by lia.
  cbn [le_bytes app nth].
  change 255 with (Z.ones 8). rewrite !Z.land_ones by lia.
  rewrite Z.shiftr_div_pow2, Z.shiftl_mul_pow2 by lia.
  change (2 ^ 8) with 256. change (2 ^ 16) with 65536 in Hx.
  rewrite (Z.mod_small (x / 256) 256).
  - pose proof (Z.div_mod x 256 ltac:(lia)). lia.
  - split; [apply Z.div_pos; lia | apply Z.div_lt_upper_bound; lia].
Qed.

Lemma raw_bytes_length (src : list Z) :
  length (flat_map (le_bytes 2) src) = (2 * length src)%nat.
Proof.
  induction src as [|x src IH]; [reflexivity|].
  cbn [flat_map length]. rewrite length_app, le_bytes_length, IH. lia.
Qed.

Lemma decode_rawU16 (src : list Z) :
  Forall (fun x => 0 <= x < 2 ^ 16) src ->
  forall (pre tail : list Z),
    map (fun i => load16 (pre ++ flat_map (le_bytes 2) src ++ tail)
                         (Z.of_nat (length pre) + 2 * Z.of_nat i))
        (seq 0 (length src)) = src.
Proof.
  induction 1 as [|x src Hx Hsrc IH]; intros pre tail; [reflexivity|].
  cbn [length seq map flat_map]. f_equal.
  - rewrite Z.add_0_r, <- app_assoc. apply load16_at. exact Hx.
  - rewrite <- seq_shift, map_map.
    rewrite <- (IH (pre ++ le_bytes 2 x) tail) at 2.
    apply map_ext. intros i. rewrite <- !app_assoc.
    f_equal. rewrite length_app, le_bytes_length. lia.
Qed.

Lemma decompress_raw_frameU16 (fuel : nat) (stack src tail : list Z) :
  Forall (fun x => 0 <= x < 2 ^ 16) src -> Z.of_nat (length src) < 2 ^ 30 ->
  FSE_decompressU16 fuel stack (Z.of_nat (length src))
    ((0 :: flat_map (le_bytes 2) src) ++ tail)
  = Some (Z.of_nat (length src) * 2 + 1, src).
Proof.
  intros Hsrc Hlen. unfold FSE_decompressU16.
  change (byte_at ((0 :: flat_map (le_bytes 2) src) ++ tail) 0) with 0.
  change (Z.land 0 3 =? 0) with true. cbv iota. unfold FSE_decompressRawU16.
  destruct (Z.ltb_spec (Z.of_nat (length src)) 0) as [?|_]; [lia|].
  destruct (Z.leb_spec (2 ^ 30) (Z.of_nat (length src))) as [?|_]; [lia|].
  cbn [orb]. rewrite Nat2Z.id. do 2 f_equal.
  rewrite <- (decode_rawU16 src Hsrc [0] tail) at 2.
  apply map_ext. intros i. cbn [length app]. f_equal.
Qed.

Lemma decompress_single_frameU16 (fuel : nat) (stack tail : list Z) (x size : Z) :
  0 <= x < 2 ^ 16 ->
  FSE_decompressU16 fuel stack size ((1 :: le_bytes 2 x) ++ tail)
  = Some (3, repeat x (Z.to_nat size)).
Proof.
  intros Hx. unfold FSE_decompressU16.
  change (byte_at ((1 :: le_bytes 2 x) ++ tail) 0) with 1.
  change (Z.land 1 3 =? 0) with false. change (Z.land 1 3 =? 1) with true. cbv iota.
  unfold FSE_decompressSingleU16. do 3 f_equal.
  change ((1 :: le_bytes 2 x) ++ tail) with ([1] ++ le_bytes 2 x ++ tail).
  apply (load16_at [1] tail x Hx).
Qed.

(** ** Counting, as the 16-bit compressor uses it *)

Lemma countU16_default (source : list Z) :
  Forall is_byte source -> source <> [] -> Z.of_nat (length source) < 2 ^ 31 ->
  exists nz C1,
    FSE_countU16 source FSE_MAX_NB_SYMBOLS = Some (Z.of_nat (length C1), C1 ++ repeat 0 nz)
    /\ (1 <= length C1 <= 256)%nat
    /\ (length C1 + nz = 286)%nat
    /\ (forall s, (s < length C1)%nat -> nth s C1 0 = freq source (Z.of_nat s))
    /\ (forall s, Z.of_nat (length C1) <= s -> freq source s = 0)
    /\ 0 < freq source (Z.of_nat (length C1) - 1)
    /\ sum_list C1 = Z.of_nat (length source)
    /\ Forall (fun c => 0 <= c) C1.
Proof.
  intros Hbytes Hne Hlen.
  assert (Hbeyond : forall s, 256 <= s -> freq source s = 0).
  { intros s Hs. unfold freq.
    rewrite (proj1 (count_occ_not_In Z.eq_dec source s)); [reflexivity|].
    intros Hin. rewrite Forall_forall in Hbytes. apply list_elem_of_In in Hin.
    specialize (Hbytes s Hin). unfold is_byte in Hbytes. lia. }
  assert (Hsyms : Forall (fun b => 0 <= b < FSE_MAX_NB_SYMBOLS) source).
  { eapply Forall_impl; [exact Hbytes|]. unfold is_byte, FSE_MAX_NB_SYMBOLS. cbn. intros; lia. }
  pose proof (countU16_spec source FSE_MAX_NB_SYMBOLS Hsyms Hlen) as Hspec.
  cbv zeta in Hspec. change (FSE_MAX_NB_SYMBOLS =? 0) with false in Hspec. cbv iota in Hspec.
  destruct Hspec as (n & C & Hrun & HlenC & Hval & Hn & Hpos & Hzero);
    [exact Hne | lia | |].
  { destruct source as [|b src]; [congruence|]. apply Exists_cons_hd.
    inversion Hsyms; subst. lia. }
  unfold FSE_MAX_NB_SYMBOLS in *.
  assert (Hn256 : n <= 256).
  { destruct (Z_lt_le_dec 256 n) as [Hgt|]; [|assumption].
    rewrite Hbeyond in Hpos by lia. lia. }
  assert (Hz0 : forall s, n <= s -> freq source s = 0).
  { intros s Hs. destruct (Z_lt_le_dec s 256) as [Hlt|Hge]; [|apply Hbeyond; exact Hge].
    apply Hzero. lia. }
  assert (Hsplit : C = take (Z.to_nat n) C ++ repeat 0 (286 - Z.to_nat n)).
  { rewrite <- (take_drop (Z.to_nat n) C) at 1. f_equal.
    apply nth_ext with (d := 0) (d' := 0).
    - rewrite length_drop, repeat_length. lia.
    - intros i Hi. rewrite length_drop in Hi. rewrite nth_repeat.
      rewrite !nth_lookup, lookup_drop.
      pose proof (Hval (Z.of_nat (Z.to_nat n + i)) ltac:(lia)) as Hv.
      rewrite Hz0 in Hv by lia.
      unfold rd in Hv. destruct (_ <? 0) eqn:E; [lia|]. rewrite Nat2Z.id in Hv.
      rewrite Hv. reflexivity. }
  exists (286 - Z.to_nat n)%nat, (take (Z.to_nat n) C).
  assert (Hl1 : length (take (Z.to_nat n) C) = Z.to_nat n) by (rewrite length_take; lia).
  rewrite Hl1, Z2Nat.id by lia. rewrite <- Hsplit.
  split; [exact Hrun|]. split; [lia|]. split; [lia|].
  assert (Hnth : forall s, (s < Z.to_nat n)%nat ->
                           nth s (take (Z.to_nat n) C) 0 = freq source (Z.of_nat s)).
  { intros s Hs. rewrite nth_lookup, lookup_take_lt by lia.
    pose proof (Hval (Z.of_nat s) ltac:(lia)) as Hv. unfold rd in Hv.
    destruct (_ <? 0) eqn:E; [lia|]. rewrite Nat2Z.id in Hv. rewrite Hv. reflexivity. }
  split; [exact Hnth|]. split; [exact Hz0|]. split; [lia|].
  assert (HC1 : take (Z.to_nat n) C = map (fun i => freq source (Z.of_nat i)) (seq 0 (Z.to_nat n))).
  { apply nth_ext with (d := 0) (d' := freq source (Z.of_nat 0)).
    - rewrite length_map, length_seq. exact Hl1.
    - intros i Hi. rewrite Hl1 in Hi.
      rewrite (map_nth (fun i => freq source (Z.of_nat i))), seq_nth by exact Hi.
      apply Hnth. exact Hi. }
  split.
  - rewrite HC1. apply sum_freq. apply Forall_forall. intros x Hx.
    rewrite Forall_forall in Hbytes. pose proof (Hbytes x Hx) as Hb. unfold is_byte in Hb.
    pose proof (freq_positive source x Hx) as Hf.
    destruct (Z_lt_le_dec x n) as [|Hge]; [lia|]. rewrite Hz0 in Hf by exact Hge. lia.
  - rewrite HC1. apply Forall_forall. intros x Hx. apply list_elem_of_In in Hx.
    apply in_map_iff in Hx. destruct Hx as (i & <- & _). apply freq_bounds.
Qed.

Lemma buildCTableU16_prefix (N X : list Z) (L : Z) :
  (1 <= length N)%nat ->
  FSE_buildCTableU16 (N ++ X) (Z.of_nat (length N)) L
  = FSE_buildCTableU16 N (Z.of_nat (length N)) L.
Proof.
  intros Hn. unfold FSE_buildCTableU16.
  rewrite cumul_fill_prefix by lia. rewrite Nat2Z.id.
  rewrite ctable_transforms_prefix. reflexivity.
Qed.

Lemma Exists_drop_le {A : Type} (P : A -> Prop) (l : list A) (i j : nat) :
  (i <= j)%nat -> Exists P (drop j l) -> Exists P (drop i l).
Proof.
  intros Hij H. replace j with (i + (j - i))%nat in H by lia.
  rewrite <- drop_drop in H. rewrite <- (take_drop (j - i) (drop i l)).
  apply Exists_app. right. exact H.
Qed.

Lemma store_first (buf bs : list Z) (b : Z) : byte_at (store buf 0 (b :: bs)) 0 = b.
Proof. unfold store. change (Z.to_nat 0) with 0%nat. rewrite take_0. reflexivity. Qed.

Lemma compressU16_small (fuel fuel' : nat) (counting source : list Z) :
  Forall is_byte source -> Z.of_nat (length source) <= 4096 -> (286 < fuel')%nat ->
  Z.of_nat (length counting) = FSE_MAX_NB_SYMBOLS ->
  exists n image,
    FSE_compressU16 fuel counting source 0 0 = Some (n, image)
    /\ 1 <= n <= 2 * Z.of_nat (length source) + 1
    /\ forall (stack tail : list Z),
         Forall is_byte tail -> Z.of_nat (length stack) = FSE_MAX_NB_SYMBOLS ->
         (Exists (fun v => 4096 < v) (drop 256 stack) ->
          FSE_decompressU16 fuel' stack (Z.of_nat (length source))
            (take (Z.to_nat n) image ++ tail)
          = Some (n, source))
         /\ (Forall (fun v => v <= 32) stack -> byte_at image 0 mod 4 = 2 ->
             FSE_decompressU16 fuel' stack (Z.of_nat (length source))
               (take (Z.to_nat n) image ++ tail)
             = None).
Proof.
  intros Hbytes Hsize Hfuel Hcounting. set (size := Z.of_nat (length source)) in *.
  assert (H16 : Forall (fun x => 0 <= x < 2 ^ 16) source).
  { eapply Forall_impl; [exact Hbytes|]. unfold is_byte. cbn. intros; lia. }
  assert (Hraw : forall dest,
            exists n image, FSE_noCompressionU16 dest source size = Some (n, image)
              /\ 1 <= n <= 2 * size + 1
              /\ forall (stack tail : list Z),
                   Forall is_byte tail -> Z.of_nat (length stack) = FSE_MAX_NB_SYMBOLS ->
                   (Exists (fun v => 4096 < v) (drop 256 stack) ->
                    FSE_decompressU16 fuel' stack size (take (Z.to_nat n) image ++ tail)
                    = Some (n, source))
                   /\ (Forall (fun v => v <= 32) stack -> byte_at image 0 mod 4 = 2 ->
                       FSE_decompressU16 fuel' stack size (take (Z.to_nat n) image ++ tail)
                       = None)).
  { intros dest. unfold FSE_noCompressionU16.
    destruct (Z.ltb_spec size 0) as [?|_]; [lia|].
    destruct (Z.leb_spec (2 ^ 30) size) as [?|_]; [lia|]. cbn [orb].
    eexists _, _. split; [reflexivity|].
    split; [unfold size; lia|]. intros stack tail _ _. split.
    - intros _.
      replace (Z.to_nat (size * 2 + 1)) with (length (0 :: flat_map (le_bytes 2) source)).
      + rewrite store_front. apply decompress_raw_frameU16; [exact H16 | fold size; lia].
      + cbn [length]. rewrite raw_bytes_length. unfold size. lia.
    - intros _ Hb. rewrite store_first in Hb. discriminate. }
  assert (Hsingle : forall b, 2 <= size -> source = repeat b (length source) ->
            exists n image, Some (FSE_writeSingleU16 [] (nth 0 source 0)) = Some (n, image)
              /\ 1 <= n <= 2 * size + 1
              /\ forall (stack tail : list Z),
                   Forall is_byte tail -> Z.of_nat (length stack) = FSE_MAX_NB_SYMBOLS ->
                   (Exists (fun v => 4096 < v) (drop 256 stack) ->
                    FSE_decompressU16 fuel' stack size (take (Z.to_nat n) image ++ tail)
                    = Some (n, source))
                   /\ (Forall (fun v => v <= 32) stack -> byte_at image 0 mod 4 = 2 ->
                       FSE_decompressU16 fuel' stack size (take (Z.to_nat n) image ++ tail)
                       = None)).
  { intros b Hs2 Huni. unfold FSE_writeSingleU16. eexists _, _. split; [reflexivity|].
    split; [lia|]. intros stack tail _ _.
    assert (Hb0 : nth 0 source 0 = b).
    { rewrite Huni. destruct (length source) as [|m] eqn:E; [unfold size in Hs2; lia|].
      reflexivity. }
    assert (Hb : 0 <= b < 2 ^ 16).
    { rewrite Forall_forall in H16. apply H16. rewrite Huni.
      destruct (length source) as [|m] eqn:E; [unfold size in Hs2; lia|].
      cbn [repeat]. apply list_elem_of_here. }
    rewrite Hb0. split.
    - intros _. change (Z.to_nat 3) with (length (1 :: le_bytes 2 b)). rewrite store_front.
      rewrite decompress_single_frameU16 by exact Hb.
      unfold size. rewrite Nat2Z.id, <- Huni. reflexivity.
    - intros _ Hb1. rewrite store_first in Hb1. discriminate. }
  unfold FSE_compressU16. fold size.
  destruct (size <=? 1) eqn:Esize; [apply Hraw|].
  change (0 =? 0) with true. cbv iota.
  assert (Hne : source <> []) by (destruct source; [cbn in Esize; discriminate | discriminate]).
  destruct (countU16_default source Hbytes Hne ltac:(fold size; lia))
    as (nz & C1 & Hcount & HlenC & Hlenz & HC1 & Hzero & Hlastpos & HsumC & HnnC).
  rewrite Hcount. cbn [mbind option_bind].
  assert (Hrest : drop (length (C1 ++ repeat 0 nz)) counting = []).
  { apply drop_ge. rewrite length_app, repeat_length. unfold FSE_MAX_NB_SYMBOLS in Hcounting. lia. }
  rewrite Hrest, app_nil_r.
  remember (Z.of_nat (length C1)) as n eqn:Hn.
  destruct (Z.eqb_spec n 1) as [En1|Hn1].
  { apply (Hsingle 0); [lia|]. apply uniform_source.
    destruct C1 as [|c [|c' C1]]; cbn [length] in *; try lia.
    cbn [sum_list] in HsumC. pose proof (HC1 0%nat ltac:(lia)) as H0. cbn [nth] in H0.
    change (Z.of_nat 0) with 0 in H0. rewrite <- H0. unfold size in HsumC. lia. }
  destruct (default_tableLog_covers_total size n ltac:(lia) ltac:(lia)) as (Hcov & HLmax & HnT).
  pose proof (norm_tableLog_ge_min FSE_MAX_TABLELOG size n) as HLmin.
  remember (norm_tableLog FSE_MAX_TABLELOG size n) as L eqn:HeqL.
  destruct (normalizeCount_small fuel FSE_MAX_TABLELOG C1 (repeat 0 nz) size HnnC)
    as (r & N & Hnorm & HlenN & Hcases);
    [exact HsumC | rewrite <- Hn, <- HeqL; lia | rewrite <- Hn, <- HeqL; exact HLmax |].
  rewrite <- Hn in Hnorm, Hcases. rewrite <- HeqL in Hcases.
  rewrite Hnorm. cbn [mbind option_bind].
  destruct Hcases as [[-> Hex]|(-> & Hnex & HsumN & Hall)].
  { change (0 =? 0) with true. cbv iota.
    apply Exists_exists in Hex. destruct Hex as (c & Hin & Hc).
    apply list_elem_of_In in Hin. apply (In_nth _ _ 0) in Hin. destruct Hin as (s & Hs & Hnth).
    apply (Hsingle (Z.of_nat s)); [lia|]. apply uniform_source.
    rewrite <- HC1 by exact Hs. rewrite Hnth, Hc. reflexivity. }
  assert (HLr : FSE_MIN_TABLELOG <= L <= FSE_MAX_TABLELOG) by lia.
  destruct (Z.eqb_spec L 0) as [?|_]; [unfold FSE_MIN_TABLELOG in *; lia|].
  destruct (weights_of_counts C1 N HnnC Hall) as [HnnN HposN].
  assert (HN : normalized N L).
  { unfold normalized. split; [exact HLr|]. split; [lia|]. split; assumption. }
  assert (Hcoded : Forall (coded N) source).
  { apply Forall_forall. intros x Hx. pose proof (freq_positive source x Hx) as Hf.
    rewrite Forall_forall in Hbytes. pose proof (Hbytes x Hx) as Hxb. unfold is_byte in Hxb.
    assert (Hxn : x < n).
    { destruct (Z_lt_le_dec x n) as [|Hge]; [assumption|]. rewrite (Hzero x Hge) in Hf. lia. }
    unfold coded. rewrite HlenN, <- Hn. split; [lia|].
    apply HposN; [lia|]. rewrite HC1 by lia. rewrite Z2Nat.id by lia. exact Hf. }
  assert (Hlast : exists N' c, N = N' ++ [c] /\ 0 < c).
  { exists (removelast N), (nth (length N - 1) N 0). split; [apply last_entry; lia|].
    apply HposN; [lia|]. rewrite HlenN, HC1 by lia.
    replace (Z.of_nat (length C1 - 1)) with (n - 1) by lia. exact Hlastpos. }
  assert (HnN : n = Z.of_nat (length N)) by lia.
  rewrite HnN.
  assert (Hwrite : forall tail', Forall is_byte tail' ->
            exists hsize himage,
              FSE_writeHeader (N ++ repeat 0 nz) (Z.of_nat (length N)) L = Some (hsize, himage)
              /\ 0 < hsize
              /\ Forall is_byte (take (Z.to_nat hsize) himage)
              /\ Z.of_nat (length (take (Z.to_nat hsize) himage)) = hsize
              /\ byte_at (take (Z.to_nat hsize) himage ++ tail') 0 mod 2 ^ 6 = 2 + 4 * (L - 5)
              /\ FSE_readHeader fuel' (take (Z.to_nat hsize) himage ++ tail')
                 = Some {| rh_ret := hsize; rh_normalizedCounter := N;
                           rh_nbSymbols := Z.of_nat (length N); rh_tableLog := L |}).
  { intros tail' Htail'. apply header_codec; try assumption; try lia.
    rewrite length_app, repeat_length. lia. }
  destruct (Hwrite [] ltac:(constructor)) as (hsize & himage & Hwh & Hhs & _ & Hhl & _).
  rewrite Hwh. cbn [mbind option_bind].
  destruct (Z.ltb_spec hsize 0) as [?|_]; [lia|].
  rewrite buildCTableU16_prefix by lia.
  destruct (buildCTableU16_agrees N L HN) as (ct & Hct16 & Hct).
  rewrite Hct16. cbn [mbind option_bind].
  (* the stream *)
  assert (Hsrc : exists last rsrc, source = rev rsrc ++ [last]).
  { rewrite <- (rev_involutive source). assert (Hl := length_rev source).
    destruct (rev source) as [|last rsrc]; cbn [length] in Hl; unfold size in Esize; try lia.
    exists last, rsrc. reflexivity. }
  destruct Hsrc as (last & rsrc & Esrc).
  assert (Hsz : size = Z.of_nat (length rsrc) + 1).
  { unfold size. rewrite Esrc, length_app, length_rev. cbn [length]. lia. }
  assert (Hcoded' : Forall (coded N) (last :: rsrc)).
  { rewrite Esrc in Hcoded. apply Forall_app in Hcoded. destruct Hcoded as [Hr Hl'].
    inversion Hl' as [|? ? Hl _]; subst.
    constructor; [exact Hl|].
    apply Forall_rev in Hr. rewrite rev_involutive in Hr. exact Hr. }
  assert (Hstream : forall stack, Z.of_nat (length stack) = FSE_MAX_NB_SYMBOLS ->
            Exists (fun v => 4096 < v) (drop 256 stack) ->
            exists dt16 p stream,
              FSE_buildDTableU16 stack N (Z.of_nat (length N)) L = Some (inr dt16)
              /\ FSE_compressU16_usingCTable source ct = Some (p, stream)
              /\ 4 < p
              /\ Forall is_byte (take (Z.to_nat p) stream)
              /\ Z.of_nat (length (take (Z.to_nat p) stream)) = p
              /\ forall prefix tail, Forall is_byte prefix -> Forall is_byte tail ->
                   FSE_decompressU16_usingDTable size
                     (prefix ++ take (Z.to_nat p) stream ++ tail) (Z.of_nat (length prefix))
                     dt16 L
                   = Some (p, source)).
  { intros stack Hstack Hgar.
    destruct (proj2 (buildDTableU16_spec N L stack HN Hstack)) as (dt16 & dt & Hdt16 & Hdt & H1 & H2 & H3).
    { apply (Exists_drop_le _ _ (length N) 256); [lia|].
      eapply Exists_impl; [exact Hgar|]. cbn. intros v Hv. rewrite Z.shiftl_1_l.
      assert (2 ^ L <= 2 ^ 12) by (apply Z.pow_le_mono_r; unfold FSE_MAX_TABLELOG, FSE_MEMORY_USAGE in *; lia).
      change (2 ^ 12) with 4096 in *. lia. }
    destruct (streamU16_codec N L ct dt dt16 HN Hct Hdt H1 H2 H3 last rsrc Hcoded')
      as (p & stream & Hcomp & Hp & Hsbytes & Hslen & Hdec).
    { rewrite HlenN, <- Hn. exact HnT. }
    { change (2 ^ 26) with 67108864. lia. }
    rewrite <- Esrc in Hcomp, Hdec. rewrite <- Hsz in Hdec.
    exists dt16, p, stream. repeat split; try assumption; try lia. }
  destruct (Hstream (repeat 4097 286)) as (_ & p & stream & _ & Hcomp & Hp & Hsbytes & Hslen & _).
  { reflexivity. }
  { apply Exists_exists. exists 4097. split; [|lia].
    apply list_elem_of_In. vm_compute. left. reflexivity. }
  rewrite Hcomp. cbn [mbind option_bind].
  destruct (hsize + p >=? (size - 1) * 2) eqn:Ebig; [apply Hraw|].
  exists (hsize + p), (store himage hsize stream). split; [reflexivity|]. split; [lia|].
  intros stack tail Htail Hstack.
  assert (Hframe : take (Z.to_nat (hsize + p)) (store himage hsize stream)
                   = take (Z.to_nat hsize) himage ++ take (Z.to_nat p) stream).
  { replace (Z.to_nat (hsize + p)) with (Z.to_nat hsize + Z.to_nat p)%nat by lia.
    apply store_append.
    - rewrite length_take in Hhl. lia.
    - rewrite length_take in Hslen. lia. }
  rewrite Hframe, <- app_assoc.
  assert (Htail' : Forall is_byte (take (Z.to_nat p) stream ++ tail))
    by (apply Forall_app; split; assumption).
  destruct (Hwrite _ Htail') as (hsize' & himage' & Hwh' & _ & Hhb & _ & Hb0 & Hrh).
  assert (hsize' = hsize /\ himage' = himage) as [-> ->] by (split; congruence).
  set (mem := take (Z.to_nat hsize) himage ++ take (Z.to_nat p) stream ++ tail) in *.
  assert (Hb0' : byte_at mem 0 mod 4 = 2).
  { change 4 with (2 ^ 2). rewrite <- (mod_pow2_mod _ 6 2) by lia. rewrite Hb0.
    unfold FSE_MIN_TABLELOG in HLr. change (2 ^ 2) with 4.
    replace (2 + 4 * (L - 5)) with (2 + (L - 5) * 4) by lia. rewrite Z_mod_plus_full. reflexivity. }
  assert (Hhead : forall stack',
            FSE_decompressU16 fuel' stack' size mem
            = r ← FSE_buildDTableU16 stack' N (Z.of_nat (length N)) L;
              match r with
              | inl _ => None
              | inr DTable =>
                  '(n, out) ← FSE_decompressU16_usingDTable size mem hsize DTable L;
                  Some (hsize + n, out)
              end).
  { intros stack'. unfold FSE_decompressU16.
    change 3 with (Z.ones 2). rewrite Z.land_ones by lia. change (2 ^ 2) with 4.
    rewrite Hb0'. change (2 =? 0) with false. change (2 =? 1) with false. cbv iota.
    rewrite Hrh. cbn [mbind option_bind rh_ret rh_normalizedCounter rh_nbSymbols rh_tableLog].
    rewrite gtb_false by (unfold FSE_MAX_NB_SYMBOLS; lia).
    destruct (Z.ltb_spec hsize 0) as [?|_]; [lia|]. reflexivity. }
  rewrite Hhead. split.
  - intros Hgar.
    destruct (Hstream stack Hstack Hgar)
      as (dt16 & p' & stream' & Hdt16 & Hcomp' & _ & _ & _ & Hdec).
    assert (p' = p /\ stream' = stream) as [-> ->] by (split; congruence).
    rewrite Hdt16. cbn [mbind option_bind].
    rewrite <- Hhl at 1. unfold mem. rewrite Hdec by assumption. reflexivity.
  - intros Hlow _.
    rewrite (proj1 (buildDTableU16_spec N L stack HN Hstack)); [reflexivity|].
    apply Forall_drop. eapply Forall_impl; [exact Hlow|]. cbn. intros v Hv.
    rewrite Z.shiftl_1_l.
    assert (2 ^ 5 <= 2 ^ L) by (apply Z.pow_le_mono_r; unfold FSE_MIN_TABLELOG in *; lia).
    change (2 ^ 5) with 32 in *. lia.
Qed.

(** X18.  Round trip of the whole codec for 16-bit symbols, on sources of
    at most 4096 symbols below 256.  [FSE_compressU16] with the default
    parameters returns for every such source, for any fuel and whatever
    its local table [counting] held: a frame of [1 <= n <= 2*length + 1]
    bytes.  [FSE_decompressU16], given the number of symbols and those
    bytes followed by anything, returns [n] and the source as soon as one
    of the last 30 cells of the array [symbolNext], which
    [FSE_buildDTableU16] leaves uninitialised, holds more than 4096.
    When no cell of that array holds more than 32, every frame that is
    neither raw nor single-symbol makes the decoder run off it.  (The
    reader of the header needs fuel for its at most 286 rounds.) *)
Theorem compressU16_decompressU16_round_trip :
  forall (fuel fuel' : nat) (counting source : list Z),
    Forall is_byte source -> Z.of_nat (length source) <= 4096 -> (286 < fuel')%nat ->
    Z.of_nat (length counting) = FSE_MAX_NB_SYMBOLS ->
    exists n image,
      FSE_compressU16 fuel counting source 0 0 = Some (n, image)
      /\ 1 <= n <= 2 * Z.of_nat (length source) + 1
      /\ forall stack tail : list Z,
           Forall is_byte tail -> Z.of_nat (length stack) = FSE_MAX_NB_SYMBOLS ->
           (Exists (fun v => 4096 < v) (drop 256 stack) ->
            FSE_decompressU16 fuel' stack (Z.of_nat (length source))
              (take (Z.to_nat n) image ++ tail)
            = Some (n, source))
           /\ (Forall (fun v => v <= 32) stack -> byte_at image 0 mod 4 = 2 ->
               FSE_decompressU16 fuel' stack (Z.of_nat (length source))
                 (take (Z.to_nat n) image ++ tail)
               = None).
Proof.
  intros fuel fuel' counting source Hbytes Hsize Hfuel Hcounting.
  exact (compressU16_small fuel fuel' counting source Hbytes Hsize Hfuel Hcounting).
Qed.

Lemma compressU16_decompressU16_round_trip_witness :
  let source := [3; 1; 3; 3; 0; 3; 1; 3; 3; 3; 3; 3; 3; 3; 3; 3; 3; 3; 3; 3; 3; 3; 3; 3;
                 3; 3; 3; 3; 3; 3; 3; 3; 3; 3; 3; 3; 3; 3; 3; 3; 3; 3; 3; 3; 3] in
  exists n image,
    FSE_compressU16 0 (repeat 77 286) source 0 0 = Some (n, image)
    /\ FSE_decompressU16 287 (repeat 0 256 ++ repeat 5000 30) 45 (take (Z.to_nat n) image ++ [42])
       = Some (n, source)
    /\ FSE_decompressU16 287 (repeat 0 286) 45 (take (Z.to_nat n) image ++ [42]) = None.
Proof.
  intros source.
  destruct (compressU16_decompressU16_round_trip 0 287 (repeat 77 286) source)
    as (n & image & Hc & _ & Hd).
  - repeat constructor; unfold is_byte; lia.
  - simpl. lia.
  - lia.
  - reflexivity.
  - exists n, image. split; [exact Hc|]. split.
    + apply (Hd (repeat 0 256 ++ repeat 5000 30) [42]).
      * repeat constructor; unfold is_byte; lia.
      * reflexivity.
      * apply Exists_exists. exists 5000. split; [|lia].
        apply list_elem_of_In. vm_compute. left. reflexivity.
    + assert (E := Hc). vm_compute in E. injection E as En Ei. subst n image.
      apply (Hd (repeat 0 286) [42]).
      * repeat constructor; unfold is_byte; lia.
      * reflexivity.
      * apply Forall_forall. intros v Hv. apply list_elem_of_In, repeat_spec in Hv. lia.
      * reflexivity.
Defined.

(** ** The portable highest-bit search *)

Lemma window_start (val : Z) : window val 1 val.
Proof.
  intros i Hi. split.
  - intros H. exists 0. split; [lia|]. rewrite Z.add_0_r. exact H.
  - intros (j & Hj & H). replace (i + j) with i in H by lia. exact H.
Qed.

Lemma window_step (val w v : Z) :
  0 < w -> window val w v -> window val (2 * w) (Z.lor v (Z.shiftr v w)).
Proof.
  intros Hw H i Hi. rewrite Z.lor_spec, Z.shiftr_spec by lia.
  rewrite orb_true_iff, (H i Hi), (H (i + w)) by lia. split.
  - intros [(j & Hj & Hb)|(j & Hj & Hb)].
    + exists j. split; [lia | exact Hb].
    + exists (w + j). split; [lia|]. replace (i + (w + j)) with (i + w + j) by lia. exact Hb.
  - intros (j & Hj & Hb). destruct (Z_lt_le_dec j w) as [Hlt|Hge].
    + left. exists j. split; [lia | exact Hb].
    + right. exists (j - w). split; [lia|].
      replace (i + w + (j - w)) with (i + j) by lia. exact Hb.
Qed.

Lemma smear_ones (val : Z) :
  0 < val < 2 ^ 32 ->
  let v := val in
  let v := Z.lor v (Z.shiftr v 1) in
  let v := Z.lor v (Z.shiftr v 2) in
  let v := Z.lor v (Z.shiftr v 4) in
  let v := Z.lor v (Z.shiftr v 8) in
  let v := Z.lor v (Z.shiftr v 16) in
  v = Z.ones (Z.log2 val + 1).
Proof.
  intros Hval. cbv zeta.
  pose proof (window_step val 16 _ ltac:(lia)
                (window_step val 8 _ ltac:(lia)
                   (window_step val 4 _ ltac:(lia)
                      (window_step val 2 _ ltac:(lia)
                         (window_step val 1 _ ltac:(lia) (window_start val)))))) as Hw.
  change (2 * 16) with 32 in Hw. change (2 * 8) with 16 in Hw. change (2 * 4) with 8 in Hw.
  change (2 * 2) with 4 in Hw. change (2 * 1) with 2 in Hw.
  assert (Hk : 0 <= Z.log2 val < 32).
  { split; [apply Z.log2_nonneg|]. apply Z.log2_lt_pow2; lia. }
  apply Z.bits_inj'. intros i Hi. apply eq_true_iff_eq.
  rewrite (Hw i Hi), Z.testbit_ones_nonneg by lia. rewrite Z.ltb_lt. split.
  - intros (j & Hj & Hb). destruct (Z_lt_le_dec (Z.log2 val) (i + j)) as [Hlt|]; [|lia].
    rewrite Z.bits_above_log2 in Hb by lia. discriminate.
  - intros Hlt. exists (Z.log2 val - i). split; [lia|].
    replace (i + (Z.log2 val - i)) with (Z.log2 val) by lia. apply Z.bit_log2. lia.
Qed.

Lemma DeBruijnClz_index (k : nat) :
  (k < 32)%nat ->
  nth (Z.to_nat (Z.shiftr (u32 (Z.ones (Z.of_nat k + 1) * 130329821)) 27)) DeBruijnClz 0
  = Z.of_nat k.
Proof.
  intros Hk. do 32 (destruct k as [|k]; [vm_compute; reflexivity|]). lia.
Qed.

Lemma highbit_software_log2 (val : Z) :
  0 <= val < 2 ^ 32 -> FSE_highbit_software val = Z.log2 val.
Proof.
  intros Hval. destruct (Z.eq_dec val 0) as [->|Hnz]; [vm_compute; reflexivity|].
  unfold FSE_highbit_software. cbv zeta.
  pose proof (smear_ones val ltac:(lia)) as Hs. cbv zeta in Hs. rewrite Hs.
  assert (Hk : 0 <= Z.log2 val < 32).
  { split; [apply Z.log2_nonneg|]. apply Z.log2_lt_pow2; lia. }
  rewrite <- (Z2Nat.id (Z.log2 val)) at 1 by lia.
  rewrite DeBruijnClz_index by lia. lia.
Qed.

(** X19.  The portable branch of [FSE_highbit] agrees with the intrinsic
    ones.  For every 32-bit value the bit smearing followed by the
    De Bruijn multiplication and table look-up returns what the bit-scan
    branches return: the index [r] of the highest set bit of a non-zero
    value, [2^r <= val < 2^(r+1)].  On 0, which the intrinsics leave
    undefined, it returns 0. *)
Theorem highbit_software_is_highest_bit :
  forall val : Z,
    0 <= val < 2 ^ 32 ->
    FSE_highbit_software val = FSE_highbit val
    /\ (0 < val -> 2 ^ FSE_highbit_software val <= val < 2 ^ (FSE_highbit_software val + 1))
    /\ (val = 0 -> FSE_highbit_software val = 0).
Proof.
  intros val Hval. rewrite highbit_software_log2 by exact Hval. unfold FSE_highbit.
  split; [reflexivity|]. split.
  - intros Hpos. pose proof (Z.log2_spec val Hpos) as H. replace (Z.log2 val + 1) with (Z.succ (Z.log2 val)) by lia. exact H.
  - intros ->. reflexivity.
Qed.

Lemma highbit_software_is_highest_bit_witness :
  FSE_highbit_software 4097 = FSE_highbit 4097
  /\ (0 < 4097 -> 2 ^ FSE_highbit_software 4097 <= 4097 < 2 ^ (FSE_highbit_software 4097 + 1))
  /\ (4097 = 0 -> FSE_highbit_software 4097 = 0).
Proof.
  apply (highbit_software_is_highest_bit 4097). lia.
Defined.

(** ** Table logs above the maximum *)





